(** * ChatUi: transport codec, outbound queue, retry registry and reconnect
    logic of [src/src/ChatUi.tsx], embedded in Rocq.

    The component is a React function component.  Every callback it defines is
    a JavaScript closure: the [const] bindings it reads ([isConnected],
    [connectionRetryCount], ...) are those of the render in which the callback
    was created, and calling a state setter does not change them.  The
    embedding therefore passes the captured bindings to every callback
    explicitly (record [Closure]), and keeps the mutable parts (React state
    as the setters leave it, the [useRef] cells, the sockets and the pending
    timers) in one [World] record threaded through a small state-and-exception
    monad.

    The browser built-ins the component calls ([btoa], [atob],
    [JSON.stringify], [JSON.parse], [String.prototype.trim],
    [Date.prototype.toISOString]) are modelled in module [JS] after their
    standards. *)

From Stdlib Require Import List ZArith NArith Lia Bool String Ascii QArith Qround.
Import ListNotations.

Set Implicit Arguments.
Set Warnings "-register-all".

(* ===================================================================== *)
(** * The JavaScript platform *)
(* ===================================================================== *)

Module JS.

Local Open Scope N_scope.

(** A JavaScript string is a sequence of 16-bit code units. *)
Definition jsstring := list N.

(** ASCII literals, for readable examples. *)
Definition str (s : string) : jsstring :=
  List.map N_of_ascii (list_ascii_of_string s).

Fixpoint jsstring_eqb (a b : jsstring) : bool :=
  match a, b with
  | [], [] => true
  | x :: a', y :: b' => (x =? y) && jsstring_eqb a' b'
  | _, _ => false
  end.

(** Truthiness of a string: only the empty string is falsy. *)
Definition truthy (s : jsstring) : bool :=
  match s with [] => false | _ :: _ => true end.

(** Exceptions the modelled built-ins can throw. *)
Inductive exn :=
| InvalidCharacterError
| SyntaxError
| TypeError
| RangeError
| InvalidStateError.

Inductive result (A : Type) :=
| Ok (a : A)
| Throw (e : exn).
Arguments Ok {A} a.
Arguments Throw {A} e.

(* --------------------------------------------------------------------- *)
(** ** [String.prototype.trim] *)

(** WhiteSpace and LineTerminator code points of ECMAScript. *)
Definition isWhiteSpace (c : N) : bool :=
  (c =? 9) || (c =? 10) || (c =? 11) || (c =? 12) || (c =? 13) || (c =? 32)
  || (c =? 160) || (c =? 5760) || ((8192 <=? c) && (c <=? 8202))
  || (c =? 8232) || (c =? 8233) || (c =? 8239) || (c =? 8287)
  || (c =? 12288) || (c =? 65279).

Fixpoint trimStart (s : jsstring) : jsstring :=
  match s with
  | c :: r => if isWhiteSpace c then trimStart r else s
  | [] => []
  end.

Definition trim (s : jsstring) : jsstring :=
  rev (trimStart (rev (trimStart s))).

(* --------------------------------------------------------------------- *)
(** ** [btoa] and [atob] (WHATWG HTML, forgiving-base64 of WHATWG Infra) *)

Definition b64char (n : N) : N :=
  if n <? 26 then 65 + n
  else if n <? 52 then 97 + (n - 26)
  else if n <? 62 then 48 + (n - 52)
  else if n =? 62 then 43
  else 47.

Definition b64val (c : N) : option N :=
  if (65 <=? c) && (c <=? 90) then Some (c - 65)
  else if (97 <=? c) && (c <=? 122) then Some (c - 97 + 26)
  else if (48 <=? c) && (c <=? 57) then Some (c - 48 + 52)
  else if c =? 43 then Some 62
  else if c =? 47 then Some 63
  else None.

Definition pad : N := 61.

(** forgiving-base64 encode: three bytes become four characters, the last
    group is padded with [=]. *)
Fixpoint b64enc (s : list N) : list N :=
  match s with
  | [] => []
  | [a] => [b64char (a / 4); b64char ((a mod 4) * 16); pad; pad]
  | [a; b] =>
      [b64char (a / 4); b64char ((a mod 4) * 16 + b / 16);
       b64char ((b mod 16) * 4); pad]
  | a :: b :: c :: r =>
      b64char (a / 4) :: b64char ((a mod 4) * 16 + b / 16)
      :: b64char ((b mod 16) * 4 + c / 64) :: b64char (c mod 64)
      :: b64enc r
  end.

(** [btoa] throws on any code unit above U+00FF. *)
Definition btoa (s : jsstring) : result jsstring :=
  if existsb (fun c => 255 <? c) s then Throw InvalidCharacterError
  else Ok (b64enc s).

Definition isAsciiWhitespace (c : N) : bool :=
  (c =? 9) || (c =? 10) || (c =? 12) || (c =? 13) || (c =? 32).

(** Step 2 of forgiving-base64 decode: when the length is a multiple of four,
    drop one or two trailing [=]. *)
Definition strip_pad (d : list N) : list N :=
  if N.of_nat (List.length d) mod 4 =? 0 then
    match rev d with
    | p :: q :: r =>
        if p =? pad then (if q =? pad then rev r else rev (q :: r)) else d
    | _ => d
    end
  else d.

Fixpoint sextets (d : list N) : option (list N) :=
  match d with
  | [] => Some []
  | c :: r =>
      match b64val c, sextets r with
      | Some v, Some vs => Some (v :: vs)
      | _, _ => None
      end
  end.

(** Groups of four sextets give three bytes; a last group of three gives two
    bytes and one of two gives one byte, the spare bits being discarded. *)
Fixpoint b64dec (v : list N) : list N :=
  match v with
  | w :: x :: y :: z :: r =>
      (w * 4 + x / 16) :: ((x mod 16) * 16 + y / 4) :: ((y mod 4) * 64 + z)
      :: b64dec r
  | [w; x; y] => [w * 4 + x / 16; (x mod 16) * 16 + y / 4]
  | [w; x] => [w * 4 + x / 16]
  | _ => []
  end.

Definition atob (s : jsstring) : result jsstring :=
  let d := strip_pad (filter (fun c => negb (isAsciiWhitespace c)) s) in
  if N.of_nat (List.length d) mod 4 =? 1 then Throw InvalidCharacterError
  else match sextets d with
       | Some v => Ok (b64dec v)
       | None => Throw InvalidCharacterError
       end.

(* --------------------------------------------------------------------- *)
(** ** JSON values *)

(** Numbers are carried as the text they were read from: the component only
    ever looks at the [id] and [content] properties of what it parses, and
    compares or stores them without arithmetic. *)
Inductive json :=
| JNull
| JBool (b : bool)
| JNumber (lexeme : jsstring)
| JString (s : jsstring)
| JArray (l : list json)
| JObject (m : list (jsstring * json)).

(** A JavaScript value as the component meets it: [None] is [undefined]. *)
Definition jsval := option json.

(** Property assignment on an object under construction: an existing key
    keeps its place and takes the new value, a new key goes last. *)
Fixpoint obj_set (k : jsstring) (v : json) (m : list (jsstring * json))
  : list (jsstring * json) :=
  match m with
  | [] => [(k, v)]
  | (k', v') :: r =>
      if jsstring_eqb k k' then (k, v) :: r else (k', v') :: obj_set k v r
  end.

Fixpoint obj_get (k : jsstring) (m : list (jsstring * json)) : jsval :=
  match m with
  | [] => None
  | (k', v) :: r => if jsstring_eqb k k' then Some v else obj_get k r
  end.

(** Property read [v.k] for the keys the component reads ([id], [content]),
    neither of which exists on a prototype: [null.k] throws a [TypeError],
    a primitive or an array has no such property. *)
Definition get_prop (v : json) (k : jsstring) : result jsval :=
  match v with
  | JNull => Throw TypeError
  | JObject m => Ok (obj_get k m)
  | _ => Ok None
  end.

(** Strict equality [a === v] of a string [a] with a value [v]. *)
Definition string_strict_eq (a : jsstring) (v : jsval) : bool :=
  match v with
  | Some (JString b) => jsstring_eqb a b
  | _ => false
  end.

(* --------------------------------------------------------------------- *)
(** ** [JSON.stringify] (ECMAScript, with well-formed string quoting) *)

Definition hexdigit (n : N) : N := if n <? 10 then 48 + n else 87 + n.

(** The escape [\uXXXX] with lower-case hexadecimal digits. *)
Definition uescape (c : N) : list N :=
  [92; 117; hexdigit (c / 4096); hexdigit ((c / 256) mod 16);
   hexdigit ((c / 16) mod 16); hexdigit (c mod 16)].

Definition isLeadSurrogate (c : N) : bool := (55296 <=? c) && (c <=? 56319).
Definition isTrailSurrogate (c : N) : bool := (56320 <=? c) && (c <=? 57343).

(** QuoteJSONString without the enclosing quotes: the short escapes, [\u]
    escapes for the other control characters and for lone surrogates, every
    other code point (a surrogate pair included) as it is. *)
Fixpoint quote_body (s : jsstring) : list N :=
  match s with
  | [] => []
  | c :: r =>
      if c =? 8 then 92 :: 98 :: quote_body r
      else if c =? 9 then 92 :: 116 :: quote_body r
      else if c =? 10 then 92 :: 110 :: quote_body r
      else if c =? 12 then 92 :: 102 :: quote_body r
      else if c =? 13 then 92 :: 114 :: quote_body r
      else if c =? 34 then 92 :: 34 :: quote_body r
      else if c =? 92 then 92 :: 92 :: quote_body r
      else if c <? 32 then uescape c ++ quote_body r
      else if isLeadSurrogate c then
        match r with
        | d :: r' =>
            if isTrailSurrogate d then c :: d :: quote_body r'
            else uescape c ++ quote_body r
        | [] => uescape c
        end
      else if isTrailSurrogate c then uescape c ++ quote_body r
      else c :: quote_body r
  end.

Definition quote (s : jsstring) : list N := 34 :: quote_body s ++ [34].

Fixpoint stringify (j : json) : jsstring :=
  match j with
  | JNull => str "null"
  | JBool true => str "true"
  | JBool false => str "false"
  | JNumber l => l
  | JString s => quote s
  | JArray l =>
      91 :: (fix elems (l : list json) : jsstring :=
               match l with
               | [] => []
               | x :: r =>
                   match r with
                   | [] => stringify x
                   | _ :: _ => stringify x ++ 44 :: elems r
                   end
               end) l ++ [93]
  | JObject m =>
      123 :: (fix members (m : list (jsstring * json)) : jsstring :=
                match m with
                | [] => []
                | (k, v) :: r =>
                    match r with
                    | [] => quote k ++ 58 :: stringify v
                    | _ :: _ => quote k ++ 58 :: stringify v ++ 44 :: members r
                    end
                end) m ++ [125]
  end.

(** [JSON.stringify] of an object literal whose property values may be
    [undefined]: such properties are left out. *)
Fixpoint defined_props (ps : list (jsstring * jsval)) : list (jsstring * json) :=
  match ps with
  | [] => []
  | (k, Some v) :: r => (k, v) :: defined_props r
  | (_, None) :: r => defined_props r
  end.

Definition stringify_object (ps : list (jsstring * jsval)) : jsstring :=
  stringify (JObject (defined_props ps)).

(* --------------------------------------------------------------------- *)
(** ** [JSON.parse] *)

Definition isJsonWs (c : N) : bool :=
  (c =? 9) || (c =? 10) || (c =? 13) || (c =? 32).

Fixpoint skip_ws (s : list N) : list N :=
  match s with
  | c :: r => if isJsonWs c then skip_ws r else s
  | [] => []
  end.

Definition hexval (c : N) : option N :=
  if (48 <=? c) && (c <=? 57) then Some (c - 48)
  else if (97 <=? c) && (c <=? 102) then Some (c - 87)
  else if (65 <=? c) && (c <=? 70) then Some (c - 55)
  else None.

Definition hex4 (a b c d : N) : option N :=
  match hexval a, hexval b, hexval c, hexval d with
  | Some x, Some y, Some z, Some w => Some (((x * 16 + y) * 16 + z) * 16 + w)
  | _, _, _, _ => None
  end.

(** The character a two-character escape stands for. *)
Definition unescape (e : N) : option N :=
  if e =? 34 then Some 34
  else if e =? 92 then Some 92
  else if e =? 47 then Some 47
  else if e =? 98 then Some 8
  else if e =? 102 then Some 12
  else if e =? 110 then Some 10
  else if e =? 114 then Some 13
  else if e =? 116 then Some 9
  else None.

Definition cons_char (c : N) (p : option (jsstring * list N))
  : option (jsstring * list N) :=
  match p with
  | Some (s, rest) => Some (c :: s, rest)
  | None => None
  end.

(** The characters of a string literal after its opening quote, up to and
    including the closing quote. *)
Fixpoint parse_string_body (s : list N) : option (jsstring * list N) :=
  match s with
  | [] => None
  | c :: r =>
      if c =? 34 then Some ([], r)
      else if c =? 92 then
        match r with
        | [] => None
        | e :: r1 =>
            if e =? 117 then
              match r1 with
              | h1 :: h2 :: h3 :: h4 :: r2 =>
                  match hex4 h1 h2 h3 h4 with
                  | Some u => cons_char u (parse_string_body r2)
                  | None => None
                  end
              | _ => None
              end
            else
              match unescape e with
              | Some u => cons_char u (parse_string_body r1)
              | None => None
              end
        end
      else if c <? 32 then None
      else cons_char c (parse_string_body r)
  end.

Definition isDigit (c : N) : bool := (48 <=? c) && (c <=? 57).

Fixpoint span_digits (s : list N) : list N * list N :=
  match s with
  | c :: r =>
      if isDigit c then let (d, rest) := span_digits r in (c :: d, rest)
      else ([], s)
  | [] => ([], [])
  end.

(** One or more digits. *)
Definition digits1 (s : list N) : option (list N * list N) :=
  match span_digits s with
  | ([], _) => None
  | (d, rest) => Some (d, rest)
  end.

(** A number: an optional minus sign; a zero, or a non-zero digit followed
    by digits; an optional fraction (a dot and one or more digits); an
    optional exponent (e or E, an optional sign, one or more digits). *)
Definition parse_int_part (s : list N) : option (list N * list N) :=
  match s with
  | c :: r =>
      if c =? 48 then Some ([48], r)
      else if isDigit c then let (d, rest) := span_digits r in Some (c :: d, rest)
      else None
  | [] => None
  end.

Definition parse_frac (s : list N) : option (list N * list N) :=
  match s with
  | 46 :: r =>
      match digits1 r with
      | Some (d, rest) => Some (46 :: d, rest)
      | None => None
      end
  | _ => Some ([], s)
  end.

Definition parse_exp (s : list N) : option (list N * list N) :=
  match s with
  | e :: r =>
      if (e =? 101) || (e =? 69) then
        let (sign, r1) :=
          match r with
          | g :: r' => if (g =? 43) || (g =? 45) then ([g], r') else ([], r)
          | [] => ([], r)
          end in
        match digits1 r1 with
        | Some (d, rest) => Some (e :: sign ++ d, rest)
        | None => None
        end
      else Some ([], s)
  | [] => Some ([], s)
  end.

Definition parse_number (s : list N) : option (list N * list N) :=
  let (sign, s1) :=
    match s with
    | 45 :: r => ([45], r)
    | _ => ([], s)
    end in
  match parse_int_part s1 with
  | None => None
  | Some (i, s2) =>
      match parse_frac s2 with
      | None => None
      | Some (f, s3) =>
          match parse_exp s3 with
          | None => None
          | Some (e, s4) => Some (sign ++ i ++ f ++ e, s4)
          end
      end
  end.

Fixpoint strip_prefix (p s : list N) : option (list N) :=
  match p, s with
  | [], _ => Some s
  | a :: p', b :: s' => if a =? b then strip_prefix p' s' else None
  | _ :: _, [] => None
  end.

(** The recursive-descent parser.  [fuel] bounds the number of nested calls;
    a value, a member and an element each consume at least one character, so
    twice the length of the text is always enough: the fuel [JSON_parse]
    gives is never the reason of a failure (lemmas [parser_fuel] and
    [JSON_parse_fuel_independent]). *)
Fixpoint parse_value (fuel : nat) (s : list N) : option (json * list N) :=
  match fuel with
  | O => None
  | S f =>
      match skip_ws s with
      | [] => None
      | c :: r =>
          if c =? 34 then
            match parse_string_body r with
            | Some (x, rest) => Some (JString x, rest)
            | None => None
            end
          else if c =? 123 then
            match skip_ws r with
            | 125 :: rest => Some (JObject [], rest)
            | _ => parse_members f r []
            end
          else if c =? 91 then
            match skip_ws r with
            | 93 :: rest => Some (JArray [], rest)
            | _ => parse_elems f r []
            end
          else if c =? 116 then
            match strip_prefix (str "rue") r with
            | Some rest => Some (JBool true, rest)
            | None => None
            end
          else if c =? 102 then
            match strip_prefix (str "alse") r with
            | Some rest => Some (JBool false, rest)
            | None => None
            end
          else if c =? 110 then
            match strip_prefix (str "ull") r with
            | Some rest => Some (JNull, rest)
            | None => None
            end
          else
            match parse_number (c :: r) with
            | Some (l, rest) => Some (JNumber l, rest)
            | None => None
            end
      end
  end

with parse_members (fuel : nat) (s : list N) (acc : list (jsstring * json))
  : option (json * list N) :=
  match fuel with
  | O => None
  | S f =>
      match skip_ws s with
      | 34 :: r =>
          match parse_string_body r with
          | None => None
          | Some (k, r1) =>
              match skip_ws r1 with
              | 58 :: r2 =>
                  match parse_value f r2 with
                  | None => None
                  | Some (v, r3) =>
                      match skip_ws r3 with
                      | 44 :: r4 => parse_members f r4 (obj_set k v acc)
                      | 125 :: r4 => Some (JObject (obj_set k v acc), r4)
                      | _ => None
                      end
                  end
              | _ => None
              end
          end
      | _ => None
      end
  end

with parse_elems (fuel : nat) (s : list N) (acc : list json)
  : option (json * list N) :=
  match fuel with
  | O => None
  | S f =>
      match parse_value f s with
      | None => None
      | Some (v, r1) =>
          match skip_ws r1 with
          | 44 :: r2 => parse_elems f r2 (acc ++ [v])
          | 93 :: r2 => Some (JArray (acc ++ [v]), r2)
          | _ => None
          end
      end
  end.

(** [JSON.parse]: one value, surrounded by optional white space; anything
    else is a [SyntaxError]. *)
Definition JSON_parse (s : jsstring) : result json :=
  match parse_value (2 * List.length s + 2) s with
  | Some (v, rest) =>
      match skip_ws rest with
      | [] => Ok v
      | _ :: _ => Throw SyntaxError
      end
  | None => Throw SyntaxError
  end.

(* --------------------------------------------------------------------- *)
(** ** [Date.prototype.toISOString] *)

(** A [Date] is its time value, milliseconds since the epoch; time values
    beyond 8.64e15 in magnitude do not exist (the date is invalid). *)
Definition Date := Z.

Fixpoint dec_digits (w : nat) (n : Z) : list N :=
  match w with
  | O => []
  | S w' => dec_digits w' (n / 10)%Z ++ [48 + Z.to_N (n mod 10)%Z]
  end.

(** Year, month and day of a day number counted from 1970-01-01, in the
    proleptic Gregorian calendar. *)
Definition civil_from_days (days : Z) : Z * Z * Z :=
  (let z := days + 719468 in
   let era := z / 146097 in
   let doe := z - era * 146097 in
   let yoe := (doe - doe / 1460 + doe / 36524 - doe / 146096) / 365 in
   let doy := doe - (365 * yoe + yoe / 4 - yoe / 100) in
   let mp := (5 * doy + 2) / 153 in
   let d := doy - (153 * mp + 2) / 5 + 1 in
   let m := if mp <? 10 then mp + 3 else mp - 9 in
   let y := yoe + era * 400 + (if m <=? 2 then 1 else 0) in
   (y, m, d))%Z.

Definition toISOString (t : Date) : result jsstring :=
  if (8640000000000000 <? Z.abs t)%Z then Throw RangeError
  else
    let days := (t / 86400000)%Z in
    let ms := (t mod 86400000)%Z in
    let '(y, m, d) := civil_from_days days in
    let year :=
      if ((0 <=? y) && (y <=? 9999))%Z then dec_digits 4 y
      else (if (y <? 0)%Z then 45 else 43) :: dec_digits 6 (Z.abs y) in
    Ok (year ++ 45 :: dec_digits 2 m ++ 45 :: dec_digits 2 d
        ++ 84 :: dec_digits 2 (ms / 3600000)%Z
        ++ 58 :: dec_digits 2 ((ms / 60000) mod 60)%Z
        ++ 58 :: dec_digits 2 ((ms / 1000) mod 60)%Z
        ++ 46 :: dec_digits 3 (ms mod 1000)%Z ++ [90]).

(* --------------------------------------------------------------------- *)
(** ** Arithmetic on Numbers *)

(** A Number is a double.  The result of an operation on doubles is the
    exact result rounded to the nearest double, ties going to the double
    whose last bit is 0 (IEEE 754, round to nearest even).  The rounding is
    written out for rationals whose magnitude is below [2^1024]: with
    [2^l <= |x| < 2^(l+1)] the doubles around [x] are the multiples of
    [2^(l-52)], and the multiples of [2^(-1074)] below the normal range. *)

(** [floor (log2 (a / b))] for positive [a] and [b]. *)
Definition ilog2 (a b : Z) : Z :=
  (let e := Z.log2 a - Z.log2 b in
   if (if 0 <=? e then b * 2 ^ e <=? a else b <=? a * 2 ^ (- e))
   then e else e - 1)%Z.

(** [a / b], for positive [b], rounded to the nearest integer, ties to the
    even one. *)
Definition roundHalfEven (a b : Z) : Z :=
  (let q := a / b in
   let r := a mod b in
   if 2 * r <? b then q
   else if b <? 2 * r then q + 1
   else if Z.even q then q else q + 1)%Z.

Definition roundDouble (x : Q) : Q :=
  (let a := Z.abs (Qnum x) in
   let b := Zpos (Qden x) in
   if a =? 0 then 0%Q
   else
     let e := Z.max (ilog2 a b - 52) (-1074) in
     let m := if 0 <=? e then roundHalfEven a (b * 2 ^ e)
              else roundHalfEven (a * 2 ^ (- e)) b in
     let v := if 0 <=? e then inject_Z (m * 2 ^ e)
              else Qmake m (Z.to_pos (2 ^ (- e))) in
     if Qnum x <? 0 then Qopp v else v)%Z.

(** What [Math.random] can return: a double that is at least 0 and less
    than 1, so at most [1 - 2^(-53)], the greatest double below 1. *)
Definition unitDouble (r : Q) : Prop :=
  (0 <= r)%Q /\ (r <= 1 - (1 # 9007199254740992))%Q.

End JS.

(* ===================================================================== *)
(** * The component [ChatUI] *)
(* ===================================================================== *)

Module Chat.

Import JS.
Local Open Scope Z_scope.

(* --------------------------------------------------------------------- *)
(** ** Data *)

Inductive Role := user | ai.
Inductive Status := sending | sent | failed.

(** [interface Message].  [content] is declared a string; at run time
    [ws.onmessage] stores whatever the parsed response carries, so the field
    holds a JavaScript value.  [retryCount] is optional. *)
Record Message := {
  id : jsstring;
  content : jsval;
  role : Role;
  timestamp : Date;
  status : Status;
  retryCount : option Z
}.

(** [interface ChatUIProps], the properties the component reads. *)
Record Props := {
  websocketUrl : jsstring;
  authToken : jsstring;
  encryptionKey : jsstring;
  maxRetries : Z;
  retryDelay : Z;
  maxRetryDelay : Z;
  enableExponentialBackoff : bool
}.

(** The defaults of the destructuring pattern, with a given key. *)
Definition defaultProps (key : jsstring) : Props := {|
  websocketUrl := str "wss://default-ai-api.com/chat";
  authToken := [];
  encryptionKey := key;
  maxRetries := 5;
  retryDelay := 2000;
  maxRetryDelay := 10000;
  enableExponentialBackoff := true
|}.

(** The texts given to [setError]. *)
Inductive ErrorText :=
| ConnectionAbnormal      (* "连接异常" *)
| ConnectionLost          (* "连接已断开" *)
| ConnectionInitFailed.   (* "连接初始化失败" *)

(** The [useState] cells of the connection and message logic. *)
Record State := {
  messages : list Message;
  inputValue : jsstring;
  isConnected : bool;
  isConnecting : bool;
  error : option ErrorText;
  showErrorMessage : bool;
  retryMessageId : option jsstring;
  connectionRetryCount : Z;
  isAutoConnecting : bool
}.

(** The bindings a callback captured from the render that created it.

    [useCallback] keeps a callback until one of its dependencies changes:
    - [sendMessage], [retryFailedMessage]: [isConnected], [encryptMessage]
      (lines 361, 417); [flushMessageQueue]: [isConnected] (line 429);
      [flushFailedMessages]: [retryFailedMessage] (line 384);
      [handleSend]: [inputValue], [isConnected], [sendMessage] (line 557);
    - [handleConnectionRetry]: [connectionRetryCount] and properties
      (lines 451-456); [connectWebSocket]: [connectionRetryCount],
      [decryptMessage] and properties (line 539).
    So, the properties being fixed, a callback of the first group always
    holds the [isConnected] of the render it is taken from, while
    [connectWebSocket] and [handleConnectionRetry] are made together, in the
    first render and in every render in which [connectionRetryCount] has
    changed, and hold the three flags and the count of that render until
    the count changes again.  The handlers [connectWebSocket] puts on a
    socket, and the timer [handleConnectionRetry] sets, live in that same
    closure: they call the [flushMessageQueue], [flushFailedMessages],
    [handleConnectionRetry] and [connectWebSocket] of that render.  One
    record of four bindings therefore describes what any callback reads. *)
Record Closure := {
  c_isConnected : bool;
  c_isConnecting : bool;
  c_isAutoConnecting : bool;
  c_connectionRetryCount : Z
}.

Definition snapshot (s : State) : Closure := {|
  c_isConnected := isConnected s;
  c_isConnecting := isConnecting s;
  c_isAutoConnecting := isAutoConnecting s;
  c_connectionRetryCount := connectionRetryCount s
|}.

(** The [useRef] cells.  A socket and a timer are named by their index in
    the world's lists. *)
Record Refs := {
  wsRef : option nat;
  failedMessagesRef : list (jsstring * Message);
  messageQueueRef : list Message;
  retryTimeoutRef : option nat
}.

Inductive ReadyState := CONNECTING | OPEN | CLOSING | CLOSED.

(** A [WebSocket] object: its four handlers are the arrow functions of the
    [connectWebSocket] call that made it, so it carries that call's closure;
    [sentFrames] are the frames handed to the transport, oldest first. *)
Record Socket := {
  url : jsstring;
  readyState : ReadyState;
  handlers : Closure;
  sentFrames : list jsstring
}.

(** What a pending [setTimeout] will run. *)
Inductive TimerAction :=
| ReconnectTimer (G : Closure) (nextRetry : Z)
| RetrySendTimer (messageToRetry : Message) (messageId : jsstring).

Record Timer := {
  delay : Z;
  action : TimerAction;
  pending : bool
}.

(** The toasts of [antMessage] and the lines of [console.error]. *)
Inductive Notice :=
| MaxRetriesReached (n : Z)       (* antMessage.error(`已达最大重试次数(${maxRetries})`) *)
| ReconnectAttempt (n : Z)        (* antMessage.info(`正在进行第${nextRetry}次重连尝试`) *)
| ConnectedToServer               (* antMessage.success("已连接到AI服务器") *)
| MessageProcessingFailed         (* antMessage.error("消息处理失败") *)
| Disconnected                    (* antMessage.error("连接已断开") *)
| SendFailed                      (* antMessage.error("消息发送失败") *)
| RetrySendFailed                 (* antMessage.error("消息重试发送失败") *)
| WebSocketError.                 (* console.error("WebSocket Error:", error) *)

(** Everything the callbacks can change.  [memo] is the closure of the
    [connectWebSocket] and [handleConnectionRetry] that [useCallback]
    currently holds; [draws] counts the calls of [Math.random]; [crashed]
    records that a state updater threw while React was rendering. *)
Record World := {
  st : State;
  refs : Refs;
  sockets : list Socket;
  timers : list Timer;
  notices : list Notice;
  draws : nat;
  memo : Closure;
  crashed : bool
}.

(* --------------------------------------------------------------------- *)
(** ** Field updates *)

Definition with_messages (f : list Message -> list Message) (s : State) : State :=
  {| messages := f (messages s); inputValue := inputValue s;
     isConnected := isConnected s; isConnecting := isConnecting s;
     error := error s; showErrorMessage := showErrorMessage s;
     retryMessageId := retryMessageId s;
     connectionRetryCount := connectionRetryCount s;
     isAutoConnecting := isAutoConnecting s |}.

Definition with_inputValue (v : jsstring) (s : State) : State :=
  {| messages := messages s; inputValue := v;
     isConnected := isConnected s; isConnecting := isConnecting s;
     error := error s; showErrorMessage := showErrorMessage s;
     retryMessageId := retryMessageId s;
     connectionRetryCount := connectionRetryCount s;
     isAutoConnecting := isAutoConnecting s |}.

Definition with_isConnected (v : bool) (s : State) : State :=
  {| messages := messages s; inputValue := inputValue s;
     isConnected := v; isConnecting := isConnecting s;
     error := error s; showErrorMessage := showErrorMessage s;
     retryMessageId := retryMessageId s;
     connectionRetryCount := connectionRetryCount s;
     isAutoConnecting := isAutoConnecting s |}.

Definition with_isConnecting (v : bool) (s : State) : State :=
  {| messages := messages s; inputValue := inputValue s;
     isConnected := isConnected s; isConnecting := v;
     error := error s; showErrorMessage := showErrorMessage s;
     retryMessageId := retryMessageId s;
     connectionRetryCount := connectionRetryCount s;
     isAutoConnecting := isAutoConnecting s |}.

Definition with_error (v : option ErrorText) (s : State) : State :=
  {| messages := messages s; inputValue := inputValue s;
     isConnected := isConnected s; isConnecting := isConnecting s;
     error := v; showErrorMessage := showErrorMessage s;
     retryMessageId := retryMessageId s;
     connectionRetryCount := connectionRetryCount s;
     isAutoConnecting := isAutoConnecting s |}.

Definition with_showErrorMessage (v : bool) (s : State) : State :=
  {| messages := messages s; inputValue := inputValue s;
     isConnected := isConnected s; isConnecting := isConnecting s;
     error := error s; showErrorMessage := v;
     retryMessageId := retryMessageId s;
     connectionRetryCount := connectionRetryCount s;
     isAutoConnecting := isAutoConnecting s |}.

Definition with_retryMessageId (v : option jsstring) (s : State) : State :=
  {| messages := messages s; inputValue := inputValue s;
     isConnected := isConnected s; isConnecting := isConnecting s;
     error := error s; showErrorMessage := showErrorMessage s;
     retryMessageId := v;
     connectionRetryCount := connectionRetryCount s;
     isAutoConnecting := isAutoConnecting s |}.

Definition with_connectionRetryCount (v : Z) (s : State) : State :=
  {| messages := messages s; inputValue := inputValue s;
     isConnected := isConnected s; isConnecting := isConnecting s;
     error := error s; showErrorMessage := showErrorMessage s;
     retryMessageId := retryMessageId s;
     connectionRetryCount := v;
     isAutoConnecting := isAutoConnecting s |}.

Definition with_isAutoConnecting (v : bool) (s : State) : State :=
  {| messages := messages s; inputValue := inputValue s;
     isConnected := isConnected s; isConnecting := isConnecting s;
     error := error s; showErrorMessage := showErrorMessage s;
     retryMessageId := retryMessageId s;
     connectionRetryCount := connectionRetryCount s;
     isAutoConnecting := v |}.

Definition with_wsRef (v : option nat) (r : Refs) : Refs :=
  {| wsRef := v; failedMessagesRef := failedMessagesRef r;
     messageQueueRef := messageQueueRef r;
     retryTimeoutRef := retryTimeoutRef r |}.

Definition with_failedMessagesRef (v : list (jsstring * Message)) (r : Refs) : Refs :=
  {| wsRef := wsRef r; failedMessagesRef := v;
     messageQueueRef := messageQueueRef r;
     retryTimeoutRef := retryTimeoutRef r |}.

Definition with_messageQueueRef (v : list Message) (r : Refs) : Refs :=
  {| wsRef := wsRef r; failedMessagesRef := failedMessagesRef r;
     messageQueueRef := v;
     retryTimeoutRef := retryTimeoutRef r |}.

Definition with_retryTimeoutRef (v : option nat) (r : Refs) : Refs :=
  {| wsRef := wsRef r; failedMessagesRef := failedMessagesRef r;
     messageQueueRef := messageQueueRef r;
     retryTimeoutRef := v |}.

Definition with_st (f : State -> State) (w : World) : World :=
  {| st := f (st w); refs := refs w; sockets := sockets w; timers := timers w;
     notices := notices w; draws := draws w; memo := memo w;
     crashed := crashed w |}.

Definition with_refs (f : Refs -> Refs) (w : World) : World :=
  {| st := st w; refs := f (refs w); sockets := sockets w; timers := timers w;
     notices := notices w; draws := draws w; memo := memo w;
     crashed := crashed w |}.

Definition with_sockets (f : list Socket -> list Socket) (w : World) : World :=
  {| st := st w; refs := refs w; sockets := f (sockets w); timers := timers w;
     notices := notices w; draws := draws w; memo := memo w;
     crashed := crashed w |}.

Definition with_timers (f : list Timer -> list Timer) (w : World) : World :=
  {| st := st w; refs := refs w; sockets := sockets w; timers := f (timers w);
     notices := notices w; draws := draws w; memo := memo w;
     crashed := crashed w |}.

Definition with_notices (f : list Notice -> list Notice) (w : World) : World :=
  {| st := st w; refs := refs w; sockets := sockets w; timers := timers w;
     notices := f (notices w); draws := draws w; memo := memo w;
     crashed := crashed w |}.

Definition with_draws (v : nat) (w : World) : World :=
  {| st := st w; refs := refs w; sockets := sockets w; timers := timers w;
     notices := notices w; draws := v; memo := memo w;
     crashed := crashed w |}.

Definition with_memo (v : Closure) (w : World) : World :=
  {| st := st w; refs := refs w; sockets := sockets w; timers := timers w;
     notices := notices w; draws := draws w; memo := v;
     crashed := crashed w |}.

Definition with_crashed (v : bool) (w : World) : World :=
  {| st := st w; refs := refs w; sockets := sockets w; timers := timers w;
     notices := notices w; draws := draws w; memo := memo w;
     crashed := v |}.

Definition with_readyState (v : ReadyState) (s : Socket) : Socket :=
  {| url := url s; readyState := v; handlers := handlers s;
     sentFrames := sentFrames s |}.

Definition with_sentFrames (f : list jsstring -> list jsstring) (s : Socket) : Socket :=
  {| url := url s; readyState := readyState s; handlers := handlers s;
     sentFrames := f (sentFrames s) |}.

Definition with_pending (v : bool) (t : Timer) : Timer :=
  {| delay := delay t; action := action t; pending := v |}.

Fixpoint update_nth {A : Type} (n : nat) (f : A -> A) (l : list A) : list A :=
  match l, n with
  | [], _ => []
  | x :: r, O => f x :: r
  | x :: r, S n' => x :: update_nth n' f r
  end.

(* --------------------------------------------------------------------- *)
(** ** The monad of the callbacks: a world, and exceptions for [try/catch] *)

Definition M (A : Type) : Type := World -> result A * World.

Definition ret {A : Type} (a : A) : M A := fun w => (Ok a, w).

Definition bind {A B : Type} (c : M A) (k : A -> M B) : M B :=
  fun w =>
    match c w with
    | (Ok a, w') => k a w'
    | (Throw e, w') => (Throw e, w')
    end.

Definition lift {A : Type} (r : result A) : M A := fun w => (r, w).

Definition try_catch {A : Type} (body : M A) (handler : M A) : M A :=
  fun w =>
    match body w with
    | (Ok a, w') => (Ok a, w')
    | (Throw _, w') => handler w'
    end.

Definition gets {A : Type} (f : World -> A) : M A := fun w => (Ok (f w), w).
Definition modify (f : World -> World) : M unit := fun w => (Ok tt, f w).

Definition exec {A : Type} (c : M A) (w : World) : World := snd (c w).

Declare Scope chat_scope.
Delimit Scope chat_scope with chat.
Notation "x <- c ;; k" := (bind c (fun x => k))
  (at level 61, c at next level, right associativity) : chat_scope.
Notation "c ;; k" := (bind c (fun _ => k))
  (at level 61, right associativity) : chat_scope.
Local Open Scope chat_scope.

Fixpoint forEach {A : Type} (l : list A) (f : A -> M unit) : M unit :=
  match l with
  | [] => ret tt
  | x :: r => f x ;; forEach r f
  end.

(** The state setters. *)
Definition setMessages (f : list Message -> list Message) : M unit :=
  modify (with_st (with_messages f)).
Definition setInputValue (v : jsstring) : M unit :=
  modify (with_st (with_inputValue v)).
Definition setIsConnected (v : bool) : M unit :=
  modify (with_st (with_isConnected v)).
Definition setIsConnecting (v : bool) : M unit :=
  modify (with_st (with_isConnecting v)).
Definition setError (v : option ErrorText) : M unit :=
  modify (with_st (with_error v)).
Definition setShowErrorMessage (v : bool) : M unit :=
  modify (with_st (with_showErrorMessage v)).
Definition setRetryMessageId (v : option jsstring) : M unit :=
  modify (with_st (with_retryMessageId v)).
Definition setConnectionRetryCount (v : Z) : M unit :=
  modify (with_st (with_connectionRetryCount v)).
Definition setIsAutoConnecting (v : bool) : M unit :=
  modify (with_st (with_isAutoConnecting v)).

Definition notify (n : Notice) : M unit :=
  modify (with_notices (fun l => l ++ [n])).

(** [setTimeout(action, delay)]: a new pending timer; its identifier. *)
Definition setTimeout (a : TimerAction) (d : Z) : M nat :=
  fun w =>
    (Ok (List.length (timers w)),
     with_timers (fun l => l ++ [{| delay := d; action := a; pending := true |}]) w).

(** [WebSocket.prototype.send]: throws while the socket is still connecting,
    hands the frame over when it is open, and drops it silently when the
    socket is closing or closed. *)
Definition socket_send (n : nat) (data : jsstring) : M unit :=
  fun w =>
    match nth_error (sockets w) n with
    | Some s =>
        match readyState s with
        | CONNECTING => (Throw InvalidStateError, w)
        | OPEN =>
            (Ok tt,
             with_sockets (update_nth n (with_sentFrames (fun l => l ++ [data]))) w)
        | CLOSING | CLOSED => (Ok tt, w)
        end
    | None => (Ok tt, w)
    end.

(** [WebSocket.prototype.close]: an open or connecting socket starts
    closing; its close event comes later. *)
Definition socket_close (n : nat) : M unit :=
  modify (with_sockets (update_nth n (fun s =>
    match readyState s with
    | CONNECTING | OPEN => with_readyState CLOSING s
    | CLOSING | CLOSED => s
    end))).

(** [wsRef.current?.send(data)] *)
Definition wsRef_send (data : jsstring) : M unit :=
  r <- gets (fun w => wsRef (refs w)) ;;
  match r with
  | Some n => socket_send n data
  | None => ret tt
  end.

(* --------------------------------------------------------------------- *)
(** ** The callbacks of the component *)

Section Component.

(** The properties are fixed for the life of the component.  Three platform
    services are taken as given: the successive results of [Math.random],
    [encodeURIComponent], and whether [new WebSocket(url)] accepts a URL. *)
Variable P : Props.
Variable Math_random : nat -> Q.
Variable encodeURIComponent : jsstring -> result jsstring.
Variable urlAccepted : jsstring -> bool.

(** The test [/<[a-z][\s\S]*>/i]: a [<], a letter right after it, and a [>]
    anywhere later. *)
Definition isLetter (c : N) : bool :=
  (((65 <=? c) && (c <=? 90)) || ((97 <=? c) && (c <=? 122)))%N.

Fixpoint looksLikeHTML (s : jsstring) : bool :=
  match s with
  | [] => false
  | a :: t =>
      (if (a =? 60)%N then
         match t with
         | c :: r => isLetter c && existsb (fun x => (x =? 62)%N) r
         | [] => false
         end
       else false)
      || looksLikeHTML t
  end.

(** [encryptMessage] *)
Definition encryptMessage (message : jsstring) : result jsstring :=
  if negb (truthy (encryptionKey P)) then Ok message
  else btoa message.

(** [decryptMessage]: both branches of the HTML test return [decrypted]. *)
Definition decryptMessage (encrypted : jsstring) : result jsstring :=
  if negb (truthy (encryptionKey P)) then Ok encrypted
  else
    match atob encrypted with
    | Throw e => Throw e
    | Ok decrypted =>
        if looksLikeHTML decrypted then Ok decrypted else Ok decrypted
    end.

(** The argument of [encryptMessage] in [sendMessage] and in the retry timer:
    [JSON.stringify({ id, content, timestamp: timestamp.toISOString() })]. *)
Definition envelope (m : Message) : result jsstring :=
  match toISOString (timestamp m) with
  | Throw e => Throw e
  | Ok ts =>
      Ok (stringify_object
            [(str "id", Some (JString (id m)));
             (str "content", content m);
             (str "timestamp", Some (JString ts))])
  end.

Definition encode (m : Message) : result jsstring :=
  match envelope m with
  | Throw e => Throw e
  | Ok text => encryptMessage text
  end.

(** The first two statements of the [try] block of [ws.onmessage]. *)
Definition decode (data : jsstring) : result json :=
  match decryptMessage data with
  | Throw e => Throw e
  | Ok decryptedResponse => JSON_parse decryptedResponse
  end.

Definition with_status (v : Status) (m : Message) : Message :=
  {| id := id m; content := content m; role := role m;
     timestamp := timestamp m; status := v; retryCount := retryCount m |}.

(** [(msg.retryCount || 0) + 1]: [undefined] and [0] both count as [0]. *)
Definition nextRetryCount (m : Message) : Z :=
  match retryCount m with
  | Some n => n + 1
  | None => 0 + 1
  end.

(** [{ ...msg, status: "sending", retryCount: (msg.retryCount || 0) + 1 }] *)
Definition markRetrying (m : Message) : Message :=
  {| id := id m; content := content m; role := role m;
     timestamp := timestamp m; status := sending;
     retryCount := Some (nextRetryCount m) |}.

(** [{ ...msg, content: parsedResponse.content, status: "sent" }] *)
Definition markAnswered (c : jsval) (m : Message) : Message :=
  {| id := id m; content := c; role := role m;
     timestamp := timestamp m; status := sent; retryCount := retryCount m |}.

Fixpoint registry_lookup (k : jsstring) (r : list (jsstring * Message))
  : option Message :=
  match r with
  | [] => None
  | (k', m) :: r' => if jsstring_eqb k k' then Some m else registry_lookup k r'
  end.

(** [delete failedMessagesRef.current[k]] *)
Fixpoint registry_delete (k : jsstring) (r : list (jsstring * Message))
  : list (jsstring * Message) :=
  match r with
  | [] => []
  | (k', m) :: r' =>
      if jsstring_eqb k k' then registry_delete k r'
      else (k', m) :: registry_delete k r'
  end.

(** The callback [retryFailedMessage] hands to [setTimeout]. *)
Definition retrySendBody (messageToRetry : Message) (messageId : jsstring) : M unit :=
  encryptedMessage <- lift (encode messageToRetry) ;;
  wsRef_send encryptedMessage ;;
  modify (with_refs (fun r =>
    with_failedMessagesRef (registry_delete messageId (failedMessagesRef r)) r)) ;;
  setRetryMessageId None.

Definition retrySend (messageToRetry : Message) (messageId : jsstring) : M unit :=
  try_catch (retrySendBody messageToRetry messageId)
            (notify RetrySendFailed ;; setRetryMessageId None).

(** [Math.floor(Math.random() * 1000) + 500]: the product of the two
    doubles is rounded to a double before [Math.floor] sees it; the sum of
    the two integers is exact. *)
Definition jitter (r : Q) : Z := Qfloor (roundDouble (r * 1000)) + 500.

Definition random : M Q :=
  fun w => (Ok (Math_random (draws w)), with_draws (S (draws w)) w).

(** [retryFailedMessage], lines 319-362. *)
Definition retryFailedMessage (G : Closure) (messageId : jsstring) : M unit :=
  setRetryMessageId (Some messageId) ;;
  messageToRetry <- gets (fun w => registry_lookup messageId (failedMessagesRef (refs w))) ;;
  match messageToRetry with
  | Some m =>
      if c_isConnected G then
        setMessages (List.map (fun msg =>
          if jsstring_eqb (id msg) messageId then markRetrying msg else msg)) ;;
        r <- random ;;
        _ <- setTimeout (RetrySendTimer m messageId) (jitter r) ;;
        ret tt
      else ret tt
  | None => ret tt
  end.

(** [flushFailedMessages], lines 380-384. *)
Definition flushFailedMessages (G : Closure) : M unit :=
  values <- gets (fun w => List.map snd (failedMessagesRef (refs w))) ;;
  forEach values (fun message => retryFailedMessage G (id message)).

(** [sendMessage], lines 387-418. *)
Definition sendMessage (G : Closure) (message : Message) : M unit :=
  if negb (c_isConnected G) then
    modify (with_refs (fun r =>
      with_messageQueueRef (messageQueueRef r ++ [message]) r))
  else
    try_catch
      (encryptedMessage <- lift (encode message) ;;
       wsRef_send encryptedMessage ;;
       setMessages (List.map (fun msg =>
         if jsstring_eqb (id msg) (id message) then with_status sending msg
         else msg)))
      (setMessages (List.map (fun msg =>
         if jsstring_eqb (id msg) (id message) then with_status failed msg
         else msg)) ;;
       notify SendFailed).

(** [flushMessageQueue], lines 422-429.  The [sendMessage] it calls is the
    one of the same render, so both read the same [isConnected]. *)
Definition flushMessageQueue (G : Closure) : M unit :=
  queue <- gets (fun w => messageQueueRef (refs w)) ;;
  if (0 <? Z.of_nat (List.length queue)) && c_isConnected G then
    forEach queue (sendMessage G) ;;
    modify (with_refs (with_messageQueueRef []))
  else ret tt.

(** The delay computed in [handleConnectionRetry], lines 443-445. *)
Definition backoffDelay (nextRetry : Z) : Z :=
  if enableExponentialBackoff P
  then Z.min (retryDelay P * 2 ^ nextRetry) (maxRetryDelay P)
  else retryDelay P.

(** [handleConnectionRetry], lines 432-456.  The timer it sets calls the
    [connectWebSocket] of the same render. *)
Definition handleConnectionRetry (G : Closure) : M unit :=
  if maxRetries P <=? c_connectionRetryCount G then
    notify (MaxRetriesReached (maxRetries P))
  else
    setIsAutoConnecting true ;;
    let nextRetry := c_connectionRetryCount G + 1 in
    setConnectionRetryCount nextRetry ;;
    t <- setTimeout (ReconnectTimer G nextRetry) (backoffDelay nextRetry) ;;
    modify (with_refs (with_retryTimeoutRef (Some t))).

(** [new WebSocket(connectUrl)] with the four handlers of closure [G]. *)
Definition newWebSocket (connectUrl : jsstring) (G : Closure) : M nat :=
  fun w =>
    if urlAccepted connectUrl then
      (Ok (List.length (sockets w)),
       with_sockets (fun l => l ++ [{| url := connectUrl; readyState := CONNECTING;
                                       handlers := G; sentFrames := [] |}]) w)
    else (Throw SyntaxError, w).

(** [authToken ? `${websocketUrl}?token=${encodeURIComponent(authToken)}`
    : websocketUrl], lines 467-469. *)
Definition connectUrl : result jsstring :=
  if truthy (authToken P) then
    match encodeURIComponent (authToken P) with
    | Ok token => Ok (websocketUrl P ++ str "?token=" ++ token)
    | Throw e => Throw e
    end
  else Ok (websocketUrl P).

(** [connectWebSocket], lines 459-539. *)
Definition connectWebSocket (G : Closure) : M unit :=
  if c_isConnecting G || c_isConnected G || c_isAutoConnecting G then ret tt
  else
    setIsConnecting true ;;
    setError None ;;
    setShowErrorMessage false ;;
    try_catch
      (u <- lift connectUrl ;;
       ws <- newWebSocket u G ;;
       modify (with_refs (with_wsRef (Some ws))))
      (setError (Some ConnectionInitFailed) ;;
       setIsConnecting false ;;
       handleConnectionRetry G).

(** [ws.onopen], lines 475-483. *)
Definition ws_onopen (G : Closure) : M unit :=
  setIsConnected true ;;
  setIsConnecting false ;;
  setIsAutoConnecting false ;;
  setConnectionRetryCount 0 ;;
  notify ConnectedToServer ;;
  flushMessageQueue G ;;
  flushFailedMessages G.

(** The updater that [ws.onmessage] gives to [setMessages].  It reads
    [parsedResponse.id] for every message of the list, which throws when the
    response is [null]. *)
Fixpoint applyResponse (parsedResponse : json) (prev : list Message)
  : result (list Message) :=
  match prev with
  | [] => Ok []
  | msg :: r =>
      match get_prop parsedResponse (str "id") with
      | Throw e => Throw e
      | Ok pid =>
          match
            (if string_strict_eq (id msg) pid then
               match get_prop parsedResponse (str "content") with
               | Ok c => Ok (markAnswered c msg)
               | Throw e => Throw e
               end
             else Ok msg)
          with
          | Throw e => Throw e
          | Ok msg' =>
              match applyResponse parsedResponse r with
              | Ok r' => Ok (msg' :: r')
              | Throw e => Throw e
              end
          end
      end
  end.

(** A setter given an updater that can throw: React runs the updater while
    rendering, outside the [try] of the handler that called the setter. *)
Definition setMessagesWith (f : list Message -> result (list Message)) : M unit :=
  fun w =>
    match f (messages (st w)) with
    | Ok l => (Ok tt, with_st (with_messages (fun _ => l)) w)
    | Throw _ => (Ok tt, with_crashed true w)
    end.

(** [ws.onmessage], lines 486-509. *)
Definition ws_onmessage (G : Closure) (data : jsstring) : M unit :=
  try_catch
    (parsedResponse <- lift (decode data) ;;
     setMessagesWith (applyResponse parsedResponse))
    (notify MessageProcessingFailed).

(** [ws.onerror], lines 512-517; [ws] is the socket the handler sits on. *)
Definition ws_onerror (G : Closure) (ws : nat) : M unit :=
  notify WebSocketError ;;
  setError (Some ConnectionAbnormal) ;;
  socket_close ws ;;
  handleConnectionRetry G.

(** [ws.onclose], lines 520-532. *)
Definition ws_onclose (G : Closure) (code : Z) : M unit :=
  setIsConnected false ;;
  setIsConnecting false ;;
  if negb (code =? 1000) && (c_connectionRetryCount G <? maxRetries P) then
    handleConnectionRetry G
  else
    notify Disconnected ;;
    setError (Some ConnectionLost) ;;
    setShowErrorMessage true.

(** [handleSend], lines 542-557; [uuid] and [now] are what [uuidv4()] and
    [new Date()] return. *)
Definition handleSend (G : Closure) (inputValue : jsstring)
    (uuid : jsstring) (now : Date) : M unit :=
  if negb (truthy (trim inputValue)) || negb (c_isConnected G) then ret tt
  else
    let userMsg :=
      {| id := uuid; content := Some (JString inputValue); role := user;
         timestamp := now; status := sending; retryCount := None |} in
    setMessages (fun prev => prev ++ [userMsg]) ;;
    setInputValue [] ;;
    sendMessage G userMsg.

(** [onConfirm={() => retryFailedMessage(msg.id)}] of the [Popconfirm] shown
    on a failed message, lines 700-706. *)
Definition onConfirmRetry (G : Closure) (msg : Message) : M unit :=
  retryFailedMessage G (id msg).

(* --------------------------------------------------------------------- *)
(** ** Rendering *)

(** The cleanup of the effect that depends on [connectWebSocket],
    lines 562-569 (the input debounce timer is not part of the model). *)
Definition effectCleanup : M unit :=
  r <- gets (fun w => wsRef (refs w)) ;;
  match r with
  | Some n => socket_close n
  | None => ret tt
  end.

(** One render.  [connectWebSocket] and [handleConnectionRetry] are
    re-created exactly when [connectionRetryCount] differs from the one they
    were created with (the other dependencies are properties); they then
    capture the state of this render, and the effect
    [useEffect(() => { connectWebSocket(); ... }, [connectWebSocket])] runs
    again: its old cleanup first, then the new [connectWebSocket]. *)
Definition render1 (w : World) : World :=
  if crashed w then w
  else if connectionRetryCount (st w) =? c_connectionRetryCount (memo w) then w
  else
    let G := snapshot (st w) in
    exec (effectCleanup ;; connectWebSocket G) (with_memo G w).

(** The effect may itself set state and so cause one more render; after the
    second render nothing is left to do (lemma [render_stable]).  State
    updates are applied as the setters are called: the callbacks never read
    the state cells, only their closure, so it makes no difference when
    React commits them. *)
Definition render (w : World) : World := render1 (render1 w).

(** The first assistant message of [useState<Message[]>]. *)
Definition greeting (uuid : jsstring) (now : Date) : Message :=
  {| id := uuid;
     content := Some (JString
       [24744; 22909; 65281; 25105; 26159; 24744; 30340; 65; 73; 21161;
        25163; 65292; 21487; 20197; 24110; 24744; 26597; 35810; 25968;
        25454; 21644; 20998; 26512; 38382; 39064]%N);
     role := ai; timestamp := now; status := sent; retryCount := None |}.

Definition initialState (uuid : jsstring) (now : Date) : State :=
  {| messages := [greeting uuid now]; inputValue := [];
     isConnected := false; isConnecting := false; error := None;
     showErrorMessage := false; retryMessageId := None;
     connectionRetryCount := 0; isAutoConnecting := false |}.

Definition initialWorld (uuid : jsstring) (now : Date) : World :=
  {| st := initialState uuid now;
     refs := {| wsRef := None; failedMessagesRef := [];
                messageQueueRef := []; retryTimeoutRef := None |};
     sockets := []; timers := []; notices := []; draws := 0;
     memo := snapshot (initialState uuid now); crashed := false |}.

(** Mounting: the first render, then the effect calls [connectWebSocket]. *)
Definition mount (uuid : jsstring) (now : Date) : World :=
  let w := initialWorld uuid now in
  render (exec (connectWebSocket (memo w)) w).

(* --------------------------------------------------------------------- *)
(** ** Events *)

Inductive event :=
| SocketOpen (ws : nat)
| SocketMessage (ws : nat) (data : jsstring)
| SocketError (ws : nat) (code : Z)   (* an error event and the close event after it *)
| SocketClose (ws : nat) (code : Z)
| TimerFires (t : nat)
| UserInput (value : jsstring)
| UserSend (uuid : jsstring) (now : Date)
| UserRetry (index : nat)             (* the retry icon of the message shown at [index] *)
| UserReconnect.

Definition runTimer (a : TimerAction) : M unit :=
  match a with
  | ReconnectTimer G nextRetry =>
      notify (ReconnectAttempt nextRetry) ;; connectWebSocket G
  | RetrySendTimer messageToRetry messageId => retrySend messageToRetry messageId
  end.

Definition setReadyState (ws : nat) (v : ReadyState) : M unit :=
  modify (with_sockets (update_nth ws (with_readyState v))).

(** The handler an event runs, with the closure it was created in.  Socket
    handlers run in the closure stored on the socket, timers in the closure
    stored in the timer, user-interface handlers in the closure of the
    current render.  An event that cannot occur (a socket in the wrong
    state, a timer already run, a retry icon that is not displayed) does
    nothing. *)
Definition handle (e : event) : M unit :=
  fun w =>
    match e with
    | SocketOpen ws =>
        match nth_error (sockets w) ws with
        | Some s =>
            match readyState s with
            | CONNECTING => (setReadyState ws OPEN ;; ws_onopen (handlers s)) w
            | _ => (Ok tt, w)
            end
        | None => (Ok tt, w)
        end
    | SocketMessage ws data =>
        match nth_error (sockets w) ws with
        | Some s =>
            match readyState s with
            | OPEN | CLOSING => ws_onmessage (handlers s) data w
            | _ => (Ok tt, w)
            end
        | None => (Ok tt, w)
        end
    | SocketError ws code =>
        match nth_error (sockets w) ws with
        | Some s =>
            match readyState s with
            | CLOSED => (Ok tt, w)
            | _ => (setReadyState ws CLOSED ;;
                    ws_onerror (handlers s) ws ;;
                    ws_onclose (handlers s) code) w
            end
        | None => (Ok tt, w)
        end
    | SocketClose ws code =>
        match nth_error (sockets w) ws with
        | Some s =>
            match readyState s with
            | CLOSED => (Ok tt, w)
            | _ => (setReadyState ws CLOSED ;; ws_onclose (handlers s) code) w
            end
        | None => (Ok tt, w)
        end
    | TimerFires t =>
        match nth_error (timers w) t with
        | Some tm =>
            if pending tm then
              (modify (with_timers (update_nth t (with_pending false))) ;;
               runTimer (action tm)) w
            else (Ok tt, w)
        | None => (Ok tt, w)
        end
    | UserInput value => setInputValue value w
    | UserSend uuid now =>
        handleSend (snapshot (st w)) (inputValue (st w)) uuid now w
    | UserRetry index =>
        match nth_error (messages (st w)) index with
        | Some msg =>
            match status msg with
            | failed => onConfirmRetry (snapshot (st w)) msg w
            | _ => (Ok tt, w)
            end
        | None => (Ok tt, w)
        end
    | UserReconnect =>
        if showErrorMessage (st w) then connectWebSocket (memo w) w
        else (Ok tt, w)
    end.

(* --------------------------------------------------------------------- *)
(** ** Unmounting *)

Definition clearTimeout (t : nat) : M unit :=
  modify (with_timers (update_nth t (with_pending false))).

(** What [close()] does to a socket. *)
Definition closing (s : Socket) : Socket :=
  match readyState s with
  | CONNECTING | OPEN => with_readyState CLOSING s
  | CLOSING | CLOSED => s
  end.

(** The cleanup of the effect of lines 365-377 (the input debounce timer is
    not part of the model). *)
Definition unmountCleanup : M unit :=
  r <- gets (fun w => wsRef (refs w)) ;;
  (match r with
   | Some n => socket_close n
   | None => ret tt
   end) ;;
  t <- gets (fun w => retryTimeoutRef (refs w)) ;;
  match t with
  | Some i => clearTimeout i
  | None => ret tt
  end.

(** Unmounting runs the cleanups of the effects in the order of their
    declaration. *)
Definition unmount : M unit := unmountCleanup ;; effectCleanup.

(** A callback that runs after the component was unmounted: React ignores
    the state setters it calls, and runs no updater given to one; what the
    callback does to the references, the sockets and the timers happens all
    the same. *)
Definition detached {A : Type} (c : M A) : M A :=
  fun w =>
    let (r, w') := c w in
    (r, with_crashed (crashed w) (with_st (fun _ => st w) w')).

(** The events that still reach the callbacks of an unmounted component:
    those of its sockets and of its timers. *)
Definition isTransport (e : event) : bool :=
  match e with
  | SocketOpen _ | SocketMessage _ _ | SocketError _ _ | SocketClose _ _
  | TimerFires _ => true
  | _ => false
  end.

(** One event after the unmount: no render follows. *)
Definition stepDetached (w : World) (e : event) : World :=
  if isTransport e then exec (detached (handle e)) w else w.

Definition runDetached (w : World) (es : list event) : World :=
  fold_left stepDetached es w.

(** One step of the component: an event is handled, then React renders.
    When an updater throws in that render, React unmounts the component
    instead: the cleanups of the effects run, and from then on the events
    of the sockets and timers still reach the callbacks they were given. *)
Definition step (w : World) (e : event) : World :=
  if crashed w then stepDetached w e
  else
    let w' := exec (handle e) w in
    if crashed w' then exec unmount w' else render w'.

Definition run (w : World) (es : list event) : World := fold_left step es w.

End Component.

End Chat.

(* ===================================================================== *)
(** * Notions used to state the properties *)
(* ===================================================================== *)

Unset Implicit Arguments.
Import JS Chat.
Open Scope Z_scope.

(** The message [handleSend] builds ([userMsg]), with a given status. *)
Definition sentMessage (uuid inputValue : jsstring) (now : Date) (s : Status)
  : Message :=
  {| id := uuid; content := Some (JString inputValue); role := user;
     timestamp := now; status := s; retryCount := None |}.

(** The parsed envelope of a message with text content. *)
Definition parsedEnvelope (i c ts : jsstring) : json :=
  JObject [(str "id", JString i); (str "content", JString c);
           (str "timestamp", JString ts)].

(** Strings [btoa] accepts. *)
Definition latin1 (s : jsstring) : Prop := Forall (fun c => (c <= 255)%N) s.

(** The sextets of the forgiving-base64 encoding, without padding. *)
Fixpoint raw_sextets (s : list N) : list N :=
  (match s with
   | [] => []
   | [a] => [a / 4; (a mod 4) * 16]
   | [a; b] => [a / 4; (a mod 4) * 16 + b / 16; (b mod 16) * 4]
   | a :: b :: c :: r =>
       a / 4 :: (a mod 4) * 16 + b / 16 :: (b mod 16) * 4 + c / 64 :: c mod 64
       :: raw_sextets r
   end)%N.

(** The frames [sendMessage] hands over for a list of messages: those whose
    encoding does not throw, in order. *)
Definition encoded (P : Props) (q : list Message) : list jsstring :=
  flat_map (fun m => match encode P m with Ok e => [e] | Throw _ => [] end) q.

(** [b] is [a] after one retry: the count is one more, the status is
    [sending], nothing else differs; a message with another identifier is
    unchanged. *)
Definition bumped (messageId : jsstring) (a b : Message) : Prop :=
  if jsstring_eqb (id a) messageId then
    retryCount b = Some (match retryCount a with Some n => n | None => 0 end + 1)
    /\ status b = sending /\ id b = id a /\ content b = content a
    /\ role b = role a /\ timestamp b = timestamp a
  else b = a.

(** What a message keeps: its identity, and also its content. *)
Definition keeps_identity (a b : Message) : Prop :=
  id b = id a /\ role b = role a /\ timestamp b = timestamp a.

Definition keeps_content (a b : Message) : Prop :=
  keeps_identity a b /\ content b = content a.

(** What [ws.onmessage] makes of a listed message when the response carries
    [pid] as its [id] and [c] as its [content]:
    [msg.id === parsedResponse.id ? { ...msg, content: parsedResponse.content,
    status: "sent" } : msg]. *)
Definition answerWith (pid c : jsval) (m : Message) : Message :=
  if string_strict_eq (id m) pid then markAnswered c m else m.

(** What a cleanup leaves as it is. *)
Definition kept (w w' : World) : Prop :=
  st w' = st w /\ crashed w' = crashed w /\ memo w' = memo w /\
  refs w' = refs w /\ notices w' = notices w /\ draws w' = draws w /\
  List.map sentFrames (sockets w') = List.map sentFrames (sockets w) /\
  List.map handlers (sockets w') = List.map handlers (sockets w) /\
  List.length (timers w') = List.length (timers w).

(** The step has not made the render crash, if it had not crashed before. *)
Definition Rel_alive (w w' : World) : Prop := crashed w' = crashed w.

(** The list of messages is the same after as before. *)
Definition Rel_list (w w' : World) : Prop := messages (st w') = messages (st w).



(** [l'] is [l] with every message related by [R] to its successor, and
    possibly new messages after them. *)
Definition evolves (R : Message -> Message -> Prop) (l l' : list Message) : Prop :=
  exists l1 l2, l' = l1 ++ l2 /\ Forall2 R l l1.

Definition is_receive (e : event) : bool :=
  match e with SocketMessage _ _ => true | _ => false end.

(** A callback respects a relation between the world before and after. *)
Definition respects (Rel : World -> World -> Prop) {A : Type} (c : M A) : Prop :=
  forall w, Rel w (snd (c w)).

Definition Rel_msgs (R : Message -> Message -> Prop) (w w' : World) : Prop :=
  evolves R (messages (st w)) (messages (st w')).

(** A socket whose handlers were made before its connection opened. *)
Definition staleClosure (s : Socket) : Prop := c_isConnected (handlers s) = false.

(** While every socket carries such a closure, that stays so and the
    outbound queue does not change. *)
Definition Rel_queue (w w' : World) : Prop :=
  Forall staleClosure (sockets w) ->
  Forall staleClosure (sockets w') /\
  messageQueueRef (refs w') = messageQueueRef (refs w).

(** [k] consecutive transport failures: the socket of each attempt closes
    abnormally and the reconnect timer set by the close handler expires.
    Sockets and timers are numbered in the order of their creation, the
    first failure hitting socket [i] and starting timer [i]. *)
Fixpoint failures (k i : nat) : list event :=
  match k with
  | O => []
  | S k' => SocketClose i 1006 :: TimerFires i :: failures k' (S i)
  end.

(** The closure of the first render. *)
Definition firstClosure : Closure :=
  {| c_isConnected := false; c_isConnecting := false;
     c_isAutoConnecting := false; c_connectionRetryCount := 0 |}.

(** The component is trying to connect for the [i]-th time after [i]
    failures: socket [i] is connecting and carries the handlers of the first
    render, [i] timers have been set so far, the state is rendered, and no
    error is displayed. *)
Definition attempting (u : jsstring) (i : nat) (w : World) : Prop :=
  crashed w = false /\
  List.length (sockets w) = S i /\
  nth_error (sockets w) i =
    Some {| url := u; readyState := CONNECTING; handlers := firstClosure;
            sentFrames := [] |} /\
  List.length (timers w) = i /\
  connectionRetryCount (st w) = c_connectionRetryCount (memo w) /\
  (connectionRetryCount (st w) = 0 \/
   connectionRetryCount (st w) = 1 /\ isAutoConnecting (st w) = true) /\
  showErrorMessage (st w) = false.

(* --------------------------------------------------------------------- *)
(** ** Concrete inputs *)

Module Samples.

Definition keyA : Props := defaultProps (str "a").
Definition keyB : Props := defaultProps (str "secret").
Definition noKey : Props := defaultProps [].

Definition rnd0 (n : nat) : Q := 0%Q.
Definition encURI (s : jsstring) : result jsstring := Ok s.
Definition acceptAll (s : jsstring) : bool := true.
Definition P0 : Props := noKey.
Definition step0 := step P0 rnd0 encURI acceptAll.
Definition run0 := run P0 rnd0 encURI acceptAll.

(** The component after mounting, still connecting. *)
Definition mounted : World := mount P0 encURI acceptAll (str "g0") 0.
(** Connected, one message [hi] sent with identifier [u1]. *)
Definition chatting : World :=
  run0 mounted [SocketOpen 0; UserInput (str "hi"); UserSend (str "u1") 5].
(** JSON text written with apostrophes where the quotation marks go. *)
Definition json_text (s : string) : jsstring :=
  List.map (fun c => if (c =? 39)%N then 34%N else c) (str s).
Definition answer : jsstring := json_text "{'id':'u1','content':'bye'}".

Definition m1 : Message := sentMessage (str "q1") (str "first") 1 sending.
Definition m2 : Message := sentMessage (str "q2") (str "second") 2 sending.
(** Two messages given to [sendMessage] while the socket is connecting. *)
Definition queuedOffline : World :=
  exec (bind (sendMessage P0 (snapshot (st mounted)) m1)
             (fun _ => sendMessage P0 (snapshot (st mounted)) m2)) mounted.

(** A key is configured. *)
Definition Pk : Props := defaultProps (str "k").
(** The text 你好. *)
Definition nihaoText : jsstring := [20320; 22909]%N.
Definition nihao : Message := sentMessage (str "u1") nihaoText 5 sending.
Definition mountedK : World := mount Pk encURI acceptAll (str "g0") 0.
Definition runK := run Pk rnd0 encURI acceptAll.

(** A failed message, put into the registry by hand: no statement of the
    component ever adds an entry. *)
Definition failedMsg : Message := sentMessage (str "u1") (str "hi") 5 failed.
Definition retryWorld : World :=
  with_refs (with_failedMessagesRef [(str "u1", failedMsg)])
    (with_st (with_messages (List.map (fun m =>
       if jsstring_eqb (id m) (str "u1") then with_status failed m else m)))
       chatting).

End Samples.

Import Samples.

(* --------------------------------------------------------------------- *)
(** ** Further notions *)

(** A world React has finished rendering: the component has crashed, or the
    [connectWebSocket] that [useCallback] holds was made with the present
    [connectionRetryCount]. *)
Definition settled (w : World) : Prop :=
  crashed w = true \/
  connectionRetryCount (st w) = c_connectionRetryCount (memo w).

(** An empty registry of failed messages stays empty. *)
Definition Rel_registry (w w' : World) : Prop :=
  failedMessagesRef (refs w) = [] -> failedMessagesRef (refs w') = [].

(** The component is trying to connect again after a failure: as in
    [attempting], with the retry count at 1, the socket under way in
    [wsRef], and nothing in the registry. *)
Definition reattempting (u : jsstring) (i : nat) (w : World) : Prop :=
  attempting u i w /\
  connectionRetryCount (st w) = 1 /\
  wsRef (refs w) = Some i /\
  failedMessagesRef (refs w) = [].

(** What the user submits: the text in the input box when the send button
    is pressed, and the identifier and the date [handleSend] gives the
    message. *)
Record Submission := {
  sub_text : jsstring;
  sub_uuid : jsstring;
  sub_now : Date
}.

Definition submit (s : Submission) : list event :=
  [UserInput (sub_text s); UserSend (sub_uuid s) (sub_now s)].

Definition submitted (s : Submission) : Message :=
  sentMessage (sub_uuid s) (sub_text s) (sub_now s) sending.

(** [handleSend] goes on only when the trimmed text is not empty. *)
Definition accepted (s : Submission) : bool := truthy (trim (sub_text s)).

(** The first connection is open: socket 0, made by the first render, is
    the socket of [wsRef] and has been handed [frames]. *)
Definition connectedFirst (u : jsstring) (frames : list jsstring) (w : World) : Prop :=
  crashed w = false /\
  connectionRetryCount (st w) = c_connectionRetryCount (memo w) /\
  isConnected (st w) = true /\
  wsRef (refs w) = Some 0%nat /\
  nth_error (sockets w) 0 =
    Some {| url := u; readyState := OPEN; handlers := firstClosure;
            sentFrames := frames |}.


(* --------------------------------------------------------------------- *)
(** ** Which messages are marked sent *)

(** A message marked [sent] after the step was marked so before it, at the
    same place of the list and under the same identifier. *)
Definition Rel_sent (w w' : World) : Prop :=
  forall k m', nth_error (messages (st w')) k = Some m' -> status m' = sent ->
  exists m, nth_error (messages (st w)) k = Some m /\ status m = sent /\
            id m = id m'.

(** The event is a frame that decodes to a response whose [id] is the
    string [i]. *)
Definition names (P : Props) (e : event) (i : jsstring) : Prop :=
  match e with
  | SocketMessage _ data =>
      exists parsed, decode P data = Ok parsed /\
                     get_prop parsed (str "id") = Ok (Some (JString i))
  | _ => False
  end.

(* ===================================================================== *)
(** * The status line: [connectionStatus] and [components/StatusDisplay] *)
(* ===================================================================== *)

Module View.

Local Open Scope N_scope.

(** [String.prototype.startsWith] and [String.prototype.includes]. *)
Fixpoint startsWith (s pat : jsstring) : bool :=
  match pat, s with
  | [], _ => true
  | p :: pat', c :: s' => (c =? p) && startsWith s' pat'
  | _ :: _, [] => false
  end.

Fixpoint includes (s pat : jsstring) : bool :=
  startsWith s pat ||
  match s with
  | [] => false
  | _ :: s' => includes s' pat
  end.

(** [s.split(sep)] for a separator of one code unit: the pieces between the
    separators, at least one piece. *)
Fixpoint split (sep : N) (s : jsstring) : list jsstring :=
  match s with
  | [] => [[]]
  | c :: r =>
      if c =? sep then [] :: split sep r
      else
        match split sep r with
        | h :: t => (c :: h) :: t
        | [] => [[c]]
        end
  end.

(** The texts of the two files. *)
Definition text_connected : jsstring := [24050; 36830; 25509].
Definition text_connecting : jsstring := [36830; 25509; 20013].
Definition text_reconnecting : jsstring := [33258; 21160; 37325; 36830; 20013].
Definition text_disconnected : jsstring := [24050; 26029; 24320].
Definition text_auto : jsstring := [33258; 21160; 37325; 36830].
Definition text_error : jsstring := [38169; 35823].

(** The strings given to [setError]. *)
Definition errorText (e : ErrorText) : jsstring :=
  match e with
  | ConnectionAbnormal => [36830; 25509; 24322; 24120]
  | ConnectionLost => [36830; 25509; 24050; 26029; 24320]
  | ConnectionInitFailed => [36830; 25509; 21021; 22987; 21270; 22833; 36133]
  end.

Inductive StatusType := connected | connecting | reconnecting | disconnected.

(** [StatusConfigItem]; of the icon only its presence matters. *)
Record StatusConfigItem := {
  color : jsstring;
  icon : bool;
  text : jsstring
}.

Definition defaultStatusConfig (t : StatusType) : StatusConfigItem :=
  match t with
  | connected => {| color := str "#52c41a"; icon := false; text := text_connected |}
  | connecting => {| color := str "#faad14"; icon := true; text := text_connecting |}
  | reconnecting => {| color := str "#faad14"; icon := true; text := text_reconnecting |}
  | disconnected => {| color := str "#ff4d4f"; icon := false; text := text_disconnected |}
  end.

(** [StatusDisplayProps]; [error] is [None] for [null] and [undefined]. *)
Record StatusDisplayProps := {
  status : jsstring;
  error : option jsstring;
  customConfig : StatusType -> option StatusConfigItem;
  showIcon : bool;
  compact : bool
}.

(** The element [StatusDisplay] returns: the alert of the error branch with
    its text, or the status [span] with its colour, its text, and the text
    of the inner [reconnectCount] span. *)
Inductive Rendered :=
| Alert (withIcon : bool) (shown : jsstring)
| Status (t : StatusType) (colour : jsstring) (withIcon : bool)
    (shown : jsstring) (reconnectCount : jsstring).

(** [{ ...defaultStatusConfig, ...customConfig }] *)
Definition mergedConfig (custom : StatusType -> option StatusConfigItem)
    (t : StatusType) : StatusConfigItem :=
  match custom t with
  | Some c => c
  | None => defaultStatusConfig t
  end.

Definition statusType (status : jsstring) : StatusType :=
  if includes status text_connected then connected
  else if includes status text_connecting then connecting
  else if includes status text_auto then reconnecting
  else disconnected.

(** [status.split("(")[1] ? `(${status.split("(")[1]}` : ""] *)
Definition reconnectCountText (status : jsstring) : jsstring :=
  match nth_error (split 40 status) 1 with
  | Some piece => if truthy piece then 40 :: piece else []
  | None => []
  end.

Definition StatusDisplay (p : StatusDisplayProps) : Rendered :=
  let t := statusType (status p) in
  let currentConfig := mergedConfig (customConfig p) t in
  match error p with
  | Some e =>
      if truthy e then Alert (showIcon p) (if compact p then text_error else e)
      else
        Status t (color currentConfig) (showIcon p && icon currentConfig)
          (text currentConfig)
          (match t with reconnecting => reconnectCountText (status p) | _ => [] end)
  | None =>
      Status t (color currentConfig) (showIcon p && icon currentConfig)
        (text currentConfig)
        (match t with reconnecting => reconnectCountText (status p) | _ => [] end)
  end.

Section StatusLine.

(** How a number is written in a template literal is taken as given. *)
Variable P : Props.
Variable Number_toString : Z -> jsstring.

(** [connectionStatus], lines 126-132 of [ChatUi.tsx]; its dependencies are
    the four bindings of the render. *)
Definition connectionStatus (G : Closure) : jsstring :=
  if c_isConnected G then text_connected
  else if c_isConnecting G then text_connecting
  else if c_isAutoConnecting G then
    text_reconnecting ++ 40 :: Number_toString (c_connectionRetryCount G)
      ++ 47 :: Number_toString (maxRetries P) ++ [41]
  else text_disconnected.

(** [<StatusDisplay status={connectionStatus} error={error} />] *)
Definition statusLine (s : State) : Rendered :=
  StatusDisplay
    {| status := connectionStatus (snapshot s);
       error := option_map errorText (Chat.error s);
       customConfig := fun _ => None;
       showIcon := true;
       compact := false |}.

End StatusLine.

End View.

(** A number written without an opening parenthesis and in ASCII, as every
    number is. *)
Definition plain (s : jsstring) : Prop :=
  Forall (fun c => (c < 128)%N /\ c <> 40%N) s.

(** The way JavaScript writes an integer of magnitude below 10^21: its
    decimal digits, after a minus sign when it is negative. *)
Fixpoint uint_codes (d : Decimal.uint) : jsstring :=
  match d with
  | Decimal.Nil => []
  | Decimal.D0 r => 48%N :: uint_codes r
  | Decimal.D1 r => 49%N :: uint_codes r
  | Decimal.D2 r => 50%N :: uint_codes r
  | Decimal.D3 r => 51%N :: uint_codes r
  | Decimal.D4 r => 52%N :: uint_codes r
  | Decimal.D5 r => 53%N :: uint_codes r
  | Decimal.D6 r => 54%N :: uint_codes r
  | Decimal.D7 r => 55%N :: uint_codes r
  | Decimal.D8 r => 56%N :: uint_codes r
  | Decimal.D9 r => 57%N :: uint_codes r
  end.

Definition decimal (n : Z) : jsstring :=
  (if n <? 0 then [45%N] else []) ++ uint_codes (N.to_uint (Z.abs_N n)).

(* ===================================================================== *)
(** * The size of the dialog and the place of the floating button *)
(* ===================================================================== *)

Module Layout.

(** [const sizes = ["320px", "480px", "max(50vw, 640px)"]] *)
Definition sizes : list jsstring :=
  [str "320px"; str "480px"; str "max(50vw, 640px)"].

(** [Array.prototype.indexOf] on strings: the first index, or -1. *)
Fixpoint indexOf_from (i : Z) (x : jsstring) (l : list jsstring) : Z :=
  match l with
  | [] => -1
  | y :: r => if jsstring_eqb y x then i else indexOf_from (i + 1) x r
  end.

Definition indexOf (x : jsstring) (l : list jsstring) : Z := indexOf_from 0 x l.

(** Lines 106-108. *)
Definition currentIndex (currentWidth : jsstring) : Z := indexOf currentWidth sizes.
Definition isMax (currentWidth : jsstring) : bool :=
  currentIndex currentWidth =? Z.of_nat (List.length sizes) - 1.
Definition isMin (currentWidth : jsstring) : bool :=
  currentIndex currentWidth =? 0.

(** [handleSizeChange], lines 150-155: the new value of [currentWidth]. *)
Definition handleSizeChange (currentWidth : jsstring) (delta : Z) : jsstring :=
  let newIndex := currentIndex currentWidth + delta in
  if (0 <=? newIndex) && (newIndex <? Z.of_nat (List.length sizes)) then
    match nth_error sizes (Z.to_nat newIndex) with
    | Some size => size
    | None => currentWidth
    end
  else currentWidth.

(** The two buttons of the header, lines 652-666; a disabled button does
    not call its handler. *)
Inductive SizeButton := Enlarge | Reduce.

Definition disabled (b : SizeButton) (currentWidth : jsstring) : bool :=
  match b with Enlarge => isMax currentWidth | Reduce => isMin currentWidth end.

Definition delta (b : SizeButton) : Z :=
  match b with Enlarge => 1 | Reduce => -1 end.

Definition click (currentWidth : jsstring) (b : SizeButton) : jsstring :=
  if disabled b currentWidth then currentWidth
  else handleSizeChange currentWidth (delta b).

(** Pixel coordinates, taken as integers. *)
Record Point := { x : Z; y : Z }.

(** [dragStartPos], the object kept by [useRef], lines 112-117. *)
Record DragStartPos := {
  startX : Z;
  startY : Z;
  currentX : Z;
  currentY : Z
}.

(** A mouse event, or a touch event with its touches, of which there is at
    least one while a finger is down. *)
Inductive Pointer :=
| Mouse (clientX clientY : Z)
| Touch (first : Point) (others : list Point).

(** ["touches" in e ? e.touches[0].clientX : e.clientX], and the same for
    [clientY]. *)
Definition clientX_of (e : Pointer) : Z :=
  match e with Mouse cx _ => cx | Touch t _ => x t end.
Definition clientY_of (e : Pointer) : Z :=
  match e with Mouse _ cy => cy | Touch t _ => y t end.

Record Window := { innerWidth : Z; innerHeight : Z }.

(** The state cells and the reference the drag handlers use. *)
Record Drag := {
  buttonPosition : Point;
  isDragging : bool;
  dragStartPos : DragStartPos
}.

(** The initial [buttonPosition], lines 100-103. *)
Definition initialPosition (win : Window) : Point :=
  {| x := innerWidth win - 80 - 24; y := innerHeight win - 40 - 24 |}.

(** [handleDragStart], lines 218-234; its dependencies are the coordinates
    of [buttonPosition], so it reads the position of the present render. *)
Definition handleDragStart (e : Pointer) (d : Drag) : Drag :=
  {| buttonPosition := buttonPosition d;
     isDragging := true;
     dragStartPos :=
       {| startX := clientX_of e; startY := clientY_of e;
          currentX := x (buttonPosition d); currentY := y (buttonPosition d) |} |}.

(** [handleDragging], lines 248-276.  It is re-created, and registered
    again by the effect of lines 291-303, whenever [isDragging] changes, so
    it reads the [isDragging] of the present render. *)
Definition handleDragging (win : Window) (e : Pointer) (d : Drag) : Drag :=
  if negb (isDragging d) then d
  else
    let deltaX := clientX_of e - startX (dragStartPos d) in
    let deltaY := clientY_of e - startY (dragStartPos d) in
    let newX := currentX (dragStartPos d) + deltaX in
    let newY := currentY (dragStartPos d) + deltaY in
    let minX := 24 in
    let minY := 24 in
    let maxX := innerWidth win - 40 in
    let maxY := innerHeight win - 40 in
    {| buttonPosition :=
         {| x := Z.max minX (Z.min newX maxX);
            y := Z.max minY (Z.min newY maxY) |};
       isDragging := isDragging d;
       dragStartPos := dragStartPos d |}.

(** [handleDragEnd], lines 285-288. *)
Definition handleDragEnd (d : Drag) : Drag :=
  if negb (isDragging d) then d
  else {| buttonPosition := buttonPosition d; isDragging := false;
          dragStartPos := dragStartPos d |}.

(** The effect of lines 279-282, run when [currentWidth] has changed. *)
Definition onWidthChange (win : Window) (d : Drag) : Drag :=
  {| buttonPosition :=
       {| x := innerWidth win - 80 - 24; y := y (buttonPosition d) |};
     isDragging := isDragging d;
     dragStartPos := dragStartPos d |}.

(** The position [handleDragging] computes for a pointer at [e] from what
    [handleDragStart] has recorded: the recorded position moved by the
    displacement of the pointer, kept inside the window. *)
Definition dragged (win : Window) (s : DragStartPos) (e : Pointer) : Point :=
  {| x := Z.max 24 (Z.min (currentX s + (clientX_of e - startX s)) (innerWidth win - 40));
     y := Z.max 24 (Z.min (currentY s + (clientY_of e - startY s)) (innerHeight win - 40)) |}.

(** What happens to the button during a gesture. *)
Inductive DragEvent :=
| Down (e : Pointer)      (* mousedown, touchstart on the button *)
| Move (e : Pointer)      (* mousemove, touchmove on the window *)
| Up.                     (* mouseup, touchend on the window *)

Definition dragStep (win : Window) (d : Drag) (ev : DragEvent) : Drag :=
  match ev with
  | Down e => handleDragStart e d
  | Move e => handleDragging win e d
  | Up => handleDragEnd d
  end.

End Layout.

(* ===================================================================== *)
(** * The debounced input box *)
(* ===================================================================== *)

Module InputBox.

(** The state cell [inputValue], the reference [inputTimerRef], and the
    timers [handleInputChange] has set, each with the value it will commit
    and whether it is still pending.  A timer is named by its index in the
    list; the identifier the browser gives it is positive, so a stored
    identifier is truthy. *)
Record Box := {
  inputValue : jsstring;
  inputTimerRef : option nat;
  inputTimers : list (jsstring * bool)
}.

Definition cancel (t : nat) (l : list (jsstring * bool)) : list (jsstring * bool) :=
  update_nth t (fun p => (fst p, false)) l.

(** [handleInputChange], lines 135-147, for [e.target.value = value]. *)
Definition handleInputChange (value : jsstring) (b : Box) : Box :=
  let timers :=
    match inputTimerRef b with
    | Some t => cancel t (inputTimers b)
    | None => inputTimers b
    end in
  {| inputValue := inputValue b;
     inputTimerRef := Some (List.length timers);
     inputTimers := timers ++ [(value, true)] |}.

(** The callback given to [setTimeout] runs, 300 ms later. *)
Definition timerFires (t : nat) (b : Box) : Box :=
  match nth_error (inputTimers b) t with
  | Some (value, true) =>
      {| inputValue := value;
         inputTimerRef := None;
         inputTimers := cancel t (inputTimers b) |}
  | _ => b
  end.

(** The cleanups of lines 370-372 and 566-568. *)
Definition cleanup (b : Box) : Box :=
  match inputTimerRef b with
  | Some t =>
      {| inputValue := inputValue b; inputTimerRef := inputTimerRef b;
         inputTimers := cancel t (inputTimers b) |}
  | None => b
  end.

(** Every pending timer is the one the reference holds. *)
Definition tracked (b : Box) : Prop :=
  forall t value, nth_error (inputTimers b) t = Some (value, true) ->
                  inputTimerRef b = Some t.

Definition typeAll (values : list jsstring) (b : Box) : Box :=
  fold_left (fun b value => handleInputChange value b) values b.

End InputBox.

(* ===================================================================== *)
(** * The mock server: [src/src/mock/MockWebSocket.ts] *)
(* ===================================================================== *)

Module Mock.

(** The functions a client passes in are taken as opaque: a call of one is
    recorded, and the function is assumed to return without an exception
    and without a call back into the mock.  The one callback the class makes itself, the arrow
    function its constructor gives to [onOpen], is modelled as what it
    does. *)
Inductive Callback :=
| External (name : nat)
| Announce.

(** What a timer will run. *)
Inductive Action :=
| AfterConstruct                       (* the timeout of the constructor *)
| CallError (callback : option Callback)   (* of [onError] *)
| FinishClose (callback : option Callback) (* of [onClose] *)
| Reply (parsedData : json)            (* of [send] *)
| Attempt                              (* of [attemptConnect] *)
| Retry                                (* of [handleConnectionFailure] *)
| Auth (token : jsstring)              (* of [sendAuthMessage] *)
| RealTime                             (* the interval of [simulateRealTimeUpdate] *)
| History.                             (* of [fetchMockHistory] *)

Record Timer := {
  delay : Z;
  action : Action;
  pending : bool;
  repeating : bool
}.

(** The lines written to the console. *)
Inductive Line :=
| Initialized
| OnOpenCalled
| NowConnected
| OnCloseCalled
| NowDisconnected
| ClientToServer (parsedData : json)
| InvalidJSON
| TooManyRetries
| MessageDropped
| ServerToClient (message : json).

(** The calls of client functions, in order. *)
Inductive Delivery :=
| ToListener (listener : nat) (message : json)
| ToHandler (listener : nat) (message : json)
| Called (callback : nat)
| CalledWithError (callback : nat)
| Resolved (history : list (Z * jsstring * Date)).

(** The fields of the instance, and around them the timers, the number of
    values drawn from [Math.random], the console and the calls made. *)
Record World := {
  messageListeners : list (jsstring * nat);
  responseListeners : list (jsstring * nat);
  isConnected : bool;
  isConnecting : bool;
  retryCount : Z;
  reconnectAttempts : Z;
  timers : list Timer;
  draws : nat;
  console : list Line;
  delivered : list Delivery
}.

Definition responseDelay : Z := 500.
Definition maxRetries : Z := 3.
Definition maxReconnectAttempts : Z := 5.

Definition with_messageListeners (v : list (jsstring * nat)) (w : World) : World :=
  {| messageListeners := v; responseListeners := responseListeners w;
     isConnected := isConnected w; isConnecting := isConnecting w;
     retryCount := retryCount w; reconnectAttempts := reconnectAttempts w;
     timers := timers w; draws := draws w; console := console w;
     delivered := delivered w |}.

Definition with_responseListeners (v : list (jsstring * nat)) (w : World) : World :=
  {| messageListeners := messageListeners w; responseListeners := v;
     isConnected := isConnected w; isConnecting := isConnecting w;
     retryCount := retryCount w; reconnectAttempts := reconnectAttempts w;
     timers := timers w; draws := draws w; console := console w;
     delivered := delivered w |}.

Definition with_isConnected (v : bool) (w : World) : World :=
  {| messageListeners := messageListeners w; responseListeners := responseListeners w;
     isConnected := v; isConnecting := isConnecting w;
     retryCount := retryCount w; reconnectAttempts := reconnectAttempts w;
     timers := timers w; draws := draws w; console := console w;
     delivered := delivered w |}.

Definition with_isConnecting (v : bool) (w : World) : World :=
  {| messageListeners := messageListeners w; responseListeners := responseListeners w;
     isConnected := isConnected w; isConnecting := v;
     retryCount := retryCount w; reconnectAttempts := reconnectAttempts w;
     timers := timers w; draws := draws w; console := console w;
     delivered := delivered w |}.

Definition with_retryCount (v : Z) (w : World) : World :=
  {| messageListeners := messageListeners w; responseListeners := responseListeners w;
     isConnected := isConnected w; isConnecting := isConnecting w;
     retryCount := v; reconnectAttempts := reconnectAttempts w;
     timers := timers w; draws := draws w; console := console w;
     delivered := delivered w |}.

Definition with_reconnectAttempts (v : Z) (w : World) : World :=
  {| messageListeners := messageListeners w; responseListeners := responseListeners w;
     isConnected := isConnected w; isConnecting := isConnecting w;
     retryCount := retryCount w; reconnectAttempts := v;
     timers := timers w; draws := draws w; console := console w;
     delivered := delivered w |}.

Definition with_timers (v : list Timer) (w : World) : World :=
  {| messageListeners := messageListeners w; responseListeners := responseListeners w;
     isConnected := isConnected w; isConnecting := isConnecting w;
     retryCount := retryCount w; reconnectAttempts := reconnectAttempts w;
     timers := v; draws := draws w; console := console w;
     delivered := delivered w |}.

Definition with_draws (v : nat) (w : World) : World :=
  {| messageListeners := messageListeners w; responseListeners := responseListeners w;
     isConnected := isConnected w; isConnecting := isConnecting w;
     retryCount := retryCount w; reconnectAttempts := reconnectAttempts w;
     timers := timers w; draws := v; console := console w;
     delivered := delivered w |}.

Definition log (l : Line) (w : World) : World :=
  {| messageListeners := messageListeners w; responseListeners := responseListeners w;
     isConnected := isConnected w; isConnecting := isConnecting w;
     retryCount := retryCount w; reconnectAttempts := reconnectAttempts w;
     timers := timers w; draws := draws w; console := console w ++ [l];
     delivered := delivered w |}.

Definition deliver (d : Delivery) (w : World) : World :=
  {| messageListeners := messageListeners w; responseListeners := responseListeners w;
     isConnected := isConnected w; isConnecting := isConnecting w;
     retryCount := retryCount w; reconnectAttempts := reconnectAttempts w;
     timers := timers w; draws := draws w; console := console w;
     delivered := delivered w ++ [d] |}.

Definition setTimeout (a : Action) (d : Z) (w : World) : World :=
  with_timers (timers w ++ [{| delay := d; action := a; pending := true;
                               repeating := false |}]) w.

Definition setInterval (a : Action) (d : Z) (w : World) : World :=
  with_timers (timers w ++ [{| delay := d; action := a; pending := true;
                               repeating := true |}]) w.

(** [Map.prototype.set]: an existing key keeps its place. *)
Fixpoint map_set (k : jsstring) (v : nat) (m : list (jsstring * nat))
  : list (jsstring * nat) :=
  match m with
  | [] => [(k, v)]
  | (k', v') :: r =>
      if jsstring_eqb k k' then (k, v) :: r else (k', v') :: map_set k v r
  end.

(** [x < q] on the results of [Math.random]. *)
Definition below (x q : Q) : bool := negb (Qle_bool q x).

(** The time stamp [new Date().toISOString()]; the present date is never
    an invalid one. *)
Definition iso (now : Date) : jsstring :=
  match toISOString now with
  | Ok s => s
  | Throw _ => []
  end.

Section Instance.

Variable Math_random : nat -> Q.
(** [Math.random().toString(36).substring(2, 15)], drawn once. *)
Variable clientId : jsstring.

(** [{ ...response, mockTimestamp: new Date().toISOString(),
       from: "mock-server" }] *)
Definition stamped (response : list (jsstring * json)) (now : Date) : json :=
  JObject (obj_set (str "from") (JString (str "mock-server"))
             (obj_set (str "mockTimestamp") (JString (iso now)) response)).

(** [simulateServerResponse], lines 154-190. *)
Definition simulateServerResponse (response : list (jsstring * json)) (now : Date)
    (w : World) : World :=
  if negb (isConnected w) then w
  else
    let r := Math_random (draws w) in
    let w := with_draws (S (draws w)) w in
    if below r (5 # 100) then log MessageDropped w
    else
      let message := stamped response now in
      let w := log (ServerToClient message) w in
      let w := fold_left (fun w kv => deliver (ToListener (snd kv) message) w)
                 (messageListeners w) w in
      fold_left (fun w kv => deliver (ToHandler (snd kv) message) w)
        (responseListeners w) w.

(** [callback?.()] *)
Definition call (callback : option Callback) (now : Date) (w : World) : World :=
  match callback with
  | None => w
  | Some (External n) => deliver (Called n) w
  | Some Announce =>
      simulateServerResponse
        [(str "type", JString (str "connect"));
         (str "clientId", JString clientId);
         (str "status", JString (str "success"))] now w
  end.

(** [onMessage], lines 46-53. *)
Definition onMessage (callback : nat) (now : Date) (w : World) : World :=
  let kept := filter (fun kv => negb (View.startsWith (fst kv) (str "message-")))
                (messageListeners w) in
  with_messageListeners (map_set (str "message-" ++ decimal now) callback kept) w.

(** [onOpen], lines 55-60. *)
Definition onOpen (callback : option Callback) (now : Date) (w : World) : World :=
  log NowConnected (call callback now (with_isConnected true (log OnOpenCalled w))).

(** [onError], lines 62-70. *)
Definition onError (callback : option Callback) (w : World) : World :=
  let r := Math_random (draws w) in
  let w := with_draws (S (draws w)) w in
  if below r (1 # 10) then setTimeout (CallError callback) responseDelay w else w.

(** [onClose], lines 72-81. *)
Definition onClose (callback : option Callback) (w : World) : World :=
  let w := log OnCloseCalled w in
  if isConnected w then setTimeout (FinishClose callback) responseDelay w else w.

(** [send], lines 83-99. *)
Definition send (data : jsstring) (w : World) : World :=
  match JSON_parse data with
  | Ok parsedData =>
      setTimeout (Reply parsedData) responseDelay (log (ClientToServer parsedData) w)
  | Throw _ => log InvalidJSON w
  end.

(** [attemptConnect], lines 110-123: the timeout it sets. *)
Definition attemptConnect (w : World) : World :=
  setTimeout Attempt (responseDelay * (retryCount w + 1)) w.

(** [connect], lines 101-108. *)
Definition connect (w : World) : World :=
  if isConnected w || isConnecting w then w
  else attemptConnect (with_retryCount 0 (with_isConnecting true w)).

(** [handleConnectionFailure], lines 125-133. *)
Definition handleConnectionFailure (w : World) : World :=
  if reconnectAttempts w <? maxReconnectAttempts then
    setTimeout Retry (responseDelay * 2 * reconnectAttempts w) w
  else w.

(** [close], lines 135-144. *)
Definition close (now : Date) (w : World) : World :=
  handleConnectionFailure
    (simulateServerResponse
       [(str "type", JString (str "disconnect"));
        (str "clientId", JString clientId)] now
       (with_isConnecting false (with_isConnected false w))).

(** [registerResponseHandler], lines 147-151. *)
Definition registerResponseHandler (handler : nat) (now : Date) (w : World) : World :=
  with_responseListeners
    (map_set (str "handler-" ++ decimal now) handler (responseListeners w)) w.

(** [randomDelay], lines 193-195, for integer bounds: the product of the
    two doubles is rounded to a double before [Math.floor] sees it; the
    difference and the sums of integers are exact as long as they stay
    within [2^53] in magnitude. *)
Definition randomDelay (min max : Z) (r : Q) : Z :=
  Qfloor (roundDouble (r * inject_Z (max - min + 1))) + min.

(** [sendAuthMessage], lines 198-206, with the default bounds of
    [randomDelay]. *)
Definition sendAuthMessage (token : jsstring) (w : World) : World :=
  let r := Math_random (draws w) in
  setTimeout (Auth token) (randomDelay 200 1000 r) (with_draws (S (draws w)) w).

(** [simulateRealTimeUpdate], lines 209-219. *)
Definition simulateRealTimeUpdate (w : World) : World := setInterval RealTime 5000 w.

(** [fetchMockHistory], lines 222-239: the promise is resolved by a timer. *)
Definition fetchMockHistory (w : World) : World := setTimeout History responseDelay w.

(** What a timer runs when it fires at the time [now]. *)
Definition runAction (a : Action) (now : Date) (w : World) : World :=
  match a with
  | AfterConstruct => onOpen (Some Announce) now (with_isConnected true w)
  | CallError callback =>
      match callback with
      | Some (External n) => deliver (CalledWithError n) w
      | Some Announce => call callback now w
      | None => w
      end
  | FinishClose callback =>
      log NowDisconnected (call callback now (with_isConnected false w))
  | Reply parsedData =>
      simulateServerResponse
        [(str "type", JString (str "response"));
         (str "originalRequest", parsedData);
         (str "timestamp", JString (iso now))] now w
  | Attempt =>
      if retryCount w <? maxRetries then
        onOpen None now
          (with_reconnectAttempts 0 (with_isConnecting false (with_isConnected true w)))
      else handleConnectionFailure (log TooManyRetries w)
  | Retry =>
      attemptConnect (with_retryCount 0 (with_reconnectAttempts (reconnectAttempts w + 1) w))
  | Auth token =>
      simulateServerResponse
        [(str "type", JString (str "auth"));
         (str "status", JString (str "success"));
         (str "token", JString (str "mocked_" ++ token))] now w
  | RealTime =>
      if isConnected w then
        simulateServerResponse
          [(str "type", JString (str "realtime"));
           (str "data", JString (str "Update " ++ decimal now));
           (str "timestamp", JString (iso now))] now w
      else w
  | History =>
      deliver (Resolved [(1, [21382; 21490; 28040; 24687; 49]%N, now - 3600000);
                         (2, [21382; 21490; 28040; 24687; 50]%N, now - 1800000)]) w
  end.

(** A timer fires: a timeout once, an interval again and again. *)
Definition fire (t : nat) (now : Date) (w : World) : World :=
  match nth_error (timers w) t with
  | Some tm =>
      if pending tm then
        runAction (action tm) now
          (if repeating tm then w
           else with_timers (update_nth t (fun x =>
                  {| delay := delay x; action := action x; pending := false;
                     repeating := repeating x |}) (timers w)) w)
      else w
  | None => w
  end.

(** The constructor, lines 18-37, after the field initialisers. *)
Definition construct : World :=
  setTimeout AfterConstruct responseDelay
    (with_isConnected false
       (log Initialized
          {| messageListeners := []; responseListeners := [];
             isConnected := true; isConnecting := false;
             retryCount := 0; reconnectAttempts := 0;
             timers := []; draws := 0; console := []; delivered := [] |})).

(** [getInstance], lines 39-44, on the static field [instance]. *)
Definition getInstance (instance : option World) : World :=
  match instance with
  | Some w => w
  | None => construct
  end.

(** What can happen to the instance. *)
Inductive Event :=
| OnMessage (callback : nat) (now : Date)
| OnOpen (callback : option nat)
| OnError (callback : option nat)
| OnClose (callback : option nat)
| Send (data : jsstring)
| Connect
| Close (now : Date)
| RegisterResponseHandler (handler : nat) (now : Date)
| SendAuthMessage (token : jsstring)
| SimulateRealTimeUpdate
| FetchMockHistory
| Fire (t : nat) (now : Date).

Definition step (w : World) (e : Event) : World :=
  match e with
  | OnMessage callback now => onMessage callback now w
  | OnOpen callback => onOpen (option_map External callback) 0 w
  | OnError callback => onError (option_map External callback) w
  | OnClose callback => onClose (option_map External callback) w
  | Send data => send data w
  | Connect => connect w
  | Close now => close now w
  | RegisterResponseHandler handler now => registerResponseHandler handler now w
  | SendAuthMessage token => sendAuthMessage token w
  | SimulateRealTimeUpdate => simulateRealTimeUpdate w
  | FetchMockHistory => fetchMockHistory w
  | Fire t now => fire t now w
  end.

Definition run (es : list Event) : World := fold_left step es construct.

End Instance.

(** The keys [onMessage] gives. *)
Definition messageKey (k : jsstring) : bool := View.startsWith k (str "message-").

(** What holds of the instance whatever is done with it: [retryCount] is 0,
    and the message listeners, of which there is at most one, sit under
    keys made by [onMessage]. *)
Definition sound (w : World) : Prop :=
  retryCount w = 0 /\
  Forall (fun kv => messageKey (fst kv) = true) (messageListeners w) /\
  (List.length (messageListeners w) <= 1)%nat.

(** Two worlds with the same fields of the instance and the same timers. *)
Definition sameInstance (w w' : World) : Prop :=
  messageListeners w' = messageListeners w /\
  responseListeners w' = responseListeners w /\
  isConnected w' = isConnected w /\
  isConnecting w' = isConnecting w /\
  retryCount w' = retryCount w /\
  reconnectAttempts w' = reconnectAttempts w /\
  timers w' = timers w.

End Mock.

(* ===================================================================== *)
(** * The earlier component: [src/src/components/FloatButton/index.tsx] *)
(* ===================================================================== *)

(** After the floating button, that file holds an earlier version of the
    chat component (lines 38-631).  It has the same state cells except
    [connectionRetryCount] and [isAutoConnecting], which here keep their
    initial values, the same references, the same initial message and the
    same [encryptMessage]; its [decryptMessage], lines 164-170, lacks the
    test for HTML, whose two branches return the same value in the present
    one.  The worlds, the monad and the encoding are therefore shared with
    the present component.  Its toasts are recorded under the tags of the
    present ones; the text of [Disconnected] is longer here (line 403). *)
Module Legacy.

Local Open Scope chat_scope.

(** The Number a JSON number denotes is zero when its digits are all zero,
    or when it is so small that the nearest double is zero: at most
    [2^-1075], half of the least positive double. *)
Definition digitsValue (ds : list N) : Z :=
  fold_left (fun a d => 10 * a + Z.of_N (d - 48)) ds 0.

Definition numberIsZero (lexeme : jsstring) : bool :=
  let unsigned := match lexeme with
                  | 45%N :: r => r
                  | _ => lexeme
                  end in
  let (int, r1) := span_digits unsigned in
  let (frac, r2) := match r1 with
                    | 46%N :: r => span_digits r
                    | _ => ([], r1)
                    end in
  let exponent := match r2 with
                  | c :: r =>
                      if ((c =? 101) || (c =? 69))%N then
                        match r with
                        | 45%N :: ds => - digitsValue ds
                        | 43%N :: ds => digitsValue ds
                        | ds => digitsValue ds
                        end
                      else 0
                  | [] => 0
                  end in
  let m := digitsValue (int ++ frac) in
  let k := exponent - Z.of_nat (List.length frac) in
  (m =? 0) || ((k <? 0) && (m * 2 ^ 1075 <=? 10 ^ (- k))).

(** [ToBoolean], as applied by [if (data.content)]. *)
Definition toBoolean (v : jsval) : bool :=
  match v with
  | None => false
  | Some JNull => false
  | Some (JBool b) => b
  | Some (JNumber lexeme) => negb (numberIsZero lexeme)
  | Some (JString s) => truthy s
  | Some (JArray _) => true
  | Some (JObject _) => true
  end.

Section Component.

Variable P : Props.
Variable encodeURIComponent : jsstring -> result jsstring.
Variable urlAccepted : jsstring -> bool.
(** [DOMPurify.sanitize], taken as given.  It throws a [TypeError] for a
    value it cannot turn into a string. *)
Variable sanitize : json -> result jsstring.

(** [retryFailedMessage], lines 266-301: the message is sent again at once,
    not by a timer. *)
Definition retryFailedMessage (G : Closure) (messageId : jsstring) : M unit :=
  setRetryMessageId (Some messageId) ;;
  messageToRetry <- gets (fun w => registry_lookup messageId (failedMessagesRef (refs w))) ;;
  match messageToRetry with
  | Some m =>
      if c_isConnected G then
        setMessages (List.map (fun msg =>
          if jsstring_eqb (id msg) messageId then markRetrying msg else msg)) ;;
        try_catch
          (encryptedMessage <- lift (encode P m) ;;
           wsRef_send encryptedMessage ;;
           modify (with_refs (fun r =>
             with_failedMessagesRef (registry_delete messageId (failedMessagesRef r)) r)) ;;
           setRetryMessageId None)
          (notify RetrySendFailed ;; setRetryMessageId None)
      else ret tt
  | None => ret tt
  end.

(** [flushFailedMessages], lines 304-308. *)
Definition flushFailedMessages (G : Closure) : M unit :=
  values <- gets (fun w => List.map snd (failedMessagesRef (refs w))) ;;
  forEach values (fun message => retryFailedMessage G (id message)).

(** [sendMessage], lines 311-342.  Its parameter is named [message] and
    hides the [message] of antd inside the callback: the [catch] block ends
    with [message.error(...)], a call of the property [error] of the message
    to send, which is undefined, and so throws a [TypeError] out of the
    callback. *)
Definition sendMessage (G : Closure) (message : Message) : M unit :=
  if negb (c_isConnected G) then
    modify (with_refs (fun r =>
      with_messageQueueRef (messageQueueRef r ++ [message]) r))
  else
    try_catch
      (encryptedMessage <- lift (encode P message) ;;
       wsRef_send encryptedMessage ;;
       setMessages (List.map (fun msg =>
         if jsstring_eqb (id msg) (id message) then with_status sending msg
         else msg)))
      (setMessages (List.map (fun msg =>
         if jsstring_eqb (id msg) (id message) then with_status failed msg
         else msg)) ;;
       lift (Throw TypeError)).

(** [flushMessageQueue], lines 346-353.  Its only dependency is
    [isConnected], and [sendMessage] is re-created with it, so both read
    the same [isConnected]. *)
Definition flushMessageQueue (G : Closure) : M unit :=
  queue <- gets (fun w => messageQueueRef (refs w)) ;;
  if (0 <? Z.of_nat (List.length queue)) && c_isConnected G then
    forEach queue (sendMessage G) ;;
    modify (with_refs (with_messageQueueRef []))
  else ret tt.

(** [connectWebSocket], lines 356-419.  Its dependencies are properties,
    [decryptMessage], [flushFailedMessages] and [flushMessageQueue]; the last
    two are re-created when [isConnected] changes, and so is it. *)
Definition connectWebSocket (G : Closure) : M unit :=
  if c_isConnecting G || c_isConnected G then ret tt
  else
    setIsConnecting true ;;
    setError None ;;
    setShowErrorMessage false ;;
    try_catch
      (u <- lift (connectUrl P encodeURIComponent) ;;
       ws <- newWebSocket urlAccepted u G ;;
       modify (with_refs (with_wsRef (Some ws))))
      (setError (Some ConnectionInitFailed) ;;
       setIsConnecting false ;;
       setShowErrorMessage true).

(** [ws.onopen], lines 367-373. *)
Definition ws_onopen (G : Closure) : M unit :=
  setIsConnected true ;;
  setIsConnecting false ;;
  notify ConnectedToServer ;;
  flushMessageQueue G ;;
  flushFailedMessages G.

(** The updater that [ws.onmessage] gives to [setMessages]; [uuid] and
    [now] are what [uuidv4()] and [new Date()] return.  [DOMPurify.sanitize]
    is called in it. *)
Definition appendAnswer (v : json) (uuid : jsstring) (now : Date)
    (prev : list Message) : result (list Message) :=
  match sanitize v with
  | Ok text =>
      Ok (prev ++
          [{| id := uuid; content := Some (JString text); role := ai;
              timestamp := now; status := sent; retryCount := None |}])
  | Throw e => Throw e
  end.

(** [ws.onmessage], lines 374-394.  The property is read inside the [try],
    so a frame that holds [null] is caught like one that cannot be decoded;
    the updater runs when React renders, outside the [try]. *)
Definition ws_onmessage (G : Closure) (data : jsstring) (uuid : jsstring)
    (now : Date) : M unit :=
  try_catch
    (parsed <- lift (decode P data) ;;
     c <- lift (get_prop parsed (str "content")) ;;
     match c with
     | Some v =>
         if toBoolean c then setMessagesWith (appendAnswer v uuid now)
         else ret tt
     | None => ret tt
     end)
    (ret tt).

(** [ws.onerror], lines 395-399; [ws] is the socket the handler sits on. *)
Definition ws_onerror (G : Closure) (ws : nat) : M unit :=
  setError (Some ConnectionAbnormal) ;;
  socket_close ws.

(** [ws.onclose], lines 400-406. *)
Definition ws_onclose (G : Closure) : M unit :=
  setIsConnected false ;;
  setIsConnecting false ;;
  notify Disconnected ;;
  setError (Some ConnectionLost) ;;
  setShowErrorMessage true.

(** [handleSend], lines 422-437. *)
Definition handleSend (G : Closure) (inputValue : jsstring)
    (uuid : jsstring) (now : Date) : M unit :=
  if negb (truthy (trim inputValue)) || negb (c_isConnected G) then ret tt
  else
    let userMsg :=
      {| id := uuid; content := Some (JString inputValue); role := user;
         timestamp := now; status := sending; retryCount := None |} in
    setMessages (fun prev => prev ++ [userMsg]) ;;
    setInputValue [] ;;
    sendMessage G userMsg.

(** One render.  The callbacks are re-created exactly when [isConnected]
    differs from the one they were created with; they then capture the state
    of this render, and the effect of lines 440-450 runs again: its old
    cleanup, which closes [wsRef.current], then the new [connectWebSocket].
    That effect never sets [isConnected], so no further render re-creates
    them. *)
Definition render (w : World) : World :=
  if Bool.eqb (isConnected (st w)) (c_isConnected (memo w)) then w
  else
    let G := snapshot (st w) in
    exec (effectCleanup ;; connectWebSocket G) (with_memo G w).

(** Mounting: the first render, then the effect calls [connectWebSocket]. *)
Definition mount (uuid : jsstring) (now : Date) : World :=
  let w := initialWorld uuid now in
  render (exec (connectWebSocket (memo w)) w).

Inductive event :=
| SocketOpen (ws : nat)
| SocketMessage (ws : nat) (data : jsstring) (uuid : jsstring) (now : Date)
| SocketError (ws : nat)      (* an error event and the close event after it *)
| SocketClose (ws : nat)
| UserInput (value : jsstring)
| UserSend (uuid : jsstring) (now : Date)
| UserRetry (index : nat)     (* the retry icon of the message shown at [index] *)
| UserReconnect.

(** The handler an event runs, with the closure it was created in: socket
    handlers in the closure stored on the socket, the handlers of the user
    interface in the closure of the current render.  An event that cannot
    occur does nothing. *)
Definition handle (e : event) : M unit :=
  fun w =>
    match e with
    | SocketOpen ws =>
        match nth_error (sockets w) ws with
        | Some s =>
            match readyState s with
            | CONNECTING => (setReadyState ws OPEN ;; ws_onopen (handlers s)) w
            | _ => (Ok tt, w)
            end
        | None => (Ok tt, w)
        end
    | SocketMessage ws data uuid now =>
        match nth_error (sockets w) ws with
        | Some s =>
            match readyState s with
            | OPEN | CLOSING => ws_onmessage (handlers s) data uuid now w
            | _ => (Ok tt, w)
            end
        | None => (Ok tt, w)
        end
    | SocketError ws =>
        match nth_error (sockets w) ws with
        | Some s =>
            match readyState s with
            | CLOSED => (Ok tt, w)
            | _ => (setReadyState ws CLOSED ;;
                    ws_onerror (handlers s) ws ;;
                    ws_onclose (handlers s)) w
            end
        | None => (Ok tt, w)
        end
    | SocketClose ws =>
        match nth_error (sockets w) ws with
        | Some s =>
            match readyState s with
            | CLOSED => (Ok tt, w)
            | _ => (setReadyState ws CLOSED ;; ws_onclose (handlers s)) w
            end
        | None => (Ok tt, w)
        end
    | UserInput value => setInputValue value w
    | UserSend uuid now =>
        handleSend (snapshot (st w)) (inputValue (st w)) uuid now w
    | UserRetry index =>
        match nth_error (messages (st w)) index with
        | Some msg =>
            match status msg with
            | failed => retryFailedMessage (snapshot (st w)) (id msg) w
            | _ => (Ok tt, w)
            end
        | None => (Ok tt, w)
        end
    | UserReconnect =>
        if showErrorMessage (st w) then connectWebSocket (memo w) w
        else (Ok tt, w)
    end.

(** Unmounting runs the cleanup of the effect of lines 440-450, the only
    one that has a cleanup acting on the model. *)
Definition unmount : M unit := effectCleanup.

(** The events that still reach the callbacks of an unmounted component:
    those of its sockets. *)
Definition isTransport (e : event) : bool :=
  match e with
  | SocketOpen _ | SocketMessage _ _ _ _ | SocketError _ | SocketClose _ => true
  | _ => false
  end.

(** One event after the unmount: no render follows. *)
Definition stepDetached (w : World) (e : event) : World :=
  if isTransport e then exec (detached (handle e)) w else w.

(** One step: an event is handled, then React renders.  An exception that
    leaves a handler is reported and nothing more; when an updater throws
    in the render, React unmounts the component. *)
Definition step (w : World) (e : event) : World :=
  if crashed w then stepDetached w e
  else
    let w' := exec (handle e) w in
    if crashed w' then exec unmount w' else render w'.

Definition run (w : World) (es : list event) : World := fold_left step es w.

(** [k] connections in a row, each of which opens and then sees its close
    event; the sockets are numbered from [i]. *)
Fixpoint rounds (k i : nat) : list event :=
  match k with
  | O => []
  | S k' => SocketOpen i :: SocketClose i :: rounds k' (S i)
  end.

End Component.

(** What holds of the earlier component after every step: the callbacks are
    those of the present [isConnected]; no socket has been handed a frame,
    and the handlers of every socket were made while [isConnected] was
    false; the registry of failed messages is empty; and while [isConnected]
    is true the socket in [wsRef] is closing or closed. *)
Definition refClosed (w : World) : Prop :=
  match wsRef (refs w) with
  | Some n =>
      match nth_error (sockets w) n with
      | Some s => readyState s = CLOSING \/ readyState s = CLOSED
      | None => True
      end
  | None => True
  end.

Definition sound (w : World) : Prop :=
  isConnected (st w) = c_isConnected (memo w) /\
  Forall (fun s => sentFrames s = [] /\ c_isConnected (handlers s) = false)
    (sockets w) /\
  failedMessagesRef (refs w) = [] /\
  (c_isConnected (memo w) = true -> refClosed w).

(** The same between a handler and the render that follows it, when the
    callbacks in use were made with [isConnected = b]. *)
Definition tame (b : bool) (w : World) : Prop :=
  c_isConnected (memo w) = b /\
  Forall (fun s => sentFrames s = [] /\ c_isConnected (handlers s) = false)
    (sockets w) /\
  failedMessagesRef (refs w) = [] /\
  (b = true -> refClosed w).

Definition Rel_tame (b : bool) (w w' : World) : Prop := tame b w -> tame b w'.

(** The component is on the page and waits for its socket number [i] to
    open: all sockets before it are closed, and the callbacks in use were
    made while it was neither connected nor connecting. *)
Definition awaiting (i : nat) (w : World) : Prop :=
  crashed w = false /\
  isConnected (st w) = false /\
  isConnecting (st w) = true /\
  error (st w) = None /\
  showErrorMessage (st w) = false /\
  c_isConnected (memo w) = false /\
  c_isConnecting (memo w) = false /\
  wsRef (refs w) = Some i /\
  failedMessagesRef (refs w) = [] /\
  List.length (sockets w) = S i /\
  (exists s, nth_error (sockets w) i = Some s /\
             readyState s = CONNECTING /\ handlers s = memo w) /\
  (forall j s, (j < i)%nat -> nth_error (sockets w) j = Some s ->
               readyState s = CLOSED).

(** The component is on the page and shows itself connected through its
    socket number [i], which it has closed: the callbacks in use were made
    while it was connected, and the socket in [wsRef] is closing. *)
Definition undone (i : nat) (w : World) : Prop :=
  crashed w = false /\
  isConnected (st w) = true /\
  isConnecting (st w) = false /\
  c_isConnected (memo w) = true /\
  wsRef (refs w) = Some i /\
  failedMessagesRef (refs w) = [] /\
  List.length (sockets w) = S i /\
  (exists s, nth_error (sockets w) i = Some s /\ readyState s = CLOSING) /\
  (forall j s, (j < i)%nat -> nth_error (sockets w) j = Some s ->
               readyState s = CLOSED).

(** The component is on the page and has given up on its socket number
    [i]: every socket is closed, the error panel is shown, and the
    callbacks in use were made while it was neither connected nor
    connecting. *)
Definition idle (i : nat) (w : World) : Prop :=
  crashed w = false /\
  isConnected (st w) = false /\
  isConnecting (st w) = false /\
  showErrorMessage (st w) = true /\
  c_isConnected (memo w) = false /\
  c_isConnecting (memo w) = false /\
  failedMessagesRef (refs w) = [] /\
  List.length (sockets w) = S i /\
  (forall j s, nth_error (sockets w) j = Some s -> readyState s = CLOSED).

Definition isReconnect (e : event) : bool :=
  match e with
  | UserReconnect => true
  | _ => false
  end.

End Legacy.

(** Concrete inputs for the earlier component: a sanitizer that lets
    strings through and throws for an object, and the component mounted
    without a key. *)
Module LegacySamples.

Definition plainText (v : json) : result jsstring :=
  match v with
  | JString s => Ok s
  | JObject _ => Throw TypeError
  | _ => Ok []
  end.

Definition mounted : World := Legacy.mount P0 encURI acceptAll (str "g0") 0.

End LegacySamples.

(** Concrete inputs for the mock: a [Math.random] that always gives one
    half, a client identifier, and the instance once its constructor's
    timer has run and a listener has been registered. *)
Module MockSamples.

Definition half (n : nat) : Q := 1 # 2.
Definition client : jsstring := str "k3j9x".
Definition listening : Mock.World :=
  Mock.run half client [Mock.Fire 0 0; Mock.OnMessage 7 1].

End MockSamples.

(* ===================================================================== *)
(** * The transport codec *)
(* ===================================================================== *)

Section KnownValues.

(** The models of the built-ins, against values a browser gives. *)

Example btoa_hello : btoa (str "hello") = Ok (str "aGVsbG8=").
Proof. vm_compute. reflexivity. Qed.

Example atob_skips_white_space_and_padding :
  atob (str " aGVs bG8") = Ok (str "hello").
Proof. vm_compute. reflexivity. Qed.

Example atob_rejects_bad_length : atob (str "aGVsb") = Throw InvalidCharacterError.
Proof. vm_compute. reflexivity. Qed.

Example trim_both_ends : trim (9 :: str "  a b " ++ [12288; 10])%N = str "a b".
Proof. vm_compute. reflexivity. Qed.

Example toISOString_epoch : toISOString 0 = Ok (str "1970-01-01T00:00:00.000Z").
Proof. vm_compute. reflexivity. Qed.

Example toISOString_2023 :
  toISOString 1700000000000 = Ok (str "2023-11-14T22:13:20.000Z").
Proof. vm_compute. reflexivity. Qed.

Example toISOString_leap_day :
  toISOString 951782400000 = Ok (str "2000-02-29T00:00:00.000Z").
Proof. vm_compute. reflexivity. Qed.

Example toISOString_before_epoch :
  toISOString (-1) = Ok (str "1969-12-31T23:59:59.999Z").
Proof. vm_compute. reflexivity. Qed.

Example toISOString_last_date :
  toISOString 8640000000000000 = Ok (str "+275760-09-13T00:00:00.000Z").
Proof. vm_compute. reflexivity. Qed.

Example toISOString_invalid_date : toISOString 8640000000000001 = Throw RangeError.
Proof. vm_compute. reflexivity. Qed.

Example stringify_escapes :
  stringify (JString (str "a" ++ [34; 10; 55357; 20320])%N) =
  (34 :: str "a\" ++ 34 :: str "\n\ud83d" ++ [20320; 34])%N.
Proof. vm_compute. reflexivity. Qed.

Example JSON_parse_nested :
  JSON_parse (Samples.json_text " {'a' : [1.5e3, {'b':null}, '\u4f60'], 'c':true} ") =
  Ok (JObject [(str "a", JArray [JNumber (str "1.5e3");
                                 JObject [(str "b", JNull)];
                                 JString [20320%N]]);
               (str "c", JBool true)]).
Proof. vm_compute. reflexivity. Qed.

Example JSON_parse_duplicate_key :
  JSON_parse (Samples.json_text "{'a':1,'b':2,'a':3}") =
  Ok (JObject [(str "a", JNumber (str "3")); (str "b", JNumber (str "2"))]).
Proof. vm_compute. reflexivity. Qed.

Example JSON_parse_rejects :
  List.map JSON_parse [str "01"; str "[1,]"; str "{'a':1}"; str "nul"; str ""]
  = [Throw SyntaxError; Throw SyntaxError; Throw SyntaxError; Throw SyntaxError;
     Throw SyntaxError].
Proof. vm_compute. reflexivity. Qed.

(** The delays of the first attempts with the default properties. *)
Example default_backoff_delays :
  List.map (backoffDelay (defaultProps [])) [1; 2; 3; 4] = [4000; 8000; 10000; 10000].
Proof. vm_compute. reflexivity. Qed.

End KnownValues.

Section Key.

Lemma truthy_nonempty (s : jsstring) : s <> [] -> truthy s = true.
Proof. destruct s; [congruence | reflexivity]. Qed.

(** C10.  The value of a non-empty key is not observable: under any two
    non-empty keys [encryptMessage] gives the same result on every text, and
    so does [decryptMessage]; only whether the key is empty matters. *)
Theorem key_value_not_observable (P1 P2 : Props) (p : jsstring) :
  encryptionKey P1 <> [] -> encryptionKey P2 <> [] ->
  encryptMessage P1 p = encryptMessage P2 p /\
  decryptMessage P1 p = decryptMessage P2 p.
Proof.
  intros H1 H2. unfold encryptMessage, decryptMessage.
  rewrite (truthy_nonempty _ H1), (truthy_nonempty _ H2). split; reflexivity.
Qed.

(** C10 at a concrete input: the keys [a] and [secret]. *)
Lemma key_value_not_observable_witness :
  encryptMessage Samples.keyA (str "aGk=") = encryptMessage Samples.keyB (str "aGk=") /\
  decryptMessage Samples.keyA (str "aGk=") = decryptMessage Samples.keyB (str "aGk=").
Proof.
  apply (@key_value_not_observable Samples.keyA Samples.keyB (str "aGk=")); discriminate.
Defined.
End Key.

Section CodecProofs.
Local Open Scope N_scope.

Ltac Zify.zify_post_hook ::= Z.to_euclidean_division_equations.

Section Base64.

(** A property of all numbers below a bound, checked by enumeration. *)
Lemma below_forallb (f : N -> bool) (k : nat) :
  forallb f (List.map N.of_nat (seq 0 k)) = true ->
  forall n, n < N.of_nat k -> f n = true.
Proof.
  intros H n Hn. rewrite forallb_forall in H. apply H.
  apply in_map_iff. exists (N.to_nat n). split; [apply N2Nat.id|].
  apply in_seq. lia.
Qed.

Lemma b64val_b64char (n : N) : n < 64 -> b64val (b64char n) = Some n.
Proof.
  intros H.
  pose proof (below_forallb
    (fun n => match b64val (b64char n) with Some m => m =? n | None => false end)
    64 eq_refl n H) as K.
  cbv beta in K. destruct (b64val (b64char n)); [|discriminate].
  apply N.eqb_eq in K. now subst.
Qed.

Lemma b64char_plain (n : N) :
  n < 64 -> isAsciiWhitespace (b64char n) = false /\ (b64char n =? pad) = false.
Proof.
  intros H.
  pose proof (below_forallb
    (fun n => negb (isAsciiWhitespace (b64char n)) && negb (b64char n =? pad))
    64 eq_refl n H) as K.
  cbv beta in K. apply andb_true_iff in K. destruct K as [K1 K2].
  apply negb_true_iff in K1, K2. auto.
Qed.

Lemma list_ind3 {A : Type} (Q : list A -> Prop) :
  Q [] -> (forall a, Q [a]) -> (forall a b, Q [a; b]) ->
  (forall a b c r, Q r -> Q (a :: b :: c :: r)) ->
  forall l, Q l.
Proof.
  intros H0 H1 H2 H3.
  assert (K : forall l, Q l /\ (forall a, Q (a :: l)) /\ (forall a b, Q (a :: b :: l))).
  { induction l as [|x l (I0 & I1 & I2)]; [auto|].
    split; [apply I1|]. split; [intro a; apply I2|]. intros a b. now apply H3. }
  intro l. apply K.
Qed.

Lemma raw_sextets_bound (s : list N) :
  latin1 s -> Forall (fun v => v < 64) (raw_sextets s).
Proof.
  unfold latin1. induction s as [|a|a b|a b c r IH] using list_ind3; intros H; cbn.
  - constructor.
  - inversion H; subst. repeat constructor; lia.
  - inversion H as [|? ? Ha H1]; subst. inversion H1; subst.
    repeat constructor; lia.
  - inversion H as [|? ? Ha H1]; subst. inversion H1 as [|? ? Hb H2]; subst.
    inversion H2 as [|? ? Hc H3]; subst.
    repeat (constructor; [lia|]). apply IH, H3.
Qed.

Lemma b64dec_raw_sextets (s : list N) : latin1 s -> b64dec (raw_sextets s) = s.
Proof.
  unfold latin1. induction s as [|a|a b|a b c r IH] using list_ind3; intros H.
  - reflexivity.
  - inversion H; subst. cbn. f_equal. lia.
  - inversion H as [|? ? Ha H1]; subst. inversion H1; subst.
    cbn. f_equal; [lia|]. f_equal. lia.
  - inversion H as [|? ? Ha H1]; subst. inversion H1 as [|? ? Hb H2]; subst.
    inversion H2 as [|? ? Hc H3]; subst.
    cbn [raw_sextets b64dec]. rewrite (IH H3).
    f_equal; [lia|]. f_equal; [lia|]. f_equal. lia.
Qed.

Lemma sextets_map_b64char (v : list N) :
  Forall (fun x => x < 64) v -> sextets (List.map b64char v) = Some v.
Proof.
  induction 1 as [|x v Hx Hv IH]; cbn; [reflexivity|].
  now rewrite (b64val_b64char x Hx), IH.
Qed.

Lemma length_raw_sextets (s : list N) :
  N.of_nat (List.length (raw_sextets s)) mod 4 <> 1.
Proof.
  induction s as [|a|a b|a b c r IH] using list_ind3; cbn [raw_sextets List.length].
  - cbn. discriminate.
  - cbn. discriminate.
  - cbn. discriminate.
  - lia.
Qed.

Lemma length_b64enc (s : list N) : N.of_nat (List.length (b64enc s)) mod 4 = 0.
Proof.
  induction s as [|a|a b|a b c r IH] using list_ind3; cbn [b64enc List.length];
    try reflexivity.
  lia.
Qed.

(** Padding apart, the encoding is the characters of the sextets. *)
Lemma strip_pad_app (pre x : list N) :
  N.of_nat (List.length pre) mod 4 = 0 -> (2 <= List.length x)%nat ->
  strip_pad (pre ++ x) = pre ++ strip_pad x.
Proof.
  intros Hp Hx. unfold strip_pad.
  replace (N.of_nat (List.length (pre ++ x)) mod 4)
    with (N.of_nat (List.length x) mod 4) by (rewrite length_app; lia).
  destruct (N.of_nat (List.length x) mod 4 =? 0); [|reflexivity].
  rewrite rev_app_distr.
  destruct (rev x) as [|p [|q r]] eqn:E.
  - apply (f_equal (@List.length N)) in E. rewrite length_rev in E. cbn in E. lia.
  - apply (f_equal (@List.length N)) in E. rewrite length_rev in E. cbn in E. lia.
  - cbn [app]. destruct (p =? pad); [|reflexivity].
    destruct (q =? pad).
    + now rewrite rev_app_distr, rev_involutive.
    + change (q :: r ++ rev pre) with ((q :: r) ++ rev pre).
      now rewrite rev_app_distr, rev_involutive.
Qed.

Lemma strip_pad_b64enc (s : list N) :
  latin1 s -> strip_pad (b64enc s) = List.map b64char (raw_sextets s).
Proof.
  unfold latin1. induction s as [|a|a b|a b c r IH] using list_ind3; intros H.
  - reflexivity.
  - inversion H; subst. unfold strip_pad. cbn. reflexivity.
  - inversion H as [|? ? Ha H1]; subst. inversion H1; subst.
    unfold strip_pad. cbn -[b64char N.div N.modulo N.mul N.add].
    rewrite N.eqb_refl.
    destruct (b64char_plain ((b mod 16) * 4)) as [_ K]; [lia|]. rewrite K.
    reflexivity.
  - inversion H as [|? ? Ha H1]; subst. inversion H1 as [|? ? Hb H2]; subst.
    inversion H2 as [|? ? Hc H3]; subst.
    cbn [b64enc raw_sextets List.map].
    destruct r as [|d r'].
    + unfold strip_pad. cbn -[b64char N.div N.modulo N.mul N.add].
      destruct (b64char_plain (c mod 64)) as [_ K]; [lia|]. rewrite K.
      reflexivity.
    + match goal with |- strip_pad (?x1 :: ?x2 :: ?x3 :: ?x4 :: ?t) = _ =>
        change (x1 :: x2 :: x3 :: x4 :: t) with ([x1; x2; x3; x4] ++ t)
      end.
      rewrite strip_pad_app; [cbn [app]; now rewrite (IH H3) | reflexivity |].
      clear. destruct r' as [|e [|f r'']]; cbn [b64enc List.length]; lia.
Qed.

Lemma b64enc_plain (s : list N) :
  latin1 s ->
  filter (fun c => negb (isAsciiWhitespace c)) (b64enc s) = b64enc s.
Proof.
  unfold latin1.
  assert (Kp : negb (isAsciiWhitespace pad) = true) by reflexivity.
  assert (Kc : forall n, n < 64 -> negb (isAsciiWhitespace (b64char n)) = true).
  { intros n Hn. destruct (b64char_plain n Hn) as [K _]. now rewrite K. }
  induction s as [|a|a b|a b c r IH] using list_ind3; intros H.
  - reflexivity.
  - inversion H; subst. cbn [b64enc filter].
    rewrite !Kc, Kp by lia. reflexivity.
  - inversion H as [|? ? Ha H1]; subst. inversion H1; subst.
    cbn [b64enc filter]. rewrite !Kc, Kp by lia. reflexivity.
  - inversion H as [|? ? Ha H1]; subst. inversion H1 as [|? ? Hb H2]; subst.
    inversion H2 as [|? ? Hc H3]; subst.
    cbn [b64enc filter]. rewrite !Kc by lia. now rewrite (IH H3).
Qed.

(** [atob] undoes [btoa]. *)
Lemma atob_b64enc (s : jsstring) : latin1 s -> atob (b64enc s) = Ok s.
Proof.
  intros H. unfold atob.
  rewrite (b64enc_plain s H), (strip_pad_b64enc s H), length_map.
  pose proof (length_raw_sextets s) as L.
  replace (N.of_nat (List.length (raw_sextets s)) mod 4 =? 1) with false
    by (symmetry; apply N.eqb_neq; exact L).
  rewrite (sextets_map_b64char _ (raw_sextets_bound s H)).
  now rewrite (b64dec_raw_sextets s H).
Qed.

Lemma btoa_latin1 (s : jsstring) : latin1 s -> btoa s = Ok (b64enc s).
Proof.
  intros H. unfold btoa.
  replace (existsb (fun c => 255 <? c) s) with false; [reflexivity|].
  symmetry. apply not_true_is_false. intros E.
  apply existsb_exists in E. destruct E as (c & Hin & Hc).
  unfold latin1 in H. rewrite Forall_forall in H. specialize (H c Hin).
  apply N.ltb_lt in Hc. lia.
Qed.

Lemma btoa_throws (s : jsstring) (c : N) :
  In c s -> 255 < c -> btoa s = Throw InvalidCharacterError.
Proof.
  intros Hin Hc. unfold btoa.
  replace (existsb (fun c => 255 <? c) s) with true; [reflexivity|].
  symmetry. apply existsb_exists. exists c. split; [exact Hin|].
  now apply N.ltb_lt.
Qed.

End Base64.

Section JsonStrings.

Lemma hexval_hexdigit (n : N) : n < 16 -> hexval (hexdigit n) = Some n.
Proof.
  intros H.
  pose proof (below_forallb
    (fun n => match hexval (hexdigit n) with Some m => m =? n | None => false end)
    16 eq_refl n H) as K.
  cbv beta in K. destruct (hexval (hexdigit n)); [|discriminate].
  apply N.eqb_eq in K. now subst.
Qed.

Lemma hex4_digits (c : N) :
  c < 65536 ->
  hex4 (hexdigit (c / 4096)) (hexdigit ((c / 256) mod 16))
       (hexdigit ((c / 16) mod 16)) (hexdigit (c mod 16)) = Some c.
Proof.
  intros H. unfold hex4.
  rewrite !hexval_hexdigit by lia. f_equal. lia.
Qed.

(** Reading back a [\u] escape. *)
Lemma parse_uescape (c : N) (x : list N) :
  c < 65536 ->
  parse_string_body (uescape c ++ x) = cons_char c (parse_string_body x).
Proof.
  intros H. unfold uescape. cbn [app parse_string_body].
  cbn [N.eqb Pos.eqb]. rewrite (hex4_digits c H). reflexivity.
Qed.

Lemma parse_literal (c : N) (x : list N) :
  c <> 34 -> c <> 92 -> 32 <= c ->
  parse_string_body (c :: x) = cons_char c (parse_string_body x).
Proof.
  intros H1 H2 H3. cbn [parse_string_body].
  replace (c =? 34) with false by (symmetry; now apply N.eqb_neq).
  replace (c =? 92) with false by (symmetry; now apply N.eqb_neq).
  replace (c <? 32) with false by (symmetry; apply N.ltb_ge; exact H3).
  reflexivity.
Qed.

Lemma surrogate_bounds (c : N) :
  (isLeadSurrogate c = true -> 55296 <= c <= 56319) /\
  (isTrailSurrogate c = true -> 56320 <= c <= 57343).
Proof.
  unfold isLeadSurrogate, isTrailSurrogate. split; intros H;
    apply andb_true_iff in H; destruct H as [H1 H2];
    apply N.leb_le in H1, H2; lia.
Qed.

(** [JSON.parse] reads back what QuoteJSONString wrote, whatever follows the
    closing quote. *)
Lemma parse_quote_body (s : jsstring) (rest : list N) :
  parse_string_body (quote_body s ++ 34 :: rest) = Some (s, rest).
Proof.
  remember (List.length s) as n eqn:Hn.
  assert (Hle : (List.length s <= n)%nat) by lia. clear Hn.
  revert s Hle. induction n as [|n IH]; intros s Hle.
  - destruct s; [reflexivity | cbn in Hle; lia].
  - destruct s as [|c r]; [reflexivity|].
    assert (Hr : parse_string_body (quote_body r ++ 34 :: rest) = Some (r, rest))
      by (apply IH; cbn in Hle; lia).
    cbn [quote_body].
    destruct (N.eqb_spec c 8) as [->|N8];
      [cbn [app parse_string_body]; cbn -[parse_string_body quote_body];
       now rewrite Hr|].
    destruct (N.eqb_spec c 9) as [->|N9];
      [cbn [app parse_string_body]; cbn -[parse_string_body quote_body];
       now rewrite Hr|].
    destruct (N.eqb_spec c 10) as [->|N10];
      [cbn [app parse_string_body]; cbn -[parse_string_body quote_body];
       now rewrite Hr|].
    destruct (N.eqb_spec c 12) as [->|N12];
      [cbn [app parse_string_body]; cbn -[parse_string_body quote_body];
       now rewrite Hr|].
    destruct (N.eqb_spec c 13) as [->|N13];
      [cbn [app parse_string_body]; cbn -[parse_string_body quote_body];
       now rewrite Hr|].
    destruct (N.eqb_spec c 34) as [->|N34];
      [cbn [app parse_string_body]; cbn -[parse_string_body quote_body];
       now rewrite Hr|].
    destruct (N.eqb_spec c 92) as [->|N92];
      [cbn [app parse_string_body]; cbn -[parse_string_body quote_body];
       now rewrite Hr|].
    destruct (N.ltb_spec c 32) as [L32|G32].
    { rewrite <- app_assoc, parse_uescape by lia. now rewrite Hr. }
    destruct (isLeadSurrogate c) eqn:Lead.
    { apply (proj1 (surrogate_bounds c)) in Lead.
      destruct r as [|d r'].
      - rewrite parse_uescape by lia. reflexivity.
      - destruct (isTrailSurrogate d) eqn:Trail.
        + apply (proj2 (surrogate_bounds d)) in Trail.
          cbn [app]. rewrite parse_literal by lia.
          rewrite parse_literal by lia.
          rewrite IH by (cbn in Hle; lia). reflexivity.
        + rewrite <- app_assoc, parse_uescape by lia. now rewrite Hr. }
    destruct (isTrailSurrogate c) eqn:Trail.
    { apply (proj2 (surrogate_bounds c)) in Trail.
      rewrite <- app_assoc, parse_uescape by lia. now rewrite Hr. }
    cbn [app]. rewrite parse_literal by assumption. now rewrite Hr.
Qed.

(** The quoted form of a Latin-1 string is Latin-1 (escapes are ASCII). *)
Lemma hexdigit_small (n : N) : n < 16 -> hexdigit n <= 255.
Proof. intros H. unfold hexdigit. destruct (n <? 10); lia. Qed.

Lemma uescape_latin1 (c : N) : c < 65536 -> latin1 (uescape c).
Proof.
  intros H. unfold latin1, uescape.
  repeat constructor; try lia; apply hexdigit_small; lia.
Qed.

Lemma quote_body_latin1 (s : jsstring) : latin1 s -> latin1 (quote_body s).
Proof.
  unfold latin1. induction 1 as [|c r Hc Hr IH]; [constructor|].
  assert (Hu : Forall (fun c => c <= 255) (uescape c ++ quote_body r)).
  { apply Forall_app. split; [apply uescape_latin1; lia | exact IH]. }
  cbn [quote_body].
  destruct (isLeadSurrogate c) eqn:Lead.
  { apply (proj1 (surrogate_bounds c)) in Lead. lia. }
  repeat match goal with
  | |- Forall _ (if ?b then _ else _) => destruct b
  | |- Forall _ (_ :: _ :: quote_body r) => constructor; [lia|constructor; [lia|]]
  | |- Forall _ (_ :: quote_body r) => constructor; [lia|]
  end; assumption.
Qed.

End JsonStrings.

Section JsonFuel.

Lemma skip_ws_length (s : list N) : (List.length (skip_ws s) <= List.length s)%nat.
Proof.
  induction s as [|c r IH]; cbn [skip_ws]; [lia|].
  destruct (isJsonWs c); cbn [List.length]; lia.
Qed.

Lemma cons_char_length (c : N) (p : option (jsstring * list N)) (x : jsstring)
    (rest : list N) (n : nat) :
  cons_char c p = Some (x, rest) ->
  (forall y, p = Some (y, rest) -> (List.length rest < n)%nat) ->
  (List.length rest < n)%nat.
Proof.
  intros H K. destruct p as [[y r]|]; cbn in H; [|discriminate].
  inversion H; subst. now apply (K y).
Qed.

Lemma parse_string_body_length (s : list N) (x : jsstring) (rest : list N) :
  parse_string_body s = Some (x, rest) -> (List.length rest < List.length s)%nat.
Proof.
  remember (List.length s) as n eqn:Hn.
  assert (Hle : (List.length s <= n)%nat) by lia.
  rewrite Hn. clear Hn. revert s x Hle.
  induction n as [|n IH]; intros s x Hle H.
  - destruct s; [discriminate | cbn in Hle; lia].
  - destruct s as [|c r]; [discriminate|]. cbn [parse_string_body] in H.
    cbn [List.length] in *.
    destruct (c =? 34); [inversion H; subst; lia|].
    destruct (c =? 92).
    + destruct r as [|e r1]; [discriminate|]. cbn [List.length] in *.
      destruct (e =? 117).
      * destruct r1 as [|h1 [|h2 [|h3 [|h4 r2]]]]; try discriminate.
        cbn [List.length] in *.
        destruct (hex4 h1 h2 h3 h4); [|discriminate].
        destruct (parse_string_body r2) as [[y r']|] eqn:E; cbn in H; [|discriminate].
        inversion H; subst. apply IH in E; lia.
      * destruct (unescape e); [|discriminate].
        destruct (parse_string_body r1) as [[y r']|] eqn:E; cbn in H; [|discriminate].
        inversion H; subst. apply IH in E; lia.
    + destruct (c <? 32); [discriminate|].
      destruct (parse_string_body r) as [[y r']|] eqn:E; cbn in H; [|discriminate].
      inversion H; subst. apply IH in E; lia.
Qed.

Lemma span_digits_length (s d rest : list N) :
  span_digits s = (d, rest) -> (List.length rest <= List.length s)%nat.
Proof.
  revert d rest. induction s as [|c r IH]; intros d rest H; cbn in H.
  - inversion H. cbn. lia.
  - destruct (isDigit c).
    + destruct (span_digits r) as [d' rest'] eqn:E. inversion H; subst.
      specialize (IH _ _ eq_refl). cbn. lia.
    + inversion H; subst. lia.
Qed.

Lemma digits1_length (s d rest : list N) :
  digits1 s = Some (d, rest) -> (List.length rest <= List.length s)%nat.
Proof.
  unfold digits1. intros H. destruct (span_digits s) as [d' rest'] eqn:E.
  apply span_digits_length in E. destruct d'; inversion H; subst. exact E.
Qed.

Lemma parse_number_length (s l rest : list N) :
  parse_number s = Some (l, rest) -> (List.length rest < List.length s)%nat.
Proof.
  unfold parse_number. intros H.
  set (p := match s with 45 :: r => ([45], r) | _ => ([], s) end) in H.
  assert (Hp : (List.length (snd p) <= List.length s)%nat).
  { unfold p. destruct s as [|c r]; [cbn; lia|].
    destruct c as [|q]; [cbn; lia|].
    do 6 (destruct q as [q|q|]; try (cbn; lia)). }
  destruct p as [sign s1]. cbn [snd] in Hp.
  destruct (parse_int_part s1) as [[i s2]|] eqn:Ei; [|discriminate].
  assert (H2 : (List.length s2 < List.length s1)%nat).
  { unfold parse_int_part in Ei. destruct s1 as [|c r]; [discriminate|].
    destruct (c =? 48); [inversion Ei; subst; cbn; lia|].
    destruct (isDigit c); [|discriminate].
    destruct (span_digits r) as [d rest'] eqn:E. inversion Ei; subst.
    apply span_digits_length in E. cbn. lia. }
  destruct (parse_frac s2) as [[f s3]|] eqn:Ef; [|discriminate].
  assert (H3 : (List.length s3 <= List.length s2)%nat).
  { unfold parse_frac in Ef. destruct s2 as [|c r]; [inversion Ef; subst; lia|].
    assert (K : forall r0, digits1 r0 = None \/ exists d rest0, digits1 r0 = Some (d, rest0))
      by (intro r0; destruct (digits1 r0) as [[d0 rest0]|]; eauto).
    destruct c as [|q]; [inversion Ef; subst; lia|].
    do 6 (destruct q as [q|q|]; try (inversion Ef; subst; cbn; lia)).
    destruct (digits1 r) as [[d rest']|] eqn:E; [|discriminate].
    inversion Ef; subst. apply digits1_length in E. cbn. lia. }
  destruct (parse_exp s3) as [[e s4]|] eqn:Ee; [|discriminate].
  assert (H4 : (List.length s4 <= List.length s3)%nat).
  { unfold parse_exp in Ee. destruct s3 as [|c r]; [inversion Ee; subst; lia|].
    destruct ((c =? 101) || (c =? 69)); [|inversion Ee; subst; lia].
    set (q := match r with
              | g :: r' => if (g =? 43) || (g =? 45) then ([g], r') else ([], r)
              | [] => ([], r)
              end) in Ee.
    assert (Hq : (List.length (snd q) <= List.length r)%nat).
    { unfold q. destruct r as [|g r']; [cbn; lia|].
      destruct ((g =? 43) || (g =? 45)); cbn; lia. }
    destruct q as [sg r1]. cbn [snd] in Hq.
    destruct (digits1 r1) as [[d rest']|] eqn:E; [|discriminate].
    inversion Ee; subst. apply digits1_length in E. cbn. lia. }
  inversion H; subst. lia.
Qed.

Lemma strip_prefix_length (p s rest : list N) :
  strip_prefix p s = Some rest -> (List.length rest <= List.length s)%nat.
Proof.
  revert s. induction p as [|a p IH]; intros s H; cbn in H.
  - destruct s; inversion H; subst; lia.
  - destruct s as [|b s']; [discriminate|].
    destruct (a =? b); [|discriminate]. apply IH in H. cbn. lia.
Qed.

End JsonFuel.

Section JsonFuelAdequacy.

(** A match on a literal character, read as a test. *)
Ltac literal_cases d :=
  destruct d as [|d]; [reflexivity|];
  do 8 (try (destruct d as [d|d|]; try reflexivity)).

Lemma parse_value_step (f : nat) (s : list N) :
  parse_value (S f) s =
  match skip_ws s with
  | [] => None
  | c :: r =>
      if c =? 34 then
        match parse_string_body r with
        | Some (x, rest) => Some (JString x, rest)
        | None => None
        end
      else if c =? 123 then
        match skip_ws r with
        | d :: rest => if d =? 125 then Some (JObject [], rest)
                       else parse_members f r []
        | [] => parse_members f r []
        end
      else if c =? 91 then
        match skip_ws r with
        | d :: rest => if d =? 93 then Some (JArray [], rest)
                       else parse_elems f r []
        | [] => parse_elems f r []
        end
      else if c =? 116 then
        match strip_prefix (str "rue") r with
        | Some rest => Some (JBool true, rest)
        | None => None
        end
      else if c =? 102 then
        match strip_prefix (str "alse") r with
        | Some rest => Some (JBool false, rest)
        | None => None
        end
      else if c =? 110 then
        match strip_prefix (str "ull") r with
        | Some rest => Some (JNull, rest)
        | None => None
        end
      else
        match parse_number (c :: r) with
        | Some (l, rest) => Some (JNumber l, rest)
        | None => None
        end
  end.
Proof.
  cbn [parse_value]. destruct (skip_ws s) as [|c r]; [reflexivity|].
  destruct (c =? 34); [reflexivity|].
  destruct (c =? 123).
  { destruct (skip_ws r) as [|d rest]; [reflexivity|]. literal_cases d. }
  destruct (c =? 91); [|reflexivity].
  destruct (skip_ws r) as [|d rest]; [reflexivity|]. literal_cases d.
Qed.

Lemma parse_members_step (f : nat) (s : list N) (acc : list (jsstring * json)) :
  parse_members (S f) s acc =
  match skip_ws s with
  | [] => None
  | c :: r =>
      if c =? 34 then
        match parse_string_body r with
        | None => None
        | Some (k, r1) =>
            match skip_ws r1 with
            | [] => None
            | c2 :: r2 =>
                if c2 =? 58 then
                  match parse_value f r2 with
                  | None => None
                  | Some (v, r3) =>
                      match skip_ws r3 with
                      | [] => None
                      | c4 :: r4 =>
                          if c4 =? 44 then parse_members f r4 (obj_set k v acc)
                          else if c4 =? 125 then Some (JObject (obj_set k v acc), r4)
                          else None
                      end
                  end
                else None
            end
        end
      else None
  end.
Proof.
  cbn [parse_members]. destruct (skip_ws s) as [|c r]; [reflexivity|].
  destruct (N.eqb_spec c 34) as [->|Hc].
  - destruct (parse_string_body r) as [[k r1]|]; [|reflexivity].
    destruct (skip_ws r1) as [|c2 r2]; [reflexivity|].
    destruct (N.eqb_spec c2 58) as [->|Hc2].
    + destruct (parse_value f r2) as [[v r3]|]; [|reflexivity].
      destruct (skip_ws r3) as [|c4 r4]; [reflexivity|]. literal_cases c4.
    + destruct c2 as [|d]; [reflexivity|].
      do 8 (try (destruct d as [d|d|]; try reflexivity)). congruence.
  - destruct c as [|d]; [reflexivity|].
    do 8 (try (destruct d as [d|d|]; try reflexivity)). congruence.
Qed.

Lemma parse_elems_step (f : nat) (s : list N) (acc : list json) :
  parse_elems (S f) s acc =
  match parse_value f s with
  | None => None
  | Some (v, r1) =>
      match skip_ws r1 with
      | [] => None
      | c :: r2 =>
          if c =? 44 then parse_elems f r2 (acc ++ [v])
          else if c =? 93 then Some (JArray (acc ++ [v]), r2)
          else None
      end
  end.
Proof.
  cbn [parse_elems]. destruct (parse_value f s) as [[v r1]|]; [|reflexivity].
  destruct (skip_ws r1) as [|c r2]; [reflexivity|]. literal_cases c.
Qed.

(** A parse that succeeds consumes something, and succeeds alike with any
    fuel of at least twice the length of the text (one more for a list of
    array elements). *)
Lemma parser_fuel (f : nat) :
  (forall s v rest, parse_value f s = Some (v, rest) ->
     (List.length rest < List.length s)%nat /\
     forall f', (2 * List.length s <= f')%nat -> parse_value f' s = Some (v, rest))
  /\
  (forall s acc v rest, parse_members f s acc = Some (v, rest) ->
     (List.length rest < List.length s)%nat /\
     forall f', (2 * List.length s <= f')%nat ->
       parse_members f' s acc = Some (v, rest))
  /\
  (forall s acc v rest, parse_elems f s acc = Some (v, rest) ->
     (List.length rest < List.length s)%nat /\
     forall f', (2 * List.length s + 1 <= f')%nat ->
       parse_elems f' s acc = Some (v, rest)).
Proof.
  induction f as [|f (IHv & IHm & IHe)].
  { repeat split; intros; discriminate. }
  split; [|split].
  - (* values *)
    intros s v rest H. rewrite parse_value_step in H.
    pose proof (skip_ws_length s) as Ls.
    destruct (skip_ws s) as [|c r] eqn:Es; [discriminate|].
    cbn [List.length] in Ls.
    assert (Hf : forall f', (2 * List.length s <= f')%nat -> exists g,
              f' = S g /\ (2 * List.length r + 1 <= g)%nat).
    { intros f' Hf'. destruct f' as [|g]; [lia|]. exists g. split; [reflexivity | lia]. }
    destruct (c =? 34) eqn:E34.
    { destruct (parse_string_body r) as [[x r']|] eqn:Ep; [|discriminate].
      inversion H; subst. pose proof (parse_string_body_length _ _ _ Ep) as Lp.
      split; [lia|]. intros f' Hf'. destruct (Hf f' Hf') as (g & -> & _).
      rewrite parse_value_step, Es, E34, Ep. reflexivity. }
    destruct (c =? 123) eqn:E123.
    { pose proof (skip_ws_length r) as Lr.
      assert (K : (List.length rest < List.length s)%nat /\
                  forall g, (2 * List.length r + 1 <= g)%nat ->
                    match skip_ws r with
                    | d :: rest0 => if d =? 125 then Some (JObject [], rest0)
                                    else parse_members g r []
                    | [] => parse_members g r []
                    end = Some (v, rest)).
      { destruct (skip_ws r) as [|d r0] eqn:Er.
        - destruct (IHm _ _ _ _ H) as [L K]. split; [lia|].
          intros g Hg. apply K. lia.
        - cbn [List.length] in Lr. destruct (d =? 125).
          + inversion H; subst. split; [lia|]. reflexivity.
          + destruct (IHm _ _ _ _ H) as [L K]. split; [lia|].
            intros g Hg. apply K. lia. }
      destruct K as [L K]. split; [exact L|].
      intros f' Hf'. destruct (Hf f' Hf') as (g & -> & Hg).
      rewrite parse_value_step, Es, E34, E123. apply K, Hg. }
    destruct (c =? 91) eqn:E91.
    { pose proof (skip_ws_length r) as Lr.
      assert (K : (List.length rest < List.length s)%nat /\
                  forall g, (2 * List.length r + 1 <= g)%nat ->
                    match skip_ws r with
                    | d :: rest0 => if d =? 93 then Some (JArray [], rest0)
                                    else parse_elems g r []
                    | [] => parse_elems g r []
                    end = Some (v, rest)).
      { destruct (skip_ws r) as [|d r0] eqn:Er.
        - destruct (IHe _ _ _ _ H) as [L K]. split; [lia|].
          intros g Hg. apply K. lia.
        - cbn [List.length] in Lr. destruct (d =? 93).
          + inversion H; subst. split; [lia|]. reflexivity.
          + destruct (IHe _ _ _ _ H) as [L K]. split; [lia|].
            intros g Hg. apply K. lia. }
      destruct K as [L K]. split; [exact L|].
      intros f' Hf'. destruct (Hf f' Hf') as (g & -> & Hg).
      rewrite parse_value_step, Es, E34, E123, E91. apply K, Hg. }
    assert (Hrest : forall X : option (json * list N),
      X = Some (v, rest) ->
      (List.length rest < List.length s)%nat ->
      (forall g, parse_value (S g) s = X) ->
      (List.length rest < List.length s)%nat /\
      forall f', (2 * List.length s <= f')%nat -> parse_value f' s = Some (v, rest)).
    { intros X HX L HS. split; [exact L|]. intros f' Hf'.
      destruct (Hf f' Hf') as (g & -> & _). now rewrite HS. }
    destruct (c =? 116) eqn:E116.
    { destruct (strip_prefix (str "rue") r) as [r'|] eqn:Ep; [|discriminate].
      inversion H; subst. pose proof (strip_prefix_length _ _ _ Ep) as Lp.
      apply (Hrest (Some (JBool true, rest)) eq_refl); [lia|].
      intros g. rewrite parse_value_step, Es, E34, E123, E91, E116, Ep. reflexivity. }
    destruct (c =? 102) eqn:E102.
    { destruct (strip_prefix (str "alse") r) as [r'|] eqn:Ep; [|discriminate].
      inversion H; subst. pose proof (strip_prefix_length _ _ _ Ep) as Lp.
      apply (Hrest (Some (JBool false, rest)) eq_refl); [lia|].
      intros g. rewrite parse_value_step, Es, E34, E123, E91, E116, E102, Ep.
      reflexivity. }
    destruct (c =? 110) eqn:E110.
    { destruct (strip_prefix (str "ull") r) as [r'|] eqn:Ep; [|discriminate].
      inversion H; subst. pose proof (strip_prefix_length _ _ _ Ep) as Lp.
      apply (Hrest (Some (JNull, rest)) eq_refl); [lia|].
      intros g. rewrite parse_value_step, Es, E34, E123, E91, E116, E102, E110, Ep.
      reflexivity. }
    destruct (parse_number (c :: r)) as [[l r']|] eqn:Ep; [|discriminate].
    inversion H; subst. pose proof (parse_number_length _ _ _ Ep) as Lp.
    cbn [List.length] in Lp.
    apply (Hrest (Some (JNumber l, rest)) eq_refl); [lia|].
    intros g. rewrite parse_value_step, Es, E34, E123, E91, E116, E102, E110, Ep.
    reflexivity.
  - (* members *)
    intros s acc v rest H. rewrite parse_members_step in H.
    pose proof (skip_ws_length s) as Ls.
    destruct (skip_ws s) as [|c r] eqn:Es; [discriminate|].
    cbn [List.length] in Ls.
    destruct (c =? 34) eqn:E34; [|discriminate].
    destruct (parse_string_body r) as [[k r1]|] eqn:Ek; [|discriminate].
    pose proof (parse_string_body_length _ _ _ Ek) as Lk.
    pose proof (skip_ws_length r1) as L1.
    destruct (skip_ws r1) as [|c2 r2] eqn:E1; [discriminate|].
    cbn [List.length] in L1.
    destruct (c2 =? 58) eqn:E58; [|discriminate].
    destruct (parse_value f r2) as [[v0 r3]|] eqn:Ev; [|discriminate].
    destruct (IHv _ _ _ Ev) as [Lv Kv].
    pose proof (skip_ws_length r3) as L3.
    destruct (skip_ws r3) as [|c4 r4] eqn:E3; [discriminate|].
    cbn [List.length] in L3.
    assert (Hgo : forall X : nat -> option (json * list N),
      (List.length rest < List.length s)%nat ->
      (forall g, (2 * List.length r4 <= g)%nat ->
         (if c4 =? 44 then X g
          else if c4 =? 125 then Some (JObject (obj_set k v0 acc), r4)
          else None) = Some (v, rest)) ->
      (forall g, X g = parse_members g r4 (obj_set k v0 acc)) ->
      (List.length rest < List.length s)%nat /\
      forall f', (2 * List.length s <= f')%nat ->
        parse_members f' s acc = Some (v, rest)).
    { intros X L HX HXd. split; [exact L|]. intros f' Hf'.
      destruct f' as [|g]; [lia|].
      rewrite parse_members_step, Es, E34, Ek, E1, E58.
      rewrite (Kv g) by lia. rewrite E3. rewrite <- HXd. apply HX. lia. }
    destruct (c4 =? 44) eqn:E44.
    + destruct (IHm _ _ _ _ H) as [Lm Km].
      apply (Hgo (fun g => parse_members g r4 (obj_set k v0 acc))); [lia| |reflexivity].
      intros g Hg. apply Km, Hg.
    + destruct (c4 =? 125) eqn:E125; [|discriminate].
      inversion H; subst.
      apply (Hgo (fun g => parse_members g rest (obj_set k v0 acc))); [lia| |reflexivity].
      intros g Hg. reflexivity.
  - (* elements *)
    intros s acc v rest H. rewrite parse_elems_step in H.
    destruct (parse_value f s) as [[v0 r1]|] eqn:Ev; [|discriminate].
    destruct (IHv _ _ _ Ev) as [Lv Kv].
    pose proof (skip_ws_length r1) as L1.
    destruct (skip_ws r1) as [|c r2] eqn:E1; [discriminate|].
    cbn [List.length] in L1.
    destruct (c =? 44) eqn:E44.
    + destruct (IHe _ _ _ _ H) as [Le Ke]. split; [lia|].
      intros f' Hf'. destruct f' as [|g]; [lia|].
      rewrite parse_elems_step, (Kv g) by lia. rewrite E1, E44. apply Ke. lia.
    + destruct (c =? 93) eqn:E93; [|discriminate].
      inversion H; subst. split; [lia|].
      intros f' Hf'. destruct f' as [|g]; [lia|].
      rewrite parse_elems_step, (Kv g) by lia. rewrite E1, E44, E93. reflexivity.
Qed.

(** The fuel of [JSON_parse] is never what makes a parse fail: a value read
    with any fuel at all is the value [JSON_parse] returns. *)
Lemma JSON_parse_fuel_independent (f : nat) (s : jsstring) (v : json)
    (rest : list N) :
  parse_value f s = Some (v, rest) -> skip_ws rest = [] -> JSON_parse s = Ok v.
Proof.
  intros H Hr. destruct (proj1 (parser_fuel f) _ _ _ H) as [_ K].
  unfold JSON_parse. rewrite (K (2 * List.length s + 2)%nat) by lia.
  now rewrite Hr.
Qed.

End JsonFuelAdequacy.

Section JsonEnvelope.

Lemma parse_value_string (f : nat) (x : jsstring) (rest : list N) :
  parse_value (S f) (34 :: quote_body x ++ 34 :: rest) = Some (JString x, rest).
Proof.
  cbn [parse_value skip_ws]. cbn [isJsonWs N.eqb Pos.eqb orb].
  rewrite parse_quote_body. reflexivity.
Qed.

Lemma parse_members_comma (f : nat) (k : jsstring) (v : json)
    (V rest : list N) (acc : list (jsstring * json)) :
  parse_value f V = Some (v, 44 :: rest) ->
  parse_members (S f) (34 :: quote_body k ++ 34 :: 58 :: V) acc =
  parse_members f rest (obj_set k v acc).
Proof.
  intros H. cbn [parse_members skip_ws]. cbn [isJsonWs N.eqb Pos.eqb orb].
  rewrite parse_quote_body. cbn [skip_ws]. cbn [isJsonWs N.eqb Pos.eqb orb].
  rewrite H. cbn [skip_ws]. cbn [isJsonWs N.eqb Pos.eqb orb]. reflexivity.
Qed.

Lemma parse_members_close (f : nat) (k : jsstring) (v : json)
    (V rest : list N) (acc : list (jsstring * json)) :
  parse_value f V = Some (v, 125 :: rest) ->
  parse_members (S f) (34 :: quote_body k ++ 34 :: 58 :: V) acc =
  Some (JObject (obj_set k v acc), rest).
Proof.
  intros H. cbn [parse_members skip_ws]. cbn [isJsonWs N.eqb Pos.eqb orb].
  rewrite parse_quote_body. cbn [skip_ws]. cbn [isJsonWs N.eqb Pos.eqb orb].
  rewrite H. cbn [skip_ws]. cbn [isJsonWs N.eqb Pos.eqb orb]. reflexivity.
Qed.

Lemma stringify_object3 (k1 k2 k3 : jsstring) (v1 v2 v3 : json) :
  stringify_object [(k1, Some v1); (k2, Some v2); (k3, Some v3)] =
  123 :: (quote k1 ++ 58 :: stringify v1 ++ 44 :: quote k2 ++ 58 :: stringify v2
          ++ 44 :: quote k3 ++ 58 :: stringify v3) ++ [125].
Proof. reflexivity. Qed.

(** The text [JSON.stringify] gives for the envelope, with the appends
    nested to the right. *)
Lemma envelope_text (i c ts : jsstring) :
  stringify_object [(str "id", Some (JString i)); (str "content", Some (JString c));
                    (str "timestamp", Some (JString ts))] =
  123 :: 34 :: quote_body (str "id") ++ 34 :: 58 :: 34 :: quote_body i ++ 34 ::
  44 :: 34 :: quote_body (str "content") ++ 34 :: 58 :: 34 :: quote_body c ++ 34 ::
  44 :: 34 :: quote_body (str "timestamp") ++ 34 :: 58 :: 34 :: quote_body ts ++
  [34; 125].
Proof.
  rewrite stringify_object3.
  change (stringify (JString i)) with (quote i).
  change (stringify (JString c)) with (quote c).
  change (stringify (JString ts)) with (quote ts).
  generalize (str "id") (str "content") (str "timestamp"). intros k1 k2 k3.
  unfold quote.
  repeat (rewrite <- app_assoc; cbn [app]). reflexivity.
Qed.

(** [JSON.parse] gives the envelope back. *)
Lemma JSON_parse_envelope (i c ts : jsstring) :
  JSON_parse (stringify_object
    [(str "id", Some (JString i)); (str "content", Some (JString c));
     (str "timestamp", Some (JString ts))]) = Ok (parsedEnvelope i c ts).
Proof.
  rewrite envelope_text. unfold JSON_parse.
  match goal with |- context [parse_value ?n _] => remember n as fuel eqn:Hf end.
  assert (H5 : (5 <= fuel)%nat) by (subst fuel; cbn [List.length]; lia).
  clear Hf.
  destruct fuel as [|[|[|[|[|f]]]]]; try lia. clear H5.
  cbn [parse_value skip_ws]. cbn [isJsonWs N.eqb Pos.eqb orb].
  rewrite (parse_members_comma _ _ (JString i) _ _ _ (parse_value_string _ _ _)).
  rewrite (parse_members_comma _ _ (JString c) _ _ _ (parse_value_string _ _ _)).
  rewrite (parse_members_close _ _ (JString ts) _ [] _ (parse_value_string _ _ _)).
  reflexivity.
Qed.

End JsonEnvelope.

Section Timestamps.
Local Open Scope Z_scope.

Lemma dec_digits_latin1 (w : nat) (n : Z) : latin1 (dec_digits w n).
Proof.
  unfold latin1. revert n. induction w as [|w IH]; intros n; cbn [dec_digits].
  - constructor.
  - apply Forall_app. split; [apply IH|].
    constructor; [|constructor].
    pose proof (Z.mod_pos_bound n 10 ltac:(lia)). lia.
Qed.

Lemma toISOString_valid (t : Date) :
  Z.abs t <= 8640000000000000 -> exists ts, toISOString t = Ok ts /\ latin1 ts.
Proof.
  intros H. unfold toISOString.
  replace (8640000000000000 <? Z.abs t) with false
    by (symmetry; apply Z.ltb_ge; exact H).
  destruct (civil_from_days (t / 86400000)) as [[y mo] d].
  eexists. split; [reflexivity|]. unfold latin1.
  repeat first
    [ apply Forall_app; split
    | apply dec_digits_latin1
    | match goal with |- Forall _ (if ?b then _ else _) => destruct b end
    | constructor; [try (destruct (y <? 0)); lia|]
    | constructor ].
Qed.

End Timestamps.

Section Codec.
Variable P : Props.

Lemma quote_body_keeps (x : N) (s : jsstring) :
  In x s -> 255 < x -> isLeadSurrogate x = false -> isTrailSurrogate x = false ->
  In x (quote_body s).
Proof.
  intros Hin Hx Hl Ht.
  remember (List.length s) as n eqn:Hn.
  assert (Hle : (List.length s <= n)%nat) by lia. clear Hn.
  revert s Hle Hin. induction n as [|n IH]; intros s Hle Hin.
  - destruct s; [contradiction | cbn in Hle; lia].
  - destruct s as [|c r]; [contradiction|].
    assert (Hr : In x r -> In x (quote_body r)) by (apply IH; cbn in Hle; lia).
    assert (Hu : In x r -> In x (uescape c ++ quote_body r))
      by (intro; apply in_or_app; right; auto).
    destruct Hin as [->|Hin].
    + (* [x] itself is written as it is *)
      cbn [quote_body]. rewrite Hl, Ht.
      repeat match goal with
      | |- In _ (if ?b then _ else _) =>
          let E := fresh in destruct b eqn:E;
          [first [apply N.eqb_eq in E | apply N.ltb_lt in E]; lia|]
      end.
      now left.
    + cbn [quote_body].
      repeat match goal with
      | |- In _ (if ?b then _ else _) => destruct b
      | |- In _ (_ :: _ :: quote_body r) => right; right; now apply Hr
      | |- In _ (_ :: quote_body r) => right; now apply Hr
      | |- In _ (uescape _ ++ quote_body r) => now apply Hu
      end.
      destruct r as [|d r']; [contradiction|].
      destruct (isTrailSurrogate d) eqn:Td; [|now apply Hu].
      destruct Hin as [->|Hin]; [congruence|].
      right. right. apply IH; [cbn in Hle; lia | exact Hin].
Qed.

Lemma envelope_text_of (m : Message) (c ts : jsstring) :
  content m = Some (JString c) -> toISOString (timestamp m) = Ok ts ->
  envelope m =
  Ok (stringify_object
        [(str "id", Some (JString (id m))); (str "content", Some (JString c));
         (str "timestamp", Some (JString ts))]).
Proof. intros Hc E. unfold envelope. now rewrite E, Hc. Qed.

Lemma encryptMessage_key (text : jsstring) :
  encryptionKey P <> [] -> encryptMessage P text = btoa text.
Proof. intros Hk. unfold encryptMessage. now rewrite (truthy_nonempty _ Hk). Qed.

Lemma encryptMessage_no_key (text : jsstring) :
  encryptionKey P = [] -> encryptMessage P text = Ok text.
Proof. intros Hk. unfold encryptMessage. now rewrite Hk. Qed.

Lemma decryptMessage_key (data : jsstring) :
  encryptionKey P <> [] ->
  decryptMessage P data =
  match atob data with Ok d => Ok d | Throw e => Throw e end.
Proof.
  intros Hk. unfold decryptMessage. rewrite (truthy_nonempty _ Hk). cbn [negb].
  destruct (atob data) as [d|e]; [|reflexivity].
  destruct (looksLikeHTML d); reflexivity.
Qed.

Lemma decryptMessage_no_key (data : jsstring) :
  encryptionKey P = [] -> decryptMessage P data = Ok data.
Proof. intros Hk. unfold decryptMessage. now rewrite Hk. Qed.

(** With a key, a character above U+00FF that [JSON.stringify] writes as it
    is makes [btoa] throw. *)
Lemma encode_throws (m : Message) (c : jsstring) (x : N) :
  encryptionKey P <> [] ->
  content m = Some (JString c) -> (Z.abs (timestamp m) <= 8640000000000000)%Z ->
  In x c -> 255 < x -> isLeadSurrogate x = false -> isTrailSurrogate x = false ->
  encode P m = Throw InvalidCharacterError.
Proof.
  intros Hk Hc Ht Hin Hx Hl Htr. unfold encode.
  destruct (toISOString_valid _ Ht) as (ts & E & _).
  rewrite (envelope_text_of m c ts Hc E), (encryptMessage_key _ Hk), envelope_text.
  apply btoa_throws with (c := x); [|exact Hx].
  pose proof (quote_body_keeps x c Hin Hx Hl Htr) as K.
  generalize dependent (quote_body c).
  generalize (quote_body (str "id")) (quote_body (str "content"))
    (quote_body (str "timestamp")) (quote_body (id m)) (quote_body ts).
  intros l1 l2 l3 l4 l5 l6 K.
  cbn [In]. repeat (rewrite in_app_iff; cbn [In]). tauto.
Qed.

Lemma envelope_latin1 (i c ts : jsstring) :
  latin1 i -> latin1 c -> latin1 ts ->
  latin1 (stringify_object
    [(str "id", Some (JString i)); (str "content", Some (JString c));
     (str "timestamp", Some (JString ts))]).
Proof.
  intros Li Lc Lts. rewrite envelope_text.
  assert (K1 : latin1 (quote_body (str "id"))) by
    (apply quote_body_latin1; unfold latin1; repeat constructor; discriminate).
  assert (K2 : latin1 (quote_body (str "content"))) by
    (apply quote_body_latin1; unfold latin1; repeat constructor; discriminate).
  assert (K3 : latin1 (quote_body (str "timestamp"))) by
    (apply quote_body_latin1; unfold latin1; repeat constructor; discriminate).
  apply quote_body_latin1 in Li, Lc, Lts.
  revert K1 K2 K3 Li Lc Lts.
  generalize (quote_body (str "id")) (quote_body (str "content"))
    (quote_body (str "timestamp")) (quote_body i) (quote_body c) (quote_body ts).
  unfold latin1. intros l1 l2 l3 l4 l5 l6 K1 K2 K3 K4 K5 K6.
  repeat first
    [ assumption
    | apply Forall_app; split
    | constructor; [discriminate|]
    | constructor ].
Qed.

(** The round trip, for the contents the code can encode. *)
Lemma codec_round_trip (m : Message) (c : jsstring) :
  content m = Some (JString c) -> (Z.abs (timestamp m) <= 8640000000000000)%Z ->
  encryptionKey P = [] \/ (latin1 (id m) /\ latin1 c) ->
  exists frame ts,
    toISOString (timestamp m) = Ok ts /\
    encode P m = Ok frame /\
    decode P frame = Ok (parsedEnvelope (id m) c ts) /\
    get_prop (parsedEnvelope (id m) c ts) (str "id") = Ok (Some (JString (id m))) /\
    get_prop (parsedEnvelope (id m) c ts) (str "content") = Ok (Some (JString c)) /\
    get_prop (parsedEnvelope (id m) c ts) (str "timestamp") = Ok (Some (JString ts)).
Proof.
  intros Hc Ht Hk.
  destruct (toISOString_valid _ Ht) as (ts & E & Lts).
  assert (G : get_prop (parsedEnvelope (id m) c ts) (str "id") = Ok (Some (JString (id m))) /\
    get_prop (parsedEnvelope (id m) c ts) (str "content") = Ok (Some (JString c)) /\
    get_prop (parsedEnvelope (id m) c ts) (str "timestamp") = Ok (Some (JString ts)))
    by (repeat split).
  unfold encode, decode. rewrite (envelope_text_of m c ts Hc E).
  destruct (encryptionKey P) as [|k0 kr] eqn:Ek.
  - rewrite (encryptMessage_no_key _ Ek).
    eexists. exists ts. split; [exact E|]. split; [reflexivity|].
    rewrite (decryptMessage_no_key _ Ek), JSON_parse_envelope. split; [reflexivity|exact G].
  - destruct Hk as [Hk | [Li Lc]]; [discriminate|].
    assert (Hne : encryptionKey P <> []) by (rewrite Ek; discriminate).
    pose proof (envelope_latin1 (id m) c ts Li Lc Lts) as L.
    rewrite (encryptMessage_key _ Hne), (btoa_latin1 _ L).
    eexists. exists ts. split; [exact E|]. split; [reflexivity|].
    rewrite (decryptMessage_key _ Hne), (atob_b64enc _ L), JSON_parse_envelope.
    split; [reflexivity|exact G].
Qed.

End Codec.

End CodecProofs.

(* ===================================================================== *)
(** * Reconnecting: the delay and the close code *)
(* ===================================================================== *)

Section Backoff.
Variable P : Props.

Lemma pow2_mono (n m : Z) : 0 <= n <= m -> 2 ^ n <= 2 ^ m.
Proof. intros H. apply Z.pow_le_mono_r; lia. Qed.

Lemma backoffDelay_mono (n m : Z) :
  0 <= retryDelay P -> 0 <= n <= m -> backoffDelay P n <= backoffDelay P m.
Proof.
  intros Hb Hnm. unfold backoffDelay.
  destruct (enableExponentialBackoff P); [|lia].
  apply Z.min_le_compat_r.
  apply Z.mul_le_mono_nonneg_l; [assumption | now apply pow2_mono].
Qed.

(** What [handleConnectionRetry] does when attempts remain. *)
Lemma handleConnectionRetry_schedules (G : Closure) (w : World) :
  c_connectionRetryCount G < maxRetries P ->
  let n := c_connectionRetryCount G + 1 in
  handleConnectionRetry P G w =
  (Ok tt,
   with_refs (with_retryTimeoutRef (Some (List.length (timers w))))
     (with_timers (fun l => l ++ [{| delay := backoffDelay P n;
                                     action := ReconnectTimer G n;
                                     pending := true |}])
        (with_st (with_connectionRetryCount n)
           (with_st (with_isAutoConnecting true) w)))).
Proof.
  intros H n. unfold handleConnectionRetry.
  replace (maxRetries P <=? c_connectionRetryCount G) with false
    by (symmetry; apply Z.leb_gt; exact H).
  reflexivity.
Qed.

Lemma handleConnectionRetry_exhausted (G : Closure) (w : World) :
  maxRetries P <= c_connectionRetryCount G ->
  handleConnectionRetry P G w =
  (Ok tt, with_notices (fun l => l ++ [MaxRetriesReached (maxRetries P)]) w).
Proof.
  intros H. unfold handleConnectionRetry.
  replace (maxRetries P <=? c_connectionRetryCount G) with true
    by (symmetry; apply Z.leb_le; exact H).
  reflexivity.
Qed.

End Backoff.


Section Close.
Variable P : Props.

Lemma ws_onclose_reconnects (G : Closure) (code : Z) (w : World) :
  code <> 1000 -> c_connectionRetryCount G < maxRetries P ->
  ws_onclose P G code w =
  handleConnectionRetry P G
    (with_st (with_isConnecting false) (with_st (with_isConnected false) w)).
Proof.
  intros Hc Hlt. unfold ws_onclose.
  replace (code =? 1000) with false by (symmetry; apply Z.eqb_neq; exact Hc).
  replace (c_connectionRetryCount G <? maxRetries P) with true
    by (symmetry; apply Z.ltb_lt; exact Hlt).
  reflexivity.
Qed.

Lemma ws_onclose_gives_up (G : Closure) (code : Z) (w : World) :
  code = 1000 \/ maxRetries P <= c_connectionRetryCount G ->
  ws_onclose P G code w =
  (Ok tt,
   with_st (with_showErrorMessage true)
     (with_st (with_error (Some ConnectionLost))
        (with_notices (fun l => l ++ [Disconnected])
           (with_st (with_isConnecting false)
              (with_st (with_isConnected false) w))))).
Proof.
  intros H. unfold ws_onclose.
  replace (negb (code =? 1000) && (c_connectionRetryCount G <? maxRetries P))
    with false; [reflexivity|].
  symmetry. destruct H as [-> | H]; [reflexivity|].
  apply andb_false_iff. right. apply Z.ltb_ge. exact H.
Qed.

(** C6.  [ws.onclose]: with close code 1000 no timer is set, no socket is
    made, the retry state is left alone and the error is displayed; with any
    other code, while the retry count of the closure is below [maxRetries],
    the reconnect timer is set (with the delay of the next attempt) and
    [isAutoConnecting] is raised. *)
Theorem close_code_decides_reconnect (G : Closure) (code : Z) (w : World) :
  let w' := exec (ws_onclose P G code) w in
  (code = 1000 ->
     timers w' = timers w /\ sockets w' = sockets w /\
     connectionRetryCount (st w') = connectionRetryCount (st w) /\
     isAutoConnecting (st w') = isAutoConnecting (st w) /\
     error (st w') = Some ConnectionLost /\ showErrorMessage (st w') = true)
  /\
  (code <> 1000 -> c_connectionRetryCount G < maxRetries P ->
     timers w' =
       timers w ++ [{| delay := backoffDelay P (c_connectionRetryCount G + 1);
                       action := ReconnectTimer G (c_connectionRetryCount G + 1);
                       pending := true |}] /\
     isAutoConnecting (st w') = true /\
     connectionRetryCount (st w') = c_connectionRetryCount G + 1).
Proof.
  intros w'. subst w'. unfold exec. split.
  - intros Hc. rewrite (ws_onclose_gives_up G code w (or_introl Hc)).
    cbn. repeat split.
  - intros Hc Hlt. rewrite (ws_onclose_reconnects G code w Hc Hlt).
    rewrite (handleConnectionRetry_schedules P G _ Hlt). cbn. repeat split.
Qed.

End Close.

(** C6 at a concrete input: the codes 1000 and 1006 on the first socket. *)
Lemma close_code_decides_reconnect_witness :
  let P := Samples.noKey in
  let G := {| c_isConnected := false; c_isConnecting := false;
              c_isAutoConnecting := false; c_connectionRetryCount := 0 |} in
  let w := initialWorld (str "g") 0 in
  (timers (exec (ws_onclose P G 1000) w) = timers w /\
   error (st (exec (ws_onclose P G 1000) w)) = Some ConnectionLost) /\
  (timers (exec (ws_onclose P G 1006) w) =
     [{| delay := 4000; action := ReconnectTimer G 1; pending := true |}]).
Proof.
  intros P G w. split.
  - destruct (@close_code_decides_reconnect P G 1000 w) as [H _].
    destruct (H eq_refl) as (H1 & _ & _ & _ & H5 & _). split; assumption.
  - destruct (@close_code_decides_reconnect P G 1006 w) as [_ H].
    destruct H as (H1 & _); [discriminate | reflexivity | exact H1].
Defined.

(* ===================================================================== *)
(** * Rounding to a double *)
(* ===================================================================== *)

Lemma ilog2_lower (a b : Z) :
  0 < a -> 0 < b -> 0 <= ilog2 a b -> b * 2 ^ ilog2 a b <= a.
Proof.
  intros Ha Hb. unfold ilog2.
  set (e := Z.log2 a - Z.log2 b).
  destruct (Z.log2_spec a Ha) as [La _].
  destruct (Z.log2_spec b Hb) as [_ Lb].
  pose proof (Z.log2_nonneg a) as Na. pose proof (Z.log2_nonneg b) as Nb.
  destruct (0 <=? e) eqn:E0.
  - apply Z.leb_le in E0. destruct (b * 2 ^ e <=? a) eqn:E1.
    + intros _. now apply Z.leb_le in E1.
    + intros He.
      assert (Hs : 2 ^ Z.log2 a = 2 ^ (e - 1) * 2 ^ Z.succ (Z.log2 b)).
      { rewrite <- Z.pow_add_r by lia. f_equal. unfold e. lia. }
      assert (0 < 2 ^ (e - 1)) by (apply Z.pow_pos_nonneg; lia).
      nia.
  - apply Z.leb_gt in E0. destruct (b <=? a * 2 ^ (- e)); intros He; lia.
Qed.

Lemma roundHalfEven_nonneg (a b : Z) : 0 <= a -> 0 < b -> 0 <= roundHalfEven a b.
Proof.
  intros Ha Hb. unfold roundHalfEven.
  assert (0 <= a / b) by (apply Z.div_pos; lia).
  destruct (2 * (a mod b) <? b); [lia|].
  destruct (b <? 2 * (a mod b)); [lia|].
  destruct (Z.even (a / b)); lia.
Qed.

Lemma roundHalfEven_below (a b n : Z) :
  0 < b -> 2 * a < (2 * n - 1) * b -> roundHalfEven a b <= n - 1.
Proof.
  intros Hb H. unfold roundHalfEven.
  pose proof (Z.div_mod a b ltac:(lia)) as E.
  pose proof (Z.mod_pos_bound a b Hb) as Hr.
  assert (Hq : a / b <= n - 1) by nia.
  destruct (2 * (a mod b) <? b) eqn:E1; [exact Hq|].
  apply Z.ltb_ge in E1.
  assert (a / b <= n - 2) by nia.
  destruct (b <? 2 * (a mod b)); [lia|].
  destruct (Z.even (a / b)); lia.
Qed.

(** A number that is at least 0 and at most [n * (1 - 2^(-53))], for an
    integer [n] from 1 to [2^53], is rounded to a double below [n]. *)
Lemma roundDouble_below (n : Z) (x : Q) :
  1 <= n <= 2 ^ 53 ->
  (0 <= x)%Q -> (x <= inject_Z n * (1 - (1 # 9007199254740992)))%Q ->
  0 <= Qfloor (roundDouble x) <= n - 1.
Proof.
  intros Hn H0 H1. destruct x as [a b].
  unfold Qle in H0, H1. cbn in H0, H1.
  assert (Ha : 0 <= a) by lia.
  assert (Hb : 0 < Z.pos b) by lia.
  assert (H : a * 2 ^ 53 + n * Z.pos b <= n * Z.pos b * 2 ^ 53).
  { change (2 ^ 53) with 9007199254740992. lia. }
  clear H0 H1.
  unfold roundDouble. cbn [Qnum Qden].
  rewrite Z.abs_eq by exact Ha.
  destruct (a =? 0) eqn:Ea; [cbn; lia|].
  apply Z.eqb_neq in Ea. assert (Ha' : 0 < a) by lia.
  replace (a <? 0) with false by (symmetry; apply Z.ltb_ge; lia).
  set (L := ilog2 a (Z.pos b)).
  assert (Lan : a < n * Z.pos b) by nia.
  assert (HL : 0 <= L -> 2 ^ L < n).
  { intros HL0. pose proof (ilog2_lower a (Z.pos b) Ha' Hb HL0) as K. fold L in K.
    assert (0 < 2 ^ L) by (apply Z.pow_pos_nonneg; lia). nia. }
  assert (HL53 : L <= 52).
  { destruct (Z.le_gt_cases L 52) as [|G]; [assumption|exfalso].
    assert (2 ^ 53 <= 2 ^ L) by (apply Z.pow_le_mono_r; lia).
    specialize (HL ltac:(lia)). lia. }
  set (e := Z.max (L - 52) (-1074)).
  assert (He : e <= 0) by (unfold e; lia).
  assert (Hk : 2 ^ 53 < n * 2 ^ (1 - e)).
  { unfold e. destruct (Z.max_spec (L - 52) (-1074)) as [[Hc ->]|[Hc ->]].
    - assert (2 ^ 53 < 2 ^ (1 - -1074)) by (vm_compute; reflexivity).
      assert (0 < 2 ^ (1 - -1074)) by lia. nia.
    - replace (1 - (L - 52)) with (53 - L) by lia.
      destruct (Z.le_gt_cases 0 L) as [HL0|HL0].
      + specialize (HL HL0).
        assert (E53 : 2 ^ 53 = 2 ^ L * 2 ^ (53 - L)).
        { rewrite <- Z.pow_add_r by lia. f_equal. lia. }
        assert (0 < 2 ^ (53 - L)) by (apply Z.pow_pos_nonneg; lia).
        rewrite E53. nia.
      + assert (2 ^ 53 < 2 ^ (53 - L)) by (apply Z.pow_lt_mono_r; lia).
        assert (0 < 2 ^ (53 - L)) by lia. nia. }
  assert (Hp : 0 < 2 ^ (- e)) by (apply Z.pow_pos_nonneg; lia).
  assert (E2 : 2 ^ (1 - e) = 2 * 2 ^ (- e)).
  { replace (1 - e) with (1 + - e) by lia. rewrite Z.pow_add_r by lia. reflexivity. }
  destruct (0 <=? e) eqn:E0.
  - apply Z.leb_le in E0. assert (e = 0) by lia.
    replace e with 0 in * by lia. cbn [Z.pow Z.opp] in *.
    change (2 ^ 0) with 1 in *. rewrite !Z.mul_1_r in *.
    assert (Hm : roundHalfEven a (Z.pos b) <= n - 1).
    { apply roundHalfEven_below; [exact Hb|]. nia. }
    pose proof (roundHalfEven_nonneg a (Z.pos b) Ha Hb).
    unfold inject_Z, Qfloor. rewrite Z.div_1_r. lia.
  - apply Z.leb_gt in E0.
    set (m := roundHalfEven (a * 2 ^ (- e)) (Z.pos b)).
    assert (Hm : m <= n * 2 ^ (- e) - 1).
    { apply roundHalfEven_below; [exact Hb|]. nia. }
    assert (Hm0 : 0 <= m) by (apply roundHalfEven_nonneg; nia).
    unfold Qfloor. rewrite Z2Pos.id by exact Hp.
    split.
    + apply Z.div_pos; lia.
    + assert (m / 2 ^ (- e) < n); [|lia].
      apply Z.div_lt_upper_bound; [exact Hp | nia].
Qed.

(* ===================================================================== *)
(** * Retrying a failed message *)
(* ===================================================================== *)

Section Retry.
Variable P : Props.
Variable Math_random : nat -> Q.


Lemma jsstring_eqb_refl (s : jsstring) : jsstring_eqb s s = true.
Proof. induction s as [|c s IH]; cbn; [reflexivity|]. now rewrite N.eqb_refl. Qed.

Lemma jsstring_eqb_eq (a b : jsstring) : jsstring_eqb a b = true <-> a = b.
Proof.
  split; [|intros ->; apply jsstring_eqb_refl].
  revert b. induction a as [|x a IH]; intros [|y b]; cbn; try congruence.
  intros H. apply andb_true_iff in H. destruct H as [H1 H2].
  apply N.eqb_eq in H1. apply IH in H2. congruence.
Qed.

Lemma registry_lookup_delete (k : jsstring) (r : list (jsstring * Message)) :
  registry_lookup k (registry_delete k r) = None.
Proof.
  induction r as [|[k' m] r IH]; cbn; [reflexivity|].
  destruct (jsstring_eqb k k') eqn:E; [exact IH|]. cbn. now rewrite E.
Qed.

(** [retryFailedMessage] when the message is registered and the captured
    [isConnected] is true. *)
Lemma retryFailedMessage_proceeds (G : Closure) (messageId : jsstring)
    (m : Message) (w : World) :
  registry_lookup messageId (failedMessagesRef (refs w)) = Some m ->
  c_isConnected G = true ->
  retryFailedMessage Math_random G messageId w =
  (Ok tt,
   with_timers (fun l => l ++ [{| delay := jitter (Math_random (draws w));
                                  action := RetrySendTimer m messageId;
                                  pending := true |}])
     (with_draws (S (draws w))
        (with_st (with_messages (List.map (fun msg =>
           if jsstring_eqb (id msg) messageId then markRetrying msg else msg)))
           (with_st (with_retryMessageId (Some messageId)) w)))).
Proof.
  intros Hl Hc. unfold retryFailedMessage.
  unfold bind at 1. cbn [setRetryMessageId modify].
  unfold bind at 1. cbn [gets with_st refs]. rewrite Hl, Hc. reflexivity.
Qed.

(** Otherwise it only records the identifier in [retryMessageId]. *)
Lemma retryFailedMessage_skips (G : Closure) (messageId : jsstring) (w : World) :
  registry_lookup messageId (failedMessagesRef (refs w)) = None \/
  c_isConnected G = false ->
  retryFailedMessage Math_random G messageId w =
  (Ok tt, with_st (with_retryMessageId (Some messageId)) w).
Proof.
  intros H. unfold retryFailedMessage.
  unfold bind at 1. cbn [setRetryMessageId modify].
  unfold bind at 1. cbn [gets with_st refs].
  destruct (registry_lookup messageId (failedMessagesRef (refs w))).
  - destruct H as [H|H]; [discriminate|]. rewrite H. reflexivity.
  - reflexivity.
Qed.

(** The timer callback: the message list is not touched; the registry entry
    goes exactly when the [try] block runs to its end. *)
Lemma retrySend_outcome (m : Message) (messageId : jsstring) (w : World) :
  let w' := exec (retrySend P m messageId) w in
  messages (st w') = messages (st w) /\
  (fst (retrySendBody P m messageId w) = Ok tt ->
     registry_lookup messageId (failedMessagesRef (refs w')) = None) /\
  (fst (retrySendBody P m messageId w) <> Ok tt ->
     failedMessagesRef (refs w') = failedMessagesRef (refs w)).
Proof.
  unfold exec, retrySend, try_catch, retrySendBody.
  unfold bind at 1 3 5 7 9. unfold lift.
  destruct (encode P m) as [enc|e]; cbn -[registry_delete registry_lookup].
  2:{ repeat split; congruence. }
  unfold wsRef_send, bind, gets; cbn -[registry_delete registry_lookup].
  destruct (wsRef (refs w)) as [n|]; cbn -[registry_delete registry_lookup].
  2:{ repeat split; [intros _; apply registry_lookup_delete | congruence]. }
  unfold socket_send.
  destruct (nth_error (sockets w) n) as [s|]; cbn -[registry_delete registry_lookup].
  2:{ repeat split; [intros _; apply registry_lookup_delete | congruence]. }
  destruct (readyState s); cbn -[registry_delete registry_lookup];
    repeat split; try (intros _; apply registry_lookup_delete); congruence.
Qed.


Lemma map_markRetrying_bumped (messageId : jsstring) (l : list Message) :
  Forall2 (bumped messageId) l
    (List.map (fun msg =>
       if jsstring_eqb (id msg) messageId then markRetrying msg else msg) l).
Proof.
  induction l as [|a l IH]; cbn; constructor; [|exact IH].
  unfold bumped. destruct (jsstring_eqb (id a) messageId); [|reflexivity].
  unfold markRetrying, nextRetryCount. cbn.
  destruct (retryCount a); repeat split.
Qed.

(** C8.  For a message registered under [messageId], in a closure that is
    connected: [retryFailedMessage] sets one timer, raises [retryCount] by
    exactly one on the listed messages with that identifier (their status
    becomes [sending]) and leaves the registry alone.  When the [try] block
    of the timer then runs to its end, the identifier is no longer registered
    and the message list is as the retry left it: the count went up once.
    When it throws, the registry is unchanged. *)
Theorem retry_increments_once_and_unregisters (G : Closure)
    (messageId : jsstring) (m : Message) (w : World) :
  registry_lookup messageId (failedMessagesRef (refs w)) = Some m ->
  c_isConnected G = true ->
  let w1 := exec (retryFailedMessage Math_random G messageId) w in
  timers w1 = timers w ++ [{| delay := jitter (Math_random (draws w));
                              action := RetrySendTimer m messageId;
                              pending := true |}] /\
  Forall2 (bumped messageId) (messages (st w)) (messages (st w1)) /\
  failedMessagesRef (refs w1) = failedMessagesRef (refs w) /\
  (fst (retrySendBody P m messageId w1) = Ok tt ->
     let w2 := exec (retrySend P m messageId) w1 in
     registry_lookup messageId (failedMessagesRef (refs w2)) = None /\
     Forall2 (bumped messageId) (messages (st w)) (messages (st w2))) /\
  (fst (retrySendBody P m messageId w1) <> Ok tt ->
     let w2 := exec (retrySend P m messageId) w1 in
     failedMessagesRef (refs w2) = failedMessagesRef (refs w) /\
     Forall2 (bumped messageId) (messages (st w)) (messages (st w2))).
Proof.
  intros Hl Hc w1.
  assert (E : w1 =
    with_timers (fun l => l ++ [{| delay := jitter (Math_random (draws w));
                                  action := RetrySendTimer m messageId;
                                  pending := true |}])
     (with_draws (S (draws w))
        (with_st (with_messages (List.map (fun msg =>
           if jsstring_eqb (id msg) messageId then markRetrying msg else msg)))
           (with_st (with_retryMessageId (Some messageId)) w)))).
  { unfold w1, exec. now rewrite (retryFailedMessage_proceeds G messageId m w Hl Hc). }
  assert (Hm : Forall2 (bumped messageId) (messages (st w)) (messages (st w1))).
  { rewrite E. cbn. apply map_markRetrying_bumped. }
  assert (Hr : failedMessagesRef (refs w1) = failedMessagesRef (refs w)).
  { rewrite E. reflexivity. }
  destruct (retrySend_outcome m messageId w1) as (K1 & K2 & K3).
  split; [rewrite E; reflexivity|].
  split; [exact Hm|]. split; [exact Hr|]. split.
  - intros Hok w2. split; [apply K2, Hok|]. unfold w2. rewrite K1. exact Hm.
  - intros Hko w2. split; [unfold w2; rewrite (K3 Hko); exact Hr|].
    unfold w2. rewrite K1. exact Hm.
Qed.

End Retry.

(* ------------------------------------------------------------------ *)
(** * Relations every callback respects *)

Section Respects.

Variable Rel : World -> World -> Prop.
Hypothesis Rel_refl : forall w, Rel w w.
Hypothesis Rel_trans : forall a b c, Rel a b -> Rel b c -> Rel a c.


Lemma respects_ret {A : Type} (a : A) : respects Rel (ret a).
Proof. intro w. apply Rel_refl. Qed.

Lemma respects_lift {A : Type} (r : result A) : respects Rel (lift r).
Proof. intro w. apply Rel_refl. Qed.

Lemma respects_gets {A : Type} (f : World -> A) : respects Rel (gets f).
Proof. intro w. apply Rel_refl. Qed.

Lemma respects_modify (f : World -> World) :
  (forall w, Rel w (f w)) -> respects Rel (modify f).
Proof. intros H w. apply H. Qed.

Lemma respects_bind {A B : Type} (c : M A) (k : A -> M B) :
  respects Rel c -> (forall a, respects Rel (k a)) -> respects Rel (bind c k).
Proof.
  intros Hc Hk w. unfold bind. specialize (Hc w).
  destruct (c w) as [[a|e] w']; cbn in *; [|exact Hc].
  eapply Rel_trans; [exact Hc | apply Hk].
Qed.

Lemma respects_try_catch {A : Type} (body handler : M A) :
  respects Rel body -> respects Rel handler -> respects Rel (try_catch body handler).
Proof.
  intros Hb Hh w. unfold try_catch. specialize (Hb w).
  destruct (body w) as [[a|e] w']; cbn in *; [exact Hb|].
  eapply Rel_trans; [exact Hb | apply Hh].
Qed.

Lemma respects_forEach {A : Type} (l : list A) (f : A -> M unit) :
  (forall a, respects Rel (f a)) -> respects Rel (forEach l f).
Proof.
  intros Hf. induction l as [|x l IH]; cbn.
  - apply respects_ret.
  - apply respects_bind; [apply Hf | intros _; exact IH].
Qed.

End Respects.

(* ------------------------------------------------------------------ *)
(** * After the unmount *)

Lemma kept_refl (w : World) : kept w w.
Proof. repeat split. Qed.

Lemma kept_trans (a b c : World) : kept a b -> kept b c -> kept a c.
Proof. unfold kept. intuition congruence. Qed.

Lemma kept_socket_close (n : nat) : respects kept (socket_close n).
Proof.
  apply respects_modify. intros w. unfold kept. cbn. repeat split.
  - generalize (sockets w). intros l. revert n.
    induction l as [|a l IH]; intros [|n]; cbn; auto.
    + destruct (readyState a); reflexivity.
    + now rewrite IH.
  - generalize (sockets w). intros l. revert n.
    induction l as [|a l IH]; intros [|n]; cbn; auto.
    + destruct (readyState a); reflexivity.
    + now rewrite IH.
Qed.

Lemma kept_clearTimeout (t : nat) : respects kept (clearTimeout t).
Proof.
  apply respects_modify. intros w. unfold kept. cbn. repeat split.
  generalize (timers w). intros l. revert t.
  induction l as [|a l IH]; intros [|t]; cbn; auto.
Qed.

Lemma kept_effectCleanup : respects kept effectCleanup.
Proof.
  unfold effectCleanup.
  apply respects_bind; [exact kept_trans | apply respects_gets; exact kept_refl |].
  intros [n|]; [apply kept_socket_close | apply respects_ret; exact kept_refl].
Qed.

Lemma unmount_keeps (w : World) : kept w (exec unmount w).
Proof.
  revert w. change (respects kept unmount). unfold unmount, unmountCleanup.
  apply respects_bind; [exact kept_trans | | intros _; apply kept_effectCleanup].
  apply respects_bind; [exact kept_trans | apply respects_gets; exact kept_refl |].
  intros r. apply respects_bind; [exact kept_trans | |].
  - destruct r; [apply kept_socket_close | apply respects_ret; exact kept_refl].
  - intros _.
    apply respects_bind; [exact kept_trans | apply respects_gets; exact kept_refl |].
    intros [t|]; [apply kept_clearTimeout | apply respects_ret; exact kept_refl].
Qed.

Lemma detached_keeps {A : Type} (c : M A) (w : World) :
  st (exec (detached c) w) = st w /\ crashed (exec (detached c) w) = crashed w.
Proof. unfold exec, detached. destruct (c w) as [r w']. split; reflexivity. Qed.

Section Detached.
Variable P : Props.
Variable Math_random : nat -> Q.
Variable encodeURIComponent : jsstring -> result jsstring.
Variable urlAccepted : jsstring -> bool.

Lemma stepDetached_keeps (w : World) (e : event) :
  st (stepDetached P Math_random encodeURIComponent urlAccepted w e) = st w /\
  crashed (stepDetached P Math_random encodeURIComponent urlAccepted w e) = crashed w.
Proof.
  unfold stepDetached. destruct (isTransport e); [apply detached_keeps | auto].
Qed.

(** The three ways a step can go. *)
Lemma step_cases (w : World) (e : event) :
  let w1 := exec (handle P Math_random encodeURIComponent urlAccepted e) w in
  (crashed w = true /\
   step P Math_random encodeURIComponent urlAccepted w e =
   stepDetached P Math_random encodeURIComponent urlAccepted w e) \/
  (crashed w = false /\ crashed w1 = true /\
   step P Math_random encodeURIComponent urlAccepted w e = exec unmount w1) \/
  (crashed w = false /\ crashed w1 = false /\
   step P Math_random encodeURIComponent urlAccepted w e =
   render P encodeURIComponent urlAccepted w1).
Proof.
  intros w1. unfold step. fold w1.
  destruct (crashed w); [left; auto|].
  destruct (crashed w1); [right; left; auto | right; right; auto].
Qed.

(** A step whose handler does not crash is that handler and a render. *)
Lemma step_alive (w : World) (e : event) :
  crashed w = false ->
  crashed (exec (handle P Math_random encodeURIComponent urlAccepted e) w) = false ->
  step P Math_random encodeURIComponent urlAccepted w e =
  render P encodeURIComponent urlAccepted
    (exec (handle P Math_random encodeURIComponent urlAccepted e) w).
Proof. intros H1 H2. unfold step. now rewrite H1, H2. Qed.

End Detached.

(** A relation that every handler, every render and the cleanups respect,
    and that does not look at the React state, holds along every step. *)
Section Steps.
Variable P : Props.
Variable Math_random : nat -> Q.
Variable encodeURIComponent : jsstring -> result jsstring.
Variable urlAccepted : jsstring -> bool.

Variable Rel : World -> World -> Prop.
Hypothesis Rel_refl : forall w, Rel w w.
Hypothesis Rel_trans : forall a b c, Rel a b -> Rel b c -> Rel a c.
Hypothesis Rel_handle :
  forall e, respects Rel (handle P Math_random encodeURIComponent urlAccepted e).
Hypothesis Rel_render :
  forall w, Rel w (render P encodeURIComponent urlAccepted w).
Hypothesis Rel_kept : forall a b, kept a b -> Rel a b.
Hypothesis Rel_state :
  forall a b, Rel a b -> Rel a (with_crashed (crashed a) (with_st (fun _ => st a) b)).

Lemma respects_stepDetached (w : World) (e : event) :
  Rel w (stepDetached P Math_random encodeURIComponent urlAccepted w e).
Proof.
  unfold stepDetached. destruct (isTransport e); [|apply Rel_refl].
  unfold exec, detached. pose proof (Rel_handle e w) as H.
  destruct (handle P Math_random encodeURIComponent urlAccepted e w) as [r w'].
  cbn in *. now apply Rel_state.
Qed.

Lemma respects_step (w : World) (e : event) :
  Rel w (step P Math_random encodeURIComponent urlAccepted w e).
Proof.
  destruct (step_cases P Math_random encodeURIComponent urlAccepted w e)
    as [(_ & E) | [(_ & _ & E) | (_ & _ & E)]]; rewrite E.
  - apply respects_stepDetached.
  - eapply Rel_trans; [apply Rel_handle | apply Rel_kept, unmount_keeps].
  - eapply Rel_trans; [apply Rel_handle | apply Rel_render].
Qed.

Lemma respects_run (es : list event) (w : World) :
  Rel w (run P Math_random encodeURIComponent urlAccepted w es).
Proof.
  revert w. induction es as [|e es IH]; intros w; [apply Rel_refl|].
  cbn [run fold_left]. eapply Rel_trans; [apply respects_step | apply IH].
Qed.

End Steps.



(* ------------------------------------------------------------------ *)
(** * What happens to the message list *)

Section MessageList.

Variable P : Props.
Variable Math_random : nat -> Q.
Variable encodeURIComponent : jsstring -> result jsstring.
Variable urlAccepted : jsstring -> bool.

Variable R : Message -> Message -> Prop.
Hypothesis R_refl : forall m, R m m.
Hypothesis R_trans : forall a b c, R a b -> R b c -> R a c.
(** [R] allows a change of the delivery metadata. *)
Hypothesis R_status : forall v m, R m (with_status v m).
Hypothesis R_retry : forall m, R m (markRetrying m).

Lemma Forall2_refl_R (l : list Message) : Forall2 R l l.
Proof. induction l; constructor; auto. Qed.

Lemma Forall2_trans_R (a b c : list Message) :
  Forall2 R a b -> Forall2 R b c -> Forall2 R a c.
Proof.
  intros H. revert c. induction H; intros c Hc; inversion Hc; subst;
    constructor; eauto.
Qed.

Lemma evolves_refl (l : list Message) : evolves R l l.
Proof. exists l, []. split; [now rewrite app_nil_r | apply Forall2_refl_R]. Qed.

Lemma evolves_trans (a b c : list Message) :
  evolves R a b -> evolves R b c -> evolves R a c.
Proof.
  intros (b1 & b2 & -> & Hab) (c1 & c2 & -> & Hbc).
  apply Forall2_app_inv_l in Hbc. destruct Hbc as (c1a & c1b & H1 & H2 & ->).
  exists c1a, (c1b ++ c2). split; [now rewrite app_assoc|].
  eapply Forall2_trans_R; eassumption.
Qed.


Lemma Rel_msgs_refl w : Rel_msgs R w w.
Proof. apply evolves_refl. Qed.

Lemma Rel_msgs_trans a b c :
  Rel_msgs R a b -> Rel_msgs R b c -> Rel_msgs R a c.
Proof. apply evolves_trans. Qed.

Local Abbreviation ok := (respects (Rel_msgs R)).

Lemma ok_same {A : Type} (c : M A) :
  (forall w, messages (st (snd (c w))) = messages (st w)) -> ok c.
Proof. intros H w. unfold Rel_msgs. rewrite H. apply evolves_refl. Qed.

Lemma ok_setMessages_map (g : Message -> Message) :
  (forall m, R m (g m)) -> ok (setMessages (List.map g)).
Proof.
  intros Hg w. unfold Rel_msgs. cbn.
  exists (List.map g (messages (st w))), []. split; [now rewrite app_nil_r|].
  induction (messages (st w)); cbn; constructor; auto.
Qed.

Lemma ok_setMessages_append (m : Message) :
  ok (setMessages (fun prev => prev ++ [m])).
Proof.
  intros w. unfold Rel_msgs. cbn.
  exists (messages (st w)), [m]. split; [reflexivity | apply Forall2_refl_R].
Qed.

Lemma ok_socket_send n d : ok (socket_send n d).
Proof.
  apply ok_same. intro w. unfold socket_send.
  destruct (nth_error (sockets w) n) as [s|]; [|reflexivity].
  destruct (readyState s); reflexivity.
Qed.

Lemma ok_wsRef_send d : ok (wsRef_send d).
Proof.
  unfold wsRef_send. apply respects_bind; [exact Rel_msgs_trans | now apply ok_same |].
  intros [n|]; [apply ok_socket_send | now apply ok_same].
Qed.

Lemma ok_setTimeout a d : ok (setTimeout a d).
Proof. now apply ok_same. Qed.

Lemma ok_random : ok (random Math_random).
Proof. now apply ok_same. Qed.

Lemma ok_newWebSocket u G : ok (newWebSocket urlAccepted u G).
Proof.
  apply ok_same. intro w. unfold newWebSocket.
  destruct (urlAccepted u); reflexivity.
Qed.

Lemma ok_modify_same (f : World -> World) :
  (forall w, messages (st (f w)) = messages (st w)) -> ok (modify f).
Proof. intro H. now apply ok_same. Qed.

Ltac ok_prim :=
  first
    [ apply ok_socket_send | apply ok_wsRef_send | apply ok_setTimeout
    | apply ok_random | apply ok_newWebSocket
    | apply ok_setMessages_append
    | apply ok_setMessages_map;
      let m := fresh in intro m;
      match goal with
      | |- R _ (if ?b then _ else _) => destruct b; auto
      end
    | apply ok_modify_same; reflexivity
    | apply ok_same; reflexivity ].

Ltac ok_go_with tac :=
  repeat first
    [ tac
    | ok_prim
    | apply respects_ret; exact Rel_msgs_refl
    | apply respects_lift; exact Rel_msgs_refl
    | apply respects_gets; exact Rel_msgs_refl
    | apply respects_bind; [exact Rel_msgs_trans | | intro]
    | apply respects_try_catch; [exact Rel_msgs_trans | | ]
    | match goal with
      | |- respects _ (if ?b then _ else _) => destruct b
      | |- respects _ (match ?x with _ => _ end) => destruct x
      end ].

Ltac ok_go := ok_go_with fail.

Lemma ok_retrySend m k : ok (retrySend P m k).
Proof. unfold retrySend, retrySendBody, notify, setRetryMessageId. ok_go. Qed.

Lemma ok_retryFailedMessage G k : ok (retryFailedMessage Math_random G k).
Proof. unfold retryFailedMessage, setRetryMessageId. ok_go. Qed.

Lemma ok_flushFailedMessages G : ok (flushFailedMessages Math_random G).
Proof.
  unfold flushFailedMessages.
  apply respects_bind; [exact Rel_msgs_trans | now apply ok_same |].
  intro l. apply respects_forEach;
    [exact Rel_msgs_refl | exact Rel_msgs_trans | intro; apply ok_retryFailedMessage].
Qed.

Lemma ok_sendMessage G m : ok (sendMessage P G m).
Proof. unfold sendMessage, notify. ok_go. Qed.

Lemma ok_flushMessageQueue G : ok (flushMessageQueue P G).
Proof.
  unfold flushMessageQueue.
  apply respects_bind; [exact Rel_msgs_trans | now apply ok_same |].
  intro q. destruct (_ && _); [|apply respects_ret; exact Rel_msgs_refl].
  apply respects_bind; [exact Rel_msgs_trans | | intro; now apply ok_same].
  apply respects_forEach;
    [exact Rel_msgs_refl | exact Rel_msgs_trans | intro; apply ok_sendMessage].
Qed.

Lemma ok_handleConnectionRetry G : ok (handleConnectionRetry P G).
Proof.
  unfold handleConnectionRetry, notify, setIsAutoConnecting,
    setConnectionRetryCount. ok_go.
Qed.

Lemma ok_connectWebSocket G :
  ok (connectWebSocket P encodeURIComponent urlAccepted G).
Proof.
  unfold connectWebSocket, setIsConnecting, setError, setShowErrorMessage.
  ok_go_with ltac:(apply ok_handleConnectionRetry).
Qed.

Lemma ok_ws_onopen G : ok (ws_onopen P Math_random G).
Proof.
  unfold ws_onopen, setIsConnected, setIsConnecting, setIsAutoConnecting,
    setConnectionRetryCount, notify.
  ok_go_with ltac:(first [apply ok_flushMessageQueue | apply ok_flushFailedMessages]).
Qed.

Lemma ok_ws_onerror G n : ok (ws_onerror P G n).
Proof.
  unfold ws_onerror, notify, setError, socket_close.
  ok_go_with ltac:(apply ok_handleConnectionRetry).
Qed.

Lemma ok_ws_onclose G code : ok (ws_onclose P G code).
Proof.
  unfold ws_onclose, notify, setError, setShowErrorMessage, setIsConnected,
    setIsConnecting.
  ok_go_with ltac:(apply ok_handleConnectionRetry).
Qed.

Lemma ok_handleSend G v uuid now : ok (handleSend P G v uuid now).
Proof. unfold handleSend, setInputValue. ok_go_with ltac:(apply ok_sendMessage). Qed.

Lemma ok_runTimer a :
  ok (runTimer P encodeURIComponent urlAccepted a).
Proof.
  destruct a; cbn [runTimer]; [|apply ok_retrySend].
  unfold notify. ok_go_with ltac:(apply ok_connectWebSocket).
Qed.

(** The receive path, for a relation that also allows an answer to be
    stored. *)
Section Receive.
Hypothesis R_answer : forall c m, R m (markAnswered c m).

Lemma applyResponse_related (p : json) (l l' : list Message) :
  applyResponse p l = Ok l' -> Forall2 R l l'.
Proof.
  revert l'. induction l as [|m l IH]; intros l' H; cbn [applyResponse] in H.
  - inversion H. constructor.
  - destruct (get_prop p (str "id")) as [pid|]; [|discriminate].
    destruct (string_strict_eq (id m) pid).
    + destruct (get_prop p (str "content")) as [c|]; [|discriminate].
      destruct (applyResponse p l) as [r|]; [|discriminate].
      inversion H. constructor; [apply R_answer | now apply IH].
    + destruct (applyResponse p l) as [r|]; [|discriminate].
      inversion H. constructor; [apply R_refl | now apply IH].
Qed.

Lemma ok_ws_onmessage G data : ok (ws_onmessage P G data).
Proof.
  unfold ws_onmessage, notify.
  apply respects_try_catch; [exact Rel_msgs_trans | | now apply ok_same].
  apply respects_bind; [exact Rel_msgs_trans | apply respects_lift; exact Rel_msgs_refl |].
  intros p w. unfold Rel_msgs, setMessagesWith.
  destruct (applyResponse p (messages (st w))) as [l'|] eqn:E; cbn.
  - exists l', []. split; [now rewrite app_nil_r|].
    eapply applyResponse_related; eassumption.
  - apply evolves_refl.
Qed.
End Receive.

Lemma ok_render1 w :
  Rel_msgs R w (render1 P encodeURIComponent urlAccepted w).
Proof.
  unfold render1. destruct (crashed w); [apply Rel_msgs_refl|].
  destruct (_ =? _); [apply Rel_msgs_refl|].
  unfold exec.
  assert (K : ok (effectCleanup ;;
                  connectWebSocket P encodeURIComponent urlAccepted (snapshot (st w)))%chat).
  { apply respects_bind; [exact Rel_msgs_trans | |].
    - unfold effectCleanup, socket_close. ok_go.
    - intros _. apply ok_connectWebSocket. }
  exact (K (with_memo (snapshot (st w)) w)).
Qed.

Lemma ok_render w :
  Rel_msgs R w (render P encodeURIComponent urlAccepted w).
Proof.
  unfold render. eapply Rel_msgs_trans; apply ok_render1.
Qed.

(** Every event but the arrival of a frame. *)
Lemma ok_handle_other (e : event) :
  is_receive e = false ->
  ok (handle P Math_random encodeURIComponent urlAccepted e).
Proof.
  intros He w. destruct e; try discriminate; unfold handle.
  - destruct (nth_error (sockets w) ws) as [s|]; [|apply Rel_msgs_refl].
    destruct (readyState s); try apply Rel_msgs_refl.
    revert w. change (ok (setReadyState ws OPEN ;; ws_onopen P Math_random (handlers s))%chat).
    apply respects_bind; [exact Rel_msgs_trans | now apply ok_same |].
    intros _. apply ok_ws_onopen.
  - destruct (nth_error (sockets w) ws) as [s|]; [|apply Rel_msgs_refl].
    assert (K : ok (setReadyState ws CLOSED ;; ws_onerror P (handlers s) ws ;;
                    ws_onclose P (handlers s) code)%chat).
    { apply respects_bind; [exact Rel_msgs_trans | now apply ok_same |].
      intros _. apply respects_bind; [exact Rel_msgs_trans | apply ok_ws_onerror |].
      intros _. apply ok_ws_onclose. }
    destruct (readyState s); first [apply Rel_msgs_refl | apply K].
  - destruct (nth_error (sockets w) ws) as [s|]; [|apply Rel_msgs_refl].
    assert (K : ok (setReadyState ws CLOSED ;; ws_onclose P (handlers s) code)%chat).
    { apply respects_bind; [exact Rel_msgs_trans | now apply ok_same |].
      intros _. apply ok_ws_onclose. }
    destruct (readyState s); first [apply Rel_msgs_refl | apply K].
  - destruct (nth_error (timers w) t) as [tm|]; [|apply Rel_msgs_refl].
    destruct (pending tm); [|apply Rel_msgs_refl].
    revert w.
    change (ok (modify (with_timers (update_nth t (with_pending false))) ;;
                runTimer P encodeURIComponent urlAccepted (action tm))%chat).
    apply respects_bind; [exact Rel_msgs_trans | now apply ok_same |].
    intros _. apply ok_runTimer.
  - revert w. now apply ok_same.
  - apply ok_handleSend.
  - destruct (nth_error (messages (st w)) index) as [msg|]; [|apply Rel_msgs_refl].
    destruct (status msg); first [apply Rel_msgs_refl | apply ok_retryFailedMessage].
  - destruct (showErrorMessage (st w)); [apply ok_connectWebSocket | apply Rel_msgs_refl].
Qed.

Lemma ok_handle_receive (ws : nat) (data : jsstring) :
  (forall c m, R m (markAnswered c m)) ->
  ok (handle P Math_random encodeURIComponent urlAccepted (SocketMessage ws data)).
Proof.
  intros Ha w. unfold handle.
  destruct (nth_error (sockets w) ws) as [s|]; [|apply Rel_msgs_refl].
  destruct (readyState s); first [apply Rel_msgs_refl | now apply ok_ws_onmessage].
Qed.

(** A step is its handler, then a render or, when the render crashes, the
    unmount; after the unmount the list no longer changes. *)
Lemma ok_step (w : World) (e : event) :
  Rel_msgs R w (exec (handle P Math_random encodeURIComponent urlAccepted e) w) ->
  Rel_msgs R w (step P Math_random encodeURIComponent urlAccepted w e).
Proof.
  intros H.
  destruct (step_cases P Math_random encodeURIComponent urlAccepted w e)
    as [(_ & E) | [(_ & _ & E) | (_ & _ & E)]]; rewrite E.
  - unfold Rel_msgs.
    rewrite (proj1 (stepDetached_keeps P Math_random encodeURIComponent urlAccepted w e)).
    apply evolves_refl.
  - unfold Rel_msgs.
    destruct (unmount_keeps
                (exec (handle P Math_random encodeURIComponent urlAccepted e) w))
      as (K & _).
    rewrite K. exact H.
  - eapply Rel_msgs_trans; [exact H | apply ok_render].
Qed.

End MessageList.

(** A render leaves the list of messages as it is. *)
Lemma Rel_list_refl w : Rel_list w w.
Proof. reflexivity. Qed.

Lemma Rel_list_trans a b c : Rel_list a b -> Rel_list b c -> Rel_list a c.
Proof. unfold Rel_list. congruence. Qed.

Section ListKept.
Variable P : Props.
Variable encodeURIComponent : jsstring -> result jsstring.
Variable urlAccepted : jsstring -> bool.

Local Ltac list_go :=
  repeat first
    [ apply respects_ret; exact Rel_list_refl
    | apply respects_lift; exact Rel_list_refl
    | apply respects_gets; exact Rel_list_refl
    | apply respects_modify; intros ?; reflexivity
    | apply respects_bind; [exact Rel_list_trans | | intro]
    | apply respects_try_catch; [exact Rel_list_trans | | ]
    | match goal with
      | |- respects _ (if ?b then _ else _) => destruct b
      | |- respects _ (match ?x with _ => _ end) => destruct x
      end ].

Lemma list_handleConnectionRetry G : respects Rel_list (handleConnectionRetry P G).
Proof.
  unfold handleConnectionRetry, notify, setIsAutoConnecting,
    setConnectionRetryCount. list_go.
Qed.

Lemma list_connectWebSocket G :
  respects Rel_list (connectWebSocket P encodeURIComponent urlAccepted G).
Proof.
  unfold connectWebSocket, setIsConnecting, setError, setShowErrorMessage.
  destruct (_ || _); [apply respects_ret; exact Rel_list_refl|].
  apply respects_bind; [exact Rel_list_trans | list_go | intros _].
  apply respects_bind; [exact Rel_list_trans | list_go | intros _].
  apply respects_bind; [exact Rel_list_trans | list_go | intros _].
  apply respects_try_catch; [exact Rel_list_trans | | ].
  - apply respects_bind; [exact Rel_list_trans | list_go | intros u].
    apply respects_bind; [exact Rel_list_trans | | intros ws; list_go].
    intros w. unfold newWebSocket. destruct (urlAccepted u); reflexivity.
  - apply respects_bind; [exact Rel_list_trans | list_go | intros _].
    apply respects_bind; [exact Rel_list_trans | list_go | intros _].
    apply list_handleConnectionRetry.
Qed.

Lemma list_render1 (w : World) :
  Rel_list w (render1 P encodeURIComponent urlAccepted w).
Proof.
  unfold render1. destruct (crashed w); [reflexivity|].
  destruct (_ =? _); [reflexivity|].
  unfold exec.
  assert (K : respects Rel_list
                (effectCleanup ;;
                 connectWebSocket P encodeURIComponent urlAccepted (snapshot (st w)))%chat).
  { apply respects_bind; [exact Rel_list_trans | |].
    - unfold effectCleanup, socket_close. list_go.
    - intros _. apply list_connectWebSocket. }
  exact (K (with_memo (snapshot (st w)) w)).
Qed.

Lemma render_messages (w : World) :
  messages (st (render P encodeURIComponent urlAccepted w)) = messages (st w).
Proof.
  unfold render. pose proof (list_render1 w) as H1.
  pose proof (list_render1 (render1 P encodeURIComponent urlAccepted w)) as H2.
  unfold Rel_list in *. congruence.
Qed.

End ListKept.

(* ------------------------------------------------------------------ *)
(** * What can make a render crash *)

Lemma Rel_alive_refl w : Rel_alive w w.
Proof. reflexivity. Qed.

Lemma Rel_alive_trans a b c : Rel_alive a b -> Rel_alive b c -> Rel_alive a c.
Proof. unfold Rel_alive. congruence. Qed.

Section Alive.
Variable P : Props.
Variable Math_random : nat -> Q.
Variable encodeURIComponent : jsstring -> result jsstring.
Variable urlAccepted : jsstring -> bool.

Local Abbreviation oka := (respects Rel_alive).

Lemma oka_same {A : Type} (c : M A) :
  (forall w, crashed (snd (c w)) = crashed w) -> oka c.
Proof. intros H w. apply H. Qed.

Lemma oka_socket_send n d : oka (socket_send n d).
Proof.
  apply oka_same. intro w. unfold socket_send.
  destruct (nth_error (sockets w) n) as [s|]; [|reflexivity].
  destruct (readyState s); reflexivity.
Qed.

Lemma oka_wsRef_send d : oka (wsRef_send d).
Proof.
  unfold wsRef_send. apply respects_bind;
    [exact Rel_alive_trans | apply respects_gets; exact Rel_alive_refl |].
  intros [n|]; [apply oka_socket_send | apply respects_ret; exact Rel_alive_refl].
Qed.

Lemma oka_newWebSocket u G : oka (newWebSocket urlAccepted u G).
Proof.
  apply oka_same. intro w. unfold newWebSocket. destruct (urlAccepted u); reflexivity.
Qed.

Local Ltac oka_prim :=
  first
    [ apply oka_socket_send | apply oka_wsRef_send | apply oka_newWebSocket
    | apply oka_same; reflexivity ].

Local Ltac oka_go_with tac :=
  repeat first
    [ tac
    | oka_prim
    | apply respects_ret; exact Rel_alive_refl
    | apply respects_lift; exact Rel_alive_refl
    | apply respects_gets; exact Rel_alive_refl
    | apply respects_bind; [exact Rel_alive_trans | | intro]
    | apply respects_try_catch; [exact Rel_alive_trans | | ]
    | match goal with
      | |- respects _ (if ?b then _ else _) => destruct b
      | |- respects _ (match ?x with _ => _ end) => destruct x
      end ].

Local Ltac oka_go := oka_go_with fail.

Lemma oka_retrySend m k : oka (retrySend P m k).
Proof. unfold retrySend, retrySendBody, notify, setRetryMessageId. oka_go. Qed.

Lemma oka_retryFailedMessage G k : oka (retryFailedMessage Math_random G k).
Proof.
  unfold retryFailedMessage, setRetryMessageId, setMessages, random, setTimeout.
  oka_go.
Qed.

Lemma oka_flushFailedMessages G : oka (flushFailedMessages Math_random G).
Proof.
  unfold flushFailedMessages.
  apply respects_bind;
    [exact Rel_alive_trans | apply respects_gets; exact Rel_alive_refl |].
  intro l. apply respects_forEach;
    [exact Rel_alive_refl | exact Rel_alive_trans
    | intro; apply oka_retryFailedMessage].
Qed.

Lemma oka_sendMessage G m : oka (sendMessage P G m).
Proof. unfold sendMessage, notify, setMessages. oka_go. Qed.

Lemma oka_flushMessageQueue G : oka (flushMessageQueue P G).
Proof.
  unfold flushMessageQueue.
  apply respects_bind;
    [exact Rel_alive_trans | apply respects_gets; exact Rel_alive_refl |].
  intro q. destruct (_ && _); [|apply respects_ret; exact Rel_alive_refl].
  apply respects_bind; [exact Rel_alive_trans | | intro; oka_go].
  apply respects_forEach;
    [exact Rel_alive_refl | exact Rel_alive_trans | intro; apply oka_sendMessage].
Qed.

Lemma oka_handleSend G v uuid now : oka (handleSend P G v uuid now).
Proof.
  unfold handleSend, setInputValue, setMessages.
  oka_go_with ltac:(apply oka_sendMessage).
Qed.

Lemma oka_handleConnectionRetry G : oka (handleConnectionRetry P G).
Proof.
  unfold handleConnectionRetry, notify, setIsAutoConnecting,
    setConnectionRetryCount, setTimeout. oka_go.
Qed.

Lemma oka_connectWebSocket G :
  oka (connectWebSocket P encodeURIComponent urlAccepted G).
Proof.
  unfold connectWebSocket, setIsConnecting, setError, setShowErrorMessage.
  oka_go_with ltac:(apply oka_handleConnectionRetry).
Qed.

Lemma oka_ws_onopen G : oka (ws_onopen P Math_random G).
Proof.
  unfold ws_onopen, setIsConnected, setIsConnecting, setIsAutoConnecting,
    setConnectionRetryCount, notify.
  oka_go_with ltac:(first [apply oka_flushMessageQueue | apply oka_flushFailedMessages]).
Qed.

Lemma oka_ws_onerror G n : oka (ws_onerror P G n).
Proof.
  unfold ws_onerror, notify, setError, socket_close.
  oka_go_with ltac:(apply oka_handleConnectionRetry).
Qed.

Lemma oka_ws_onclose G code : oka (ws_onclose P G code).
Proof.
  unfold ws_onclose, notify, setError, setShowErrorMessage, setIsConnected,
    setIsConnecting.
  oka_go_with ltac:(apply oka_handleConnectionRetry).
Qed.

Lemma oka_runTimer a : oka (runTimer P encodeURIComponent urlAccepted a).
Proof.
  destruct a; cbn [runTimer]; [|apply oka_retrySend].
  unfold notify. oka_go_with ltac:(apply oka_connectWebSocket).
Qed.

Lemma oka_render1 w : Rel_alive w (render1 P encodeURIComponent urlAccepted w).
Proof.
  unfold render1. destruct (crashed w); [apply Rel_alive_refl|].
  destruct (_ =? _); [apply Rel_alive_refl|].
  unfold exec.
  assert (K : oka (effectCleanup ;;
                   connectWebSocket P encodeURIComponent urlAccepted (snapshot (st w)))%chat).
  { apply respects_bind; [exact Rel_alive_trans | |].
    - unfold effectCleanup, socket_close. oka_go.
    - intros _. apply oka_connectWebSocket. }
  exact (K (with_memo (snapshot (st w)) w)).
Qed.

Lemma oka_render w : Rel_alive w (render P encodeURIComponent urlAccepted w).
Proof. unfold render. eapply Rel_alive_trans; apply oka_render1. Qed.

Lemma oka_handle_other (e : event) :
  is_receive e = false ->
  oka (handle P Math_random encodeURIComponent urlAccepted e).
Proof.
  intros He w. destruct e; try discriminate He; unfold handle.
  - destruct (nth_error (sockets w) ws) as [s|]; [|apply Rel_alive_refl].
    destruct (readyState s); try apply Rel_alive_refl.
    revert w.
    change (oka (setReadyState ws OPEN ;; ws_onopen P Math_random (handlers s))%chat).
    apply respects_bind; [exact Rel_alive_trans | now apply oka_same |].
    intros _. apply oka_ws_onopen.
  - destruct (nth_error (sockets w) ws) as [s|]; [|apply Rel_alive_refl].
    assert (K : oka (setReadyState ws CLOSED ;; ws_onerror P (handlers s) ws ;;
                     ws_onclose P (handlers s) code)%chat).
    { apply respects_bind; [exact Rel_alive_trans | now apply oka_same |].
      intros _. apply respects_bind; [exact Rel_alive_trans | apply oka_ws_onerror |].
      intros _. apply oka_ws_onclose. }
    destruct (readyState s); first [apply Rel_alive_refl | apply K].
  - destruct (nth_error (sockets w) ws) as [s|]; [|apply Rel_alive_refl].
    assert (K : oka (setReadyState ws CLOSED ;; ws_onclose P (handlers s) code)%chat).
    { apply respects_bind; [exact Rel_alive_trans | now apply oka_same |].
      intros _. apply oka_ws_onclose. }
    destruct (readyState s); first [apply Rel_alive_refl | apply K].
  - destruct (nth_error (timers w) t) as [tm|]; [|apply Rel_alive_refl].
    destruct (pending tm); [|apply Rel_alive_refl].
    revert w.
    change (oka (modify (with_timers (update_nth t (with_pending false))) ;;
                 runTimer P encodeURIComponent urlAccepted (action tm))%chat).
    apply respects_bind; [exact Rel_alive_trans | now apply oka_same |].
    intros _. apply oka_runTimer.
  - revert w. now apply oka_same.
  - apply oka_handleSend.
  - destruct (nth_error (messages (st w)) index) as [msg|]; [|apply Rel_alive_refl].
    destruct (status msg); first [apply Rel_alive_refl | apply oka_retryFailedMessage].
  - destruct (showErrorMessage (st w));
      [apply oka_connectWebSocket | apply Rel_alive_refl].
Qed.

(** No handler but that of an incoming frame can make the render crash. *)
Lemma handle_alive (e : event) (w : World) :
  is_receive e = false ->
  crashed (exec (handle P Math_random encodeURIComponent urlAccepted e) w) = crashed w.
Proof. intros He. exact (oka_handle_other e He w). Qed.

Lemma render_alive (w : World) :
  crashed (render P encodeURIComponent urlAccepted w) = crashed w.
Proof.
  pose proof (oka_render w) as H. exact H.
Qed.

(** A step on any event but an incoming frame is the handler and a render. *)
Lemma step_other (w : World) (e : event) :
  crashed w = false -> is_receive e = false ->
  step P Math_random encodeURIComponent urlAccepted w e =
  render P encodeURIComponent urlAccepted
    (exec (handle P Math_random encodeURIComponent urlAccepted e) w).
Proof.
  intros Hc He. apply step_alive; [exact Hc|]. now rewrite handle_alive.
Qed.

End Alive.


Lemma keeps_identity_refl m : keeps_identity m m.
Proof. repeat split. Qed.

Lemma keeps_identity_trans a b c :
  keeps_identity a b -> keeps_identity b c -> keeps_identity a c.
Proof. unfold keeps_identity. intuition congruence. Qed.

Lemma keeps_content_refl m : keeps_content m m.
Proof. repeat split. Qed.

Lemma keeps_content_trans a b c :
  keeps_content a b -> keeps_content b c -> keeps_content a c.
Proof. unfold keeps_content, keeps_identity. intuition congruence. Qed.

Section Fields.
Variable P : Props.
Variable Math_random : nat -> Q.
Variable encodeURIComponent : jsstring -> result jsstring.
Variable urlAccepted : jsstring -> bool.

Lemma applyResponse_answers (p : json) (pid c : jsval) (l : list Message) :
  get_prop p (str "id") = Ok pid -> get_prop p (str "content") = Ok c ->
  applyResponse p l = Ok (List.map (answerWith pid c) l).
Proof.
  intros Hi Hc. induction l as [|m l IH]; cbn [applyResponse List.map]; [reflexivity|].
  rewrite Hi, Hc, IH. unfold answerWith.
  destruct (string_strict_eq (id m) pid); reflexivity.
Qed.

(** C7, as the code has it.  At every step of the component the messages
    already listed keep their [id], [role] and [timestamp], new messages only
    coming after them; at every step other than the arrival of a frame they
    keep their [content] as well, so that only [status] and [retryCount] can
    differ.  When a frame arrives on a socket that is open or closing and
    decodes to a response with the identifier [pid] and the content [c], the
    list becomes the same list with, in place of every message whose [id] is
    that string, the message with the content [c] and the status [sent]; the
    other messages are as they were. *)
Theorem message_fields_preserved (w : World) (e : event) :
  let w' := step P Math_random encodeURIComponent urlAccepted w e in
  evolves keeps_identity (messages (st w)) (messages (st w')) /\
  (is_receive e = false ->
   evolves keeps_content (messages (st w)) (messages (st w'))) /\
  (forall ws data s p pid c,
     e = SocketMessage ws data -> crashed w = false ->
     nth_error (sockets w) ws = Some s ->
     readyState s = OPEN \/ readyState s = CLOSING ->
     decode P data = Ok p ->
     get_prop p (str "id") = Ok pid -> get_prop p (str "content") = Ok c ->
     messages (st w') = List.map (answerWith pid c) (messages (st w))).
Proof.
  intros w'. subst w'. split; [|split].
  - apply ok_step; [exact keeps_identity_refl | exact keeps_identity_trans|].
    destruct (is_receive e) eqn:E.
    + destruct e; try discriminate.
      apply ok_handle_receive;
        [exact keeps_identity_refl | exact keeps_identity_trans |].
      intros c m. repeat split.
    + apply ok_handle_other;
        [exact keeps_identity_refl | exact keeps_identity_trans | | | exact E];
        intros; repeat split.
  - intros E.
    apply ok_step; [exact keeps_content_refl | exact keeps_content_trans|].
    apply ok_handle_other;
      [exact keeps_content_refl | exact keeps_content_trans | | | exact E];
      intros; repeat split.
  - intros ws data s p pid c -> Hc Hn Hr Hd Hi Hco.
    assert (E : exec (handle P Math_random encodeURIComponent urlAccepted
                        (SocketMessage ws data)) w =
                with_st (with_messages (fun _ =>
                  List.map (answerWith pid c) (messages (st w)))) w).
    { unfold exec, handle. rewrite Hn.
      assert (K : snd (ws_onmessage P (handlers s) data w) =
                  with_st (with_messages (fun _ =>
                    List.map (answerWith pid c) (messages (st w)))) w).
      { unfold ws_onmessage, try_catch, bind, lift. rewrite Hd. cbn [fst snd].
        unfold setMessagesWith.
        rewrite (applyResponse_answers p pid c _ Hi Hco). reflexivity. }
      destruct Hr as [-> | ->]; exact K. }
    rewrite step_alive; [| exact Hc | rewrite E; exact Hc].
    rewrite render_messages, E. reflexivity.
Qed.

End Fields.

(** C7 at concrete inputs: a second message is sent, and the answer to the
    first one arrives. *)
Lemma message_fields_preserved_witness :
  let w := Samples.chatting in
  let s := {| url := websocketUrl Samples.P0; readyState := OPEN;
              handlers := snapshot (initialState (str "g0") 0);
              sentFrames := [json_text
                "{'id':'u1','content':'hi','timestamp':'1970-01-01T00:00:00.005Z'}"] |} in
  let p := JObject [(str "id", JString (str "u1"));
                    (str "content", JString (str "bye"))] in
  (is_receive (UserSend (str "u2") 9) = false /\
   evolves keeps_content
     (messages (st w))
     (messages (st (Samples.step0 w (UserSend (str "u2") 9))))) /\
  (crashed w = false /\
   nth_error (sockets w) 0 = Some s /\
   (readyState s = OPEN \/ readyState s = CLOSING) /\
   decode Samples.P0 Samples.answer = Ok p /\
   get_prop p (str "id") = Ok (Some (JString (str "u1"))) /\
   get_prop p (str "content") = Ok (Some (JString (str "bye"))) /\
   messages (st (Samples.step0 w (SocketMessage 0 Samples.answer))) =
     List.map (answerWith (Some (JString (str "u1"))) (Some (JString (str "bye"))))
       (messages (st w))).
Proof.
  cbv zeta. split.
  - split; [reflexivity|].
    apply (message_fields_preserved Samples.P0 Samples.rnd0 Samples.encURI
             Samples.acceptAll Samples.chatting (UserSend (str "u2") 9)).
    reflexivity.
  - assert (H1 : crashed Samples.chatting = false) by reflexivity.
    assert (H2 : nth_error (sockets Samples.chatting) 0 =
                 Some {| url := websocketUrl Samples.P0; readyState := OPEN;
                         handlers := snapshot (initialState (str "g0") 0);
                         sentFrames := [json_text
                           "{'id':'u1','content':'hi','timestamp':'1970-01-01T00:00:00.005Z'}"] |})
      by (vm_compute; reflexivity).
    assert (H3 : decode Samples.P0 Samples.answer =
                 Ok (JObject [(str "id", JString (str "u1"));
                              (str "content", JString (str "bye"))]))
      by (vm_compute; reflexivity).
    split; [exact H1|]. split; [exact H2|]. split; [left; reflexivity|].
    split; [exact H3|]. split; [reflexivity|]. split; [reflexivity|].
    destruct (message_fields_preserved Samples.P0 Samples.rnd0 Samples.encURI
                Samples.acceptAll Samples.chatting (SocketMessage 0 Samples.answer))
      as (_ & _ & K).
    exact (K 0%nat Samples.answer _ _ _ _ eq_refl H1 H2 (or_introl eq_refl) H3
             eq_refl eq_refl).
Defined.

(** C7 as stated fails: a frame that names message [u1] and carries the
    content [bye] replaces the content [hi] of that message. *)
Lemma onmessage_overwrites_content :
  let w := Samples.chatting in
  let w' := Samples.step0 w (SocketMessage 0 Samples.answer) in
  List.map (fun m => (id m, content m)) (messages (st w)) =
    [(str "g0", content (greeting (str "g0") 0));
     (str "u1", Some (JString (str "hi")))] /\
  List.map (fun m => (id m, content m)) (messages (st w')) =
    [(str "g0", content (greeting (str "g0") 0));
     (str "u1", Some (JString (str "bye")))] /\
  ~ evolves keeps_content (messages (st w)) (messages (st w')).
Proof.
  cbv zeta. split; [reflexivity|]. split; [reflexivity|].
  intros (l1 & l2 & E & F).
  remember (messages (st Samples.chatting)) as l eqn:El.
  remember (messages (st (Samples.step0 Samples.chatting
                            (SocketMessage 0 Samples.answer)))) as l' eqn:El'.
  vm_compute in El, El'. subst l l'.
  inversion F as [|a b la lb Hab F1]; subst.
  inversion F1 as [|a2 b2 la2 lb2 Hab2 F2]; subst.
  inversion F2; subst. cbn in E. inversion E; subst.
  destruct Hab2 as [_ Hc]. cbn in Hc. discriminate.
Qed.

(* ===================================================================== *)
(** * Submitting and the outbound queue *)
(* ===================================================================== *)

Section Submit.
Variable P : Props.



Lemma handleSend_proceeds (G : Closure) (inputValue uuid : jsstring)
    (now : Date) (w : World) :
  c_isConnected G = true -> trim inputValue <> [] ->
  handleSend P G inputValue uuid now w =
  sendMessage P G (sentMessage uuid inputValue now sending)
    (with_st (with_inputValue [])
       (with_st (with_messages (fun prev =>
          prev ++ [sentMessage uuid inputValue now sending])) w)).
Proof.
  intros Hc Hv. unfold handleSend.
  rewrite Hc. destruct (trim inputValue) as [|c r] eqn:E; [congruence|].
  reflexivity.
Qed.


End Submit.



Lemma nth_error_update_nth {A : Type} (f : A -> A) (l : list A) (n : nat) :
  nth_error (update_nth n f l) n = option_map f (nth_error l n).
Proof.
  revert n. induction l as [|x l IH]; intros [|n]; cbn; auto.
Qed.

Lemma Forall_update_nth {A : Type} (Q : A -> Prop) (f : A -> A) (l : list A) (n : nat) :
  (forall a, Q a -> Q (f a)) -> Forall Q l -> Forall Q (update_nth n f l).
Proof.
  intros Hf H. revert n. induction H as [|x l Hx Hl IH]; intros [|n]; cbn;
    constructor; auto.
Qed.

Section Flush.
Variable P : Props.
Variable Math_random : nat -> Q.

Lemma flushMessageQueue_stale (G : Closure) (w : World) :
  c_isConnected G = false -> flushMessageQueue P G w = (Ok tt, w).
Proof.
  intros H. unfold flushMessageQueue, bind, gets. rewrite H.
  rewrite andb_false_r. reflexivity.
Qed.

Lemma forEach_retry_stale (G : Closure) (l : list Message) (w : World) :
  c_isConnected G = false ->
  let w' := exec (forEach l (fun message => retryFailedMessage Math_random G (id message))) w in
  refs w' = refs w /\ sockets w' = sockets w /\ timers w' = timers w /\
  messages (st w') = messages (st w) /\ isConnected (st w') = isConnected (st w).
Proof.
  intros H. revert w. induction l as [|m l IH]; intros w; cbn.
  - repeat split.
  - unfold exec, bind.
    rewrite (@retryFailedMessage_skips Math_random G (id m) w (or_intror H)).
    destruct (IH (with_st (with_retryMessageId (Some (id m))) w))
      as (K1 & K2 & K3 & K4 & K5).
    unfold exec in *. rewrite K1, K2, K3, K4, K5. repeat split.
Qed.

Lemma ws_onopen_stale_eq (G : Closure) (w : World) :
  c_isConnected G = false ->
  ws_onopen P Math_random G w =
  flushFailedMessages Math_random G
    (with_notices (fun l => l ++ [ConnectedToServer])
       (with_st (with_connectionRetryCount 0)
          (with_st (with_isAutoConnecting false)
             (with_st (with_isConnecting false)
                (with_st (with_isConnected true) w))))).
Proof.
  intros H. unfold ws_onopen.
  repeat (unfold bind at 1; cbn [setIsConnected setIsConnecting
    setIsAutoConnecting setConnectionRetryCount notify modify]).
  rewrite (@flushMessageQueue_stale G _ H). reflexivity.
Qed.

(** [ws.onopen] in the closure of a socket: the queue is not touched and no
    frame is sent. *)
Lemma ws_onopen_stale (G : Closure) (w : World) :
  c_isConnected G = false ->
  let w' := exec (ws_onopen P Math_random G) w in
  messageQueueRef (refs w') = messageQueueRef (refs w) /\
  sockets w' = sockets w /\ timers w' = timers w /\
  isConnected (st w') = true.
Proof.
  intros H w'. subst w'. unfold exec.
  rewrite (@ws_onopen_stale_eq G w H).
  unfold flushFailedMessages, bind, gets.
  match goal with |- context [forEach ?l ?f ?x] =>
    destruct (@forEach_retry_stale G l x H) as (K1 & K2 & K3 & K4 & K5)
  end.
  unfold exec in *. rewrite K1, K2, K3, K5. repeat split.
Qed.

Lemma sendMessage_returns (G : Closure) (m : Message) (w : World) :
  fst (sendMessage P G m w) = Ok tt.
Proof.
  unfold sendMessage. destruct (c_isConnected G); cbn [negb]; [|reflexivity].
  unfold try_catch, bind, lift. destruct (encode P m); [|reflexivity].
  unfold wsRef_send, bind, gets. destruct (wsRef (refs w)) as [n|]; [|reflexivity].
  unfold socket_send. destruct (nth_error (sockets w) n) as [s|]; [|reflexivity].
  destruct (readyState s); reflexivity.
Qed.

Lemma forEach_returns {A : Type} (f : A -> M unit) (l : list A) :
  (forall a w, fst (f a w) = Ok tt) -> forall w, fst (forEach l f w) = Ok tt.
Proof.
  intros Hf. induction l as [|x l IH]; intros w; cbn; [reflexivity|].
  unfold bind. specialize (Hf x w). destruct (f x w) as [[[]|e] w1]; cbn in Hf.
  - apply IH.
  - discriminate.
Qed.

Lemma forEach_cons_ok {A : Type} (f : A -> M unit) (x : A) (l : list A)
    (w w1 : World) :
  f x w = (Ok tt, w1) -> forEach (x :: l) f w = forEach l f w1.
Proof. intros H. cbn. unfold bind. now rewrite H. Qed.

(** The same [flushMessageQueue] in a closure whose [isConnected] is true,
    with an open socket in [wsRef]: the frames go out in the order of the
    queue, and the queue is empty afterwards. *)
Lemma forEach_sendMessage_in_order (G : Closure) (n : nat) (q : list Message) :
  c_isConnected G = true ->
  forall (w : World) (s : Socket),
  wsRef (refs w) = Some n -> nth_error (sockets w) n = Some s ->
  readyState s = OPEN ->
  let w' := exec (forEach q (sendMessage P G)) w in
  refs w' = refs w /\
  exists s', nth_error (sockets w') n = Some s' /\ readyState s' = OPEN /\
             sentFrames s' = sentFrames s ++ encoded P q.
Proof.
  intros Hc. induction q as [|m q IH]; intros w s Hr Hn Ho.
  - cbn. split; [reflexivity|]. exists s. rewrite app_nil_r. auto.
  - unfold exec.
    assert (E : sendMessage P G m w =
      match encode P m with
      | Ok enc =>
          (Ok tt,
           with_st (with_messages (List.map (fun msg =>
              if jsstring_eqb (id msg) (id m) then with_status sending msg else msg)))
             (with_sockets (update_nth n (with_sentFrames (fun l => l ++ [enc]))) w))
      | Throw _ =>
          (Ok tt,
           with_notices (fun l => l ++ [SendFailed])
             (with_st (with_messages (List.map (fun msg =>
                if jsstring_eqb (id msg) (id m) then with_status failed msg else msg))) w))
      end).
    { unfold sendMessage. rewrite Hc. cbn [negb].
      unfold try_catch, bind, lift. destruct (encode P m) as [enc|e]; [|reflexivity].
      unfold wsRef_send, bind, gets. rewrite Hr. unfold socket_send.
      rewrite Hn, Ho. reflexivity. }
    unfold encoded. cbn [flat_map]. fold (encoded P q).
    destruct (encode P m) as [enc|e];
      rewrite (forEach_cons_ok (sendMessage P G) m q _ _ E).
    + match goal with |- context [forEach q (sendMessage P G) ?x] =>
        destruct (IH x (with_sentFrames (fun l => l ++ [enc]) s)) as (K1 & s' & K2 & K3 & K4)
      end.
      * exact Hr.
      * cbn. rewrite nth_error_update_nth, Hn. reflexivity.
      * exact Ho.
      * unfold exec in *. split; [rewrite K1; reflexivity|].
        exists s'. split; [exact K2|]. split; [exact K3|].
        rewrite K4. cbn. now rewrite <- app_assoc.
    + match goal with |- context [forEach q (sendMessage P G) ?x] =>
        destruct (IH x s) as (K1 & s' & K2 & K3 & K4)
      end; try assumption.
      unfold exec in *. split; [rewrite K1; reflexivity|].
      exists s'. auto.
Qed.

Lemma flushMessageQueue_connected_eq (G : Closure) (w : World) :
  c_isConnected G = true -> messageQueueRef (refs w) <> [] ->
  flushMessageQueue P G w =
  (Ok tt, with_refs (with_messageQueueRef [])
            (exec (forEach (messageQueueRef (refs w)) (sendMessage P G)) w)).
Proof.
  intros Hc Hq. unfold flushMessageQueue, exec.
  unfold bind at 1. cbn [gets]. rewrite Hc, andb_true_r.
  replace (0 <? Z.of_nat (List.length (messageQueueRef (refs w)))) with true.
  2:{ symmetry. apply Z.ltb_lt.
      destruct (messageQueueRef (refs w)); [congruence | cbn [List.length]; lia]. }
  unfold bind.
  pose proof (forEach_returns (sendMessage P G) (messageQueueRef (refs w))
                (sendMessage_returns G) w) as Hf.
  destruct (forEach (messageQueueRef (refs w)) (sendMessage P G) w) as [[[]|e] w1];
    cbn in *; [reflexivity | discriminate].
Qed.

Lemma flushMessageQueue_in_order (G : Closure) (n : nat) (w : World) (s : Socket) :
  c_isConnected G = true ->
  wsRef (refs w) = Some n -> nth_error (sockets w) n = Some s ->
  readyState s = OPEN ->
  messageQueueRef (refs w) <> [] ->
  let w' := exec (flushMessageQueue P G) w in
  messageQueueRef (refs w') = [] /\
  exists s', nth_error (sockets w') n = Some s' /\
             sentFrames s' = sentFrames s ++ encoded P (messageQueueRef (refs w)).
Proof.
  intros Hc Hr Hn Ho Hq w'. subst w'. unfold exec.
  rewrite (flushMessageQueue_connected_eq G w Hc Hq). cbn.
  split; [reflexivity|].
  destruct (forEach_sendMessage_in_order G n (messageQueueRef (refs w)) Hc w s Hr Hn Ho)
    as (K1 & s' & K2 & K3 & K4).
  exists s'. auto.
Qed.

End Flush.

(* ===================================================================== *)
(** * Runs of the component *)
(* ===================================================================== *)

Lemma length_update_nth {A : Type} (f : A -> A) (l : list A) (n : nat) :
  List.length (update_nth n f l) = List.length l.
Proof. revert n. induction l as [|x l IH]; intros [|n]; cbn; auto. Qed.

Section Reconnect.
Variable P : Props.
Variable Math_random : nat -> Q.
Variable encodeURIComponent : jsstring -> result jsstring.
Variable urlAccepted : jsstring -> bool.

Local Abbreviation handle' := (handle P Math_random encodeURIComponent urlAccepted).
Local Abbreviation render1' := (render1 P encodeURIComponent urlAccepted).
Local Abbreviation render' := (render P encodeURIComponent urlAccepted).
Local Abbreviation step' := (step P Math_random encodeURIComponent urlAccepted).
Local Abbreviation run' := (run P Math_random encodeURIComponent urlAccepted).
Local Abbreviation connect' := (connectWebSocket P encodeURIComponent urlAccepted).

Lemma connectWebSocket_blocked (G : Closure) (w : World) :
  c_isConnecting G = true \/ c_isConnected G = true \/ c_isAutoConnecting G = true ->
  connect' G w = (Ok tt, w).
Proof.
  intros H. unfold connectWebSocket.
  replace (c_isConnecting G || c_isConnected G || c_isAutoConnecting G) with true;
    [reflexivity|].
  symmetry. destruct H as [H|[H|H]]; rewrite H;
    repeat rewrite orb_true_r; reflexivity.
Qed.

Lemma connectWebSocket_opens (G : Closure) (u : jsstring) (w : World) :
  c_isConnecting G = false -> c_isConnected G = false ->
  c_isAutoConnecting G = false ->
  connectUrl P encodeURIComponent = Ok u -> urlAccepted u = true ->
  connect' G w =
  (Ok tt,
   with_refs (with_wsRef (Some (List.length (sockets w))))
     (with_sockets (fun l => l ++ [{| url := u; readyState := CONNECTING;
                                      handlers := G; sentFrames := [] |}])
        (with_st (with_showErrorMessage false)
           (with_st (with_error None)
              (with_st (with_isConnecting true) w))))).
Proof.
  intros H1 H2 H3 Hu Ha. unfold connectWebSocket. rewrite H1, H2, H3.
  cbn [orb].
  repeat (unfold bind at 1; cbn [setIsConnecting setError setShowErrorMessage modify]).
  unfold try_catch, bind, lift. rewrite Hu. unfold newWebSocket. rewrite Ha.
  reflexivity.
Qed.

Lemma render1_settled (w : World) :
  connectionRetryCount (st w) = c_connectionRetryCount (memo w) ->
  render1' w = w.
Proof.
  intros H. unfold render1. destruct (crashed w); [reflexivity|].
  rewrite H, Z.eqb_refl. reflexivity.
Qed.

Lemma render_settled (w : World) :
  connectionRetryCount (st w) = c_connectionRetryCount (memo w) ->
  render' w = w.
Proof.
  intros H. unfold render. rewrite (render1_settled w H). apply render1_settled, H.
Qed.

(** A render after [connectionRetryCount] changed while [isAutoConnecting]
    is set: the new [connectWebSocket] returns at its guard; only the
    cleanup of the effect has run. *)
Lemma render1_while_autoconnecting (w : World) :
  crashed w = false ->
  connectionRetryCount (st w) <> c_connectionRetryCount (memo w) ->
  isAutoConnecting (st w) = true ->
  render1' w = exec effectCleanup (with_memo (snapshot (st w)) w).
Proof.
  intros Hc Hn Ha. unfold render1. rewrite Hc.
  replace (connectionRetryCount (st w) =? c_connectionRetryCount (memo w))
    with false by (symmetry; apply Z.eqb_neq; exact Hn).
  unfold exec, bind.
  destruct (effectCleanup (with_memo (snapshot (st w)) w)) as [[[]|e] w1] eqn:E1;
    cbn [snd].
  - rewrite connectWebSocket_blocked; [reflexivity|].
    right. right. exact Ha.
  - reflexivity.
Qed.

Lemma bind_ok {A B : Type} (c : M A) (k : A -> M B) (a : A) (w : World) :
  fst (c w) = Ok a -> bind c k w = k a (snd (c w)).
Proof. unfold bind. destruct (c w) as [[x|e] w1]; cbn; congruence. Qed.

Lemma effectCleanup_returns (w : World) : fst (effectCleanup w) = Ok tt.
Proof.
  unfold effectCleanup, bind, gets. destruct (wsRef (refs w)); reflexivity.
Qed.

Lemma effectCleanup_settled (w : World) :
  connectionRetryCount (st (exec effectCleanup w)) = connectionRetryCount (st w) /\
  memo (exec effectCleanup w) = memo w /\
  crashed (exec effectCleanup w) = crashed w.
Proof.
  unfold exec, effectCleanup, bind, gets.
  destruct (wsRef (refs w)); repeat split.
Qed.

Lemma render_while_autoconnecting (w : World) :
  crashed w = false ->
  connectionRetryCount (st w) <> c_connectionRetryCount (memo w) ->
  isAutoConnecting (st w) = true ->
  render' w = exec effectCleanup (with_memo (snapshot (st w)) w).
Proof.
  intros Hc Hn Ha. unfold render.
  rewrite (render1_while_autoconnecting w Hc Hn Ha). apply render1_settled.
  destruct (effectCleanup_settled (with_memo (snapshot (st w)) w)) as (K1 & K2 & _).
  rewrite K1, K2. reflexivity.
Qed.

(** What [connectWebSocket] can do to the retry count: nothing, or, through
    [handleConnectionRetry], one more than the count of its closure, with
    [isAutoConnecting] set. *)
Lemma connectWebSocket_count (G : Closure) (w : World) :
  let w' := exec (connect' G) w in
  memo w' = memo w /\ crashed w' = crashed w /\
  (connectionRetryCount (st w') = connectionRetryCount (st w) \/
   connectionRetryCount (st w') = c_connectionRetryCount G + 1 /\
   isAutoConnecting (st w') = true).
Proof.
  unfold exec, connectWebSocket.
  destruct (c_isConnecting G || c_isConnected G || c_isAutoConnecting G);
    [cbn; auto|].
  repeat (unfold bind at 1; cbn [setIsConnecting setError setShowErrorMessage modify]).
  unfold try_catch, lift, newWebSocket.
  assert (K : forall w0,
    let w' := snd (handleConnectionRetry P G w0) in
    memo w' = memo w0 /\ crashed w' = crashed w0 /\
    (connectionRetryCount (st w') = connectionRetryCount (st w0) \/
     connectionRetryCount (st w') = c_connectionRetryCount G + 1 /\
     isAutoConnecting (st w') = true)).
  { intros w0.
    destruct (Z.le_gt_cases (maxRetries P) (c_connectionRetryCount G)) as [Hm|Hm].
    - rewrite (handleConnectionRetry_exhausted P G _ Hm). cbn. auto.
    - rewrite (handleConnectionRetry_schedules P G _ Hm). cbn. auto. }
  destruct (connectUrl P encodeURIComponent) as [u0|e];
    [destruct (urlAccepted u0); [cbn; auto|]|];
    match goal with |- context [handleConnectionRetry P G ?x] =>
      destruct (K x) as (K1 & K2 & K3)
    end; cbn in *; rewrite K1, K2; auto.
Qed.

(** Two renders are enough: a third one finds nothing to do. *)
Lemma render_stable (w : World) : render1' (render' w) = render' w.
Proof.
  unfold render.
  assert (S : forall a, crashed a = true \/
              connectionRetryCount (st a) = c_connectionRetryCount (memo a) ->
              render1' a = a).
  { intros a [Hc|Hs]; [unfold render1; now rewrite Hc | now apply render1_settled]. }
  destruct (crashed w) eqn:Hc.
  { rewrite (S w) by auto. rewrite (S w) by auto. apply S. auto. }
  destruct (Z.eq_dec (connectionRetryCount (st w)) (c_connectionRetryCount (memo w)))
    as [Hs|Hn].
  { rewrite (S w) by auto. rewrite (S w) by auto. apply S. auto. }
  set (G := snapshot (st w)).
  set (w0 := exec effectCleanup (with_memo G w)).
  assert (E1 : render1' w = exec (connect' G) w0).
  { unfold render1. rewrite Hc.
    replace (connectionRetryCount (st w) =? c_connectionRetryCount (memo w))
      with false by (symmetry; apply Z.eqb_neq; exact Hn).
    fold G. unfold w0, exec.
    now rewrite (bind_ok _ _ tt _ (effectCleanup_returns _)). }
  destruct (effectCleanup_settled (with_memo G w)) as (C1 & C2 & C3).
  fold w0 in C1, C2, C3. cbn in C1, C2, C3.
  destruct (connectWebSocket_count G w0) as (M1 & M2 & M3).
  cbv zeta in M1, M2, M3. rewrite <- E1 in M1, M2, M3.
  rewrite C2 in M1. rewrite C3, Hc in M2. rewrite C1 in M3.
  destruct M3 as [M3 | [M3 M4]].
  - assert (Hs1 : connectionRetryCount (st (render1' w)) =
                  c_connectionRetryCount (memo (render1' w)))
      by (rewrite M1, M3; reflexivity).
    rewrite (S (render1' w)) by auto. apply S. auto.
  - assert (Hn1 : connectionRetryCount (st (render1' w)) <>
                  c_connectionRetryCount (memo (render1' w)))
      by (rewrite M1, M3; cbn; lia).
    rewrite (render1_while_autoconnecting _ M2 Hn1 M4).
    apply render1_settled.
    destruct (effectCleanup_settled
                (with_memo (snapshot (st (render1' w))) (render1' w))) as (K1 & K2 & _).
    rewrite K1, K2. reflexivity.
Qed.

Lemma effectCleanup_frame (w : World) :
  let w' := exec effectCleanup w in
  st w' = st w /\ timers w' = timers w /\ memo w' = memo w /\
  crashed w' = crashed w /\ refs w' = refs w /\
  List.length (sockets w') = List.length (sockets w).
Proof.
  unfold exec, effectCleanup, bind, gets.
  destruct (wsRef (refs w)) as [n|]; cbn; repeat split.
  apply length_update_nth.
Qed.

(** An abnormal close of a socket made in the first render. *)
Lemma handle_close_first (i : nat) (s : Socket) (code : Z) (w : World) :
  nth_error (sockets w) i = Some s -> readyState s = CONNECTING ->
  handlers s = firstClosure -> code <> 1000 -> 0 < maxRetries P ->
  handle' (SocketClose i code) w =
  (Ok tt,
   with_refs (with_retryTimeoutRef (Some (List.length (timers w))))
     (with_timers (fun l => l ++ [{| delay := backoffDelay P 1;
                                     action := ReconnectTimer firstClosure 1;
                                     pending := true |}])
        (with_st (with_connectionRetryCount 1)
           (with_st (with_isAutoConnecting true)
              (with_st (with_isConnecting false)
                 (with_st (with_isConnected false)
                    (with_sockets (update_nth i (with_readyState CLOSED)) w))))))).
Proof.
  intros Hn Hr Hh Hc Hm. unfold handle. rewrite Hn, Hr, Hh.
  unfold bind at 1. cbn [setReadyState modify].
  rewrite (ws_onclose_reconnects P firstClosure code _ Hc Hm).
  rewrite (handleConnectionRetry_schedules P firstClosure _ Hm).
  reflexivity.
Qed.

(** The reconnect timer of the first render expires. *)
Lemma handle_timer_first (i : nat) (t : Timer) (u : jsstring) (w : World) :
  nth_error (timers w) i = Some t -> pending t = true ->
  action t = ReconnectTimer firstClosure 1 ->
  connectUrl P encodeURIComponent = Ok u -> urlAccepted u = true ->
  handle' (TimerFires i) w =
  (Ok tt,
   with_refs (with_wsRef (Some (List.length (sockets w))))
     (with_sockets (fun l => l ++ [{| url := u; readyState := CONNECTING;
                                      handlers := firstClosure; sentFrames := [] |}])
        (with_st (with_showErrorMessage false)
           (with_st (with_error None)
              (with_st (with_isConnecting true)
                 (with_notices (fun l => l ++ [ReconnectAttempt 1])
                    (with_timers (update_nth i (with_pending false)) w))))))).
Proof.
  intros Hn Hp Ha Hu Hacc. unfold handle. rewrite Hn, Hp, Ha.
  unfold bind at 1. cbn [modify]. cbn [runTimer].
  unfold bind at 1. cbn [notify modify].
  rewrite (connectWebSocket_opens firstClosure u _ eq_refl eq_refl eq_refl Hu Hacc).
  reflexivity.
Qed.

Hypothesis retries_allowed : 0 < maxRetries P.
Variable u : jsstring.
Hypothesis url_built : connectUrl P encodeURIComponent = Ok u.
Hypothesis url_accepted : urlAccepted u = true.

(** One failure: the attempt fails, and the next attempt is under way. *)
Lemma failure_then_next_attempt (i : nat) (w : World) :
  attempting u i w ->
  attempting u (S i) (run' w [SocketClose i 1006; TimerFires i]).
Proof.
  intros (Hc & Hl & Hs & Ht & Hm & Hcount & Herr).
  cbn [run fold_left].
  (* the close event *)
  set (w1 := exec (handle' (SocketClose i 1006)) w).
  assert (E1 : w1 = _) by
    (unfold w1, exec;
     rewrite (handle_close_first i _ 1006 w Hs eq_refl eq_refl ltac:(discriminate)
                retries_allowed); reflexivity).
  cbn [snd] in E1.
  assert (S1 : step' w (SocketClose i 1006) = render' w1).
  { unfold w1.
    apply (step_other P Math_random encodeURIComponent urlAccepted);
      [exact Hc | reflexivity]. }
  set (w2 := render' w1) in *.
  assert (F2 : crashed w2 = false /\ timers w2 = timers w1 /\
               List.length (sockets w2) = S i /\
               connectionRetryCount (st w2) = 1 /\
               c_connectionRetryCount (memo w2) = 1 /\
               isAutoConnecting (st w2) = true).
  { destruct Hcount as [H0 | [H1 Ha]].
    - (* first failure: the count changes and the callbacks are re-created *)
      assert (R : w2 = exec effectCleanup (with_memo (snapshot (st w1)) w1)).
      { unfold w2. apply render_while_autoconnecting.
        - rewrite E1. exact Hc.
        - rewrite E1. cbn. rewrite <- Hm, H0. discriminate.
        - rewrite E1. reflexivity. }
      destruct (effectCleanup_frame (with_memo (snapshot (st w1)) w1))
        as (K1 & K2 & K3 & K4 & K5 & K6).
      rewrite <- R in K1, K2, K3, K4, K5, K6.
      rewrite K1, K2, K3, K4, K6. rewrite E1. cbn.
      rewrite length_update_nth. repeat split; first [assumption | congruence].
    - (* later failures: the count stays 1, nothing is re-created *)
      assert (R : w2 = w1).
      { unfold w2. apply render_settled. rewrite E1. cbn. rewrite <- Hm. auto. }
      rewrite R, E1. cbn. rewrite length_update_nth.
      repeat split; first [assumption | congruence]. }
  destruct F2 as (C2 & T2 & L2 & N2 & M2 & A2).
  rewrite S1.
  (* the timer *)
  assert (Hn2 : nth_error (timers w2) i =
                Some {| delay := backoffDelay P 1;
                        action := ReconnectTimer firstClosure 1;
                        pending := true |}).
  { rewrite T2, E1. cbn. rewrite nth_error_app2 by lia.
    rewrite Ht, Nat.sub_diag. reflexivity. }
  set (w3 := exec (handle' (TimerFires i)) w2).
  assert (E3 : w3 = _) by
    (unfold w3, exec;
     rewrite (handle_timer_first i _ u w2 Hn2 eq_refl eq_refl url_built url_accepted);
     reflexivity).
  cbn [snd] in E3.
  assert (S3 : step' w2 (TimerFires i) = w3).
  { rewrite (step_other P Math_random encodeURIComponent urlAccepted)
      by (first [exact C2 | reflexivity]).
    fold w3. apply render_settled.
    rewrite E3. cbn. congruence. }
  rewrite S3, E3. unfold attempting. cbn -[nth_error].
  rewrite length_app, length_update_nth, L2, T2, E1. cbn -[nth_error].
  rewrite length_app, Ht. cbn -[nth_error].
  rewrite nth_error_app2 by lia. rewrite L2, Nat.sub_diag.
  repeat split; try lia; try congruence.
  right. split; congruence.
Qed.

(** Any number of failures in a row: the component is connecting once more,
    and displays no error. *)
Lemma failures_never_stop (k i : nat) (w : World) :
  attempting u i w -> attempting u (k + i) (run' w (failures k i)).
Proof.
  revert i w. induction k as [|k IH]; intros i w H; [exact H|].
  cbn [failures].
  change (run' w (SocketClose i 1006 :: TimerFires i :: failures k (S i)))
    with (run' (run' w [SocketClose i 1006; TimerFires i]) (failures k (S i))).
  replace (S k + i)%nat with (k + S i)%nat by lia.
  apply IH, failure_then_next_attempt, H.
Qed.

Lemma mount_attempting (uuid : jsstring) (now : Date) :
  attempting u 0 (mount P encodeURIComponent urlAccepted uuid now).
Proof.
  unfold mount.
  assert (E : exec (connect' (memo (initialWorld uuid now))) (initialWorld uuid now) = _)
    by (unfold exec;
        rewrite (connectWebSocket_opens (memo (initialWorld uuid now)) u _
                   eq_refl eq_refl eq_refl url_built url_accepted); reflexivity).
  cbn [snd] in E. rewrite E.
  rewrite render_settled by reflexivity.
  unfold attempting. cbn. repeat split. now left.
Qed.

End Reconnect.

Lemma Rel_queue_refl w : Rel_queue w w.
Proof. intro H. auto. Qed.

Lemma Rel_queue_trans a b c : Rel_queue a b -> Rel_queue b c -> Rel_queue a c.
Proof.
  intros H1 H2 Ha. destruct (H1 Ha) as [Hb E1]. destruct (H2 Hb) as [Hc E2].
  split; [exact Hc | congruence].
Qed.

Section Queue.
Variable P : Props.
Variable Math_random : nat -> Q.
Variable encodeURIComponent : jsstring -> result jsstring.
Variable urlAccepted : jsstring -> bool.

Local Abbreviation okq := (respects Rel_queue).

Lemma okq_same {A : Type} (c : M A) :
  (forall w, sockets (snd (c w)) = sockets w /\
             messageQueueRef (refs (snd (c w))) = messageQueueRef (refs w)) ->
  okq c.
Proof. intros H w Hw. destruct (H w) as [E1 E2]. rewrite E1, E2. auto. Qed.

Lemma okq_modify_same (f : World -> World) :
  (forall w, sockets (f w) = sockets w) ->
  (forall w, messageQueueRef (refs (f w)) = messageQueueRef (refs w)) ->
  okq (modify f).
Proof. intros H1 H2. apply okq_same. intro w. split; [apply H1 | apply H2]. Qed.

Lemma okq_update (n : nat) (f : Socket -> Socket) :
  (forall s, handlers (f s) = handlers s) ->
  okq (modify (with_sockets (update_nth n f))).
Proof.
  intros Hf w Hw. cbn. split; [|reflexivity].
  apply Forall_update_nth; [|exact Hw].
  intros s Hs. unfold staleClosure in *. now rewrite Hf.
Qed.

Lemma okq_socket_send n d : okq (socket_send n d).
Proof.
  intros w Hw. unfold socket_send.
  destruct (nth_error (sockets w) n) as [s|]; [|now apply Rel_queue_refl].
  destruct (readyState s); try now apply Rel_queue_refl.
  now apply (okq_update n (with_sentFrames (fun l => l ++ [d]))).
Qed.

Lemma okq_wsRef_send d : okq (wsRef_send d).
Proof.
  unfold wsRef_send. apply respects_bind;
    [exact Rel_queue_trans | apply respects_gets; exact Rel_queue_refl |].
  intros [n|]; [apply okq_socket_send | apply respects_ret; exact Rel_queue_refl].
Qed.

Lemma okq_socket_close n : okq (socket_close n).
Proof. apply okq_update. intros s. destruct (readyState s); reflexivity. Qed.

Lemma okq_setReadyState n v : okq (setReadyState n v).
Proof. apply okq_update. reflexivity. Qed.

Lemma okq_newWebSocket u G :
  c_isConnected G = false -> okq (newWebSocket urlAccepted u G).
Proof.
  intros HG w Hw. unfold newWebSocket.
  destruct (urlAccepted u); [|now apply Rel_queue_refl].
  cbn. split; [|reflexivity].
  apply Forall_app. split; [exact Hw|]. constructor; [exact HG | constructor].
Qed.

Ltac okq_prim :=
  first
    [ apply okq_socket_send | apply okq_wsRef_send | apply okq_socket_close
    | apply okq_setReadyState
    | apply okq_modify_same; reflexivity
    | apply okq_same; intro; split; reflexivity ].

Ltac okq_go_with tac :=
  repeat first
    [ tac
    | okq_prim
    | apply respects_ret; exact Rel_queue_refl
    | apply respects_lift; exact Rel_queue_refl
    | apply respects_gets; exact Rel_queue_refl
    | apply respects_bind; [exact Rel_queue_trans | | intro]
    | apply respects_try_catch; [exact Rel_queue_trans | | ]
    | match goal with
      | |- respects _ (if ?b then _ else _) => destruct b
      | |- respects _ (match ?x with _ => _ end) => destruct x
      end ].

Ltac okq_go := okq_go_with fail.

Lemma okq_retrySend m k : okq (retrySend P m k).
Proof. unfold retrySend, retrySendBody, notify, setRetryMessageId. okq_go. Qed.

Lemma okq_retryFailedMessage G k : okq (retryFailedMessage Math_random G k).
Proof.
  unfold retryFailedMessage, setRetryMessageId, setMessages, random, setTimeout.
  okq_go.
Qed.

Lemma okq_flushFailedMessages G : okq (flushFailedMessages Math_random G).
Proof.
  unfold flushFailedMessages.
  apply respects_bind; [exact Rel_queue_trans | apply respects_gets; exact Rel_queue_refl |].
  intro l. apply respects_forEach;
    [exact Rel_queue_refl | exact Rel_queue_trans | intro; apply okq_retryFailedMessage].
Qed.

(** [sendMessage] leaves the queue alone in a closure that is connected. *)
Lemma okq_sendMessage G m : c_isConnected G = true -> okq (sendMessage P G m).
Proof.
  intros HG. unfold sendMessage, notify, setMessages. rewrite HG. cbn [negb].
  okq_go.
Qed.

Lemma okq_handleSend G v uuid now : okq (handleSend P G v uuid now).
Proof.
  unfold handleSend, setInputValue, setMessages.
  destruct (c_isConnected G) eqn:HG.
  - okq_go_with ltac:(apply okq_sendMessage; exact HG).
  - rewrite orb_true_r. apply respects_ret. exact Rel_queue_refl.
Qed.

Lemma okq_handleConnectionRetry G : okq (handleConnectionRetry P G).
Proof.
  unfold handleConnectionRetry, notify, setIsAutoConnecting,
    setConnectionRetryCount, setTimeout. okq_go.
Qed.

Lemma okq_connectWebSocket G :
  okq (connectWebSocket P encodeURIComponent urlAccepted G).
Proof.
  unfold connectWebSocket, setIsConnecting, setError, setShowErrorMessage.
  destruct (c_isConnected G) eqn:HG.
  - rewrite orb_true_r. apply respects_ret. exact Rel_queue_refl.
  - okq_go_with ltac:(first [ apply okq_handleConnectionRetry
                            | apply okq_newWebSocket; exact HG ]).
Qed.

(** [ws.onopen] in the closure of a socket. *)
Lemma okq_ws_onopen G : c_isConnected G = false -> okq (ws_onopen P Math_random G).
Proof.
  intros HG w. rewrite (ws_onopen_stale_eq P Math_random G w HG).
  eapply Rel_queue_trans; [|apply okq_flushFailedMessages].
  intro H. auto.
Qed.

Lemma okq_ws_onmessage G data : okq (ws_onmessage P G data).
Proof.
  unfold ws_onmessage, notify.
  apply respects_try_catch; [exact Rel_queue_trans | | okq_go].
  apply respects_bind; [exact Rel_queue_trans | apply respects_lift; exact Rel_queue_refl |].
  intros p. apply okq_same. intro w. unfold setMessagesWith.
  destruct (applyResponse p (messages (st w))); split; reflexivity.
Qed.

Lemma okq_ws_onerror G n : okq (ws_onerror P G n).
Proof.
  unfold ws_onerror, notify, setError.
  okq_go_with ltac:(apply okq_handleConnectionRetry).
Qed.

Lemma okq_ws_onclose G code : okq (ws_onclose P G code).
Proof.
  unfold ws_onclose, notify, setError, setShowErrorMessage, setIsConnected,
    setIsConnecting.
  okq_go_with ltac:(apply okq_handleConnectionRetry).
Qed.

Lemma okq_runTimer a : okq (runTimer P encodeURIComponent urlAccepted a).
Proof.
  destruct a; cbn [runTimer]; [|apply okq_retrySend].
  unfold notify. okq_go_with ltac:(apply okq_connectWebSocket).
Qed.

Lemma okq_render1 w : Rel_queue w (render1 P encodeURIComponent urlAccepted w).
Proof.
  unfold render1. destruct (crashed w); [apply Rel_queue_refl|].
  destruct (_ =? _); [apply Rel_queue_refl|].
  unfold exec.
  assert (K : okq (effectCleanup ;;
                   connectWebSocket P encodeURIComponent urlAccepted (snapshot (st w)))%chat).
  { apply respects_bind; [exact Rel_queue_trans | |].
    - unfold effectCleanup. okq_go.
    - intros _. apply okq_connectWebSocket. }
  exact (K (with_memo (snapshot (st w)) w)).
Qed.

Lemma okq_render w : Rel_queue w (render P encodeURIComponent urlAccepted w).
Proof. unfold render. eapply Rel_queue_trans; apply okq_render1. Qed.

Lemma okq_handle (e : event) :
  okq (handle P Math_random encodeURIComponent urlAccepted e).
Proof.
  intros w. destruct e; unfold handle.
  - destruct (nth_error (sockets w) ws) as [s|] eqn:En; [|apply Rel_queue_refl].
    destruct (readyState s); try apply Rel_queue_refl.
    intros Hw.
    assert (Hs : c_isConnected (handlers s) = false).
    { apply nth_error_In in En. rewrite Forall_forall in Hw. exact (Hw s En). }
    revert Hw. revert w En.
    intros w _.
    change (Rel_queue w (snd ((setReadyState ws OPEN ;;
              ws_onopen P Math_random (handlers s))%chat w))).
    revert w. apply respects_bind; [exact Rel_queue_trans | apply okq_setReadyState |].
    intros _. apply okq_ws_onopen, Hs.
  - destruct (nth_error (sockets w) ws) as [s|]; [|apply Rel_queue_refl].
    destruct (readyState s); first [apply Rel_queue_refl | apply okq_ws_onmessage].
  - destruct (nth_error (sockets w) ws) as [s|]; [|apply Rel_queue_refl].
    assert (K : okq (setReadyState ws CLOSED ;; ws_onerror P (handlers s) ws ;;
                     ws_onclose P (handlers s) code)%chat).
    { apply respects_bind; [exact Rel_queue_trans | apply okq_setReadyState |].
      intros _. apply respects_bind; [exact Rel_queue_trans | apply okq_ws_onerror |].
      intros _. apply okq_ws_onclose. }
    destruct (readyState s); first [apply Rel_queue_refl | apply K].
  - destruct (nth_error (sockets w) ws) as [s|]; [|apply Rel_queue_refl].
    assert (K : okq (setReadyState ws CLOSED ;; ws_onclose P (handlers s) code)%chat).
    { apply respects_bind; [exact Rel_queue_trans | apply okq_setReadyState |].
      intros _. apply okq_ws_onclose. }
    destruct (readyState s); first [apply Rel_queue_refl | apply K].
  - destruct (nth_error (timers w) t) as [tm|]; [|apply Rel_queue_refl].
    destruct (pending tm); [|apply Rel_queue_refl].
    revert w.
    change (okq (modify (with_timers (update_nth t (with_pending false))) ;;
                 runTimer P encodeURIComponent urlAccepted (action tm))%chat).
    apply respects_bind; [exact Rel_queue_trans | okq_go |].
    intros _. apply okq_runTimer.
  - revert w. unfold setInputValue. okq_go.
  - apply okq_handleSend.
  - destruct (nth_error (messages (st w)) index) as [msg|]; [|apply Rel_queue_refl].
    destruct (status msg); first [apply Rel_queue_refl | apply okq_retryFailedMessage].
  - destruct (showErrorMessage (st w)); [apply okq_connectWebSocket | apply Rel_queue_refl].
Qed.

Lemma okq_kept (a b : World) : kept a b -> Rel_queue a b.
Proof.
  intros (_ & _ & _ & Hr & _ & _ & _ & Hh & _) Ha. split; [|now rewrite Hr].
  unfold staleClosure in *.
  apply Forall_forall. intros s Hs.
  apply (in_map handlers) in Hs. rewrite Hh in Hs.
  apply in_map_iff in Hs. destruct Hs as (s0 & E0 & I0).
  rewrite <- E0. rewrite Forall_forall in Ha. now apply Ha.
Qed.

Lemma okq_step (w : World) (e : event) :
  Rel_queue w (step P Math_random encodeURIComponent urlAccepted w e).
Proof.
  apply respects_step;
    [exact Rel_queue_refl | exact Rel_queue_trans | exact okq_handle
    | exact okq_render | exact okq_kept | intros a b H; exact H].
Qed.

Lemma okq_run (es : list event) (w : World) :
  Rel_queue w (run P Math_random encodeURIComponent urlAccepted w es).
Proof.
  revert w. induction es as [|e es IH]; intros w; [apply Rel_queue_refl|].
  cbn [run fold_left]. eapply Rel_queue_trans; [apply okq_step | apply IH].
Qed.

(** In every run of the component the outbound queue is empty: no path
    ever reaches the [push] of [sendMessage]. *)
Lemma queue_always_empty (uuid : jsstring) (now : Date) (es : list event) :
  messageQueueRef (refs (run P Math_random encodeURIComponent urlAccepted
                           (mount P encodeURIComponent urlAccepted uuid now) es)) = [].
Proof.
  assert (H0 : Rel_queue (initialWorld uuid now)
                 (mount P encodeURIComponent urlAccepted uuid now)).
  { unfold mount. eapply Rel_queue_trans; [|apply okq_render].
    apply okq_connectWebSocket. }
  destruct (H0 (Forall_nil _)) as [Hs Hq].
  destruct (okq_run es _ Hs) as [_ E]. rewrite E, Hq. reflexivity.
Qed.

(** Whatever the queue holds, no event of a run takes anything out of it:
    the only call of [flushMessageQueue] sits in [ws.onopen]. *)
Lemma queue_never_drained (w : World) (es : list event) :
  Forall staleClosure (sockets w) ->
  messageQueueRef (refs (run P Math_random encodeURIComponent urlAccepted w es))
  = messageQueueRef (refs w).
Proof. intros H. apply (okq_run es w H). Qed.

End Queue.

(* ===================================================================== *)
(** * The claims at concrete inputs *)
(* ===================================================================== *)

(** C1 (a defect of the code).  The claim: for every message and every key,
    decoding the encoding gives back id, content and timestamp.  With a key
    configured [encryptMessage] calls [btoa], which throws on a code unit
    above U+00FF: the message 你好 is not encoded at all ([sendMessage]
    catches the exception, marks the message [failed], and no frame is
    sent), while without a key the same message makes the round trip. *)
Theorem non_latin1_content_is_not_encoded :
  encode Pk nihao = Throw InvalidCharacterError /\
  (let w := runK mountedK [SocketOpen 0; UserInput nihaoText; UserSend (str "u1") 5] in
   List.map status (messages (st w)) = [sent; failed] /\
   List.map sentFrames (sockets w) = [[]] /\
   notices w = [ConnectedToServer; SendFailed]) /\
  (exists frame, encode P0 nihao = Ok frame /\
     decode P0 frame =
       Ok (parsedEnvelope (str "u1") nihaoText (str "1970-01-01T00:00:00.005Z"))).
Proof.
  split; [vm_compute; reflexivity|]. split.
  - cbv zeta. repeat split; vm_compute; reflexivity.
  - eexists. split; vm_compute; reflexivity.
Qed.

(** C5 (a defect of the code).  The claim: after [maxRetries] consecutive
    failures the component gives up and schedules no further reconnect.
    Every socket is made by the [connectWebSocket] of the first render, so
    its [onclose] reads [connectionRetryCount = 0] for ever: with the default
    properties ([maxRetries = 5]), after any number [k] of consecutive
    abnormal closes, each followed by the expiry of the reconnect timer it
    set, socket [k] is connecting, the retry count shown is at most 1 and no
    error is displayed. *)
Theorem reconnect_attempts_are_unbounded (k : nat) :
  let w := run0 mounted (failures k 0) in
  maxRetries P0 = 5 /\
  List.length (sockets w) = S k /\
  (exists s, nth_error (sockets w) k = Some s /\ readyState s = CONNECTING /\
             c_connectionRetryCount (handlers s) = 0) /\
  List.length (timers w) = k /\
  connectionRetryCount (st w) <= 1 /\
  showErrorMessage (st w) = false.
Proof.
  intros w. split; [reflexivity|].
  pose proof (failures_never_stop P0 rnd0 encURI acceptAll eq_refl
                (websocketUrl P0) eq_refl eq_refl k 0 mounted
                (mount_attempting P0 encURI acceptAll (websocketUrl P0)
                   eq_refl eq_refl (str "g0") 0)) as H.
  rewrite Nat.add_0_r in H. subst w. unfold run0.
  destruct H as (_ & Hl & Hs & Ht & _ & Hc & He).
  split; [exact Hl|]. split; [eexists; split; [exact Hs | split; reflexivity]|].
  split; [exact Ht|]. split; [|exact He].
  destruct Hc as [-> | [-> _]]; lia.
Qed.

(** C8 at a concrete input: message [u1], failed and registered, is retried
    over an open socket. *)
Lemma retry_increments_once_and_unregisters_witness :
  let G := snapshot (st retryWorld) in
  let w1 := exec (retryFailedMessage rnd0 G (str "u1")) retryWorld in
  let w2 := exec (retrySend P0 failedMsg (str "u1")) w1 in
  registry_lookup (str "u1") (failedMessagesRef (refs retryWorld)) = Some failedMsg /\
  c_isConnected G = true /\
  fst (retrySendBody P0 failedMsg (str "u1") w1) = Ok tt /\
  registry_lookup (str "u1") (failedMessagesRef (refs w2)) = None /\
  Forall2 (bumped (str "u1")) (messages (st retryWorld)) (messages (st w2)).
Proof.
  intros G w1 w2.
  assert (H1 : registry_lookup (str "u1") (failedMessagesRef (refs retryWorld))
               = Some failedMsg) by reflexivity.
  assert (H2 : c_isConnected G = true) by reflexivity.
  assert (H3 : fst (retrySendBody P0 failedMsg (str "u1") w1) = Ok tt)
    by (vm_compute; reflexivity).
  destruct (retry_increments_once_and_unregisters P0 rnd0 G (str "u1") failedMsg
              retryWorld H1 H2) as (_ & _ & _ & K & _).
  destruct (K H3) as [K1 K2].
  repeat split; assumption.
Defined.

(* ===================================================================== *)
(** * Further properties of the component *)
(* ===================================================================== *)

Section Settled.
Variable P : Props.
Variable Math_random : nat -> Q.
Variable encodeURIComponent : jsstring -> result jsstring.
Variable urlAccepted : jsstring -> bool.

Local Abbreviation render1' := (render1 P encodeURIComponent urlAccepted).
Local Abbreviation render' := (render P encodeURIComponent urlAccepted).
Local Abbreviation step' := (step P Math_random encodeURIComponent urlAccepted).
Local Abbreviation run' := (run P Math_random encodeURIComponent urlAccepted).
Local Abbreviation mount' := (mount P encodeURIComponent urlAccepted).

Lemma render1_memo (w : World) :
  crashed w = false ->
  connectionRetryCount (st w) <> c_connectionRetryCount (memo w) ->
  memo (render1' w) = snapshot (st w).
Proof.
  intros Hc Hn. unfold render1. rewrite Hc.
  replace (connectionRetryCount (st w) =? c_connectionRetryCount (memo w))
    with false by (symmetry; apply Z.eqb_neq; exact Hn).
  unfold exec. rewrite (bind_ok _ _ tt _ (effectCleanup_returns _)).
  destruct (connectWebSocket_count P encodeURIComponent urlAccepted (snapshot (st w))
              (snd (effectCleanup (with_memo (snapshot (st w)) w)))) as (M & _).
  cbv zeta in M. unfold exec in M. rewrite M.
  destruct (effectCleanup_settled (with_memo (snapshot (st w)) w)) as (_ & K & _).
  exact K.
Qed.

Lemma settled_fixpoint (w : World) : render1' w = w -> settled w.
Proof.
  intros H. unfold settled.
  destruct (crashed w) eqn:Hc; [now left|]. right.
  destruct (Z.eq_dec (connectionRetryCount (st w)) (c_connectionRetryCount (memo w)))
    as [E|N]; [exact E|].
  pose proof (render1_memo w Hc N) as M. rewrite H in M. rewrite M. reflexivity.
Qed.

Lemma render_is_settled (w : World) : settled (render' w).
Proof. apply settled_fixpoint, render_stable. Qed.

Lemma settled_render (w : World) : settled w -> render' w = w.
Proof.
  intros [Hc|Hs]; [|now apply render_settled].
  assert (E : render1' w = w) by (unfold render1; now rewrite Hc).
  unfold render. now rewrite E, E.
Qed.

Lemma step_is_settled (w : World) (e : event) : settled w -> settled (step' w e).
Proof.
  intros H.
  destruct (step_cases P Math_random encodeURIComponent urlAccepted w e)
    as [(Hc & E) | [(_ & Hc & E) | (_ & _ & E)]]; rewrite E.
  - left.
    now rewrite (proj2 (stepDetached_keeps P Math_random encodeURIComponent
                          urlAccepted w e)).
  - left. destruct (unmount_keeps
                      (exec (handle P Math_random encodeURIComponent urlAccepted e) w))
      as (_ & K & _).
    now rewrite K.
  - apply render_is_settled.
Qed.

Lemma run_is_settled (es : list event) (w : World) :
  settled w -> settled (run' w es).
Proof.
  revert w. induction es as [|e es IH]; intros w H; [exact H|].
  cbn [run fold_left]. apply IH, step_is_settled, H.
Qed.

Lemma mount_is_settled (uuid : jsstring) (now : Date) : settled (mount' uuid now).
Proof. unfold mount. apply render_is_settled. Qed.

(** After a crash the component is unmounted: the events only reach the
    callbacks its sockets and timers hold, and the React state stays as it
    was. *)
Lemma run_crashed (es : list event) (w : World) :
  crashed w = true ->
  run' w es = runDetached P Math_random encodeURIComponent urlAccepted w es /\
  st (run' w es) = st w /\ crashed (run' w es) = true.
Proof.
  revert w. induction es as [|e es IH]; intros w H; [repeat split; exact H|].
  change (run' w (e :: es)) with (run' (step' w e) es).
  change (runDetached P Math_random encodeURIComponent urlAccepted w (e :: es))
    with (runDetached P Math_random encodeURIComponent urlAccepted
            (stepDetached P Math_random encodeURIComponent urlAccepted w e) es).
  assert (E : step' w e = stepDetached P Math_random encodeURIComponent urlAccepted w e)
    by (unfold step; now rewrite H).
  destruct (stepDetached_keeps P Math_random encodeURIComponent urlAccepted w e)
    as (Ks & Kc).
  rewrite E.
  destruct (IH (stepDetached P Math_random encodeURIComponent urlAccepted w e))
    as (I1 & I2 & I3); [now rewrite Kc|].
  repeat split; [exact I1 | now rewrite I2 | exact I3].
Qed.

(** The message list never gets shorter, so it always holds the greeting. *)
Lemma messages_never_empty (uuid : jsstring) (now : Date) (es : list event) :
  messages (st (run' (mount' uuid now) es)) <> [].
Proof.
  set (R := fun _ _ : Message => True).
  assert (Rr : forall m, R m m) by (intro; exact I).
  assert (Rt : forall a b c, R a b -> R b c -> R a c) by (intros; exact I).
  assert (Hstep : forall w e, Rel_msgs R w (step' w e)).
  { intros w e. apply (ok_step P Math_random _ _ R Rr Rt).
    destruct (is_receive e) eqn:He.
    - destruct e; try discriminate.
      apply (ok_handle_receive P Math_random _ _ R Rr Rt). intros; exact I.
    - apply (ok_handle_other P Math_random _ _ R Rr Rt); [intros; exact I .. | exact He]. }
  assert (Hrun : forall es w, Rel_msgs R w (run' w es)).
  { intros es0. induction es0 as [|e es0 IH]; intros w; [apply (Rel_msgs_refl R Rr)|].
    cbn [run fold_left]. eapply (Rel_msgs_trans R Rt); [apply Hstep | apply IH]. }
  assert (H0 : (1 <= List.length (messages (st (mount' uuid now))))%nat).
  { assert (K : Rel_msgs R (initialWorld uuid now) (mount' uuid now)).
    { unfold mount. eapply (Rel_msgs_trans R Rt);
        [|apply (ok_render P Math_random _ _ R Rr Rt)].
      apply (ok_connectWebSocket P Math_random _ _ R Rr Rt). }
    destruct K as (l1 & l2 & E & F). rewrite E, length_app.
    apply Forall2_length in F. cbn in F. lia. }
  destruct (Hrun es (mount' uuid now)) as (l1 & l2 & E & F).
  apply Forall2_length in F. rewrite E. intro K.
  apply (f_equal (@List.length Message)) in K. rewrite length_app in K. cbn in K. lia.
Qed.

End Settled.

(* --------------------------------------------------------------------- *)
(** ** The registry of failed messages *)

Lemma Rel_registry_refl w : Rel_registry w w.
Proof. intro H. exact H. Qed.

Lemma Rel_registry_trans a b c :
  Rel_registry a b -> Rel_registry b c -> Rel_registry a c.
Proof. intros H1 H2 Ha. auto. Qed.

Section Registry.
Variable P : Props.
Variable Math_random : nat -> Q.
Variable encodeURIComponent : jsstring -> result jsstring.
Variable urlAccepted : jsstring -> bool.

Local Abbreviation okr := (respects Rel_registry).

Lemma okr_same {A : Type} (c : M A) :
  (forall w, failedMessagesRef (refs (snd (c w))) = failedMessagesRef (refs w)) ->
  okr c.
Proof. intros H w Hw. now rewrite H. Qed.

Lemma okr_socket_send n d : okr (socket_send n d).
Proof.
  apply okr_same. intro w. unfold socket_send.
  destruct (nth_error (sockets w) n) as [s|]; [|reflexivity].
  destruct (readyState s); reflexivity.
Qed.

Lemma okr_wsRef_send d : okr (wsRef_send d).
Proof.
  unfold wsRef_send. apply respects_bind;
    [exact Rel_registry_trans | apply respects_gets; exact Rel_registry_refl |].
  intros [n|]; [apply okr_socket_send | apply respects_ret; exact Rel_registry_refl].
Qed.

Lemma okr_newWebSocket u G : okr (newWebSocket urlAccepted u G).
Proof.
  apply okr_same. intro w. unfold newWebSocket. destruct (urlAccepted u); reflexivity.
Qed.

Lemma okr_delete k :
  okr (modify (with_refs (fun r =>
         with_failedMessagesRef (registry_delete k (failedMessagesRef r)) r))).
Proof. intros w H. cbn. rewrite H. reflexivity. Qed.

Ltac okr_prim :=
  first
    [ apply okr_socket_send | apply okr_wsRef_send | apply okr_newWebSocket
    | apply okr_delete
    | apply okr_same; reflexivity ].

Ltac okr_go_with tac :=
  repeat first
    [ tac
    | okr_prim
    | apply respects_ret; exact Rel_registry_refl
    | apply respects_lift; exact Rel_registry_refl
    | apply respects_gets; exact Rel_registry_refl
    | apply respects_bind; [exact Rel_registry_trans | | intro]
    | apply respects_try_catch; [exact Rel_registry_trans | | ]
    | match goal with
      | |- respects _ (if ?b then _ else _) => destruct b
      | |- respects _ (match ?x with _ => _ end) => destruct x
      end ].

Ltac okr_go := okr_go_with fail.

Lemma okr_retrySend m k : okr (retrySend P m k).
Proof. unfold retrySend, retrySendBody, notify, setRetryMessageId. okr_go. Qed.

Lemma okr_retryFailedMessage G k : okr (retryFailedMessage Math_random G k).
Proof.
  unfold retryFailedMessage, setRetryMessageId, setMessages, random, setTimeout.
  okr_go.
Qed.

Lemma okr_flushFailedMessages G : okr (flushFailedMessages Math_random G).
Proof.
  unfold flushFailedMessages.
  apply respects_bind;
    [exact Rel_registry_trans | apply respects_gets; exact Rel_registry_refl |].
  intro l. apply respects_forEach;
    [exact Rel_registry_refl | exact Rel_registry_trans
    | intro; apply okr_retryFailedMessage].
Qed.

Lemma okr_sendMessage G m : okr (sendMessage P G m).
Proof. unfold sendMessage, notify, setMessages. okr_go. Qed.

Lemma okr_flushMessageQueue G : okr (flushMessageQueue P G).
Proof.
  unfold flushMessageQueue.
  apply respects_bind;
    [exact Rel_registry_trans | apply respects_gets; exact Rel_registry_refl |].
  intro q. destruct (_ && _); [|apply respects_ret; exact Rel_registry_refl].
  apply respects_bind; [exact Rel_registry_trans | | intro; okr_go].
  apply respects_forEach;
    [exact Rel_registry_refl | exact Rel_registry_trans | intro; apply okr_sendMessage].
Qed.

Lemma okr_handleSend G v uuid now : okr (handleSend P G v uuid now).
Proof.
  unfold handleSend, setInputValue, setMessages.
  okr_go_with ltac:(apply okr_sendMessage).
Qed.

Lemma okr_handleConnectionRetry G : okr (handleConnectionRetry P G).
Proof.
  unfold handleConnectionRetry, notify, setIsAutoConnecting,
    setConnectionRetryCount, setTimeout. okr_go.
Qed.

Lemma okr_connectWebSocket G :
  okr (connectWebSocket P encodeURIComponent urlAccepted G).
Proof.
  unfold connectWebSocket, setIsConnecting, setError, setShowErrorMessage.
  okr_go_with ltac:(apply okr_handleConnectionRetry).
Qed.

Lemma okr_ws_onopen G : okr (ws_onopen P Math_random G).
Proof.
  unfold ws_onopen, setIsConnected, setIsConnecting, setIsAutoConnecting,
    setConnectionRetryCount, notify.
  okr_go_with ltac:(first [apply okr_flushMessageQueue | apply okr_flushFailedMessages]).
Qed.

Lemma okr_ws_onmessage G data : okr (ws_onmessage P G data).
Proof.
  unfold ws_onmessage, notify.
  apply respects_try_catch; [exact Rel_registry_trans | | okr_go].
  apply respects_bind;
    [exact Rel_registry_trans | apply respects_lift; exact Rel_registry_refl |].
  intros p. apply okr_same. intro w. unfold setMessagesWith.
  destruct (applyResponse p (messages (st w))); reflexivity.
Qed.

Lemma okr_ws_onerror G n : okr (ws_onerror P G n).
Proof.
  unfold ws_onerror, notify, setError, socket_close.
  okr_go_with ltac:(apply okr_handleConnectionRetry).
Qed.

Lemma okr_ws_onclose G code : okr (ws_onclose P G code).
Proof.
  unfold ws_onclose, notify, setError, setShowErrorMessage, setIsConnected,
    setIsConnecting.
  okr_go_with ltac:(apply okr_handleConnectionRetry).
Qed.

Lemma okr_runTimer a : okr (runTimer P encodeURIComponent urlAccepted a).
Proof.
  destruct a; cbn [runTimer]; [|apply okr_retrySend].
  unfold notify. okr_go_with ltac:(apply okr_connectWebSocket).
Qed.

Lemma okr_render1 w : Rel_registry w (render1 P encodeURIComponent urlAccepted w).
Proof.
  unfold render1. destruct (crashed w); [apply Rel_registry_refl|].
  destruct (_ =? _); [apply Rel_registry_refl|].
  unfold exec.
  assert (K : okr (effectCleanup ;;
                   connectWebSocket P encodeURIComponent urlAccepted (snapshot (st w)))%chat).
  { apply respects_bind; [exact Rel_registry_trans | |].
    - unfold effectCleanup, socket_close. okr_go.
    - intros _. apply okr_connectWebSocket. }
  exact (K (with_memo (snapshot (st w)) w)).
Qed.

Lemma okr_render w : Rel_registry w (render P encodeURIComponent urlAccepted w).
Proof. unfold render. eapply Rel_registry_trans; apply okr_render1. Qed.

Lemma okr_handle (e : event) :
  okr (handle P Math_random encodeURIComponent urlAccepted e).
Proof.
  intros w. destruct e; unfold handle.
  - destruct (nth_error (sockets w) ws) as [s|]; [|apply Rel_registry_refl].
    destruct (readyState s); try apply Rel_registry_refl.
    revert w.
    change (okr (setReadyState ws OPEN ;; ws_onopen P Math_random (handlers s))%chat).
    apply respects_bind; [exact Rel_registry_trans | now apply okr_same |].
    intros _. apply okr_ws_onopen.
  - destruct (nth_error (sockets w) ws) as [s|]; [|apply Rel_registry_refl].
    destruct (readyState s); first [apply Rel_registry_refl | apply okr_ws_onmessage].
  - destruct (nth_error (sockets w) ws) as [s|]; [|apply Rel_registry_refl].
    assert (K : okr (setReadyState ws CLOSED ;; ws_onerror P (handlers s) ws ;;
                     ws_onclose P (handlers s) code)%chat).
    { apply respects_bind; [exact Rel_registry_trans | now apply okr_same |].
      intros _. apply respects_bind; [exact Rel_registry_trans | apply okr_ws_onerror |].
      intros _. apply okr_ws_onclose. }
    destruct (readyState s); first [apply Rel_registry_refl | apply K].
  - destruct (nth_error (sockets w) ws) as [s|]; [|apply Rel_registry_refl].
    assert (K : okr (setReadyState ws CLOSED ;; ws_onclose P (handlers s) code)%chat).
    { apply respects_bind; [exact Rel_registry_trans | now apply okr_same |].
      intros _. apply okr_ws_onclose. }
    destruct (readyState s); first [apply Rel_registry_refl | apply K].
  - destruct (nth_error (timers w) t) as [tm|]; [|apply Rel_registry_refl].
    destruct (pending tm); [|apply Rel_registry_refl].
    revert w.
    change (okr (modify (with_timers (update_nth t (with_pending false))) ;;
                 runTimer P encodeURIComponent urlAccepted (action tm))%chat).
    apply respects_bind; [exact Rel_registry_trans | now apply okr_same |].
    intros _. apply okr_runTimer.
  - revert w. now apply okr_same.
  - apply okr_handleSend.
  - destruct (nth_error (messages (st w)) index) as [msg|]; [|apply Rel_registry_refl].
    destruct (status msg); first [apply Rel_registry_refl | apply okr_retryFailedMessage].
  - destruct (showErrorMessage (st w));
      [apply okr_connectWebSocket | apply Rel_registry_refl].
Qed.

Lemma okr_step (w : World) (e : event) :
  Rel_registry w (step P Math_random encodeURIComponent urlAccepted w e).
Proof.
  apply respects_step;
    [exact Rel_registry_refl | exact Rel_registry_trans | exact okr_handle
    | exact okr_render | | intros a b H; exact H].
  intros a b (_ & _ & _ & Hr & _) Ha. now rewrite Hr.
Qed.

Lemma okr_run (es : list event) (w : World) :
  Rel_registry w (run P Math_random encodeURIComponent urlAccepted w es).
Proof.
  revert w. induction es as [|e es IH]; intros w; [apply Rel_registry_refl|].
  cbn [run fold_left]. eapply Rel_registry_trans; [apply okr_step | apply IH].
Qed.

(** No statement of the component writes an entry into
    [failedMessagesRef.current]: the registry is empty in every run. *)
Lemma registry_always_empty (uuid : jsstring) (now : Date) (es : list event) :
  failedMessagesRef (refs (run P Math_random encodeURIComponent urlAccepted
                             (mount P encodeURIComponent urlAccepted uuid now) es)) = [].
Proof.
  apply okr_run. unfold mount.
  assert (H0 : Rel_registry (initialWorld uuid now)
                 (mount P encodeURIComponent urlAccepted uuid now)).
  { unfold mount. eapply Rel_registry_trans; [|apply okr_render].
    apply okr_connectWebSocket. }
  apply H0. reflexivity.
Qed.

End Registry.

(* --------------------------------------------------------------------- *)
(** ** Properties of whole runs *)

Section Runs.
Variable P : Props.
Variable Math_random : nat -> Q.
Variable encodeURIComponent : jsstring -> result jsstring.
Variable urlAccepted : jsstring -> bool.

Local Abbreviation step' := (step P Math_random encodeURIComponent urlAccepted).
Local Abbreviation run' := (run P Math_random encodeURIComponent urlAccepted).
Local Abbreviation mount' := (mount P encodeURIComponent urlAccepted).

(** X4.  In every run of the mounted component, whatever the events,
    the outbound queue [messageQueueRef.current] is empty: [handleSend]
    returns before [sendMessage] when the component is not connected, and
    calls the [sendMessage] of a connected render otherwise, so the [push]
    of [sendMessage] is never reached. *)
Theorem outbound_queue_is_never_filled (uuid : jsstring) (now : Date)
    (es : list event) :
  messageQueueRef (refs (run' (mount' uuid now) es)) = [].
Proof. apply queue_always_empty. Qed.

(** What a click on the retry icon does in a run: nothing, or it records
    the identifier of the message in [retryMessageId]. *)
Lemma retry_click_effect (uuid : jsstring) (now : Date)
    (es : list event) (index : nat) :
  let w := run' (mount' uuid now) es in
  let w' := step' w (UserRetry index) in
  w' = w \/
  exists msg, nth_error (messages (st w)) index = Some msg /\
              status msg = failed /\
              w' = with_st (with_retryMessageId (Some (id msg))) w.
Proof.
  intros w w'.
  assert (Hr : failedMessagesRef (refs w) = []) by apply registry_always_empty.
  assert (Hs : settled w)
    by apply run_is_settled, mount_is_settled.
  unfold w'. destruct (crashed w) eqn:Hc; [left; unfold step; now rewrite Hc|].
  destruct Hs as [Hs|Hs]; [congruence|].
  rewrite step_other by (exact Hc || reflexivity).
  unfold exec, handle.
  destruct (nth_error (messages (st w)) index) as [msg|] eqn:En;
    [|left; now apply render_settled].
  destruct (status msg) eqn:Es; try (left; now apply render_settled).
  right. exists msg. repeat split; [exact Es|].
  unfold onConfirmRetry. rewrite retryFailedMessage_skips by (left; now rewrite Hr).
  cbn [snd]. apply render_settled. exact Hs.
Qed.

(** X5.  In every run the registry of failed messages is empty,
    because nothing ever stores a message in it; so confirming the retry of
    a failed message sends nothing and schedules nothing: the click changes
    nothing, or only [retryMessageId], which makes the warning icon of that
    message spin, and nothing resets it. *)
Theorem retry_click_never_resends (uuid : jsstring) (now : Date)
    (es : list event) (index : nat) :
  let w := run' (mount' uuid now) es in
  let w' := step' w (UserRetry index) in
  failedMessagesRef (refs w) = [] /\
  (w' = w \/
   exists msg, nth_error (messages (st w)) index = Some msg /\
               status msg = failed /\
               w' = with_st (with_retryMessageId (Some (id msg))) w).
Proof.
  intros w w'. split; [apply registry_always_empty | apply retry_click_effect].
Qed.

(** X2.  A frame that cannot be decoded (with a key: not base64;
    in any case: not JSON) is dropped: the handler catches the exception,
    one notice is posted, and nothing else changes. *)
Theorem undecodable_frame_is_dropped (uuid : jsstring) (now : Date)
    (es : list event) (ws : nat) (s : Socket) (data : jsstring) (e : exn) :
  let w := run' (mount' uuid now) es in
  crashed w = false ->
  nth_error (sockets w) ws = Some s -> readyState s = OPEN ->
  decode P data = Throw e ->
  step' w (SocketMessage ws data) =
  with_notices (fun l => l ++ [MessageProcessingFailed]) w.
Proof.
  intros w Hc Hn Hr Hd.
  assert (Hs : settled w) by apply run_is_settled, mount_is_settled.
  destruct Hs as [Hs|Hs]; [congruence|].
  assert (E : exec (handle P Math_random encodeURIComponent urlAccepted
                      (SocketMessage ws data)) w =
              with_notices (fun l => l ++ [MessageProcessingFailed]) w).
  { unfold exec, handle. rewrite Hn, Hr.
    unfold ws_onmessage, try_catch, bind, lift. rewrite Hd. reflexivity. }
  rewrite step_alive by (exact Hc || (rewrite E; exact Hc)).
  rewrite E. apply render_settled. exact Hs.
Qed.

(** X3.  A frame that decodes to [null] takes the component off
    the page: the updater given to [setMessages] reads [parsedResponse.id]
    when React renders, outside the [try] of the handler, and the message
    list (which always holds the greeting) makes it run.  The handler posts
    no notice; the render throws, React unmounts the component, and the
    cleanups of its effects run: the world after the step is the one
    before it, marked as crashed, after [unmount].  From then on the React
    state never changes again, whatever the events: they only reach the
    callbacks that the sockets and the timers hold. *)
Theorem null_frame_crashes (uuid : jsstring) (now : Date)
    (es : list event) (ws : nat) (s : Socket) (data : jsstring) :
  let w := run' (mount' uuid now) es in
  crashed w = false ->
  nth_error (sockets w) ws = Some s -> readyState s = OPEN ->
  decode P data = Ok JNull ->
  let w' := step' w (SocketMessage ws data) in
  w' = exec unmount (with_crashed true w) /\
  crashed w' = true /\ st w' = st w /\ notices w' = notices w /\
  forall es',
    run' w' es' = runDetached P Math_random encodeURIComponent urlAccepted w' es' /\
    st (run' w' es') = st w /\ crashed (run' w' es') = true.
Proof.
  intros w Hc Hn Hr Hd w'.
  assert (E : exec (handle P Math_random encodeURIComponent urlAccepted
                      (SocketMessage ws data)) w = with_crashed true w).
  { unfold exec, handle. rewrite Hn, Hr.
    unfold ws_onmessage, try_catch, bind, lift. rewrite Hd.
    unfold setMessagesWith.
    destruct (messages (st w)) as [|m l] eqn:Em.
    - exfalso. exact (messages_never_empty P Math_random _ _ uuid now es Em).
    - reflexivity. }
  assert (E' : w' = exec unmount (with_crashed true w)).
  { unfold w', step. rewrite Hc. cbv zeta. rewrite E. reflexivity. }
  destruct (unmount_keeps (with_crashed true w)) as (Ks & Kc & _ & _ & Kn & _).
  assert (K : crashed w' = true) by (rewrite E'; exact Kc).
  assert (S : st w' = st w) by (rewrite E'; exact Ks).
  split; [exact E'|]. split; [exact K|]. split; [exact S|].
  split; [rewrite E'; exact Kn|].
  intros es'.
  destruct (run_crashed P Math_random encodeURIComponent urlAccepted es' w' K)
    as (R1 & R2 & R3).
  split; [exact R1|]. split; [now rewrite R2 | exact R3].
Qed.

End Runs.

(** X1.  What [sendMessage] puts on the wire, [ws.onmessage] would
    read back: for a message with text content and a valid date, when no key
    is configured or identifier and content are Latin-1, the envelope is
    encoded without an exception and decoding the frame gives the object
    with the same [id], [content] and ISO [timestamp]. *)
Theorem envelope_round_trip (P : Props) (m : Message) (c : jsstring) :
  content m = Some (JString c) -> Z.abs (timestamp m) <= 8640000000000000 ->
  encryptionKey P = [] \/ (latin1 (id m) /\ latin1 c) ->
  exists frame ts,
    toISOString (timestamp m) = Ok ts /\
    encode P m = Ok frame /\
    decode P frame = Ok (parsedEnvelope (id m) c ts).
Proof.
  intros Hc Ht Hk.
  destruct (codec_round_trip P m c Hc Ht Hk) as (frame & ts & H1 & H2 & H3 & _).
  exists frame, ts. auto.
Qed.

(** X6.  Called in a connected render over an open socket,
    [flushMessageQueue] hands the queued messages to the socket in the order
    they were queued (a message whose encoding throws is skipped and marked
    failed) and leaves the queue empty. *)
Theorem flush_sends_in_queue_order (P : Props) (G : Closure) (n : nat)
    (w : World) (s : Socket) :
  c_isConnected G = true ->
  wsRef (refs w) = Some n -> nth_error (sockets w) n = Some s ->
  readyState s = OPEN ->
  messageQueueRef (refs w) <> [] ->
  let w' := exec (flushMessageQueue P G) w in
  messageQueueRef (refs w') = [] /\
  exists s', nth_error (sockets w') n = Some s' /\
             sentFrames s' = sentFrames s ++ encoded P (messageQueueRef (refs w)).
Proof. apply flushMessageQueue_in_order. Qed.

(* --------------------------------------------------------------------- *)
(** ** A connection made by a reconnect *)

Lemma failures_snoc (k i : nat) :
  failures (S k) i = failures k i ++ [SocketClose (k + i) 1006; TimerFires (k + i)].
Proof.
  revert i. induction k as [|k IH]; intros i; [reflexivity|].
  change (failures (S (S k)) i)
    with (SocketClose i 1006 :: TimerFires i :: failures (S k) (S i)).
  rewrite IH. cbn [failures app]. replace (k + S i)%nat with (S k + i)%nat by lia.
  reflexivity.
Qed.

Lemma run_app (P : Props) (rnd : nat -> Q) (enc : jsstring -> result jsstring)
    (acc : jsstring -> bool) (w : World) (a b : list event) :
  run P rnd enc acc w (a ++ b) = run P rnd enc acc (run P rnd enc acc w a) b.
Proof. unfold run. apply fold_left_app. Qed.

Lemma flushFailedMessages_empty (rnd : nat -> Q) (G : Closure) (w : World) :
  failedMessagesRef (refs w) = [] ->
  flushFailedMessages rnd G w = (Ok tt, w).
Proof. intros H. unfold flushFailedMessages, bind, gets. rewrite H. reflexivity. Qed.

Lemma update_nth_app_last {A : Type} (f : A -> A) (l : list A) (x : A) (i : nat) :
  List.length l = i -> update_nth i f (l ++ [x]) = l ++ [f x].
Proof.
  intros <-. induction l as [|y l IH]; cbn; [reflexivity | now rewrite IH].
Qed.

Section Reopened.
Variable P : Props.
Variable Math_random : nat -> Q.
Variable encodeURIComponent : jsstring -> result jsstring.
Variable urlAccepted : jsstring -> bool.

Local Abbreviation handle' := (handle P Math_random encodeURIComponent urlAccepted).
Local Abbreviation render1' := (render1 P encodeURIComponent urlAccepted).
Local Abbreviation render' := (render P encodeURIComponent urlAccepted).
Local Abbreviation step' := (step P Math_random encodeURIComponent urlAccepted).
Local Abbreviation run' := (run P Math_random encodeURIComponent urlAccepted).
Local Abbreviation mount' := (mount P encodeURIComponent urlAccepted).
Local Abbreviation connect' := (connectWebSocket P encodeURIComponent urlAccepted).

Hypothesis retries_allowed : 0 < maxRetries P.
Variable u : jsstring.
Hypothesis url_built : connectUrl P encodeURIComponent = Ok u.
Hypothesis url_accepted : urlAccepted u = true.

(** One failure and the attempt after it: what is left in [wsRef], in the
    count and in the list of timers. *)
Lemma failure_cycle (i : nat) (w : World) :
  attempting u i w -> failedMessagesRef (refs w) = [] ->
  let w' := run' w [SocketClose i 1006; TimerFires i] in
  reattempting u (S i) w' /\
  timers w' = timers w ++ [{| delay := backoffDelay P 1;
                              action := ReconnectTimer firstClosure 1;
                              pending := false |}].
Proof.
  intros Ha Hreg w'.
  assert (Hnext : attempting u (S i) w')
    by (apply (failure_then_next_attempt P Math_random encodeURIComponent urlAccepted
                 retries_allowed u url_built url_accepted i w Ha)).
  assert (Hregs : failedMessagesRef (refs w') = [])
    by (apply (okr_run P Math_random encodeURIComponent urlAccepted); exact Hreg).
  destruct Ha as (Hc & Hl & Hs & Ht & Hm & Hcount & Herr).
  assert (Ew : w' = step' (step' w (SocketClose i 1006)) (TimerFires i)) by reflexivity.
  clearbody w'.
  set (w2 := step' w (SocketClose i 1006)) in *.
  (* the close event leaves the count at 1, rendered *)
  assert (F2 : crashed w2 = false /\ List.length (sockets w2) = S i /\
               timers w2 = timers w ++ [{| delay := backoffDelay P 1;
                                           action := ReconnectTimer firstClosure 1;
                                           pending := true |}] /\
               connectionRetryCount (st w2) = 1 /\
               c_connectionRetryCount (memo w2) = 1).
  { set (w1 := exec (handle' (SocketClose i 1006)) w).
    assert (E1 : w1 = _) by
      (unfold w1, exec;
       rewrite (handle_close_first P Math_random encodeURIComponent urlAccepted
                  i _ 1006 w Hs eq_refl eq_refl ltac:(discriminate) retries_allowed);
       reflexivity).
    cbn [snd] in E1.
    assert (S1 : w2 = render' w1) by (unfold w2, w1; apply step_other; [exact Hc | reflexivity]).
    destruct Hcount as [H0 | [H1 Hauto]].
    - assert (R : w2 = exec effectCleanup (with_memo (snapshot (st w1)) w1)).
      { rewrite S1. apply render_while_autoconnecting.
        - rewrite E1. exact Hc.
        - rewrite E1. cbn. rewrite <- Hm, H0. discriminate.
        - rewrite E1. reflexivity. }
      destruct (effectCleanup_frame (with_memo (snapshot (st w1)) w1))
        as (K1 & K2 & K3 & K4 & K5 & K6).
      rewrite <- R in K1, K2, K3, K4, K5, K6.
      rewrite K1, K2, K3, K4, K6. rewrite E1. cbn.
      rewrite length_update_nth. repeat split; assumption.
    - assert (R : w2 = w1).
      { rewrite S1. apply render_settled. rewrite E1. cbn. rewrite <- Hm. auto. }
      rewrite R, E1. cbn. rewrite length_update_nth.
      repeat split; first [assumption | congruence]. }
  destruct F2 as (C2 & L2 & T2 & N2 & M2).
  assert (Tn2 : nth_error (timers w2) i =
                Some {| delay := backoffDelay P 1;
                        action := ReconnectTimer firstClosure 1;
                        pending := true |}).
  { rewrite T2, nth_error_app2 by lia. rewrite Ht, Nat.sub_diag. reflexivity. }
  set (w3 := exec (handle' (TimerFires i)) w2).
  assert (E3 : w3 = _) by
    (unfold w3, exec;
     rewrite (handle_timer_first P Math_random encodeURIComponent urlAccepted
                i _ u w2 Tn2 eq_refl eq_refl url_built url_accepted);
     reflexivity).
  cbn [snd] in E3.
  assert (S3 : step' w2 (TimerFires i) = w3).
  { rewrite step_other; [|exact C2|reflexivity]. fold w3. apply render_settled.
    rewrite E3. cbn. congruence. }
  rewrite S3 in Ew. subst w'.
  split; [split; [exact Hnext | split; [|split; [|exact Hregs]]]|].
  - rewrite E3. cbn. exact N2.
  - rewrite E3. cbn. rewrite L2. reflexivity.
  - rewrite E3. cbn. rewrite T2, (update_nth_app_last _ _ _ _ Ht). reflexivity.
Qed.





End Reopened.

(* --------------------------------------------------------------------- *)
(** ** The first connection *)

Section FirstConnection.
Variable P : Props.
Variable Math_random : nat -> Q.
Variable encodeURIComponent : jsstring -> result jsstring.
Variable urlAccepted : jsstring -> bool.

Local Abbreviation handle' := (handle P Math_random encodeURIComponent urlAccepted).
Local Abbreviation render' := (render P encodeURIComponent urlAccepted).
Local Abbreviation step' := (step P Math_random encodeURIComponent urlAccepted).
Local Abbreviation run' := (run P Math_random encodeURIComponent urlAccepted).
Local Abbreviation mount' := (mount P encodeURIComponent urlAccepted).

Variable u : jsstring.
Hypothesis url_built : connectUrl P encodeURIComponent = Ok u.
Hypothesis url_accepted : urlAccepted u = true.

Lemma mount_eq (uuid : jsstring) (now : Date) :
  mount' uuid now =
  with_refs (with_wsRef (Some 0%nat))
    (with_sockets (fun l => l ++ [{| url := u; readyState := CONNECTING;
                                     handlers := firstClosure; sentFrames := [] |}])
       (with_st (with_showErrorMessage false)
          (with_st (with_error None)
             (with_st (with_isConnecting true) (initialWorld uuid now))))).
Proof.
  unfold mount.
  assert (E : exec (connectWebSocket P encodeURIComponent urlAccepted
                      (memo (initialWorld uuid now))) (initialWorld uuid now) = _)
    by (unfold exec;
        rewrite (connectWebSocket_opens P encodeURIComponent urlAccepted
                   (memo (initialWorld uuid now)) u _
                   eq_refl eq_refl eq_refl url_built url_accepted); reflexivity).
  cbn [snd] in E. rewrite E. now rewrite render_settled by reflexivity.
Qed.

Lemma first_open (uuid : jsstring) (now : Date) :
  connectedFirst u [] (step' (mount' uuid now) (SocketOpen 0)) /\
  messages (st (step' (mount' uuid now) (SocketOpen 0))) = [greeting uuid now].
Proof.
  rewrite mount_eq. rewrite step_other by reflexivity.
  unfold exec, handle. cbn [sockets with_refs with_sockets with_st initialWorld app nth_error
    readyState handlers].
  unfold bind at 1. cbn [setReadyState modify].
  rewrite (ws_onopen_stale_eq P Math_random firstClosure _ eq_refl).
  rewrite flushFailedMessages_empty by reflexivity.
  cbn [snd]. rewrite render_settled by reflexivity.
  unfold connectedFirst. cbn. repeat split.
Qed.

(** [sendMessage] over an open socket. *)
Lemma sendMessage_over_open (G : Closure) (m : Message) (n : nat) (s : Socket)
    (w : World) :
  c_isConnected G = true ->
  wsRef (refs w) = Some n -> nth_error (sockets w) n = Some s ->
  readyState s = OPEN ->
  sendMessage P G m w =
  (Ok tt,
   match encode P m with
   | Ok e =>
       with_st (with_messages (List.map (fun msg =>
         if jsstring_eqb (id msg) (id m) then with_status sending msg else msg)))
         (with_sockets (update_nth n (with_sentFrames (fun l => l ++ [e]))) w)
   | Throw _ =>
       with_notices (fun l => l ++ [SendFailed])
         (with_st (with_messages (List.map (fun msg =>
            if jsstring_eqb (id msg) (id m) then with_status failed msg else msg))) w)
   end).
Proof.
  intros HG Hw Hn Hr. unfold sendMessage. rewrite HG. cbn [negb].
  unfold try_catch. unfold bind at 1. unfold lift.
  destruct (encode P m) as [e|e]; [|reflexivity].
  unfold bind at 1. unfold wsRef_send. unfold bind at 1. unfold gets.
  rewrite Hw. unfold socket_send. rewrite Hn, Hr. reflexivity.
Qed.

(** One submission over the first connection. *)
Lemma submit_over_first (s : Submission) (frames : list jsstring) (w : World) :
  connectedFirst u frames w ->
  let w' := run' w (submit s) in
  connectedFirst u (frames ++ encoded P (List.map submitted (filter accepted [s]))) w' /\
  List.length (messages (st w')) =
    (List.length (messages (st w)) + List.length (filter accepted [s]))%nat.
Proof.
  intros (Hc & Hs & Hcon & Hw & Hn) w'. subst w'.
  unfold submit. cbn [run fold_left].
  set (wi := step' w (UserInput (sub_text s))).
  assert (Ei : wi = with_st (with_inputValue (sub_text s)) w).
  { unfold wi. rewrite step_other; [|exact Hc|reflexivity].
    unfold exec, handle. cbn [setInputValue modify snd].
    apply render_settled. exact Hs. }
  rewrite Ei. clear wi Ei.
  set (wi := with_st (with_inputValue (sub_text s)) w).
  assert (HG : c_isConnected (snapshot (st wi)) = true) by exact Hcon.
  rewrite step_other; [|exact Hc|reflexivity].
  unfold exec, handle. change (inputValue (st wi)) with (sub_text s).
  cbn [filter]. unfold accepted.
  destruct (truthy (trim (sub_text s))) eqn:Ht.
  - assert (Hne : trim (sub_text s) <> []) by (intro K; rewrite K in Ht; discriminate).
    rewrite (handleSend_proceeds P (snapshot (st wi)) (sub_text s) (sub_uuid s)
               (sub_now s) wi HG Hne).
    fold (submitted s).
    set (wS := with_st (with_inputValue []) _).
    assert (A2 : wsRef (refs wS) = Some 0%nat) by exact Hw.
    assert (A3 : nth_error (sockets wS) 0 =
                 Some {| url := u; readyState := OPEN; handlers := firstClosure;
                         sentFrames := frames |}) by exact Hn.
    rewrite (sendMessage_over_open (snapshot (st wi)) (submitted s) 0 _ wS HG A2 A3 eq_refl).
    cbn [snd List.map encoded flat_map].
    destruct (encode P (submitted s)) as [e|e]; unfold wS, wi.
    + rewrite render_settled by exact Hs.
      unfold connectedFirst. cbn -[nth_error update_nth].
      rewrite nth_error_update_nth, Hn. cbn.
      rewrite length_map, length_app. cbn. repeat split; first [assumption | lia].
    + rewrite render_settled by exact Hs.
      unfold connectedFirst. cbn -[nth_error].
      rewrite length_map, length_app, app_nil_r. cbn.
      repeat split; first [assumption | lia].
  - unfold handleSend. rewrite Ht.
    cbn [negb orb ret snd]. unfold wi. rewrite render_settled by exact Hs.
    cbn [List.map encoded flat_map]. rewrite app_nil_r, Nat.add_0_r.
    unfold connectedFirst. repeat split; assumption.
Qed.

Lemma submissions_over_first (subs : list Submission) (frames : list jsstring)
    (w : World) :
  connectedFirst u frames w ->
  let w' := run' w (flat_map submit subs) in
  connectedFirst u (frames ++ encoded P (List.map submitted (filter accepted subs))) w' /\
  List.length (messages (st w')) =
    (List.length (messages (st w)) + List.length (filter accepted subs))%nat.
Proof.
  revert frames w. induction subs as [|s subs IH]; intros frames w H; cbv zeta.
  - cbn. rewrite app_nil_r, Nat.add_0_r. split; [exact H | reflexivity].
  - cbn [flat_map]. rewrite run_app.
    destruct (submit_over_first s frames w H) as [H1 L1]. cbv zeta in H1, L1.
    destruct (IH _ _ H1) as [H2 L2]. cbv zeta in H2, L2.
    assert (F : filter accepted (s :: subs) = filter accepted [s] ++ filter accepted subs)
      by (cbn; destruct (accepted s); reflexivity).
    rewrite F, map_app. unfold encoded in *. rewrite flat_map_app, app_assoc.
    split; [exact H2|]. rewrite L2, L1, length_app. lia.
Qed.

(** X7.  Over the first connection every accepted submission is
    handed to the socket, one frame each, in the order of submission: after
    the socket has opened and the user has submitted any texts, the frames
    sent are the encodings of the messages built from the texts that are
    not blank (an encoding that throws sends nothing), and the list shows
    the greeting and one message per accepted text. *)
Theorem first_connection_delivers_in_order (uuid : jsstring) (now : Date)
    (subs : list Submission) :
  let w := run' (mount' uuid now) (SocketOpen 0 :: flat_map submit subs) in
  nth_error (sockets w) 0 =
    Some {| url := u; readyState := OPEN; handlers := firstClosure;
            sentFrames := encoded P (List.map submitted (filter accepted subs)) |} /\
  isConnected (st w) = true /\
  List.length (messages (st w)) = S (List.length (filter accepted subs)).
Proof.
  intros w. subst w. cbn [run fold_left].
  destruct (first_open uuid now) as [H0 M0].
  destruct (submissions_over_first subs [] _ H0) as [(_ & _ & Hcon & _ & Hn) L].
  cbv zeta in *. cbn [app] in Hn.
  split; [exact Hn|]. split; [exact Hcon|].
  unfold run in L. rewrite L, M0. reflexivity.
Qed.

End FirstConnection.

(* --------------------------------------------------------------------- *)
(** ** A component that cannot reconnect *)

Section Stuck.
Variable P : Props.
Variable Math_random : nat -> Q.
Variable encodeURIComponent : jsstring -> result jsstring.
Variable urlAccepted : jsstring -> bool.

Local Abbreviation handle' := (handle P Math_random encodeURIComponent urlAccepted).
Local Abbreviation render' := (render P encodeURIComponent urlAccepted).
Local Abbreviation step' := (step P Math_random encodeURIComponent urlAccepted).
Local Abbreviation run' := (run P Math_random encodeURIComponent urlAccepted).
Local Abbreviation mount' := (mount P encodeURIComponent urlAccepted).



Hypothesis retries_allowed : 0 < maxRetries P.
Variable u : jsstring.
Hypothesis url_built : connectUrl P encodeURIComponent = Ok u.
Hypothesis url_accepted : urlAccepted u = true.



End Stuck.

(* ===================================================================== *)
(** * The status line *)
(* ===================================================================== *)

Section StatusLineProofs.

Local Open Scope N_scope.

Lemma startsWith_needs (s pat : jsstring) (c : N) :
  View.startsWith s pat = true -> In c pat -> In c s.
Proof.
  revert s. induction pat as [|p pat IH]; intros s H Hin; [destruct Hin|].
  destruct s as [|x s]; [discriminate|]. cbn in H.
  apply andb_prop in H. destruct H as [H1 H2]. apply N.eqb_eq in H1. subst x.
  destruct Hin as [->|Hin]; [now left | right; now apply IH].
Qed.

(** A string that lacks a code unit of the pattern does not include it. *)
Lemma includes_needs (s pat : jsstring) (c : N) :
  In c pat -> ~ In c s -> View.includes s pat = false.
Proof.
  intros Hin Hn. induction s as [|x s IH].
  - cbn. destruct pat; [destruct Hin | reflexivity].
  - cbn [View.includes].
    destruct (View.startsWith (x :: s) pat) eqn:E.
    + exfalso. apply Hn. exact (startsWith_needs _ _ c E Hin).
    + cbn. apply IH. intro K. apply Hn. now right.
Qed.

Lemma split_without (sep : N) (s : jsstring) :
  ~ In sep s -> View.split sep s = [s].
Proof.
  induction s as [|c s IH]; intros H; [reflexivity|].
  cbn. destruct (N.eqb_spec c sep) as [->|Hne]; [exfalso; apply H; now left|].
  rewrite IH by (intro K; apply H; now right). reflexivity.
Qed.

Lemma split_app (sep : N) (a b : jsstring) :
  ~ In sep a -> View.split sep (a ++ sep :: b) = a :: View.split sep b.
Proof.
  induction a as [|c a IH]; intros H.
  - cbn. now rewrite N.eqb_refl.
  - cbn. destruct (N.eqb_spec c sep) as [->|Hne]; [exfalso; apply H; now left|].
    rewrite IH by (intro K; apply H; now right). reflexivity.
Qed.

Lemma plain_not_in (s : jsstring) (c : N) :
  plain s -> 128 <= c \/ c = 40 -> ~ In c s.
Proof.
  intros Hp Hc Hin. unfold plain in Hp. rewrite Forall_forall in Hp.
  destruct (Hp c Hin) as [H1 H2]. destruct Hc; [lia | congruence].
Qed.

Variable P : Props.
Variable Number_toString : Z -> jsstring.

(** The status text while reconnecting. *)
Lemma reconnecting_status_type (n m : jsstring) :
  plain n -> plain m ->
  View.statusType (View.text_reconnecting ++ 40 :: n ++ 47 :: m ++ [41]) =
  View.reconnecting.
Proof.
  intros Hn Hm.
  assert (Out : forall c, 128 <= c ->
            ~ In c [33258; 21160; 37325; 36830; 20013] ->
            ~ In c (View.text_reconnecting ++ 40 :: n ++ 47 :: m ++ [41])).
  { intros c Hc Hnot Hin. unfold View.text_reconnecting in Hin.
    rewrite in_app_iff in Hin. destruct Hin as [Hin|Hin]; [now apply Hnot|].
    destruct Hin as [E|Hin]; [lia|].
    rewrite in_app_iff in Hin. destruct Hin as [Hin|Hin];
      [exact (plain_not_in n c Hn (or_introl Hc) Hin)|].
    destruct Hin as [E|Hin]; [lia|].
    rewrite in_app_iff in Hin. destruct Hin as [Hin|Hin];
      [exact (plain_not_in m c Hm (or_introl Hc) Hin)|].
    destruct Hin as [E|[]]. lia. }
  unfold View.statusType.
  rewrite (includes_needs _ View.text_connected 24050).
  2:{ cbn. auto. }
  2:{ apply Out; [lia|]. cbn. intros [E|[E|[E|[E|[E|[]]]]]]; discriminate. }
  rewrite (includes_needs _ View.text_connecting 25509).
  2:{ cbn. auto. }
  2:{ apply Out; [lia|]. cbn. intros [E|[E|[E|[E|[E|[]]]]]]; discriminate. }
  reflexivity.
Qed.

Lemma reconnecting_count_text (n m : jsstring) :
  plain n -> plain m ->
  View.reconnectCountText (View.text_reconnecting ++ 40 :: n ++ 47 :: m ++ [41]) =
  40 :: n ++ 47 :: m ++ [41].
Proof.
  intros Hn Hm. unfold View.reconnectCountText.
  rewrite split_app.
  2:{ cbn. intros [E|[E|[E|[E|[E|[]]]]]]; discriminate. }
  rewrite split_without.
  2:{ intro Hin. rewrite in_app_iff in Hin. destruct Hin as [Hin|Hin];
        [exact (plain_not_in n 40 Hn (or_intror eq_refl) Hin)|].
      destruct Hin as [E|Hin]; [discriminate|].
      rewrite in_app_iff in Hin. destruct Hin as [Hin|Hin];
        [exact (plain_not_in m 40 Hm (or_intror eq_refl) Hin)|].
      destruct Hin as [E|[]]. discriminate. }
  cbn [nth_error]. destruct n; reflexivity.
Qed.

Local Close Scope N_scope.

(** X13.  What the status line of the dialog shows.  An error, once
    set, hides the connection status: the alert shows the error text.
    Otherwise [StatusDisplay] recognises by substring search which of the
    four status texts [connectionStatus] built, and shows it whole: the
    word of the recognised status and, while reconnecting, the counter
    [(n/max)] cut out of the text again. *)
Theorem status_line_shows_the_status (s : State) :
  plain (Number_toString (connectionRetryCount s)) ->
  plain (Number_toString (maxRetries P)) ->
  View.statusLine P Number_toString s =
  match error s with
  | Some e => View.Alert true (View.errorText e)
  | None =>
      if isConnected s then
        View.Status View.connected (str "#52c41a") false View.text_connected []
      else if isConnecting s then
        View.Status View.connecting (str "#faad14") true View.text_connecting []
      else if isAutoConnecting s then
        View.Status View.reconnecting (str "#faad14") true View.text_reconnecting
          (40%N :: Number_toString (connectionRetryCount s)
             ++ 47%N :: Number_toString (maxRetries P) ++ [41%N])
      else
        View.Status View.disconnected (str "#ff4d4f") false View.text_disconnected []
  end.
Proof.
  intros Hn Hm. unfold View.statusLine, View.StatusDisplay.
  cbn [View.error View.status View.customConfig View.showIcon View.compact].
  destruct (error s) as [e|]; cbn [option_map].
  - destruct e; reflexivity.
  - unfold View.connectionStatus. cbn [snapshot c_isConnected c_isConnecting
      c_isAutoConnecting c_connectionRetryCount].
    destruct (isConnected s); [reflexivity|].
    destruct (isConnecting s); [reflexivity|].
    destruct (isAutoConnecting s); [|reflexivity].
    rewrite (reconnecting_status_type _ _ Hn Hm).
    rewrite (reconnecting_count_text _ _ Hn Hm). reflexivity.
Qed.

End StatusLineProofs.

(* ===================================================================== *)
(** * The size buttons and the dragging of the floating button *)
(* ===================================================================== *)

Section LayoutProofs.

Lemma in_sizes (cw : jsstring) :
  In cw Layout.sizes ->
  cw = str "320px" \/ cw = str "480px" \/ cw = str "max(50vw, 640px)".
Proof. intros [H|[H|[H|[]]]]; auto. Qed.

(** X14.  The width of the dialog is always one of the three sizes, and
    [handleSizeChange] moves along them without leaving them: from the size
    at index [i], a change by [delta] gives the size at index [i + delta]
    when that index exists, and changes nothing otherwise.  Each button is
    disabled exactly when its change would do nothing, and reducing after
    enlarging gives back the width one started from. *)
Theorem size_change_moves_within_sizes (cw : jsstring) (delta : Z) :
  In cw Layout.sizes ->
  let i := Layout.currentIndex cw in
  let cw' := Layout.handleSizeChange cw delta in
  0 <= i < 3 /\
  nth_error Layout.sizes (Z.to_nat i) = Some cw /\
  In cw' Layout.sizes /\
  Layout.currentIndex cw' = (if (0 <=? i + delta) && (i + delta <? 3) then i + delta else i) /\
  (Layout.isMax cw = true <-> Layout.handleSizeChange cw 1 = cw) /\
  (Layout.isMin cw = true <-> Layout.handleSizeChange cw (-1) = cw) /\
  (Layout.isMax cw = false ->
   Layout.handleSizeChange (Layout.handleSizeChange cw 1) (-1) = cw).
Proof.
  intros Hin. apply in_sizes in Hin.
  assert (Hd : forall k, 0 <= k < 3 -> k = 0 \/ k = 1 \/ k = 2) by (intros; lia).
  assert (Step : forall k c, 0 <= k < 3 ->
            nth_error Layout.sizes (Z.to_nat k) = Some c ->
            Layout.currentIndex c = k ->
            In (Layout.handleSizeChange c delta) Layout.sizes /\
            Layout.currentIndex (Layout.handleSizeChange c delta) =
              (if (0 <=? k + delta) && (k + delta <? 3) then k + delta else k)).
  { intros k c Hk Hn Hi. unfold Layout.handleSizeChange. rewrite Hi.
    change (Z.of_nat (List.length Layout.sizes)) with 3. cbv zeta.
    assert (Hc : In c Layout.sizes) by (eapply nth_error_In; exact Hn).
    destruct ((0 <=? k + delta) && (k + delta <? 3)) eqn:E; [|split; assumption].
    apply andb_prop in E. destruct E as [E1 E2].
    apply Z.leb_le in E1. apply Z.ltb_lt in E2.
    destruct (Hd (k + delta) (conj E1 E2)) as [K|[K|K]]; rewrite K;
      vm_compute; auto. }
  destruct Hin as [-> | [-> | ->]]; cbv zeta.
  - destruct (Step 0 (str "320px") ltac:(lia) eq_refl eq_refl) as [S1 S2].
    split; [change (Layout.currentIndex (str "320px")) with 0; lia|].
    split; [reflexivity|]. split; [exact S1|]. split; [exact S2|].
    split; [split; intro H; vm_compute in H; discriminate|].
    split; [split; intro H; reflexivity|]. intros _. reflexivity.
  - destruct (Step 1 (str "480px") ltac:(lia) eq_refl eq_refl) as [S1 S2].
    split; [change (Layout.currentIndex (str "480px")) with 1; lia|].
    split; [reflexivity|]. split; [exact S1|]. split; [exact S2|].
    split; [split; intro H; vm_compute in H; discriminate|].
    split; [split; intro H; vm_compute in H; discriminate|]. intros _. reflexivity.
  - destruct (Step 2 (str "max(50vw, 640px)") ltac:(lia) eq_refl eq_refl) as [S1 S2].
    split; [change (Layout.currentIndex (str "max(50vw, 640px)")) with 2; lia|].
    split; [reflexivity|]. split; [exact S1|]. split; [exact S2|].
    split; [split; intro H; reflexivity|].
    split; [split; intro H; vm_compute in H; discriminate|].
    intros H. vm_compute in H. discriminate.
Qed.

End LayoutProofs.

Section DragProofs.
Variable win : Layout.Window.

Lemma moves_while_dragging (moves : list Layout.Pointer) (d : Layout.Drag) :
  Layout.isDragging d = true ->
  let d' := fold_left (Layout.dragStep win) (List.map Layout.Move moves) d in
  Layout.isDragging d' = true /\
  Layout.dragStartPos d' = Layout.dragStartPos d /\
  Layout.buttonPosition d' =
    match rev moves with
    | [] => Layout.buttonPosition d
    | e :: _ => Layout.dragged win (Layout.dragStartPos d) e
    end.
Proof.
  revert d. induction moves as [|e moves IH] using rev_ind; intros d Hd; cbv zeta.
  - cbn. auto.
  - rewrite map_app, fold_left_app, rev_app_distr. cbn [List.map fold_left rev app].
    destruct (IH d Hd) as (I1 & I2 & _). cbv zeta in I1, I2.
    set (d1 := fold_left (Layout.dragStep win) (List.map Layout.Move moves) d) in *.
    unfold Layout.dragStep, Layout.handleDragging. rewrite I1. cbn [negb].
    cbn [Layout.isDragging Layout.dragStartPos Layout.buttonPosition].
    rewrite I2. auto.
Qed.

Lemma moves_while_idle (moves : list Layout.Pointer) (d : Layout.Drag) :
  Layout.isDragging d = false ->
  fold_left (Layout.dragStep win) (List.map Layout.Move moves) d = d.
Proof.
  intros Hd. induction moves as [|e moves IH]; [reflexivity|].
  cbn [List.map fold_left]. unfold Layout.dragStep at 2, Layout.handleDragging.
  rewrite Hd. exact IH.
Qed.

(** X15.  While the button is dragged its position is the position it
    had when the gesture began, moved by the displacement of the pointer
    since then and kept inside the window: however the pointer wandered in
    between, only its last place counts, the button never goes left of or
    above 24 pixels, and it follows the pointer exactly while that keeps it
    within the window.  Once the gesture has ended pointer moves leave the
    button where it is. *)
Theorem drag_follows_the_pointer (d : Layout.Drag) (e0 : Layout.Pointer)
    (moves : list Layout.Pointer) (e : Layout.Pointer) (later : list Layout.Pointer) :
  let d1 := fold_left (Layout.dragStep win)
              (Layout.Down e0 :: List.map Layout.Move (moves ++ [e])) d in
  let p := Layout.buttonPosition d1 in
  let tx := Layout.x (Layout.buttonPosition d) + (Layout.clientX_of e - Layout.clientX_of e0) in
  let ty := Layout.y (Layout.buttonPosition d) + (Layout.clientY_of e - Layout.clientY_of e0) in
  Layout.x p = Z.max 24 (Z.min tx (Layout.innerWidth win - 40)) /\
  Layout.y p = Z.max 24 (Z.min ty (Layout.innerHeight win - 40)) /\
  24 <= Layout.x p /\ 24 <= Layout.y p /\
  (24 <= tx <= Layout.innerWidth win - 40 -> Layout.x p = tx) /\
  (24 <= ty <= Layout.innerHeight win - 40 -> Layout.y p = ty) /\
  Layout.buttonPosition
    (fold_left (Layout.dragStep win) (Layout.Up :: List.map Layout.Move later) d1) = p.
Proof.
  cbv zeta. cbn [fold_left Layout.dragStep].
  set (d0 := Layout.handleDragStart e0 d).
  destruct (moves_while_dragging (moves ++ [e]) d0 eq_refl) as (I1 & I2 & I3).
  cbv zeta in I1, I2, I3. rewrite rev_app_distr in I3. cbn [rev app] in I3.
  set (d1 := fold_left (Layout.dragStep win) (List.map Layout.Move (moves ++ [e])) d0) in *.
  rewrite I3. unfold Layout.dragged. cbn [Layout.x Layout.y d0 Layout.handleDragStart
    Layout.dragStartPos Layout.currentX Layout.currentY Layout.startX Layout.startY].
  repeat split; try lia.
  unfold Layout.handleDragEnd. rewrite I1. cbn [negb].
  rewrite moves_while_idle by reflexivity.
  cbn [Layout.buttonPosition]. rewrite I3. reflexivity.
Qed.

End DragProofs.

(* ===================================================================== *)
(** * The debounced input box *)
(* ===================================================================== *)

Section DebounceProofs.

Lemma nth_error_update_other {A : Type} (f : A -> A) (l : list A) (n m : nat) :
  n <> m -> nth_error (update_nth n f l) m = nth_error l m.
Proof.
  revert n m. induction l as [|x l IH]; intros [|n] [|m] H; cbn; auto.
  - congruence.
Qed.

Lemma cancel_pending (t t' : nat) (l : list (jsstring * bool)) (v : jsstring) :
  nth_error (InputBox.cancel t l) t' = Some (v, true) ->
  t' <> t /\ nth_error l t' = Some (v, true).
Proof.
  unfold InputBox.cancel. intros H.
  destruct (Nat.eq_dec t t') as [->|Hne].
  - rewrite nth_error_update_nth in H.
    destruct (nth_error l t') as [[a b]|]; cbn in H; congruence.
  - rewrite nth_error_update_other in H by exact Hne. split; [congruence | exact H].
Qed.

Lemma handleInputChange_tracked (v : jsstring) (b : InputBox.Box) :
  InputBox.tracked b -> InputBox.tracked (InputBox.handleInputChange v b).
Proof.
  intros Hb t value H. unfold InputBox.handleInputChange in *.
  cbn [InputBox.inputTimers InputBox.inputTimerRef] in *.
  set (timers := match InputBox.inputTimerRef b with
                 | Some t0 => InputBox.cancel t0 (InputBox.inputTimers b)
                 | None => InputBox.inputTimers b
                 end) in *.
  destruct (Nat.lt_ge_cases t (List.length timers)) as [Hlt|Hge].
  - exfalso. rewrite nth_error_app1 in H by exact Hlt. unfold timers in H.
    destruct (InputBox.inputTimerRef b) as [t0|] eqn:Er.
    + apply cancel_pending in H. destruct H as [Hne H].
      specialize (Hb _ _ H). congruence.
    + specialize (Hb _ _ H). congruence.
  - rewrite nth_error_app2 in H by exact Hge.
    destruct (t - List.length timers)%nat as [|k] eqn:Ek; [f_equal; lia|].
    cbn in H. destruct k; discriminate.
Qed.

Lemma timerFires_tracked (t : nat) (b : InputBox.Box) :
  InputBox.tracked b -> InputBox.tracked (InputBox.timerFires t b).
Proof.
  intros Hb. unfold InputBox.timerFires.
  destruct (nth_error (InputBox.inputTimers b) t) as [[v [|]]|] eqn:E; try exact Hb.
  intros t' value H. cbn [InputBox.inputTimers InputBox.inputTimerRef] in *.
  apply cancel_pending in H. destruct H as [Hne H].
  pose proof (Hb _ _ H) as K1. pose proof (Hb _ _ E) as K2. congruence.
Qed.

Lemma typeAll_tracked (values : list jsstring) (b : InputBox.Box) :
  InputBox.tracked b -> InputBox.tracked (InputBox.typeAll values b).
Proof.
  revert b. induction values as [|v values IH]; intros b H; [exact H|].
  apply IH, handleInputChange_tracked, H.
Qed.

Lemma typeAll_inputValue (values : list jsstring) (b : InputBox.Box) :
  InputBox.inputValue (InputBox.typeAll values b) = InputBox.inputValue b.
Proof.
  revert b. induction values as [|v values IH]; intros b; [reflexivity|].
  unfold InputBox.typeAll in *. cbn [fold_left]. now rewrite IH.
Qed.

(** X16.  Of the values typed in a row only the last one is ever
    committed to [inputValue].  After a burst of changes ending with
    [value], the state cell is still what it was, the reference holds the
    one timer that is pending, and a timer that fires either has been
    cancelled and does nothing, or commits [value], after which no timer is
    pending any more. *)
Theorem debounce_commits_the_last_value (b : InputBox.Box) (values : list jsstring)
    (value : jsstring) (t : nat) :
  InputBox.tracked b ->
  let b1 := InputBox.typeAll (values ++ [value]) b in
  let last := (List.length (InputBox.inputTimers b1) - 1)%nat in
  InputBox.inputValue b1 = InputBox.inputValue b /\
  InputBox.inputTimerRef b1 = Some last /\
  InputBox.inputValue (InputBox.timerFires last b1) = value /\
  (InputBox.timerFires t b1 = b1 \/
   t = last /\ forall t', InputBox.timerFires t' (InputBox.timerFires t b1) =
                          InputBox.timerFires t b1).
Proof.
  intros Hb b1 last.
  assert (Ht : InputBox.tracked b1) by (apply typeAll_tracked, Hb).
  assert (E : b1 = InputBox.handleInputChange value (InputBox.typeAll values b))
    by (unfold b1, InputBox.typeAll; rewrite fold_left_app; reflexivity).
  set (b0 := InputBox.typeAll values b) in *.
  set (timers := match InputBox.inputTimerRef b0 with
                 | Some t0 => InputBox.cancel t0 (InputBox.inputTimers b0)
                 | None => InputBox.inputTimers b0
                 end).
  assert (Et : InputBox.inputTimers b1 = timers ++ [(value, true)])
    by (rewrite E; reflexivity).
  assert (Er : InputBox.inputTimerRef b1 = Some (List.length timers))
    by (rewrite E; reflexivity).
  assert (El : last = List.length timers)
    by (unfold last; rewrite Et, length_app; cbn; lia).
  assert (En : nth_error (InputBox.inputTimers b1) last = Some (value, true)).
  { rewrite Et, El, nth_error_app2 by lia. rewrite Nat.sub_diag. reflexivity. }
  split; [unfold b1; apply typeAll_inputValue|].
  split; [rewrite Er, El; reflexivity|].
  split; [unfold InputBox.timerFires; rewrite En; reflexivity|].
  unfold InputBox.timerFires at 1 3 4.
  destruct (nth_error (InputBox.inputTimers b1) t) as [[v [|]]|] eqn:E1; auto.
  right. pose proof (Ht _ _ E1) as K. rewrite Er, <- El in K.
  split; [congruence|].
  intros t'. unfold InputBox.timerFires. cbn [InputBox.inputTimers].
  destruct (nth_error (InputBox.cancel t (InputBox.inputTimers b1)) t')
    as [[v' [|]]|] eqn:E2; try reflexivity.
  exfalso. apply cancel_pending in E2. destruct E2 as [Hne E2].
  pose proof (Ht _ _ E2) as K2. pose proof (Ht _ _ E1) as K1. congruence.
Qed.

End DebounceProofs.

(* ===================================================================== *)
(** * More on reconnecting *)
(* ===================================================================== *)

Section ReconnectMore.
Variable P : Props.
Variable Math_random : nat -> Q.
Variable encodeURIComponent : jsstring -> result jsstring.
Variable urlAccepted : jsstring -> bool.

Local Abbreviation handle' := (handle P Math_random encodeURIComponent urlAccepted).
Local Abbreviation render' := (render P encodeURIComponent urlAccepted).
Local Abbreviation step' := (step P Math_random encodeURIComponent urlAccepted).
Local Abbreviation run' := (run P Math_random encodeURIComponent urlAccepted).
Local Abbreviation mount' := (mount P encodeURIComponent urlAccepted).

Hypothesis retries_allowed : 0 < maxRetries P.
Variable u : jsstring.
Hypothesis url_built : connectUrl P encodeURIComponent = Ok u.
Hypothesis url_accepted : urlAccepted u = true.

(** The timers that [k] consecutive failures have set. *)
Lemma failures_timers (k : nat) (uuid : jsstring) (now : Date) :
  timers (run' (mount' uuid now) (failures k 0)) =
  repeat {| delay := backoffDelay P 1; action := ReconnectTimer firstClosure 1;
            pending := false |} k.
Proof.
  induction k as [|k IH].
  - cbn [failures run fold_left repeat].
    rewrite (mount_eq P encodeURIComponent urlAccepted u url_built url_accepted).
    reflexivity.
  - rewrite failures_snoc, run_app, Nat.add_0_r.
    destruct (failure_cycle P Math_random encodeURIComponent urlAccepted
                retries_allowed u url_built url_accepted k
                (run' (mount' uuid now) (failures k 0))) as [_ T].
    + rewrite <- (Nat.add_0_r k) at 1.
      apply (failures_never_stop P Math_random encodeURIComponent urlAccepted
               retries_allowed u url_built url_accepted).
      apply (mount_attempting P encodeURIComponent urlAccepted u url_built url_accepted).
    + apply (registry_always_empty P Math_random encodeURIComponent urlAccepted).
    + cbv zeta in T. rewrite T, IH. symmetry. apply repeat_cons.
Qed.

(** X9.  The delay between reconnects never grows.  Every close
    handler runs [handleConnectionRetry] in the closure of the first
    render, where [connectionRetryCount] is 0, so each of any number of
    consecutive failures sets the timer of attempt 1, with the delay of
    attempt 1. *)
Theorem every_reconnect_waits_the_first_delay (k : nat) (uuid : jsstring) (now : Date) :
  timers (run' (mount' uuid now) (failures k 0)) =
  repeat {| delay := backoffDelay P 1; action := ReconnectTimer firstClosure 1;
            pending := false |} k.
Proof. apply failures_timers. Qed.

Lemma ws_onerror_eq (G : Closure) (n : nat) (w : World) :
  ws_onerror P G n w =
  handleConnectionRetry P G
    (with_sockets (update_nth n (fun s =>
        match readyState s with
        | CONNECTING | OPEN => with_readyState CLOSING s
        | CLOSING | CLOSED => s
        end))
       (with_st (with_error (Some ConnectionAbnormal))
          (with_notices (fun l => l ++ [WebSocketError]) w))).
Proof.
  unfold ws_onerror.
  repeat (unfold bind at 1; cbn [notify setError socket_close modify]).
  reflexivity.
Qed.

(** X10.  One transport error starts two reconnects.  The error event
    is followed by the close event; [ws.onerror] and [ws.onclose] each call
    [handleConnectionRetry], so two timers are set, and when they have run
    two sockets are connecting at the same time, of which [wsRef] holds the
    second. *)
Theorem transport_error_reconnects_twice (uuid : jsstring) (now : Date) (code : Z) :
  code <> 1000 ->
  let w1 := step' (mount' uuid now) (SocketError 0 code) in
  let w := run' w1 [TimerFires 0; TimerFires 1] in
  List.map pending (timers w1) = [true; true] /\
  List.map readyState (sockets w) = [CLOSED; CONNECTING; CONNECTING] /\
  wsRef (refs w) = Some 2%nat.
Proof.
  intros Hcode.
  rewrite (mount_eq P encodeURIComponent urlAccepted u url_built url_accepted).
  set (w0 := with_refs _ _).
  assert (S1 : step' w0 (SocketError 0 code) = _) by
    (rewrite step_other by reflexivity;
     unfold exec, handle;
     cbn [sockets w0 with_refs with_sockets with_st initialWorld app nth_error
          readyState handlers];
     unfold bind at 1; cbn [setReadyState modify];
     unfold bind at 1; rewrite ws_onerror_eq;
     rewrite (handleConnectionRetry_schedules P firstClosure _ retries_allowed);
     cbv zeta;
     rewrite (ws_onclose_reconnects P firstClosure code _ Hcode retries_allowed);
     rewrite (handleConnectionRetry_schedules P firstClosure _ retries_allowed);
     cbv zeta; cbn [snd];
     rewrite (render_while_autoconnecting P encodeURIComponent urlAccepted)
       by (first [reflexivity | discriminate]);
     unfold exec, effectCleanup, bind, gets;
     cbn [wsRef refs with_memo with_refs with_retryTimeoutRef with_timers with_st
          with_sockets with_notices w0 with_wsRef socket_close modify snd];
     reflexivity).
  cbv zeta. rewrite S1. clear S1.
  set (w1 := with_sockets _ _).
  split; [reflexivity|].
  cbn [run fold_left].
  assert (S2 : step' w1 (TimerFires 0) = _) by
    (rewrite step_other by reflexivity;
     unfold exec;
     rewrite (handle_timer_first P Math_random encodeURIComponent urlAccepted
                0 _ u w1 eq_refl eq_refl eq_refl url_built url_accepted);
     cbn [snd]; rewrite render_settled by reflexivity; reflexivity).
  rewrite S2. clear S2.
  set (w2 := with_refs _ _).
  assert (S3 : step' w2 (TimerFires 1) = _) by
    (rewrite step_other by reflexivity;
     unfold exec;
     rewrite (handle_timer_first P Math_random encodeURIComponent urlAccepted
                1 _ u w2 eq_refl eq_refl eq_refl url_built url_accepted);
     cbn [snd]; rewrite render_settled by reflexivity; reflexivity).
  rewrite S3. clear S3.
  split; reflexivity.
Qed.

End ReconnectMore.

(* ===================================================================== *)
(** * After the unmount *)
(* ===================================================================== *)

Section UnmountProofs.
Variable P : Props.
Variable Math_random : nat -> Q.
Variable encodeURIComponent : jsstring -> result jsstring.
Variable urlAccepted : jsstring -> bool.

Local Abbreviation handle' := (handle P Math_random encodeURIComponent urlAccepted).
Local Abbreviation stepD := (stepDetached P Math_random encodeURIComponent urlAccepted).
Local Abbreviation runD := (runDetached P Math_random encodeURIComponent urlAccepted).

(** The unmount closes the socket of [wsRef] and cancels the reconnect
    timer of [retryTimeoutRef]; it changes nothing else. *)
Lemma unmount_eq (w : World) (n : nat) :
  wsRef (refs w) = Some n ->
  exec unmount w =
  with_sockets (update_nth n closing)
    (match retryTimeoutRef (refs w) with
     | Some i => with_timers (update_nth i (with_pending false))
     | None => fun x => x
     end (with_sockets (update_nth n closing) w)).
Proof.
  intros Hw. unfold exec, unmount, unmountCleanup.
  unfold bind at 1. unfold bind at 1. unfold gets at 1. rewrite Hw.
  unfold bind at 1. cbn [socket_close modify].
  unfold bind at 1. unfold gets at 1. cbn [refs with_sockets].
  unfold effectCleanup, bind, gets.
  destruct (retryTimeoutRef (refs w)) as [i|]; cbn; rewrite Hw; reflexivity.
Qed.

Hypothesis retries_allowed : 0 < maxRetries P.
Variable u : jsstring.
Hypothesis url_built : connectUrl P encodeURIComponent = Ok u.
Hypothesis url_accepted : urlAccepted u = true.

(** X12.  Unmounting does not end the connection.  The cleanups close
    the socket; but its close event (a close the client asked for without
    a code reports 1005, not 1000) still runs [ws.onclose], which sets a
    reconnect timer, and the timer opens a new socket, which nothing will
    close: no render follows, so no cleanup runs again.  The state of the
    component, which React no longer updates, stays as it was. *)
Theorem unmounted_component_reconnects (frames : list jsstring) (w : World) (code : Z) :
  code <> 1000 ->
  connectedFirst u frames w ->
  let n := List.length (sockets w) in
  let t := List.length (timers w) in
  let w1 := exec unmount w in
  let w2 := runD w1 [SocketClose 0 code; TimerFires t; SocketOpen n] in
  nth_error (sockets w1) 0 =
    Some {| url := u; readyState := CLOSING; handlers := firstClosure;
            sentFrames := frames |} /\
  nth_error (sockets w2) n =
    Some {| url := u; readyState := OPEN; handlers := firstClosure;
            sentFrames := [] |} /\
  wsRef (refs w2) = Some n /\
  st w2 = st w.
Proof.
  intros Hcode (Hc & Hs & Hcon & Hw & Hn) n t w1 w2.
  assert (E1 : w1 = _) by (unfold w1; rewrite (unmount_eq w 0 Hw); reflexivity).
  assert (Hpos : (0 < n)%nat).
  { unfold n. destruct (sockets w); [discriminate | cbn; lia]. }
  (* what the unmount leaves *)
  assert (F1 : nth_error (sockets w1) 0 =
                 Some {| url := u; readyState := CLOSING; handlers := firstClosure;
                         sentFrames := frames |} /\
               List.length (sockets w1) = n /\ List.length (timers w1) = t /\
               st w1 = st w /\ wsRef (refs w1) = Some 0%nat).
  { rewrite E1. destruct (retryTimeoutRef (refs w)) as [i|];
      cbn -[nth_error update_nth];
      rewrite !nth_error_update_nth, Hn, ?length_update_nth;
      repeat split; assumption. }
  clearbody w1. clear E1.
  destruct F1 as (N1 & L1 & T1 & St1 & W1).
  split; [exact N1|].
  unfold w2, runDetached. cbn [fold_left]. clear w2.
  (* the close event *)
  set (wa := stepD w1 (SocketClose 0 code)).
  assert (Ea : wa =
    with_crashed (crashed w1) (with_st (fun _ => st w1)
      (with_refs (with_retryTimeoutRef (Some (List.length (timers w1))))
         (with_timers (fun l => l ++ [{| delay := backoffDelay P 1;
                                         action := ReconnectTimer firstClosure 1;
                                         pending := true |}])
            (with_st (with_connectionRetryCount 1)
               (with_st (with_isAutoConnecting true)
                  (with_st (with_isConnecting false)
                     (with_st (with_isConnected false)
                        (with_sockets (update_nth 0 (with_readyState CLOSED)) w1))))))))).
  { unfold wa, stepDetached. cbn [isTransport].
    unfold exec, detached, handle. rewrite N1. cbn [readyState handlers].
    unfold bind at 1. cbn [setReadyState modify].
    rewrite (ws_onclose_reconnects P firstClosure code _ Hcode retries_allowed).
    rewrite (handleConnectionRetry_schedules P firstClosure _ retries_allowed).
    reflexivity. }
  clearbody wa.
  (* the timer *)
  set (wb := stepD wa (TimerFires t)).
  assert (Tn : nth_error (timers wa) t =
               Some {| delay := backoffDelay P 1;
                       action := ReconnectTimer firstClosure 1; pending := true |}).
  { rewrite Ea. cbn -[nth_error]. rewrite nth_error_app2 by lia.
    rewrite T1, Nat.sub_diag. reflexivity. }
  assert (Eb : wb =
    with_crashed (crashed wa) (with_st (fun _ => st wa)
      (with_refs (with_wsRef (Some (List.length (sockets wa))))
         (with_sockets (fun l => l ++ [{| url := u; readyState := CONNECTING;
                                          handlers := firstClosure; sentFrames := [] |}])
            (with_st (with_showErrorMessage false)
               (with_st (with_error None)
                  (with_st (with_isConnecting true)
                     (with_notices (fun l => l ++ [ReconnectAttempt 1])
                        (with_timers (update_nth t (with_pending false)) wa))))))))).
  { unfold wb, stepDetached. cbn [isTransport].
    unfold exec, detached.
    rewrite (handle_timer_first P Math_random encodeURIComponent urlAccepted
               t _ u wa Tn eq_refl eq_refl url_built url_accepted).
    reflexivity. }
  clearbody wb.
  assert (La : List.length (sockets wa) = n)
    by (rewrite Ea; cbn -[update_nth]; rewrite length_update_nth; exact L1).
  (* the new socket opens *)
  assert (Nb : nth_error (sockets wb) n =
               Some {| url := u; readyState := CONNECTING; handlers := firstClosure;
                       sentFrames := [] |}).
  { rewrite Eb. cbn -[nth_error]. rewrite nth_error_app2 by lia.
    rewrite La, Nat.sub_diag. reflexivity. }
  set (wo := with_sockets (update_nth n (with_readyState OPEN)) wb).
  set (wf := stepD wb (SocketOpen n)).
  assert (Ef : wf = with_crashed (crashed wb)
                      (with_st (fun _ => st wb)
                         (snd (ws_onopen P Math_random firstClosure wo)))).
  { unfold wf, stepDetached. cbn [isTransport].
    unfold exec, detached, handle. rewrite Nb. cbn [readyState handlers].
    unfold bind at 1. cbn [setReadyState modify]. fold wo.
    destruct (ws_onopen P Math_random firstClosure wo); reflexivity. }
  clearbody wf.
  destruct (ws_onopen_stale P Math_random firstClosure wo eq_refl) as (_ & K2 & _).
  cbv zeta in K2. unfold exec in K2.
  assert (Rc : refs (snd (ws_onopen P Math_random firstClosure wo)) = refs wo).
  { rewrite (ws_onopen_stale_eq P Math_random firstClosure _ eq_refl).
    unfold flushFailedMessages, bind, gets.
    match goal with |- context [forEach ?l ?f ?x] =>
      destruct (forEach_retry_stale Math_random firstClosure l x eq_refl) as (R1 & _)
    end.
    unfold exec in R1. rewrite R1. reflexivity. }
  rewrite Ef. cbn [sockets with_st with_crashed refs st]. rewrite K2, Rc. unfold wo.
  cbn [sockets with_sockets refs]. rewrite nth_error_update_nth, Nb.
  split; [reflexivity|].
  rewrite Eb. cbn. rewrite La. split; [reflexivity|].
  rewrite Ea. cbn. exact St1.
Qed.

End UnmountProofs.

(* ===================================================================== *)
(** * The mock server *)
(* ===================================================================== *)

(** X23.  [randomDelay(min, max)] stays within its bounds, the
    rounding of the product to a double included: for integers
    [min <= max] that are safe (at most [2^53] in magnitude, and less than
    [2^53] apart) and a value of [Math.random], a double from 0 up to
    [1 - 2^(-53)], the largest double below 1, the delay is at least [min]
    and at most [max]. *)
Theorem randomDelay_within_bounds (min max : Z) (r : Q) :
  - 2 ^ 53 <= min -> min <= max -> max <= 2 ^ 53 -> max - min < 2 ^ 53 ->
  unitDouble r ->
  min <= Mock.randomDelay min max r <= max.
Proof.
  intros Hlo Hm Hhi Hd [H0 H1]. unfold Mock.randomDelay.
  set (n := max - min + 1).
  assert (Hn : 1 <= n <= 2 ^ 53) by (unfold n; lia).
  assert (K : 0 <= Qfloor (roundDouble (r * inject_Z n)) <= n - 1).
  { apply roundDouble_below.
    - exact Hn.
    - apply Qmult_le_0_compat; [exact H0|].
      change 0%Q with (inject_Z 0). rewrite <- Zle_Qle. lia.
    - rewrite (Qmult_comm (inject_Z n)).
      apply Qmult_le_compat_r; [exact H1|].
      change 0%Q with (inject_Z 0). rewrite <- Zle_Qle. lia. }
  unfold n in *. lia.
Qed.

Lemma map_set_twice (k : jsstring) (a b : nat) (m : list (jsstring * nat)) :
  Mock.map_set k b (Mock.map_set k a m) = Mock.map_set k b m.
Proof.
  induction m as [|[k' v'] m IH]; cbn.
  - now rewrite jsstring_eqb_refl.
  - destruct (jsstring_eqb k k') eqn:E; cbn.
    + now rewrite jsstring_eqb_refl.
    + rewrite E. now rewrite IH.
Qed.

(** X22.  Response handlers are stored under a key made of the
    millisecond of their registration, so of two handlers registered in the
    same millisecond only the second remains: registering the first made no
    difference. *)
Theorem handlers_of_one_millisecond_collide (h1 h2 : nat) (now : Date)
    (w : Mock.World) :
  Mock.registerResponseHandler h2 now (Mock.registerResponseHandler h1 now w) =
  Mock.registerResponseHandler h2 now w.
Proof.
  unfold Mock.registerResponseHandler. cbn [Mock.responseListeners Mock.with_responseListeners].
  rewrite map_set_twice. reflexivity.
Qed.

Section MockProofs.
Variable Math_random : nat -> Q.
Variable clientId : jsstring.

Local Abbreviation step' := (Mock.step Math_random clientId).
Local Abbreviation run' := (Mock.run Math_random clientId).
Local Abbreviation fire' := (Mock.fire Math_random clientId).
Local Abbreviation respond' := (Mock.simulateServerResponse Math_random).

Lemma sameInstance_refl (w : Mock.World) : Mock.sameInstance w w.
Proof. repeat split. Qed.

Lemma sameInstance_trans (a b c : Mock.World) :
  Mock.sameInstance a b -> Mock.sameInstance b c -> Mock.sameInstance a c.
Proof.
  intros (A1 & A2 & A3 & A4 & A5 & A6 & A7) (B1 & B2 & B3 & B4 & B5 & B6 & B7).
  repeat split; congruence.
Qed.

Lemma deliver_all {A : Type} (f : A -> Mock.Delivery) (l : list A) (w : Mock.World) :
  let w' := fold_left (fun w x => Mock.deliver (f x) w) l w in
  Mock.sameInstance w w' /\ Mock.draws w' = Mock.draws w /\
  Mock.console w' = Mock.console w /\
  Mock.delivered w' = Mock.delivered w ++ List.map f l.
Proof.
  revert w. induction l as [|x l IH]; intros w; cbv zeta; cbn [fold_left List.map].
  - rewrite app_nil_r. repeat split.
  - destruct (IH (Mock.deliver (f x) w)) as (S1 & D1 & C1 & E1). cbv zeta in *.
    split; [eapply sameInstance_trans; [|exact S1]; repeat split|].
    rewrite D1, C1, E1. cbn. rewrite <- app_assoc. repeat split.
Qed.

(** A response changes nothing of the instance; it is delivered when the
    instance is connected and the draw is not below 0.05. *)
Lemma respond_frame (response : list (jsstring * json)) (now : Date) (w : Mock.World) :
  Mock.sameInstance w (respond' response now w).
Proof.
  unfold Mock.simulateServerResponse.
  destruct (Mock.isConnected w); cbn [negb]; [|apply sameInstance_refl].
  destruct (Mock.below _ _); [repeat split|].
  match goal with |- context [fold_left ?g ?l (fold_left ?g' ?l' ?x)] =>
    destruct (deliver_all (fun kv : jsstring * nat =>
                 Mock.ToListener (snd kv) (Mock.stamped response now)) l' x) as (S1 & _);
    destruct (deliver_all (fun kv : jsstring * nat =>
                 Mock.ToHandler (snd kv) (Mock.stamped response now)) l
                (fold_left g' l' x)) as (S2 & _)
  end.
  cbv zeta in S1, S2.
  eapply sameInstance_trans; [|exact S2].
  eapply sameInstance_trans; [|exact S1]. repeat split.
Qed.

Lemma respond_disconnected (response : list (jsstring * json)) (now : Date)
    (w : Mock.World) :
  Mock.isConnected w = false -> respond' response now w = w.
Proof. intros H. unfold Mock.simulateServerResponse. now rewrite H. Qed.

Lemma respond_delivers (response : list (jsstring * json)) (now : Date)
    (w : Mock.World) :
  Mock.isConnected w = true ->
  Mock.below (Math_random (Mock.draws w)) (5 # 100) = false ->
  Mock.delivered (respond' response now w) =
  Mock.delivered w
  ++ List.map (fun kv => Mock.ToListener (snd kv) (Mock.stamped response now))
       (Mock.messageListeners w)
  ++ List.map (fun kv => Mock.ToHandler (snd kv) (Mock.stamped response now))
       (Mock.responseListeners w).
Proof.
  intros Hc Hb. unfold Mock.simulateServerResponse. rewrite Hc, Hb. cbn [negb].
  match goal with |- context [fold_left ?g ?l (fold_left ?g' ?l' ?x)] =>
    destruct (deliver_all (fun kv : jsstring * nat =>
                 Mock.ToListener (snd kv) (Mock.stamped response now)) l' x)
      as ((S1 & S2 & _) & _ & _ & E1);
    destruct (deliver_all (fun kv : jsstring * nat =>
                 Mock.ToHandler (snd kv) (Mock.stamped response now)) l
                (fold_left g' l' x)) as (_ & _ & _ & E2)
  end.
  cbv zeta in *. rewrite E2, E1. cbn. rewrite <- app_assoc.
  cbn in S2. rewrite S2. reflexivity.
Qed.

Lemma sound_same (w w' : Mock.World) :
  Mock.sameInstance w w' -> Mock.sound w -> Mock.sound w'.
Proof.
  intros (A1 & A2 & A3 & A4 & A5 & A6 & A7) (H1 & H2 & H3).
  unfold Mock.sound. rewrite A1, A5. auto.
Qed.

Lemma call_frame (cb : option Mock.Callback) (now : Date) (w : Mock.World) :
  Mock.sameInstance w (Mock.call Math_random clientId cb now w).
Proof.
  destruct cb as [[n|]|]; cbn [Mock.call];
    [repeat split | apply respond_frame | apply sameInstance_refl].
Qed.

Lemma runAction_sound (a : Mock.Action) (now : Date) (w : Mock.World) :
  Mock.sound w -> Mock.sound (Mock.runAction Math_random clientId a now w).
Proof.
  intros H. assert (H' := H). destruct H' as (H1 & H2 & H3).
  destruct a; cbn [Mock.runAction].
  - unfold Mock.onOpen.
    match goal with |- Mock.sound (Mock.log _ (Mock.call _ _ _ _ ?x)) =>
      eapply (sound_same x);
        [destruct (call_frame (Some Mock.Announce) now x) as (A1 & A2 & A3 & A4 & A5 & A6 & A7);
         repeat split; assumption | exact H]
    end.
  - destruct callback as [[n|]|]; [exact H | | exact H].
    eapply sound_same; [apply call_frame | exact H].
  - match goal with |- Mock.sound (Mock.log _ (Mock.call _ _ _ _ ?x)) =>
      eapply (sound_same x);
        [destruct (call_frame callback now x) as (A1 & A2 & A3 & A4 & A5 & A6 & A7);
         repeat split; assumption | exact H]
    end.
  - eapply sound_same; [apply respond_frame | exact H].
  - rewrite H1. cbn. exact H.
  - unfold Mock.sound. cbn. auto.
  - eapply sound_same; [apply respond_frame | exact H].
  - destruct (Mock.isConnected w); [|exact H].
    eapply sound_same; [apply respond_frame | exact H].
  - exact H.
Qed.

Lemma startsWith_prefix (p s : jsstring) : View.startsWith (p ++ s) p = true.
Proof.
  induction p as [|c p IH]; cbn; [destruct s; reflexivity|].
  now rewrite N.eqb_refl, IH.
Qed.

Lemma messageKey_made (now : Date) :
  Mock.messageKey (str "message-" ++ decimal now) = true.
Proof. apply startsWith_prefix. Qed.

Lemma filter_message_keys (m : list (jsstring * nat)) :
  Forall (fun kv => Mock.messageKey (fst kv) = true) m ->
  filter (fun kv => negb (View.startsWith (fst kv) (str "message-"))) m = [].
Proof.
  induction 1 as [|kv m Hk _ IH]; [reflexivity|].
  cbn [filter]. unfold Mock.messageKey in Hk. rewrite Hk. exact IH.
Qed.

Lemma step_sound (w : Mock.World) (e : Mock.Event) :
  Mock.sound w -> Mock.sound (step' w e).
Proof.
  intros H. assert (H' := H). destruct H' as (H1 & H2 & H3).
  destruct e; cbn [Mock.step].
  - unfold Mock.onMessage, Mock.sound.
    cbn [Mock.retryCount Mock.messageListeners Mock.with_messageListeners].
    rewrite (filter_message_keys _ H2). cbn [Mock.map_set List.length].
    split; [exact H1|]. split; [|lia].
    constructor; [apply messageKey_made | constructor].
  - unfold Mock.onOpen.
    match goal with |- Mock.sound (Mock.log _ (Mock.call _ _ ?c ?n ?x)) =>
      eapply (sound_same x);
        [destruct (call_frame c n x) as (A1 & A2 & A3 & A4 & A5 & A6 & A7);
         repeat split; assumption | exact H]
    end.
  - unfold Mock.onError. cbv zeta. destruct (Mock.below _ _); exact H.
  - unfold Mock.onClose. cbv zeta. cbn [Mock.isConnected Mock.log].
    destruct (Mock.isConnected w); exact H.
  - unfold Mock.send. destruct (JSON_parse data); exact H.
  - unfold Mock.connect. destruct (_ || _); [exact H|].
    unfold Mock.sound. cbn. auto.
  - unfold Mock.close, Mock.handleConnectionFailure.
    match goal with |- context [respond' ?r ?n ?x] =>
      assert (K : Mock.sound (respond' r n x))
        by (eapply sound_same; [apply respond_frame | exact H])
    end.
    destruct (_ <? _); exact K.
  - exact H.
  - exact H.
  - exact H.
  - exact H.
  - unfold Mock.fire.
    destruct (nth_error (Mock.timers w) t) as [tm|]; [|exact H].
    destruct (Mock.pending tm); [|exact H].
    apply runAction_sound. destruct (Mock.repeating tm); exact H.
Qed.

Lemma run_sound (es : list Mock.Event) : Mock.sound (run' es).
Proof.
  unfold Mock.run.
  assert (K : forall w, Mock.sound w -> Mock.sound (fold_left step' es w)).
  { induction es as [|e es IH]; intros w H; [exact H|].
    cbn [fold_left]. apply IH, step_sound, H. }
  apply K. unfold Mock.sound. cbn. repeat split; [constructor | lia].
Qed.

(** X18.  The mock keeps one message listener at most: in every
    state that calls of its methods and its timers can lead to, at most one
    listener is registered, and [onMessage] replaces whatever was there, so
    that only the listener registered last is told of a response. *)
Theorem mock_keeps_one_message_listener (es : list Mock.Event) (callback : nat)
    (now : Date) :
  let w := run' es in
  (List.length (Mock.messageListeners w) <= 1)%nat /\
  Mock.messageListeners (Mock.onMessage callback now w) =
    [(str "message-" ++ decimal now, callback)].
Proof.
  intros w. destruct (run_sound es) as (_ & H2 & H3). fold w in H2, H3.
  split; [exact H3|].
  unfold Mock.onMessage. cbn [Mock.messageListeners Mock.with_messageListeners].
  now rewrite (filter_message_keys _ H2).
Qed.

(** X19.  A connection attempt of the mock cannot fail.  Nothing
    ever increases [retryCount], which is 0 in every state the mock can be
    led to; so whenever the timer of [attemptConnect] fires, the mock is
    connected afterwards and [reconnectAttempts] is 0 again, and the branch
    for too many retries is never taken. *)
Theorem mock_attempt_always_connects (es : list Mock.Event) (t : nat) (now : Date) :
  let w := run' es in
  Mock.retryCount w = 0 /\
  (forall tm, nth_error (Mock.timers w) t = Some tm ->
              Mock.pending tm = true -> Mock.action tm = Mock.Attempt ->
              Mock.isConnected (fire' t now w) = true /\
              Mock.reconnectAttempts (fire' t now w) = 0 /\
              Mock.console (fire' t now w) =
                Mock.console w ++ [Mock.OnOpenCalled; Mock.NowConnected]).
Proof.
  intros w. destruct (run_sound es) as (H1 & _). fold w in H1.
  split; [exact H1|]. intros tm Hn Hp Ha.
  unfold Mock.fire. rewrite Hn, Hp, Ha.
  assert (R : forall x, Mock.retryCount x = 0 ->
            Mock.isConnected (Mock.runAction Math_random clientId Mock.Attempt now x) = true /\
            Mock.reconnectAttempts (Mock.runAction Math_random clientId Mock.Attempt now x) = 0 /\
            Mock.console (Mock.runAction Math_random clientId Mock.Attempt now x) =
              Mock.console x ++ [Mock.OnOpenCalled; Mock.NowConnected]).
  { intros x Hx. cbn [Mock.runAction]. rewrite Hx. cbn.
    rewrite <- app_assoc. repeat split. }
  destruct (Mock.repeating tm);
    match goal with |- context [Mock.runAction _ _ _ _ ?x] =>
      destruct (R x H1) as (A & B & C)
    end; (split; [exact A | split; [exact B | exact C]]).
Qed.

(** X20.  [close()] tells no listener and is never final.  The
    disconnect message is built after [isConnected] has been cleared, so it
    is delivered to nobody; and unless five reconnects are already under
    way, [close()] sets a timer which sets the timer of a connection
    attempt, after which the mock is connected again. *)
Theorem mock_close_is_followed_by_reconnect (es : list Mock.Event)
    (now now1 now2 : Date) :
  let w := run' es in
  Mock.reconnectAttempts w < 5 ->
  let n := List.length (Mock.timers w) in
  let w1 := Mock.close Math_random clientId now w in
  let w2 := fire' n now1 w1 in
  let w3 := fire' (S n) now2 w2 in
  Mock.isConnected w1 = false /\
  Mock.delivered w1 = Mock.delivered w /\
  Mock.timers w1 =
    Mock.timers w ++ [{| Mock.delay := 500 * 2 * Mock.reconnectAttempts w;
                         Mock.action := Mock.Retry; Mock.pending := true;
                         Mock.repeating := false |}] /\
  Mock.isConnected w3 = true /\
  Mock.reconnectAttempts w3 = 0 /\
  Mock.delivered w3 = Mock.delivered w.
Proof.
  intros w Hlt n w1 w2 w3.
  destruct (run_sound es) as (H1 & _). fold w in H1.
  assert (E1 : w1 = Mock.setTimeout Mock.Retry (500 * 2 * Mock.reconnectAttempts w)
                      (Mock.with_isConnecting false (Mock.with_isConnected false w))).
  { unfold w1, Mock.close. rewrite respond_disconnected by reflexivity.
    unfold Mock.handleConnectionFailure.
    cbn [Mock.reconnectAttempts Mock.with_isConnecting Mock.with_isConnected].
    replace (Mock.reconnectAttempts w <? Mock.maxReconnectAttempts) with true
      by (symmetry; apply Z.ltb_lt; exact Hlt).
    reflexivity. }
  clearbody w1. subst w1.
  set (wc := Mock.with_isConnecting false (Mock.with_isConnected false w)) in *.
  assert (E2 : w2 = Mock.attemptConnect
                      (Mock.with_retryCount 0
                         (Mock.with_reconnectAttempts (Mock.reconnectAttempts w + 1)
                            (Mock.with_timers
                               (Mock.timers w ++
                                  [{| Mock.delay := 500 * 2 * Mock.reconnectAttempts w;
                                      Mock.action := Mock.Retry; Mock.pending := false;
                                      Mock.repeating := false |}])
                               wc)))).
  { unfold w2, Mock.fire, Mock.setTimeout.
    cbn [Mock.timers Mock.with_timers wc Mock.with_isConnecting Mock.with_isConnected].
    unfold n. rewrite nth_error_app2 by lia. rewrite Nat.sub_diag.
    cbn [nth_error Mock.pending Mock.repeating Mock.action Mock.runAction].
    rewrite (update_nth_app_last _ _ _ _ eq_refl).
    reflexivity. }
  clearbody w2.
  assert (N2 : nth_error (Mock.timers w2) (S n) =
               Some {| Mock.delay := 500 * (0 + 1); Mock.action := Mock.Attempt;
                       Mock.pending := true; Mock.repeating := false |}).
  { rewrite E2. unfold Mock.attemptConnect, Mock.setTimeout.
    cbn [Mock.timers Mock.with_timers Mock.with_retryCount Mock.with_reconnectAttempts
         Mock.retryCount].
    rewrite nth_error_app2 by (rewrite length_app; cbn; unfold n; lia).
    rewrite length_app. cbn [List.length]. unfold n.
    replace (S (List.length (Mock.timers w)) - (List.length (Mock.timers w) + 1))%nat
      with 0%nat by lia.
    reflexivity. }
  assert (R2 : Mock.retryCount w2 = 0) by (rewrite E2; reflexivity).
  assert (D2 : Mock.delivered w2 = Mock.delivered w) by (rewrite E2; reflexivity).
  split; [reflexivity|].
  split; [reflexivity|].
  split; [reflexivity|].
  unfold w3, Mock.fire. rewrite N2.
  cbn [Mock.pending Mock.repeating Mock.action Mock.runAction
       Mock.retryCount Mock.with_timers].
  rewrite R2. cbn. repeat split. exact D2.
Qed.

(** X21.  [send] echoes the request.  For JSON text [send] itself
    calls nobody and sets one timer; when that timer fires on a connected
    mock, unless the draw of [Math.random] drops the message, every message
    listener and then every response handler is called, in the order of
    registration, with the object that holds the type [response], the
    parsed request, the time stamp, and the two properties every response
    gets. *)
Theorem mock_send_echoes_the_request (w : Mock.World) (data : jsstring)
    (parsedData : json) (now : Date) :
  JSON_parse data = Ok parsedData ->
  Mock.isConnected w = true ->
  Mock.below (Math_random (Mock.draws w)) (5 # 100) = false ->
  let w1 := Mock.send data w in
  let w2 := fire' (List.length (Mock.timers w)) now w1 in
  let message :=
    JObject [(str "type", JString (str "response"));
             (str "originalRequest", parsedData);
             (str "timestamp", JString (Mock.iso now));
             (str "mockTimestamp", JString (Mock.iso now));
             (str "from", JString (str "mock-server"))] in
  Mock.delivered w1 = Mock.delivered w /\
  Mock.delivered w2 =
    Mock.delivered w
    ++ List.map (fun kv => Mock.ToListener (snd kv) message) (Mock.messageListeners w)
    ++ List.map (fun kv => Mock.ToHandler (snd kv) message) (Mock.responseListeners w).
Proof.
  intros Hp Hc Hb w1 w2 message.
  assert (E1 : w1 = Mock.setTimeout (Mock.Reply parsedData) 500
                      (Mock.log (Mock.ClientToServer parsedData) w))
    by (unfold w1, Mock.send; rewrite Hp; reflexivity).
  clearbody w1. split; [rewrite E1; reflexivity|].
  unfold w2, Mock.fire. rewrite E1.
  cbn [Mock.timers Mock.setTimeout Mock.with_timers Mock.log].
  rewrite nth_error_app2 by lia. rewrite Nat.sub_diag.
  cbn [nth_error Mock.pending Mock.repeating Mock.action Mock.runAction].
  rewrite respond_delivers by assumption.
  reflexivity.
Qed.

End MockProofs.

(* ===================================================================== *)
(** * The earlier component *)
(* ===================================================================== *)

Lemma Rel_tame_refl (b : bool) (w : World) : Legacy.Rel_tame b w w.
Proof. intro H; exact H. Qed.

Lemma Rel_tame_trans (b : bool) (x y z : World) :
  Legacy.Rel_tame b x y -> Legacy.Rel_tame b y z -> Legacy.Rel_tame b x z.
Proof. unfold Legacy.Rel_tame. auto. Qed.

Lemma refClosed_update (f : Socket -> Socket) (n : nat) (w : World) :
  (forall s, readyState s = CLOSING \/ readyState s = CLOSED ->
             readyState (f s) = CLOSING \/ readyState (f s) = CLOSED) ->
  Legacy.refClosed w ->
  Legacy.refClosed (with_sockets (update_nth n f) w).
Proof.
  intros Hf. unfold Legacy.refClosed. cbn.
  destruct (wsRef (refs w)) as [r|]; [|auto].
  destruct (Nat.eq_dec n r) as [->|Hn].
  - rewrite nth_error_update_nth. destruct (nth_error (sockets w) r); cbn; auto.
  - now rewrite nth_error_update_other.
Qed.

Lemma refClosed_elsewhere (f : Socket -> Socket) (n : nat) (s : Socket) (w : World) :
  nth_error (sockets w) n = Some s -> readyState s = CONNECTING ->
  Legacy.refClosed w ->
  Legacy.refClosed (with_sockets (update_nth n f) w).
Proof.
  intros Hn Hs. unfold Legacy.refClosed. cbn.
  destruct (wsRef (refs w)) as [r|]; [|auto].
  destruct (Nat.eq_dec n r) as [->|Hr].
  - rewrite Hn. intros [H|H]; congruence.
  - now rewrite nth_error_update_other.
Qed.

Lemma quiet_update (f : Socket -> Socket) (n : nat) (l : list Socket) :
  (forall s, sentFrames (f s) = sentFrames s /\ handlers (f s) = handlers s) ->
  Forall (fun s => sentFrames s = [] /\ c_isConnected (handlers s) = false) l ->
  Forall (fun s => sentFrames s = [] /\ c_isConnected (handlers s) = false)
    (update_nth n f l).
Proof.
  intros Hf. apply Forall_update_nth. intros a [H1 H2].
  destruct (Hf a) as [E1 E2]. now rewrite E1, E2.
Qed.

Section LegacyProofs.
Variable P : Props.
Variable encodeURIComponent : jsstring -> result jsstring.
Variable urlAccepted : jsstring -> bool.
Variable sanitize : json -> result jsstring.

Local Abbreviation step' := (Legacy.step P encodeURIComponent urlAccepted sanitize).
Local Abbreviation run' := (Legacy.run P encodeURIComponent urlAccepted sanitize).
Local Abbreviation handle' := (Legacy.handle P encodeURIComponent urlAccepted sanitize).
Local Abbreviation render' := (Legacy.render P encodeURIComponent urlAccepted).
Local Abbreviation mount' := (Legacy.mount P encodeURIComponent urlAccepted).
Local Abbreviation connect' := (Legacy.connectWebSocket P encodeURIComponent urlAccepted).
Local Abbreviation okt b c := (respects (Legacy.Rel_tame b) c).

Local Ltac world_simpl :=
  cbn [st refs sockets timers notices draws memo crashed
       with_st with_refs with_sockets with_memo with_notices
       wsRef failedMessagesRef messageQueueRef retryTimeoutRef
       with_wsRef with_failedMessagesRef
       messages inputValue isConnected isConnecting error showErrorMessage
       retryMessageId connectionRetryCount isAutoConnecting
       with_isConnected with_isConnecting with_error with_showErrorMessage
       snapshot c_isConnected c_isConnecting
       fst snd modify setReadyState socket_close setIsConnected setIsConnecting
       setError setShowErrorMessage notify].

Local Ltac world_simpl_in H :=
  cbn [st refs sockets timers notices draws memo crashed
       with_st with_refs with_sockets with_memo with_notices
       wsRef failedMessagesRef messageQueueRef retryTimeoutRef
       with_wsRef with_failedMessagesRef
       messages inputValue isConnected isConnecting error showErrorMessage
       retryMessageId connectionRetryCount isAutoConnecting
       with_isConnected with_isConnecting with_error with_showErrorMessage
       snapshot c_isConnected c_isConnecting
       fst snd modify setReadyState socket_close setIsConnected setIsConnecting
       setError setShowErrorMessage notify] in H.

Lemma okt_st (b : bool) (f : State -> State) : okt b (modify (with_st f)).
Proof. apply respects_modify. intros w H. exact H. Qed.

Lemma okt_notify (b : bool) (n : Notice) : okt b (notify n).
Proof. apply respects_modify. intros w H. exact H. Qed.

Lemma okt_wsRef_send (data : jsstring) : okt true (wsRef_send data).
Proof.
  intros w H. unfold wsRef_send, bind, gets. cbn.
  destruct (wsRef (refs w)) as [n|] eqn:Er; [|exact H].
  unfold socket_send.
  destruct (nth_error (sockets w) n) as [s|] eqn:En; [|exact H].
  destruct (readyState s) eqn:Es; try exact H.
  exfalso. destruct H as (_ & _ & _ & H4). specialize (H4 eq_refl).
  unfold Legacy.refClosed in H4. rewrite Er, En in H4. destruct H4; congruence.
Qed.

Lemma okt_sendMessage (b : bool) (G : Closure) (m : Message) :
  (c_isConnected G = true -> b = true) -> okt b (Legacy.sendMessage P G m).
Proof.
  intros Hb. unfold Legacy.sendMessage. destruct (c_isConnected G); cbn [negb].
  - rewrite (Hb eq_refl).
    apply respects_try_catch; [apply Rel_tame_trans | | ].
    + apply respects_bind; [apply Rel_tame_trans | apply respects_lift; apply Rel_tame_refl |].
      intro d. apply respects_bind; [apply Rel_tame_trans | apply okt_wsRef_send |].
      intros _. apply okt_st.
    + apply respects_bind; [apply Rel_tame_trans | apply okt_st |].
      intros _. apply respects_lift. apply Rel_tame_refl.
  - apply respects_modify. intros w H. exact H.
Qed.

Lemma okt_retryFailedMessage (b : bool) (G : Closure) (messageId : jsstring) :
  okt b (Legacy.retryFailedMessage P G messageId).
Proof.
  intros w H. pose proof H as (_ & _ & H3 & _).
  unfold Legacy.retryFailedMessage, bind, setRetryMessageId, modify, gets. cbn.
  rewrite H3. cbn. exact H.
Qed.

Lemma okt_flushFailedMessages (b : bool) (G : Closure) :
  okt b (Legacy.flushFailedMessages P G).
Proof.
  unfold Legacy.flushFailedMessages.
  apply respects_bind; [apply Rel_tame_trans | apply respects_gets; apply Rel_tame_refl |].
  intro values. apply respects_forEach; [apply Rel_tame_refl | apply Rel_tame_trans |].
  intro a. apply okt_retryFailedMessage.
Qed.

Lemma okt_flushMessageQueue (b : bool) (G : Closure) :
  c_isConnected G = false -> okt b (Legacy.flushMessageQueue P G).
Proof.
  intros HG. unfold Legacy.flushMessageQueue.
  apply respects_bind; [apply Rel_tame_trans | apply respects_gets; apply Rel_tame_refl |].
  intro queue. rewrite HG, andb_false_r. apply respects_ret. apply Rel_tame_refl.
Qed.

Lemma okt_newWebSocket (u : jsstring) (G : Closure) :
  c_isConnected G = false -> okt false (newWebSocket urlAccepted u G).
Proof.
  intros HG w H. unfold newWebSocket. destruct (urlAccepted u); [|exact H].
  destruct H as (H1 & H2 & H3 & _). cbn.
  repeat split; try assumption; [|discriminate].
  apply Forall_app. split; [exact H2|]. constructor; [|constructor]. cbn. auto.
Qed.

Lemma okt_connectWebSocket (G : Closure) :
  okt (c_isConnected G) (connect' G).
Proof.
  unfold Legacy.connectWebSocket.
  destruct (c_isConnecting G || c_isConnected G) eqn:E.
  - apply respects_ret. apply Rel_tame_refl.
  - apply orb_false_elim in E. destruct E as [_ E]. rewrite E.
    unfold setIsConnecting, setError, setShowErrorMessage.
    apply respects_bind; [apply Rel_tame_trans | apply okt_st | intros _].
    apply respects_bind; [apply Rel_tame_trans | apply okt_st | intros _].
    apply respects_bind; [apply Rel_tame_trans | apply okt_st | intros _].
    apply respects_try_catch; [apply Rel_tame_trans | | ].
    + apply respects_bind; [apply Rel_tame_trans | apply respects_lift; apply Rel_tame_refl |].
      intro u.
      apply respects_bind; [apply Rel_tame_trans | now apply okt_newWebSocket |].
      intro ws. apply respects_modify. intros w (H1 & H2 & H3 & _).
      repeat split; try assumption. discriminate.
    + apply respects_bind; [apply Rel_tame_trans | apply okt_st | intros _].
      apply respects_bind; [apply Rel_tame_trans | apply okt_st | intros _].
      apply okt_st.
Qed.

Lemma okt_ws_onopen (b : bool) (G : Closure) :
  c_isConnected G = false -> okt b (Legacy.ws_onopen P G).
Proof.
  intros HG. unfold Legacy.ws_onopen, setIsConnected, setIsConnecting.
  apply respects_bind; [apply Rel_tame_trans | apply okt_st | intros _].
  apply respects_bind; [apply Rel_tame_trans | apply okt_st | intros _].
  apply respects_bind; [apply Rel_tame_trans | apply okt_notify | intros _].
  apply respects_bind; [apply Rel_tame_trans | now apply okt_flushMessageQueue | intros _].
  apply okt_flushFailedMessages.
Qed.

Lemma okt_ws_onmessage (b : bool) (G : Closure) data uuid now :
  okt b (Legacy.ws_onmessage P sanitize G data uuid now).
Proof.
  unfold Legacy.ws_onmessage.
  apply respects_try_catch; [apply Rel_tame_trans | | apply respects_ret; apply Rel_tame_refl].
  apply respects_bind; [apply Rel_tame_trans | apply respects_lift; apply Rel_tame_refl |].
  intro parsed.
  apply respects_bind; [apply Rel_tame_trans | apply respects_lift; apply Rel_tame_refl |].
  intros [v|]; [|apply respects_ret; apply Rel_tame_refl].
  destruct (Legacy.toBoolean (Some v)); [|apply respects_ret; apply Rel_tame_refl].
  intros w H. unfold setMessagesWith.
  destruct (Legacy.appendAnswer sanitize v uuid now (messages (st w))); exact H.
Qed.

Lemma okt_socket_close (b : bool) (ws : nat) : okt b (socket_close ws).
Proof.
  apply respects_modify. intros w (H1 & H2 & H3 & H4).
  repeat split; try assumption.
  - apply quiet_update; [|exact H2]. intros s. destruct (readyState s); auto.
  - intros Hb. apply refClosed_update; [|auto].
    intros s [H|H]; rewrite H; auto.
Qed.

Lemma okt_ws_onclose (b : bool) (G : Closure) : okt b (Legacy.ws_onclose G).
Proof.
  unfold Legacy.ws_onclose, setIsConnected, setIsConnecting, setError, setShowErrorMessage.
  apply respects_bind; [apply Rel_tame_trans | apply okt_st | intros _].
  apply respects_bind; [apply Rel_tame_trans | apply okt_st | intros _].
  apply respects_bind; [apply Rel_tame_trans | apply okt_notify | intros _].
  apply respects_bind; [apply Rel_tame_trans | apply okt_st | intros _].
  apply okt_st.
Qed.

Lemma okt_ws_onerror (b : bool) (G : Closure) (ws : nat) : okt b (Legacy.ws_onerror G ws).
Proof.
  unfold Legacy.ws_onerror, setError.
  apply respects_bind; [apply Rel_tame_trans | apply okt_st | intros _].
  apply okt_socket_close.
Qed.

Lemma okt_setClosed (b : bool) (ws : nat) : okt b (setReadyState ws CLOSED).
Proof.
  apply respects_modify. intros w (H1 & H2 & H3 & H4).
  repeat split; try assumption.
  - apply quiet_update; [|exact H2]. intros s. auto.
  - intros Hb. apply refClosed_update; [|auto]. intros s _. cbn. auto.
Qed.

Lemma okt_handleSend (b : bool) (G : Closure) v uuid now :
  (c_isConnected G = true -> b = true) -> okt b (Legacy.handleSend P G v uuid now).
Proof.
  intros Hb. unfold Legacy.handleSend, setMessages, setInputValue.
  destruct (negb (truthy (trim v)) || negb (c_isConnected G));
    [apply respects_ret; apply Rel_tame_refl|].
  apply respects_bind; [apply Rel_tame_trans | apply okt_st | intros _].
  apply respects_bind; [apply Rel_tame_trans | apply okt_st | intros _].
  now apply okt_sendMessage.
Qed.

Lemma sound_tame (w : World) :
  Legacy.sound w -> Legacy.tame (c_isConnected (memo w)) w.
Proof. intros (H1 & H2 & H3 & H4). repeat split; assumption. Qed.

(** A handler keeps what holds between renders. *)
Lemma handle_tame (e : Legacy.event) (w : World) :
  Legacy.sound w -> Legacy.tame (c_isConnected (memo w)) (exec (handle' e) w).
Proof.
  intros Hs. pose proof (sound_tame w Hs) as Ht.
  pose proof Hs as (S1 & S2 & S3 & S4).
  set (b := c_isConnected (memo w)) in *.
  unfold exec. destruct e as [ws|ws data uuid now|ws|ws|value|uuid now|index|];
    unfold Legacy.handle.
  - destruct (nth_error (sockets w) ws) as [s|] eqn:En; [|exact Ht].
    destruct (readyState s) eqn:Es; try exact Ht.
    rewrite bind_ok with (a := tt) by reflexivity.
    apply okt_ws_onopen.
    + apply nth_error_In in En. rewrite Forall_forall in S2. now apply S2.
    + cbn. destruct Ht as (T1 & T2 & T3 & T4). repeat split; try assumption.
      * apply quiet_update; [|exact T2]. intros x. auto.
      * intros Hb. eapply refClosed_elsewhere; eauto.
  - destruct (nth_error (sockets w) ws) as [s|] eqn:En; [|exact Ht].
    destruct (readyState s) eqn:Es; try exact Ht; now apply okt_ws_onmessage.
  - destruct (nth_error (sockets w) ws) as [s|] eqn:En; [|exact Ht].
    assert (K : okt b (setReadyState ws CLOSED ;;
                       Legacy.ws_onerror (handlers s) ws ;;
                       Legacy.ws_onclose (handlers s))%chat).
    { apply respects_bind; [apply Rel_tame_trans | apply okt_setClosed | intros _].
      apply respects_bind; [apply Rel_tame_trans | apply okt_ws_onerror | intros _].
      apply okt_ws_onclose. }
    destruct (readyState s) eqn:Es; try exact Ht; now apply K.
  - destruct (nth_error (sockets w) ws) as [s|] eqn:En; [|exact Ht].
    assert (K : okt b (setReadyState ws CLOSED ;; Legacy.ws_onclose (handlers s))%chat).
    { apply respects_bind; [apply Rel_tame_trans | apply okt_setClosed | intros _].
      apply okt_ws_onclose. }
    destruct (readyState s) eqn:Es; try exact Ht; now apply K.
  - exact Ht.
  - apply okt_handleSend; [|exact Ht]. cbn. intros Hc. rewrite <- S1. exact Hc.
  - destruct (nth_error (messages (st w)) index) as [msg|]; [|exact Ht].
    destruct (status msg); try exact Ht. now apply okt_retryFailedMessage.
  - destruct (showErrorMessage (st w)); [|exact Ht].
    now apply okt_connectWebSocket.
Qed.

Lemma connect_keeps_isConnected (G : Closure) (w : World) :
  isConnected (st (snd (connect' G w))) = isConnected (st w).
Proof.
  unfold Legacy.connectWebSocket.
  destruct (c_isConnecting G || c_isConnected G); [reflexivity|].
  unfold bind, try_catch, setIsConnecting, setError, setShowErrorMessage, modify, lift.
  cbn. destruct (connectUrl P encodeURIComponent) as [u|e]; cbn; [|reflexivity].
  unfold newWebSocket. cbn. destruct (urlAccepted u); reflexivity.
Qed.

Lemma cleanup_tame (w : World) :
  Forall (fun s => sentFrames s = [] /\ c_isConnected (handlers s) = false) (sockets w) ->
  failedMessagesRef (refs w) = [] ->
  Legacy.tame (c_isConnected (memo w)) (snd (effectCleanup w)) /\
  isConnected (st (snd (effectCleanup w))) = isConnected (st w).
Proof.
  intros H2 H3. unfold effectCleanup, bind, gets. cbn.
  destruct (wsRef (refs w)) as [n|] eqn:Er; cbn.
  - split; [|reflexivity]. repeat split; try assumption.
    + apply quiet_update; [|exact H2]. intros s. destruct (readyState s); auto.
    + intros _. unfold Legacy.refClosed. cbn. rewrite Er, nth_error_update_nth.
      destruct (nth_error (sockets w) n) as [s|]; cbn; [|exact I].
      destruct (readyState s) eqn:Es; cbn; rewrite ?Es; auto.
  - split; [|reflexivity]. repeat split; try assumption.
    intros _. unfold Legacy.refClosed. now rewrite Er.
Qed.

(** The render after a handler restores what holds between steps. *)
Lemma render_sound (b : bool) (w : World) :
  Legacy.tame b w -> Legacy.sound (render' w).
Proof.
  intros (T1 & T2 & T3 & T4). unfold Legacy.render.
  destruct (Bool.eqb (isConnected (st w)) (c_isConnected (memo w))) eqn:E.
  - apply eqb_prop in E. repeat split; try assumption.
    intros Hm. apply T4. congruence.
  - cbv zeta. unfold exec.
    set (G := snapshot (st w)). set (w0 := with_memo G w).
    rewrite (bind_ok effectCleanup _ tt w0 (effectCleanup_returns w0)).
    destruct (cleanup_tame w0 T2 T3) as [C1 C2].
    pose proof (okt_connectWebSocket G _ C1) as (K1 & K2 & K3 & K4).
    repeat split; try assumption.
    + rewrite connect_keeps_isConnected, C2, K1. reflexivity.
    + intros Hm. apply K4. congruence.
Qed.

(** Only the updater of [ws.onmessage] can make a render throw. *)
Local Abbreviation oka := (respects Rel_alive).

Local Ltac oka_go_with tac :=
  repeat first
    [ tac
    | apply oka_socket_send | apply oka_wsRef_send | apply oka_newWebSocket
    | apply oka_same; reflexivity
    | apply respects_ret; exact Rel_alive_refl
    | apply respects_lift; exact Rel_alive_refl
    | apply respects_gets; exact Rel_alive_refl
    | apply respects_bind; [exact Rel_alive_trans | | intro]
    | apply respects_try_catch; [exact Rel_alive_trans | | ]
    | apply respects_forEach; [exact Rel_alive_refl | exact Rel_alive_trans | intro]
    | match goal with
      | |- respects _ (if ?b then _ else _) => destruct b
      | |- respects _ (match ?x with _ => _ end) => destruct x
      end ].

Local Ltac oka_go := oka_go_with fail.

Lemma oka_retryFailedMessage_legacy G k : oka (Legacy.retryFailedMessage P G k).
Proof.
  unfold Legacy.retryFailedMessage, setRetryMessageId, setMessages, notify. oka_go.
Qed.

Lemma oka_flushFailedMessages_legacy G : oka (Legacy.flushFailedMessages P G).
Proof.
  unfold Legacy.flushFailedMessages.
  oka_go_with ltac:(apply oka_retryFailedMessage_legacy).
Qed.

Lemma oka_sendMessage_legacy G m : oka (Legacy.sendMessage P G m).
Proof. unfold Legacy.sendMessage, setMessages. oka_go. Qed.

Lemma oka_flushMessageQueue_legacy G : oka (Legacy.flushMessageQueue P G).
Proof.
  unfold Legacy.flushMessageQueue.
  oka_go_with ltac:(apply oka_sendMessage_legacy).
Qed.

Lemma oka_connectWebSocket_legacy G : oka (connect' G).
Proof.
  unfold Legacy.connectWebSocket, setIsConnecting, setError, setShowErrorMessage.
  oka_go.
Qed.

Lemma oka_ws_onopen_legacy G : oka (Legacy.ws_onopen P G).
Proof.
  unfold Legacy.ws_onopen, setIsConnected, setIsConnecting, notify.
  oka_go_with ltac:(first [apply oka_flushMessageQueue_legacy
                          | apply oka_flushFailedMessages_legacy]).
Qed.

Lemma oka_ws_onerror_legacy G ws : oka (Legacy.ws_onerror G ws).
Proof. unfold Legacy.ws_onerror, setError, socket_close. oka_go. Qed.

Lemma oka_ws_onclose_legacy G : oka (Legacy.ws_onclose G).
Proof.
  unfold Legacy.ws_onclose, setIsConnected, setIsConnecting, setError,
    setShowErrorMessage, notify. oka_go.
Qed.

Lemma oka_handleSend_legacy G v uuid now : oka (Legacy.handleSend P G v uuid now).
Proof.
  unfold Legacy.handleSend, setInputValue, setMessages.
  oka_go_with ltac:(apply oka_sendMessage_legacy).
Qed.

(** A handler other than [ws.onmessage] leaves the render as it is. *)
Lemma handle_alive_legacy (e : Legacy.event) (w : World) :
  match e with Legacy.SocketMessage _ _ _ _ => False | _ => True end ->
  crashed (exec (handle' e) w) = crashed w.
Proof.
  intros He. unfold exec.
  destruct e as [ws|ws data uuid now|ws|ws|value|uuid now|index|];
    unfold Legacy.handle; try contradiction.
  - destruct (nth_error (sockets w) ws) as [s|]; [|reflexivity].
    destruct (readyState s); try reflexivity.
    assert (K : oka (setReadyState ws OPEN ;; Legacy.ws_onopen P (handlers s))%chat)
      by (unfold setReadyState; oka_go_with ltac:(apply oka_ws_onopen_legacy)).
    apply K.
  - destruct (nth_error (sockets w) ws) as [s|]; [|reflexivity].
    assert (K : oka (setReadyState ws CLOSED ;;
                     Legacy.ws_onerror (handlers s) ws ;;
                     Legacy.ws_onclose (handlers s))%chat)
      by (unfold setReadyState;
          oka_go_with ltac:(first [apply oka_ws_onerror_legacy
                                  | apply oka_ws_onclose_legacy])).
    destruct (readyState s); first [reflexivity | apply K].
  - destruct (nth_error (sockets w) ws) as [s|]; [|reflexivity].
    assert (K : oka (setReadyState ws CLOSED ;; Legacy.ws_onclose (handlers s))%chat)
      by (unfold setReadyState; oka_go_with ltac:(apply oka_ws_onclose_legacy)).
    destruct (readyState s); first [reflexivity | apply K].
  - reflexivity.
  - apply oka_handleSend_legacy.
  - destruct (nth_error (messages (st w)) index) as [msg|]; [|reflexivity].
    destruct (status msg); first [reflexivity | apply oka_retryFailedMessage_legacy].
  - destruct (showErrorMessage (st w)); [apply oka_connectWebSocket_legacy | reflexivity].
Qed.

(** What [ws.onmessage] does: nothing, or it appends a message, or it makes
    the render throw. *)
Lemma ws_onmessage_cases (G : Closure) (data uuid : jsstring) (now : Date) (w : World) :
  let w1 := snd (Legacy.ws_onmessage P sanitize G data uuid now w) in
  w1 = w \/
  (exists l, w1 = with_st (with_messages (fun _ => l)) w) \/
  w1 = with_crashed true w.
Proof.
  unfold Legacy.ws_onmessage, try_catch, bind, lift.
  destruct (decode P data) as [parsed|]; [|now left].
  destruct (get_prop parsed (str "content")) as [[v|]|]; try now left.
  destruct (Legacy.toBoolean (Some v)); [|now left].
  unfold setMessagesWith.
  destruct (Legacy.appendAnswer sanitize v uuid now (messages (st w))) as [l|];
    cbn [snd]; [right; left; now exists l | now right; right].
Qed.

(** The state of a render that throws is the one before the handler. *)
Lemma crash_keeps_state (e : Legacy.event) (w : World) :
  crashed w = false -> crashed (exec (handle' e) w) = true ->
  st (exec (handle' e) w) = st w.
Proof.
  intros Hc Hx.
  destruct e as [ws|ws data uuid now|ws|ws|value|uuid now|index|];
    try (rewrite handle_alive_legacy in Hx by exact I; congruence).
  unfold exec, Legacy.handle in *.
  destruct (nth_error (sockets w) ws) as [s|]; [|reflexivity].
  assert (K : crashed (snd (Legacy.ws_onmessage P sanitize (handlers s) data uuid now w))
              = true ->
              st (snd (Legacy.ws_onmessage P sanitize (handlers s) data uuid now w)) = st w).
  { destruct (ws_onmessage_cases (handlers s) data uuid now w)
      as [E | [(l & E) | E]]; cbv zeta in E; rewrite E; cbn; [reflexivity | congruence | reflexivity]. }
  destruct (readyState s); first [reflexivity | apply K; exact Hx].
Qed.

Lemma tame_state (b c : bool) (s : State) (w : World) :
  Legacy.tame b w -> Legacy.tame b (with_crashed c (with_st (fun _ => s) w)).
Proof. intros H. exact H. Qed.

(** A step on any event but an incoming frame is the handler and a render. *)
Lemma step_other_legacy (w : World) (e : Legacy.event) :
  crashed w = false ->
  match e with Legacy.SocketMessage _ _ _ _ => False | _ => True end ->
  step' w e = render' (exec (handle' e) w).
Proof.
  intros Hc He. unfold Legacy.step. rewrite Hc. cbv zeta.
  now rewrite handle_alive_legacy, Hc.
Qed.

Lemma step_sound_legacy (w : World) (e : Legacy.event) :
  Legacy.sound w -> Legacy.sound (step' w e).
Proof.
  intros H. pose proof (handle_tame e w H) as Ht.
  pose proof H as (H1 & _).
  unfold Legacy.step. destruct (crashed w) eqn:Hc.
  - unfold Legacy.stepDetached. destruct (Legacy.isTransport e); [|exact H].
    unfold exec, detached. unfold exec in Ht.
    destruct (handle' e w) as [r w1]. cbn [snd] in *.
    destruct (tame_state _ (crashed w) (st w) w1 Ht) as (T1 & T2 & T3 & T4).
    repeat split; try assumption.
    + cbn. rewrite H1. symmetry. exact T1.
    + intros Hm. apply T4. rewrite <- T1. exact Hm.
  - cbv zeta. destruct (crashed (exec (handle' e) w)) eqn:Hx.
    + pose proof (crash_keeps_state e w Hc Hx) as Ks.
      destruct Ht as (T1 & T2 & T3 & T4).
      unfold Legacy.unmount.
      destruct (cleanup_tame (exec (handle' e) w) T2 T3) as (C1 & C2).
      destruct C1 as (K1 & K2 & K3 & K4).
      repeat split; try assumption.
      * change (isConnected (st (snd (effectCleanup (exec (handle' e) w)))) =
                c_isConnected (memo (snd (effectCleanup (exec (handle' e) w))))).
        rewrite C2, K1, Ks, T1. exact H1.
      * intros Hm. apply K4.
        change (c_isConnected (memo (snd (effectCleanup (exec (handle' e) w)))) = true)
          in Hm.
        rewrite K1 in Hm. exact Hm.
    + eapply render_sound. exact Ht.
Qed.

Lemma mount_sound (uuid : jsstring) (now : Date) : Legacy.sound (mount' uuid now).
Proof.
  unfold Legacy.mount. cbv zeta. eapply render_sound.
  apply (okt_connectWebSocket (memo (initialWorld uuid now))).
  repeat split; try reflexivity; try constructor; try discriminate.
Qed.

Lemma run_sound_legacy (w : World) (es : list Legacy.event) :
  Legacy.sound w -> Legacy.sound (run' w es).
Proof.
  revert w. induction es as [|e es IH]; intros w H; [exact H|].
  apply IH, step_sound_legacy, H.
Qed.

Lemma render_settled_legacy (w : World) :
  isConnected (st w) = c_isConnected (memo w) -> render' w = w.
Proof.
  intros H. unfold Legacy.render. rewrite H, eqb_reflx. reflexivity.
Qed.

Lemma connect_keeps_messages (G : Closure) (w : World) :
  messages (st (snd (connect' G w))) = messages (st w).
Proof.
  unfold Legacy.connectWebSocket.
  destruct (c_isConnecting G || c_isConnected G); [reflexivity|].
  unfold bind, try_catch, setIsConnecting, setError, setShowErrorMessage, modify, lift.
  cbn. destruct (connectUrl P encodeURIComponent) as [u|e]; cbn; [|reflexivity].
  unfold newWebSocket. cbn. destruct (urlAccepted u); reflexivity.
Qed.

Lemma render_messages_legacy (w : World) : messages (st (render' w)) = messages (st w).
Proof.
  unfold Legacy.render.
  destruct (Bool.eqb (isConnected (st w)) (c_isConnected (memo w))); [reflexivity|].
  cbv zeta. unfold exec.
  rewrite (bind_ok effectCleanup _ tt _ (effectCleanup_returns _)).
  rewrite connect_keeps_messages.
  unfold effectCleanup, bind, gets. cbn. destruct (wsRef (refs w)); reflexivity.
Qed.

Lemma sendMessage_ids_legacy (G : Closure) (m : Message) (w : World) :
  List.map id (messages (st (snd (Legacy.sendMessage P G m w)))) =
  List.map id (messages (st w)).
Proof.
  assert (K : forall (v : Status) (l : list Message),
            List.map id (List.map (fun msg =>
              if jsstring_eqb (id msg) (id m) then with_status v msg else msg) l) =
            List.map id l).
  { intros v l. rewrite map_map. apply map_ext. intros a.
    destruct (jsstring_eqb (id a) (id m)); reflexivity. }
  unfold Legacy.sendMessage. destruct (c_isConnected G); cbn [negb]; [|reflexivity].
  unfold try_catch, bind, lift. destruct (encode P m) as [d|e]; cbn; [|apply K].
  unfold wsRef_send, bind, gets. cbn.
  destruct (wsRef (refs w)) as [n|]; cbn; [|apply K].
  unfold socket_send. destruct (nth_error (sockets w) n) as [s|]; cbn; [|apply K].
  destruct (readyState s); cbn; apply K.
Qed.

(** X24.  The earlier component never sends anything.  Its
    callbacks are re-created when [isConnected] changes, so the render that
    follows the opening of a socket runs the cleanup of the connection
    effect, which closes [wsRef.current]; from then on, as long as
    [isConnected] is true, the socket in [wsRef] is closing or closed and
    [send] drops what it is given.  In every run, therefore, no socket has
    been handed a frame; and a text that is not blank, submitted while the
    component shows itself connected, is appended to the list as a message
    and goes nowhere (once a render has thrown, the component is off the
    page and a submission does nothing at all). *)
Theorem legacy_component_never_sends (uuid : jsstring) (now : Date)
    (es : list Legacy.event) :
  let w := run' (mount' uuid now) es in
  Forall (fun s => sentFrames s = []) (sockets w) /\
  (isConnected (st w) = true -> Legacy.refClosed w) /\
  (forall v u t,
     truthy (trim v) = true -> isConnected (st w) = true ->
     let w' := run' w [Legacy.UserInput v; Legacy.UserSend u t] in
     (if crashed w then w' = w
      else List.map id (messages (st w')) = List.map id (messages (st w)) ++ [u]) /\
     Forall (fun s => sentFrames s = []) (sockets w')).
Proof.
  intros w.
  assert (Hs : Legacy.sound w) by (apply run_sound_legacy, mount_sound).
  assert (Q : forall x, Legacy.sound x -> Forall (fun s => sentFrames s = []) (sockets x)).
  { intros x (_ & H2 & _). eapply Forall_impl; [|exact H2]. now intros a [H _]. }
  split; [now apply Q|]. split.
  - destruct Hs as (H1 & _ & _ & H4). intros Hc. apply H4. congruence.
  - intros v u t Hv Hc w'. split; [|apply Q; now apply run_sound_legacy].
    destruct Hs as (H1 & _).
    destruct (crashed w) eqn:Hx.
    { unfold w'. cbn [Legacy.run fold_left]. unfold Legacy.step. rewrite Hx.
      cbn [Legacy.stepDetached Legacy.isTransport]. rewrite Hx. reflexivity. }
    assert (E1 : step' w (Legacy.UserInput v) = with_st (with_inputValue v) w).
    { rewrite step_other_legacy by (exact Hx || exact I).
      apply render_settled_legacy. exact H1. }
    unfold w'. cbn [Legacy.run fold_left]. rewrite E1.
    rewrite step_other_legacy by (exact Hx || exact I). rewrite render_messages_legacy.
    unfold exec, Legacy.handle. cbn [st with_st inputValue with_inputValue].
    unfold Legacy.handleSend. cbn [c_isConnected snapshot isConnected].
    change (isConnected (with_inputValue v (st w))) with (isConnected (st w)).
    rewrite Hv, Hc. cbn [negb orb].
    unfold bind at 1. unfold setMessages at 1. unfold modify at 1. cbn [fst snd].
    unfold bind at 1. unfold setInputValue at 1. unfold modify at 1. cbn [fst snd].
    rewrite sendMessage_ids_legacy. cbn.
    rewrite map_app. reflexivity.
Qed.

(** X27.  What the earlier component does with a frame that
    arrives on a socket that is open or closing, while it is on the page.
    A frame counts exactly when it decodes to an object whose [content] is
    truthy.  Then [DOMPurify.sanitize] runs on the content, in the updater,
    outside the [try] of the handler: when it returns, one assistant
    message holding the sanitized content is appended and nothing else
    changes; when it throws, the render throws and React takes the
    component off the page, so that the cleanup closes the socket of
    [wsRef].  Every other frame (one that cannot be decoded, [null], a
    number, a string, an array, an object without [content] or with a
    [content] that is [null], [false], zero or the empty string) changes
    nothing at all.  Once the component is off the page no frame changes
    anything. *)
Theorem legacy_frame_is_shown_or_ignored (uuid0 : jsstring) (now0 : Date)
    (es : list Legacy.event) (ws : nat) (s : Socket) (data uuid : jsstring)
    (now : Date) :
  let w := run' (mount' uuid0 now0) es in
  nth_error (sockets w) ws = Some s ->
  readyState s = OPEN \/ readyState s = CLOSING ->
  let w' := step' w (Legacy.SocketMessage ws data uuid now) in
  if crashed w then w' = w
  else
    match decode P data with
    | Ok (JObject m) =>
        match obj_get (str "content") m with
        | Some v =>
            if Legacy.toBoolean (Some v) then
              match sanitize v with
              | Ok text =>
                  w' = with_st (with_messages (fun prev => prev ++
                         [{| id := uuid; content := Some (JString text);
                             role := ai; timestamp := now; status := sent;
                             retryCount := None |}])) w
              | Throw _ => w' = exec Legacy.unmount (with_crashed true w)
              end
            else w' = w
        | None => w' = w
        end
    | _ => w' = w
    end.
Proof.
  intros w Hn Hr w'.
  assert (Hs : Legacy.sound w) by (apply run_sound_legacy, mount_sound).
  destruct Hs as (H1 & _).
  assert (E : exec (handle' (Legacy.SocketMessage ws data uuid now)) w =
              snd (Legacy.ws_onmessage P sanitize (handlers s) data uuid now w)).
  { unfold exec, Legacy.handle. rewrite Hn. destruct Hr as [-> | ->]; reflexivity. }
  clearbody w.
  destruct (crashed w) eqn:Hc.
  { unfold w', Legacy.step. rewrite Hc.
    cbn [Legacy.stepDetached Legacy.isTransport].
    unfold exec in *. unfold detached.
    destruct (handle' (Legacy.SocketMessage ws data uuid now) w) as [r w1].
    cbn [snd] in E. rewrite E.
    destruct (ws_onmessage_cases (handlers s) data uuid now w)
      as [K | [(l & K) | K]]; cbv zeta in K; rewrite K;
      destruct w; reflexivity. }
  assert (Same : exec (handle' (Legacy.SocketMessage ws data uuid now)) w = w -> w' = w).
  { intros K. unfold w', Legacy.step. rewrite Hc. cbv zeta. rewrite K, Hc.
    now apply render_settled_legacy. }
  rewrite E in Same.
  unfold Legacy.ws_onmessage, try_catch, bind, lift in E, Same.
  destruct (decode P data) as [parsed|err]; [|now apply Same].
  destruct parsed as [| b | lexeme | str0 | l | m]; try now apply Same.
  cbn [get_prop fst snd] in E, Same.
  destruct (obj_get (str "content") m) as [v|]; [|now apply Same].
  destruct (Legacy.toBoolean (Some v)); [|now apply Same].
  unfold setMessagesWith, Legacy.appendAnswer in E.
  unfold w', Legacy.step. rewrite Hc. cbv zeta. rewrite E.
  destruct (sanitize v) as [text|err]; cbn [snd crashed with_st with_crashed].
  - rewrite Hc. apply render_settled_legacy. exact H1.
  - reflexivity.
Qed.

Section Loop.
Variable u : jsstring.
Hypothesis url_built : connectUrl P encodeURIComponent = Ok u.
Hypothesis url_accepted : urlAccepted u = true.

Lemma connect_opens_legacy (G : Closure) (w : World) :
  c_isConnecting G = false -> c_isConnected G = false ->
  connect' G w =
  (Ok tt,
   with_refs (with_wsRef (Some (List.length (sockets w))))
     (with_sockets (fun l => l ++ [{| url := u; readyState := CONNECTING;
                                      handlers := G; sentFrames := [] |}])
        (with_st (with_showErrorMessage false)
           (with_st (with_error None)
              (with_st (with_isConnecting true) w))))).
Proof.
  intros H1 H2. unfold Legacy.connectWebSocket. rewrite H1, H2. cbn [orb].
  repeat (unfold bind at 1; cbn [setIsConnecting setError setShowErrorMessage modify]).
  unfold try_catch, bind, lift. rewrite url_built. unfold newWebSocket.
  rewrite url_accepted. reflexivity.
Qed.

Lemma connect_returns_legacy (G : Closure) (w : World) :
  c_isConnected G = true -> connect' G w = (Ok tt, w).
Proof.
  intros H. unfold Legacy.connectWebSocket. now rewrite H, orb_true_r.
Qed.

Lemma mount_awaiting (uuid : jsstring) (now : Date) :
  Legacy.awaiting 0 (mount' uuid now).
Proof.
  unfold Legacy.mount. cbv zeta. unfold exec.
  rewrite connect_opens_legacy by reflexivity. cbn [snd].
  rewrite render_settled_legacy by reflexivity.
  unfold Legacy.awaiting. cbn. repeat split.
  - eexists. repeat split.
  - intros j s Hj. lia.
Qed.

Lemma ws_onopen_eq (G : Closure) (w : World) :
  c_isConnected G = false -> failedMessagesRef (refs w) = [] ->
  Legacy.ws_onopen P G w =
  (Ok tt,
   with_notices (fun l => l ++ [ConnectedToServer])
     (with_st (with_isConnecting false) (with_st (with_isConnected true) w))).
Proof.
  intros H Hr. unfold Legacy.ws_onopen.
  repeat (unfold bind at 1; cbn [setIsConnected setIsConnecting notify modify]).
  unfold Legacy.flushMessageQueue.
  unfold bind at 1. unfold gets at 1. rewrite H, andb_false_r.
  unfold Legacy.flushFailedMessages, bind, gets. cbn. rewrite Hr. reflexivity.
Qed.

(** The socket the component waits for opens: the render that follows
    closes it. *)
Lemma opening_undone (i : nat) (w : World) :
  Legacy.awaiting i w ->
  Legacy.undone i (step' w (Legacy.SocketOpen i)) /\
  notices (step' w (Legacy.SocketOpen i)) = notices w ++ [ConnectedToServer].
Proof.
  intros (A0 & A1 & A2 & A3 & A4 & A5 & A6 & A7 & A8 & A9 & (s & S1 & S2 & S3) & A11).
  set (w1 := exec (handle' (Legacy.SocketOpen i)) w).
  assert (E1 : w1 = _) by
    (unfold w1, exec, Legacy.handle; rewrite S1, S2;
     rewrite bind_ok with (a := tt) by reflexivity;
     rewrite ws_onopen_eq by (first [rewrite S3; exact A5 | exact A8]);
     reflexivity).
  world_simpl_in E1.
  assert (E2 : step' w (Legacy.SocketOpen i) = _) by
    (rewrite step_other_legacy by (exact A0 || exact I); fold w1; unfold Legacy.render;
     replace (Bool.eqb (isConnected (st w1)) (c_isConnected (memo w1))) with false
       by (rewrite E1; cbn; now rewrite A5);
     cbv zeta; unfold exec;
     rewrite (bind_ok effectCleanup _ tt _ (effectCleanup_returns _));
     rewrite connect_returns_legacy by (rewrite E1; reflexivity);
     unfold effectCleanup, bind, gets;
     replace (wsRef (refs (with_memo (snapshot (st w1)) w1))) with (Some i)
       by (rewrite E1; cbn; now rewrite A7);
     rewrite E1; reflexivity).
  rewrite E2. world_simpl.
  assert (N : nth_error (update_nth i
                (fun s0 => match readyState s0 with
                           | CONNECTING | OPEN => with_readyState CLOSING s0
                           | _ => s0
                           end)
                (update_nth i (with_readyState OPEN) (sockets w))) i =
              Some (with_readyState CLOSING (with_readyState OPEN s))).
  { rewrite !nth_error_update_nth, S1. reflexivity. }
  split; [|reflexivity].
  repeat split; try assumption; world_simpl.
  - now rewrite !length_update_nth.
  - eexists. split; [exact N | reflexivity].
  - intros j x Hj. rewrite !nth_error_update_other by lia. apply A11, Hj.
Qed.

(** The close event of that socket arrives: a new socket is made. *)
Lemma closing_awaiting (i : nat) (w : World) :
  Legacy.undone i w ->
  Legacy.awaiting (S i) (step' w (Legacy.SocketClose i)) /\
  notices (step' w (Legacy.SocketClose i)) = notices w ++ [Disconnected].
Proof.
  intros (A0 & A1 & A2 & A3 & A4 & A5 & A6 & (s & S1 & S2) & A8).
  set (w1 := exec (handle' (Legacy.SocketClose i)) w).
  assert (E1 : w1 = _) by
    (unfold w1, exec, Legacy.handle; rewrite S1, S2;
     unfold Legacy.ws_onclose;
     repeat (unfold bind at 1;
             cbn [setReadyState setIsConnected setIsConnecting notify setError
                  setShowErrorMessage modify]);
     reflexivity).
  world_simpl_in E1.
  assert (E2 : step' w (Legacy.SocketClose i) = _) by
    (rewrite step_other_legacy by (exact A0 || exact I); fold w1; unfold Legacy.render;
     replace (Bool.eqb (isConnected (st w1)) (c_isConnected (memo w1))) with false
       by (rewrite E1; cbn; now rewrite A3);
     cbv zeta; unfold exec;
     rewrite (bind_ok effectCleanup _ tt _ (effectCleanup_returns _));
     rewrite connect_opens_legacy by (rewrite E1; reflexivity);
     unfold effectCleanup, bind, gets;
     replace (wsRef (refs (with_memo (snapshot (st w1)) w1))) with (Some i)
       by (rewrite E1; cbn; now rewrite A4);
     rewrite E1; reflexivity).
  rewrite E2. world_simpl.
  assert (L : List.length (update_nth i
                (fun s0 => match readyState s0 with
                           | CONNECTING | OPEN => with_readyState CLOSING s0
                           | _ => s0
                           end)
                (update_nth i (with_readyState CLOSED) (sockets w))) = S i)
    by now rewrite !length_update_nth.
  split; [|reflexivity].
  repeat split; try assumption;
    world_simpl.
  - now rewrite L.
  - now rewrite length_app, L, Nat.add_comm.
  - eexists. split.
    { rewrite nth_error_app2 by lia. rewrite L, Nat.sub_diag. reflexivity. }
    split; reflexivity.
  - intros j x Hj. destruct (Nat.eq_dec j i) as [->|Hn].
    + rewrite nth_error_app1 by lia.
      rewrite !nth_error_update_nth, S1. cbn. intros [= <-]. reflexivity.
    + rewrite nth_error_app1 by lia.
      rewrite !nth_error_update_other by lia. apply A8. lia.
Qed.

Lemma rounds_awaiting (k i : nat) (w : World) :
  Legacy.awaiting i w -> Legacy.awaiting (k + i) (run' w (Legacy.rounds k i)).
Proof.
  revert i w. induction k as [|k IH]; intros i w H; [exact H|].
  cbn [Legacy.rounds Legacy.run fold_left].
  replace (S k + i)%nat with (k + S i)%nat by lia.
  apply IH. apply closing_awaiting. apply opening_undone. exact H.
Qed.

(** X25.  In the earlier component no connection lasts.  Whenever
    a socket the component waits for opens, the render that follows
    re-creates [connectWebSocket], because [isConnected] has changed, and
    the cleanup of the connection effect closes that socket; when its close
    event arrives, [isConnected] changes back and the effect opens the next
    socket.  So after any number [k] of such rounds the component waits for
    socket number [k] with all sockets before it closed, and when that one
    opens the component shows itself connected while the socket is
    closing. *)
Theorem legacy_connection_never_lasts (k : nat) (uuid : jsstring) (now : Date) :
  let w := run' (mount' uuid now) (Legacy.rounds k 0) in
  let w1 := step' w (Legacy.SocketOpen k) in
  let w2 := step' w1 (Legacy.SocketClose k) in
  Legacy.awaiting k w /\
  Legacy.undone k w1 /\
  Legacy.awaiting (S k) w2 /\
  notices w2 = notices w ++ [ConnectedToServer; Disconnected].
Proof.
  intros w w1 w2.
  assert (Hw : Legacy.awaiting k w).
  { unfold w. rewrite <- (Nat.add_0_r k) at 1.
    apply rounds_awaiting, mount_awaiting. }
  destruct (opening_undone k w Hw) as [H1 N1]. fold w1 in H1, N1.
  destruct (closing_awaiting k w1 H1) as [H2 N2]. fold w2 in H2, N2.
  split; [exact Hw | split; [exact H1 | split; [exact H2 |]]].
  rewrite N2, N1, <- app_assoc. reflexivity.
Qed.

(** The socket the component waits for fails, or is closed, before it has
    opened: [isConnected] does not change, so nothing is re-created and no
    effect runs. *)
Lemma failing_idle (i : nat) (w : World) (e : Legacy.event) :
  Legacy.awaiting i w ->
  e = Legacy.SocketError i \/ e = Legacy.SocketClose i ->
  Legacy.idle i (step' w e) /\ List.length (sockets (step' w e)) = S i.
Proof.
  intros (A0 & A1 & A2 & A3 & A4 & A5 & A6 & A7 & A8 & A9 & (s & S1 & S2 & S3) & A11) He.
  set (w1 := exec (handle' e) w).
  assert (E1 : exists f g,
            w1 = with_st f (with_notices g
                   (with_sockets (update_nth i (with_readyState CLOSED)) w)) /\
            (forall x, isConnected (f x) = false /\ isConnecting (f x) = false /\
                       showErrorMessage (f x) = true)).
  { destruct He as [-> | ->].
    - exists (fun x => with_showErrorMessage true (with_error (Some ConnectionLost)
                (with_isConnecting false (with_isConnected false
                   (with_error (Some ConnectionAbnormal) x))))),
             (fun l => l ++ [Disconnected]).
      split; [|intros x; repeat split].
      unfold w1, exec, Legacy.handle. rewrite S1, S2.
      unfold Legacy.ws_onerror, Legacy.ws_onclose.
      repeat (unfold bind at 1;
              cbn [setReadyState setIsConnected setIsConnecting notify setError
                   setShowErrorMessage modify socket_close fst snd]).
      world_simpl.
      assert (K : update_nth i
                    (fun s0 => match readyState s0 with
                               | CONNECTING | OPEN => with_readyState CLOSING s0
                               | _ => s0
                               end)
                    (update_nth i (with_readyState CLOSED) (sockets w)) =
                  update_nth i (with_readyState CLOSED) (sockets w)).
      { clear -S1. revert i S1. induction (sockets w) as [|a l IH]; intros [|i] H;
          cbn in *; try reflexivity. f_equal. now apply IH. }
      unfold with_sockets at 1. world_simpl. rewrite K. reflexivity.
    - exists (fun x => with_showErrorMessage true (with_error (Some ConnectionLost)
                (with_isConnecting false (with_isConnected false x)))),
             (fun l => l ++ [Disconnected]).
      split; [|intros x; repeat split].
      unfold w1, exec, Legacy.handle. rewrite S1, S2.
      unfold Legacy.ws_onclose.
      repeat (unfold bind at 1;
              cbn [setReadyState setIsConnected setIsConnecting notify setError
                   setShowErrorMessage modify fst snd]).
      reflexivity. }
  destruct E1 as (f & g & E1 & Hf). destruct (Hf (st w)) as (F1 & F2 & F3).
  assert (E2 : step' w e = w1).
  { rewrite step_other_legacy;
      [|exact A0|destruct He as [-> | ->]; exact I].
    fold w1. apply render_settled_legacy.
    rewrite E1. world_simpl. now rewrite F1, A5. }
  rewrite E2, E1. unfold Legacy.idle. world_simpl. rewrite length_update_nth.
  split; [|exact A9]. repeat split; try assumption.
  intros j x. destruct (Nat.eq_dec j i) as [->|Hn].
  - rewrite nth_error_update_nth, S1. cbn. intros [= <-]. reflexivity.
  - rewrite nth_error_update_other by lia. intros Hj.
    apply (A11 j x); [|exact Hj].
    assert (j < S i)%nat by (rewrite <- A9; apply nth_error_Some; congruence). lia.
Qed.

(** Nothing but the retry button gets the component out of that state. *)
Lemma idle_step (i : nat) (w : World) (e : Legacy.event) :
  Legacy.idle i w -> Legacy.isReconnect e = false ->
  Legacy.idle i (step' w e) /\ sockets (step' w e) = sockets w.
Proof.
  intros (A0 & A1 & A2 & A3 & A4 & A5 & A6 & A7 & A8) He.
  assert (Hw : Legacy.idle i w) by (repeat split; assumption).
  assert (Same : exec (handle' e) w = w -> 
                 Legacy.idle i (step' w e) /\ sockets (step' w e) = sockets w).
  { intros E. unfold Legacy.step. rewrite A0. cbv zeta. rewrite E, A0.
    rewrite render_settled_legacy by congruence. split; [exact Hw | reflexivity]. }
  assert (St : forall f, (forall x, isConnected (f x) = isConnected x /\
                                    isConnecting (f x) = isConnecting x /\
                                    showErrorMessage (f x) = showErrorMessage x) ->
               exec (handle' e) w = with_st f w ->
               Legacy.idle i (step' w e) /\ sockets (step' w e) = sockets w).
  { intros f Hf E. destruct (Hf (st w)) as (F1 & F2 & F3).
    unfold Legacy.step. rewrite A0. cbv zeta. rewrite E.
    change (crashed (with_st f w)) with (crashed w). rewrite A0.
    rewrite render_settled_legacy by (world_simpl; congruence).
    split; [|reflexivity]. unfold Legacy.idle. world_simpl.
    repeat split; try assumption; congruence. }
  destruct e as [ws|ws data uuid now|ws|ws|value|uuid now|index|]; try discriminate He.
  - apply Same. unfold exec, Legacy.handle.
    destruct (nth_error (sockets w) ws) as [s|] eqn:En; [|reflexivity].
    now rewrite (A8 _ _ En).
  - apply Same. unfold exec, Legacy.handle.
    destruct (nth_error (sockets w) ws) as [s|] eqn:En; [|reflexivity].
    now rewrite (A8 _ _ En).
  - apply Same. unfold exec, Legacy.handle.
    destruct (nth_error (sockets w) ws) as [s|] eqn:En; [|reflexivity].
    now rewrite (A8 _ _ En).
  - apply Same. unfold exec, Legacy.handle.
    destruct (nth_error (sockets w) ws) as [s|] eqn:En; [|reflexivity].
    now rewrite (A8 _ _ En).
  - apply (St (with_inputValue value)); [intros x; repeat split | reflexivity].
  - apply Same. unfold exec, Legacy.handle, Legacy.handleSend.
    cbn [snapshot c_isConnected]. rewrite A1. cbn [negb]. now rewrite orb_true_r.
  - unfold exec in *. unfold Legacy.handle in *.
    destruct (nth_error (messages (st w)) index) as [msg|]; [|now apply Same].
    destruct (status msg); try now apply Same.
    apply (St (with_retryMessageId (Some (id msg)))); [intros x; repeat split|].
    unfold Legacy.retryFailedMessage, bind, setRetryMessageId, modify, gets. cbn.
    rewrite A6. reflexivity.
Qed.

Lemma idle_run (i : nat) (w : World) (es : list Legacy.event) :
  Legacy.idle i w -> forallb (fun e => negb (Legacy.isReconnect e)) es = true ->
  Legacy.idle i (run' w es) /\ sockets (run' w es) = sockets w.
Proof.
  revert w. induction es as [|e es IH]; intros w H Hes; [split; [exact H|reflexivity]|].
  cbn in Hes. apply andb_prop in Hes. destruct Hes as [He Hes].
  apply negb_true_iff in He.
  destruct (idle_step i w e H He) as [H1 S1].
  destruct (IH _ H1 Hes) as [H2 S2].
  change (run' w (e :: es)) with (run' (step' w e) es).
  split; [exact H2 | now rewrite S2].
Qed.

Lemma idle_reconnect (i : nat) (w : World) :
  Legacy.idle i w -> Legacy.awaiting (S i) (step' w Legacy.UserReconnect).
Proof.
  intros (A0 & A1 & A2 & A3 & A4 & A5 & A6 & A7 & A8).
  set (w1 := exec (handle' Legacy.UserReconnect) w).
  assert (E1 : w1 = _) by
    (unfold w1, exec, Legacy.handle; rewrite A3;
     rewrite connect_opens_legacy by assumption; reflexivity).
  world_simpl_in E1.
  assert (E2 : step' w Legacy.UserReconnect = w1).
  { rewrite step_other_legacy by (exact A0 || exact I).
    fold w1. apply render_settled_legacy.
    rewrite E1. world_simpl. congruence. }
  rewrite E2, E1. unfold Legacy.awaiting. world_simpl.
  repeat split; try assumption.
  - now rewrite A7.
  - now rewrite length_app, A7, Nat.add_comm.
  - eexists. split.
    { rewrite nth_error_app2 by lia. rewrite A7, Nat.sub_diag. reflexivity. }
    split; reflexivity.
  - intros j x Hj. rewrite nth_error_app1 by lia. apply A8.
Qed.

(** X26.  The earlier component does not reconnect by itself
    after a connection that failed before it opened.  When the socket it
    waits for reports an error, or is closed, [isConnected] stays false, so
    no callback is re-created and no effect runs: the error panel is shown
    and every socket is closed.  Whatever happens then, short of a click on
    the retry button of the panel, no socket is made; that click makes the
    next one. *)
Theorem legacy_failed_connection_waits_for_the_user (k : nat) (uuid : jsstring)
    (now : Date) (e : Legacy.event) (es : list Legacy.event) :
  e = Legacy.SocketError k \/ e = Legacy.SocketClose k ->
  forallb (fun e => negb (Legacy.isReconnect e)) es = true ->
  let w := run' (mount' uuid now) (Legacy.rounds k 0 ++ [e]) in
  let w' := run' w es in
  Legacy.idle k w /\
  Legacy.idle k w' /\
  sockets w' = sockets w /\
  Legacy.awaiting (S k) (step' w' Legacy.UserReconnect).
Proof.
  intros He Hes w w'.
  assert (Hw : Legacy.idle k w).
  { unfold w, Legacy.run. rewrite fold_left_app. cbn [fold_left].
    apply failing_idle; [|exact He].
    rewrite <- (Nat.add_0_r k) at 1. apply rounds_awaiting, mount_awaiting. }
  destruct (idle_run k w es Hw Hes) as [H1 H2]. fold w' in H1, H2.
  split; [exact Hw | split; [exact H1 | split; [exact H2 |]]].
  apply idle_reconnect, H1.
Qed.

End Loop.

End LegacyProofs.

(* ===================================================================== *)
(** * What the mark [sent] means *)
(* ===================================================================== *)

Lemma Rel_sent_refl w : Rel_sent w w.
Proof. intros k m H1 H2. exists m. auto. Qed.

Lemma Rel_sent_trans a b c : Rel_sent a b -> Rel_sent b c -> Rel_sent a c.
Proof.
  intros Hab Hbc k m Hk Hs.
  destruct (Hbc k m Hk Hs) as (m1 & K1 & S1 & I1).
  destruct (Hab k m1 K1 S1) as (m0 & K0 & S0 & I0).
  exists m0. repeat split; congruence.
Qed.

Section Sent.
Variable P : Props.
Variable Math_random : nat -> Q.
Variable encodeURIComponent : jsstring -> result jsstring.
Variable urlAccepted : jsstring -> bool.

Local Abbreviation oks := (respects Rel_sent).

Lemma oks_same {A : Type} (c : M A) :
  (forall w, messages (st (snd (c w))) = messages (st w)) -> oks c.
Proof. intros H w. unfold Rel_sent. rewrite H. apply Rel_sent_refl. Qed.

Lemma oks_setMessages_map (g : Message -> Message) :
  (forall m, id (g m) = id m /\ (status (g m) = sent -> status m = sent)) ->
  oks (setMessages (List.map g)).
Proof.
  intros Hg w k m' Hk Hs. cbn in Hk. rewrite nth_error_map in Hk.
  destruct (nth_error (messages (st w)) k) as [m|]; [|discriminate].
  cbn in Hk. injection Hk as <-. destruct (Hg m) as [G1 G2].
  exists m. repeat split; auto.
Qed.

Lemma oks_setMessages_append (m : Message) :
  status m <> sent -> oks (setMessages (fun prev => prev ++ [m])).
Proof.
  intros Hm w k m' Hk Hs. cbn in Hk.
  destruct (Nat.lt_ge_cases k (List.length (messages (st w)))) as [Hlt|Hge].
  - rewrite nth_error_app1 in Hk by exact Hlt. exists m'. auto.
  - rewrite nth_error_app2 in Hk by exact Hge.
    destruct (k - List.length (messages (st w)))%nat as [|n]; cbn in Hk.
    + injection Hk as <-. contradiction.
    + destruct n; discriminate.
Qed.

Lemma oks_socket_send n d : oks (socket_send n d).
Proof.
  apply oks_same. intro w. unfold socket_send.
  destruct (nth_error (sockets w) n) as [s|]; [|reflexivity].
  destruct (readyState s); reflexivity.
Qed.

Lemma oks_wsRef_send d : oks (wsRef_send d).
Proof.
  unfold wsRef_send. apply respects_bind;
    [exact Rel_sent_trans | apply respects_gets; exact Rel_sent_refl |].
  intros [n|]; [apply oks_socket_send | apply respects_ret; exact Rel_sent_refl].
Qed.

Lemma oks_newWebSocket u G : oks (newWebSocket urlAccepted u G).
Proof.
  apply oks_same. intro w. unfold newWebSocket. destruct (urlAccepted u); reflexivity.
Qed.

Lemma oks_mark (v : Status) (k : jsstring) :
  v <> sent ->
  oks (setMessages (List.map (fun msg =>
         if jsstring_eqb (id msg) k then with_status v msg else msg))).
Proof.
  intros Hv. apply oks_setMessages_map. intros m.
  destruct (jsstring_eqb (id m) k); cbn; split; auto. intros H. contradiction.
Qed.

Lemma oks_markRetrying (k : jsstring) :
  oks (setMessages (List.map (fun msg =>
         if jsstring_eqb (id msg) k then markRetrying msg else msg))).
Proof.
  apply oks_setMessages_map. intros m.
  destruct (jsstring_eqb (id m) k); cbn; split; auto. discriminate.
Qed.

Ltac oks_prim :=
  first
    [ apply oks_socket_send | apply oks_wsRef_send | apply oks_newWebSocket
    | apply oks_mark; discriminate
    | apply oks_markRetrying
    | apply oks_setMessages_append; discriminate
    | apply oks_same; reflexivity ].

Ltac oks_go_with tac :=
  repeat first
    [ tac
    | oks_prim
    | apply respects_ret; exact Rel_sent_refl
    | apply respects_lift; exact Rel_sent_refl
    | apply respects_gets; exact Rel_sent_refl
    | apply respects_bind; [exact Rel_sent_trans | | intro]
    | apply respects_try_catch; [exact Rel_sent_trans | | ]
    | match goal with
      | |- respects _ (if ?b then _ else _) => destruct b
      | |- respects _ (match ?x with _ => _ end) => destruct x
      end ].

Ltac oks_go := oks_go_with fail.

Lemma oks_retrySend m k : oks (retrySend P m k).
Proof. unfold retrySend, retrySendBody, notify, setRetryMessageId. oks_go. Qed.

Lemma oks_retryFailedMessage G k : oks (retryFailedMessage Math_random G k).
Proof.
  unfold retryFailedMessage, setRetryMessageId, random, setTimeout.
  oks_go.
Qed.

Lemma oks_flushFailedMessages G : oks (flushFailedMessages Math_random G).
Proof.
  unfold flushFailedMessages.
  apply respects_bind;
    [exact Rel_sent_trans | apply respects_gets; exact Rel_sent_refl |].
  intro l. apply respects_forEach;
    [exact Rel_sent_refl | exact Rel_sent_trans
    | intro; apply oks_retryFailedMessage].
Qed.

Lemma oks_sendMessage G m : oks (sendMessage P G m).
Proof. unfold sendMessage, notify. oks_go. Qed.

Lemma oks_flushMessageQueue G : oks (flushMessageQueue P G).
Proof.
  unfold flushMessageQueue.
  apply respects_bind;
    [exact Rel_sent_trans | apply respects_gets; exact Rel_sent_refl |].
  intro q. destruct (_ && _); [|apply respects_ret; exact Rel_sent_refl].
  apply respects_bind; [exact Rel_sent_trans | | intro; oks_go].
  apply respects_forEach;
    [exact Rel_sent_refl | exact Rel_sent_trans | intro; apply oks_sendMessage].
Qed.

Lemma oks_handleSend G v uuid now : oks (handleSend P G v uuid now).
Proof.
  unfold handleSend, setInputValue.
  oks_go_with ltac:(apply oks_sendMessage).
Qed.

Lemma oks_handleConnectionRetry G : oks (handleConnectionRetry P G).
Proof.
  unfold handleConnectionRetry, notify, setIsAutoConnecting,
    setConnectionRetryCount, setTimeout. oks_go.
Qed.

Lemma oks_connectWebSocket G :
  oks (connectWebSocket P encodeURIComponent urlAccepted G).
Proof.
  unfold connectWebSocket, setIsConnecting, setError, setShowErrorMessage.
  oks_go_with ltac:(apply oks_handleConnectionRetry).
Qed.

Lemma oks_ws_onopen G : oks (ws_onopen P Math_random G).
Proof.
  unfold ws_onopen, setIsConnected, setIsConnecting, setIsAutoConnecting,
    setConnectionRetryCount, notify.
  oks_go_with ltac:(first [apply oks_flushMessageQueue | apply oks_flushFailedMessages]).
Qed.

Lemma oks_ws_onerror G n : oks (ws_onerror P G n).
Proof.
  unfold ws_onerror, notify, setError, socket_close.
  oks_go_with ltac:(apply oks_handleConnectionRetry).
Qed.

Lemma oks_ws_onclose G code : oks (ws_onclose P G code).
Proof.
  unfold ws_onclose, notify, setError, setShowErrorMessage, setIsConnected,
    setIsConnecting.
  oks_go_with ltac:(apply oks_handleConnectionRetry).
Qed.

Lemma oks_runTimer a : oks (runTimer P encodeURIComponent urlAccepted a).
Proof.
  destruct a; cbn [runTimer]; [|apply oks_retrySend].
  unfold notify. oks_go_with ltac:(apply oks_connectWebSocket).
Qed.

Lemma oks_render1 w : Rel_sent w (render1 P encodeURIComponent urlAccepted w).
Proof.
  unfold render1. destruct (crashed w); [apply Rel_sent_refl|].
  destruct (_ =? _); [apply Rel_sent_refl|].
  unfold exec.
  assert (K : oks (effectCleanup ;;
                   connectWebSocket P encodeURIComponent urlAccepted (snapshot (st w)))%chat).
  { apply respects_bind; [exact Rel_sent_trans | |].
    - unfold effectCleanup, socket_close. oks_go.
    - intros _. apply oks_connectWebSocket. }
  exact (K (with_memo (snapshot (st w)) w)).
Qed.

Lemma oks_render w : Rel_sent w (render P encodeURIComponent urlAccepted w).
Proof. unfold render. eapply Rel_sent_trans; apply oks_render1. Qed.

Lemma oks_handle_other (e : event) :
  is_receive e = false ->
  oks (handle P Math_random encodeURIComponent urlAccepted e).
Proof.
  intros He w. destruct e; try discriminate He; unfold handle.
  - destruct (nth_error (sockets w) ws) as [s|]; [|apply Rel_sent_refl].
    destruct (readyState s); try apply Rel_sent_refl.
    revert w.
    change (oks (setReadyState ws OPEN ;; ws_onopen P Math_random (handlers s))%chat).
    apply respects_bind; [exact Rel_sent_trans | now apply oks_same |].
    intros _. apply oks_ws_onopen.
  - destruct (nth_error (sockets w) ws) as [s|]; [|apply Rel_sent_refl].
    assert (K : oks (setReadyState ws CLOSED ;; ws_onerror P (handlers s) ws ;;
                     ws_onclose P (handlers s) code)%chat).
    { apply respects_bind; [exact Rel_sent_trans | now apply oks_same |].
      intros _. apply respects_bind; [exact Rel_sent_trans | apply oks_ws_onerror |].
      intros _. apply oks_ws_onclose. }
    destruct (readyState s); first [apply Rel_sent_refl | apply K].
  - destruct (nth_error (sockets w) ws) as [s|]; [|apply Rel_sent_refl].
    assert (K : oks (setReadyState ws CLOSED ;; ws_onclose P (handlers s) code)%chat).
    { apply respects_bind; [exact Rel_sent_trans | now apply oks_same |].
      intros _. apply oks_ws_onclose. }
    destruct (readyState s); first [apply Rel_sent_refl | apply K].
  - destruct (nth_error (timers w) t) as [tm|]; [|apply Rel_sent_refl].
    destruct (pending tm); [|apply Rel_sent_refl].
    revert w.
    change (oks (modify (with_timers (update_nth t (with_pending false))) ;;
                 runTimer P encodeURIComponent urlAccepted (action tm))%chat).
    apply respects_bind; [exact Rel_sent_trans | now apply oks_same |].
    intros _. apply oks_runTimer.
  - revert w. now apply oks_same.
  - apply oks_handleSend.
  - destruct (nth_error (messages (st w)) index) as [msg|]; [|apply Rel_sent_refl].
    destruct (status msg); first [apply Rel_sent_refl | apply oks_retryFailedMessage].
  - destruct (showErrorMessage (st w));
      [apply oks_connectWebSocket | apply Rel_sent_refl].
Qed.

(** The updater of [ws.onmessage] marks a message only when the response
    carries its identifier. *)
Lemma applyResponse_marks (p : json) (l l' : list Message) (k : nat) (m' : Message) :
  applyResponse p l = Ok l' ->
  nth_error l' k = Some m' -> status m' = sent ->
  exists m, nth_error l k = Some m /\ id m = id m' /\
            (status m = sent \/ get_prop p (str "id") = Ok (Some (JString (id m')))).
Proof.
  revert l' k. induction l as [|a l IH]; intros l' k H Hk Hs; cbn [applyResponse] in H.
  - injection H as <-. destruct k; discriminate.
  - destruct (get_prop p (str "id")) as [pid|] eqn:Ep; [|discriminate].
    destruct (string_strict_eq (id a) pid) eqn:Eq.
    + destruct (get_prop p (str "content")) as [c|]; [|discriminate].
      destruct (applyResponse p l) as [r|] eqn:Er; [|discriminate].
      injection H as <-. destruct k as [|k]; cbn in Hk.
      * injection Hk as <-. exists a. repeat split. right.
        unfold string_strict_eq in Eq. destruct pid as [[| | |b| |]|]; try discriminate.
        apply jsstring_eqb_eq in Eq. cbn. now rewrite Eq.
      * destruct (IH r k eq_refl Hk Hs) as (m & K1 & K2 & K3).
        exists m. repeat split; assumption.
    + destruct (applyResponse p l) as [r|] eqn:Er; [|discriminate].
      injection H as <-. destruct k as [|k]; cbn in Hk.
      * injection Hk as <-. exists a. repeat split. now left.
      * destruct (IH r k eq_refl Hk Hs) as (m & K1 & K2 & K3).
        exists m. repeat split; assumption.
Qed.

Lemma receive_marks (ws : nat) (data : jsstring) (w : World) (k : nat) (m' : Message) :
  let w' := exec (handle P Math_random encodeURIComponent urlAccepted
                    (SocketMessage ws data)) w in
  nth_error (messages (st w')) k = Some m' -> status m' = sent ->
  (exists m, nth_error (messages (st w)) k = Some m /\ status m = sent /\
             id m = id m') \/
  names P (SocketMessage ws data) (id m').
Proof.
  intros w'. subst w'. unfold exec, handle.
  assert (Same : nth_error (messages (st w)) k = Some m' -> status m' = sent ->
                 (exists m, nth_error (messages (st w)) k = Some m /\ status m = sent /\
                            id m = id m') \/
                 names P (SocketMessage ws data) (id m'))
    by (intros H1 H2; left; exists m'; auto).
  destruct (nth_error (sockets w) ws) as [s|]; [|exact Same].
  assert (K : nth_error (messages (st (snd (ws_onmessage P (handlers s) data w)))) k
              = Some m' -> status m' = sent ->
              (exists m, nth_error (messages (st w)) k = Some m /\ status m = sent /\
                         id m = id m') \/
              names P (SocketMessage ws data) (id m')).
  { unfold ws_onmessage, try_catch, bind, lift, notify, modify.
    destruct (decode P data) as [parsed|err] eqn:Ed; cbn [fst snd]; [|exact Same].
    unfold setMessagesWith.
    destruct (applyResponse parsed (messages (st w))) as [l'|err] eqn:Ea;
      cbn [fst snd]; [|exact Same].
    cbn. intros Hk Hs.
    destruct (applyResponse_marks parsed _ _ k m' Ea Hk Hs) as (m & K1 & K2 & [K3|K3]).
    - left. exists m. auto.
    - right. exists parsed. auto. }
  destruct (readyState s); first [exact Same | exact K].
Qed.

(** X17.  The mark [sent] on a message the user has submitted means
    that a response naming it has come in.  In every run of the mounted
    component, each message after the greeting that is marked [sent] has
    the identifier that some frame received during the run carried in the
    [id] of the response it decodes to; nothing the component does by
    itself (sending, queueing, retrying, reconnecting) sets that mark. *)
Theorem sent_mark_means_answered (uuid : jsstring) (now : Date) (es : list event)
    (k : nat) (m : Message) :
  let w := run P Math_random encodeURIComponent urlAccepted
             (mount P encodeURIComponent urlAccepted uuid now) es in
  nth_error (messages (st w)) (S k) = Some m -> status m = sent ->
  exists e, In e es /\ names P e (id m).
Proof.
  cbv zeta. revert k m. induction es as [|e es IH] using rev_ind; intros k m Hk Hs.
  - exfalso. cbn [run fold_left] in Hk.
    assert (H0 : Rel_sent (initialWorld uuid now)
                   (mount P encodeURIComponent urlAccepted uuid now)).
    { unfold mount. eapply Rel_sent_trans; [|apply oks_render].
      apply oks_connectWebSocket. }
    destruct (H0 _ _ Hk Hs) as (m0 & K & _). cbn in K. destruct k; discriminate.
  - unfold run in Hk. rewrite fold_left_app in Hk. cbn [fold_left] in Hk.
    fold (run P Math_random encodeURIComponent urlAccepted
            (mount P encodeURIComponent urlAccepted uuid now) es) in Hk.
    set (w := run P Math_random encodeURIComponent urlAccepted
                (mount P encodeURIComponent urlAccepted uuid now) es) in *.
    assert (Old : forall m0, nth_error (messages (st w)) (S k) = Some m0 ->
                  status m0 = sent -> id m0 = id m ->
                  exists e0, In e0 (es ++ [e]) /\ names P e0 (id m)).
    { intros m0 K1 K2 K3. destruct (IH k m0 K1 K2) as (e0 & I0 & N0).
      exists e0. split; [apply in_or_app; now left | now rewrite <- K3]. }
    assert (Common : forall m1,
              nth_error (messages (st (exec (handle P Math_random encodeURIComponent
                                               urlAccepted e) w))) (S k) = Some m1 ->
              status m1 = sent -> id m1 = id m ->
              exists e0, In e0 (es ++ [e]) /\ names P e0 (id m)).
    { intros m1 K1 S1 I1. destruct (is_receive e) eqn:Er.
      + destruct e; try discriminate Er.
        destruct (receive_marks ws data w (S k) m1 K1 S1) as [(m0 & A1 & A2 & A3) | N].
        * apply (Old m0); congruence.
        * exists (SocketMessage ws data). split; [apply in_or_app; right; now left|].
          now rewrite <- I1.
      + destruct (oks_handle_other e Er w _ _ K1 S1) as (m0 & A1 & A2 & A3).
        apply (Old m0); congruence. }
    destruct (step_cases P Math_random encodeURIComponent urlAccepted w e)
      as [(Ec & E) | [(Ec & Ex & E) | (Ec & Ex & E)]]; cbv zeta in E; rewrite E in Hk.
    + rewrite (proj1 (stepDetached_keeps P Math_random encodeURIComponent
                        urlAccepted w e)) in Hk.
      apply (Old m); auto.
    + destruct (unmount_keeps
                  (exec (handle P Math_random encodeURIComponent urlAccepted e) w))
        as (Ks & _).
      rewrite Ks in Hk. apply (Common m); auto.
    + destruct (oks_render _ _ _ Hk Hs) as (m1 & K1 & S1 & I1).
      apply (Common m1); auto.
Qed.

End Sent.

(* ===================================================================== *)
(** * The queue, the backoff and the retries in the running component *)
(* ===================================================================== *)

(** The rounding of the product to a double is part of the delays: the
    exact products of these two values of [Math.random] lie just below 119
    and just below 72, and the doubles nearest to them are 119 and 72. *)
Example jitter_rounds_in_doubles :
  jitter (535928355657089 # 4503599627370496) = 619 /\
  Qfloor ((535928355657089 # 4503599627370496) * 1000) + 500 = 618.
Proof. split; vm_compute; reflexivity. Qed.

Example randomDelay_rounds_in_doubles :
  Mock.randomDelay 200 1000 (404817944033303 # 4503599627370496) = 272 /\
  Qfloor ((404817944033303 # 4503599627370496) * 801) + 200 = 271.
Proof. split; vm_compute; reflexivity. Qed.


Section Running.
Variable P : Props.
Variable Math_random : nat -> Q.
Variable encodeURIComponent : jsstring -> result jsstring.
Variable urlAccepted : jsstring -> bool.

Local Abbreviation handle' := (handle P Math_random encodeURIComponent urlAccepted).
Local Abbreviation render' := (render P encodeURIComponent urlAccepted).
Local Abbreviation step' := (step P Math_random encodeURIComponent urlAccepted).
Local Abbreviation run' := (run P Math_random encodeURIComponent urlAccepted).
Local Abbreviation mount' := (mount P encodeURIComponent urlAccepted).
Local Abbreviation connect' := (connectWebSocket P encodeURIComponent urlAccepted).



(** A render hands no frame to any socket: it closes a socket or makes a
    new one. *)
Local Abbreviation sameFrames :=
  (fun a b : World =>
     List.concat (List.map sentFrames (sockets b)) =
     List.concat (List.map sentFrames (sockets a))).











End Running.





Section Backoff.

(** C4 (a defect of the code).  The claim: the delay before attempt [n] is
    [min(baseDelay * 2^n, maxDelay)], which grows with [n].
    [handleConnectionRetry] computes that formula, but from the
    [connectionRetryCount] of its closure, and every socket is made by the
    [connectWebSocket] of the first render, where the count is 0.  With the
    default properties (exponential backoff, 2000 ms, at most 10000 ms),
    where the formula gives 4000, 8000 and 10000 ms for the attempts 1, 2
    and 3, each of any number [k] of consecutive failures sets a timer of
    4000 ms, that of attempt 1. *)
Theorem reconnect_delay_never_grows (k : nat) :
  let w := run0 mounted (failures k 0) in
  enableExponentialBackoff P0 = true /\
  List.map (backoffDelay P0) [1; 2; 3] = [4000; 8000; 10000] /\
  List.map delay (timers w) = repeat 4000 k /\
  List.map action (timers w) = repeat (ReconnectTimer firstClosure 1) k.
Proof.
  intros w. split; [reflexivity|]. split; [reflexivity|].
  unfold w, run0, mounted.
  rewrite (failures_timers P0 rnd0 encURI acceptAll eq_refl (websocketUrl P0)
             eq_refl eq_refl k (str "g0") 0).
  split; (induction k as [|k IH]; [reflexivity|]);
    cbn [repeat List.map]; rewrite IH; reflexivity.
Qed.

End Backoff.

(* ===================================================================== *)
(** * The further properties at concrete inputs *)
(* ===================================================================== *)

(** X2 at a concrete input: the frame [oops] arrives over the first
    connection. *)
Lemma undecodable_frame_is_dropped_witness :
  let w := run P0 rnd0 encURI acceptAll (mount P0 encURI acceptAll (str "g0") 0) [SocketOpen 0] in
  let s := {| url := websocketUrl P0; readyState := OPEN; handlers := firstClosure;
              sentFrames := [] |} in
  crashed w = false /\
  nth_error (sockets w) 0 = Some s /\
  decode P0 (str "oops") = Throw SyntaxError /\
  step P0 rnd0 encURI acceptAll w (SocketMessage 0 (str "oops")) =
    with_notices (fun l => l ++ [MessageProcessingFailed]) w.
Proof.
  cbv zeta.
  assert (H1 : crashed (run P0 rnd0 encURI acceptAll (mount P0 encURI acceptAll (str "g0") 0) [SocketOpen 0]) = false) by (vm_compute; reflexivity).
  assert (H2 : nth_error (sockets (run P0 rnd0 encURI acceptAll (mount P0 encURI acceptAll (str "g0") 0) [SocketOpen 0])) 0 =
               Some {| url := websocketUrl P0; readyState := OPEN;
                       handlers := firstClosure; sentFrames := [] |})
    by (vm_compute; reflexivity).
  assert (H3 : decode P0 (str "oops") = Throw SyntaxError) by (vm_compute; reflexivity).
  split; [exact H1|]. split; [exact H2|]. split; [exact H3|].
  exact (undecodable_frame_is_dropped P0 rnd0 encURI acceptAll (str "g0") 0
           [SocketOpen 0] 0 _ (str "oops") SyntaxError H1 H2 eq_refl H3).
Defined.

(** X3 at a concrete input: the frame [null] arrives over the
    open socket; the socket is closed by the cleanup, and its close event
    and the reconnect timer that follows leave the React state alone. *)
Lemma null_frame_crashes_witness :
  let w := run P0 rnd0 encURI acceptAll (mount P0 encURI acceptAll (str "g0") 0) [SocketOpen 0] in
  let s := {| url := websocketUrl P0; readyState := OPEN; handlers := firstClosure;
              sentFrames := [] |} in
  let w' := step P0 rnd0 encURI acceptAll w (SocketMessage 0 (str "null")) in
  crashed w = false /\
  nth_error (sockets w) 0 = Some s /\
  decode P0 (str "null") = Ok JNull /\
  crashed w' = true /\ st w' = st w /\ notices w' = notices w /\
  List.map readyState (sockets w') = [CLOSING] /\
  st (run P0 rnd0 encURI acceptAll w' [SocketClose 0 1005; TimerFires 0]) = st w.
Proof.
  cbv zeta.
  assert (H1 : crashed (run P0 rnd0 encURI acceptAll (mount P0 encURI acceptAll (str "g0") 0) [SocketOpen 0]) = false) by (vm_compute; reflexivity).
  assert (H2 : nth_error (sockets (run P0 rnd0 encURI acceptAll (mount P0 encURI acceptAll (str "g0") 0) [SocketOpen 0])) 0 =
               Some {| url := websocketUrl P0; readyState := OPEN;
                       handlers := firstClosure; sentFrames := [] |})
    by (vm_compute; reflexivity).
  assert (H3 : decode P0 (str "null") = Ok JNull) by (vm_compute; reflexivity).
  split; [exact H1|]. split; [exact H2|]. split; [exact H3|].
  destruct (null_frame_crashes P0 rnd0 encURI acceptAll (str "g0") 0
              [SocketOpen 0] 0 _ (str "null") H1 H2 eq_refl H3)
    as (E & K & S & N & R).
  split; [exact K|]. split; [exact S|]. split; [exact N|].
  split; [rewrite E; vm_compute; reflexivity|].
  exact (proj1 (proj2 (R [SocketClose 0 1005; TimerFires 0]))).
Defined.

(** X1 at a concrete input: the message [hi] under the key [a]. *)
Lemma envelope_round_trip_witness :
  let m := sentMessage (str "u1") (str "hi") 5 sending in
  content m = Some (JString (str "hi")) /\
  Z.abs (timestamp m) <= 8640000000000000 /\
  latin1 (id m) /\ latin1 (str "hi") /\
  exists frame ts,
    toISOString (timestamp m) = Ok ts /\
    encode keyA m = Ok frame /\
    decode keyA frame = Ok (parsedEnvelope (id m) (str "hi") ts).
Proof.
  cbv zeta.
  assert (H1 : latin1 (id (sentMessage (str "u1") (str "hi") 5 sending)))
    by (repeat constructor; discriminate).
  assert (H2 : latin1 (str "hi")) by (repeat constructor; discriminate).
  assert (H3 : Z.abs (timestamp (sentMessage (str "u1") (str "hi") 5 sending))
               <= 8640000000000000) by (vm_compute; discriminate).
  split; [reflexivity|]. split; [exact H3|]. split; [exact H1|]. split; [exact H2|].
  exact (envelope_round_trip keyA (sentMessage (str "u1") (str "hi") 5 sending)
           (str "hi") eq_refl H3 (or_intror (conj H1 H2))).
Defined.

(** X6 at a concrete input: the two messages of [queuedOffline], once
    the socket is open, flushed in a render that is connected. *)
Lemma flush_sends_in_queue_order_witness :
  let w := step0 queuedOffline (SocketOpen 0) in
  let G := snapshot (st w) in
  let s := {| url := websocketUrl P0; readyState := OPEN; handlers := firstClosure;
              sentFrames := [] |} in
  let w' := exec (flushMessageQueue P0 G) w in
  c_isConnected G = true /\
  wsRef (refs w) = Some 0%nat /\
  nth_error (sockets w) 0 = Some s /\
  messageQueueRef (refs w) = [m1; m2] /\
  messageQueueRef (refs w') = [] /\
  exists s', nth_error (sockets w') 0 = Some s' /\
             sentFrames s' = sentFrames s ++ encoded P0 (messageQueueRef (refs w)).
Proof.
  cbv zeta.
  assert (H1 : c_isConnected (snapshot (st (step0 queuedOffline (SocketOpen 0)))) = true)
    by (vm_compute; reflexivity).
  assert (H2 : wsRef (refs (step0 queuedOffline (SocketOpen 0))) = Some 0%nat)
    by (vm_compute; reflexivity).
  assert (H3 : nth_error (sockets (step0 queuedOffline (SocketOpen 0))) 0 =
               Some {| url := websocketUrl P0; readyState := OPEN;
                       handlers := firstClosure; sentFrames := [] |})
    by (vm_compute; reflexivity).
  assert (H4 : messageQueueRef (refs (step0 queuedOffline (SocketOpen 0))) = [m1; m2])
    by (vm_compute; reflexivity).
  split; [exact H1|]. split; [exact H2|]. split; [exact H3|]. split; [exact H4|].
  apply (flush_sends_in_queue_order P0 _ 0 _ _ H1 H2 H3 eq_refl).
  rewrite H4. discriminate.
Defined.

(** X7 at a concrete input: [hi], a blank text and [yo]. *)
Lemma first_connection_delivers_in_order_witness :
  let subs := [ {| sub_text := str "hi"; sub_uuid := str "u1"; sub_now := 5 |};
                {| sub_text := str "  "; sub_uuid := str "u2"; sub_now := 6 |};
                {| sub_text := str "yo"; sub_uuid := str "u3"; sub_now := 7 |} ] in
  let w := run0 mounted (SocketOpen 0 :: flat_map submit subs) in
  connectUrl P0 encURI = Ok (websocketUrl P0) /\
  acceptAll (websocketUrl P0) = true /\
  nth_error (sockets w) 0 =
    Some {| url := websocketUrl P0; readyState := OPEN; handlers := firstClosure;
            sentFrames := encoded P0 (List.map submitted (filter accepted subs)) |} /\
  isConnected (st w) = true /\
  List.length (messages (st w)) = S (List.length (filter accepted subs)).
Proof.
  cbv zeta. split; [reflexivity|]. split; [reflexivity|].
  exact (first_connection_delivers_in_order P0 rnd0 encURI acceptAll (websocketUrl P0)
           eq_refl eq_refl (str "g0") 0 _).
Defined.


(** X9 at a concrete input: three failures with the default
    properties, each followed by a wait of 4000 ms. *)
Lemma every_reconnect_waits_the_first_delay_witness :
  0 < maxRetries P0 /\
  connectUrl P0 encURI = Ok (websocketUrl P0) /\
  acceptAll (websocketUrl P0) = true /\
  backoffDelay P0 1 = 4000 /\
  timers (run0 mounted (failures 3 0)) =
    repeat {| delay := backoffDelay P0 1; action := ReconnectTimer firstClosure 1;
              pending := false |} 3.
Proof.
  assert (H1 : 0 < maxRetries P0) by reflexivity.
  split; [exact H1|]. split; [reflexivity|]. split; [reflexivity|].
  split; [reflexivity|].
  exact (every_reconnect_waits_the_first_delay P0 rnd0 encURI acceptAll H1
           (websocketUrl P0) eq_refl eq_refl 3 (str "g0") 0).
Defined.

(** X10 at a concrete input: an error on the first socket. *)
Lemma transport_error_reconnects_twice_witness :
  let w1 := step0 mounted (SocketError 0 1006) in
  let w := run0 w1 [TimerFires 0; TimerFires 1] in
  0 < maxRetries P0 /\
  connectUrl P0 encURI = Ok (websocketUrl P0) /\
  acceptAll (websocketUrl P0) = true /\
  1006 <> 1000 /\
  List.map pending (timers w1) = [true; true] /\
  List.map readyState (sockets w) = [CLOSED; CONNECTING; CONNECTING] /\
  wsRef (refs w) = Some 2%nat.
Proof.
  cbv zeta.
  assert (H1 : 0 < maxRetries P0) by reflexivity.
  assert (H2 : 1006 <> 1000) by discriminate.
  split; [exact H1|]. split; [reflexivity|]. split; [reflexivity|]. split; [exact H2|].
  exact (transport_error_reconnects_twice P0 rnd0 encURI acceptAll H1
           (websocketUrl P0) eq_refl eq_refl (str "g0") 0 1006 H2).
Defined.


(** X12 at a concrete input: the component is unmounted while its
    first connection is open. *)
Lemma unmounted_component_reconnects_witness :
  let w := step0 mounted (SocketOpen 0) in
  let w1 := exec unmount w in
  let w2 := runDetached P0 rnd0 encURI acceptAll w1
              [SocketClose 0 1005; TimerFires 0; SocketOpen 1] in
  0 < maxRetries P0 /\
  connectUrl P0 encURI = Ok (websocketUrl P0) /\
  acceptAll (websocketUrl P0) = true /\
  1005 <> 1000 /\
  connectedFirst (websocketUrl P0) [] w /\
  nth_error (sockets w1) 0 =
    Some {| url := websocketUrl P0; readyState := CLOSING; handlers := firstClosure;
            sentFrames := [] |} /\
  nth_error (sockets w2) 1 =
    Some {| url := websocketUrl P0; readyState := OPEN; handlers := firstClosure;
            sentFrames := [] |} /\
  wsRef (refs w2) = Some 1%nat /\
  st w2 = st w.
Proof.
  cbv zeta.
  assert (H1 : 0 < maxRetries P0) by reflexivity.
  assert (H2 : 1005 <> 1000) by discriminate.
  assert (H3 : connectedFirst (websocketUrl P0) [] (step0 mounted (SocketOpen 0)))
    by (repeat split; vm_compute; reflexivity).
  split; [exact H1|]. split; [reflexivity|]. split; [reflexivity|]. split; [exact H2|].
  split; [exact H3|].
  exact (unmounted_component_reconnects P0 rnd0 encURI acceptAll H1
           (websocketUrl P0) eq_refl eq_refl [] (step0 mounted (SocketOpen 0)) 1005 H2 H3).
Defined.

(** X13 at a concrete input: the second of five reconnects is
    under way and no error is set. *)
Lemma status_line_shows_the_status_witness :
  let s := with_connectionRetryCount 2 (with_isAutoConnecting true (initialState (str "g0") 0)) in
  plain (decimal 2) /\ plain (decimal 5) /\
  View.connectionStatus P0 decimal (snapshot s) =
    View.text_reconnecting ++ str "(2/5)" /\
  View.statusLine P0 decimal s =
    View.Status View.reconnecting (str "#faad14") true View.text_reconnecting (str "(2/5)").
Proof.
  cbv zeta.
  assert (H1 : plain (decimal 2))
    by (repeat (constructor; [split; [reflexivity | discriminate]|]); constructor).
  assert (H2 : plain (decimal 5))
    by (repeat (constructor; [split; [reflexivity | discriminate]|]); constructor).
  split; [exact H1|]. split; [exact H2|]. split; [reflexivity|].
  exact (status_line_shows_the_status P0 decimal
           (with_connectionRetryCount 2
              (with_isAutoConnecting true (initialState (str "g0") 0))) H1 H2).
Defined.

(** X14 at a concrete input: enlarging from the middle size. *)
Lemma size_change_moves_within_sizes_witness :
  let cw := str "480px" in
  let cw' := Layout.handleSizeChange cw 1 in
  In cw Layout.sizes /\
  cw' = str "max(50vw, 640px)" /\
  Layout.currentIndex cw' = 2 /\
  Layout.handleSizeChange cw' (-1) = cw.
Proof.
  cbv zeta.
  assert (H : In (str "480px") Layout.sizes) by (right; left; reflexivity).
  split; [exact H|]. split; [reflexivity|].
  destruct (size_change_moves_within_sizes (str "480px") 1 H)
    as (_ & _ & _ & K4 & _ & _ & K7).
  split; [exact K4|]. apply K7. reflexivity.
Defined.

(** X16 at a concrete input: [h], [he], [hey] typed in a row into
    an empty box. *)
Lemma debounce_commits_the_last_value_witness :
  let b := {| InputBox.inputValue := []; InputBox.inputTimerRef := None;
              InputBox.inputTimers := [] |} in
  let b1 := InputBox.typeAll [str "h"; str "he"; str "hey"] b in
  InputBox.tracked b /\
  InputBox.inputValue b1 = [] /\
  InputBox.inputTimerRef b1 = Some 2%nat /\
  InputBox.inputValue (InputBox.timerFires 2 b1) = str "hey" /\
  InputBox.timerFires 0 b1 = b1.
Proof.
  cbv zeta.
  assert (H : InputBox.tracked {| InputBox.inputValue := []; InputBox.inputTimerRef := None;
                                  InputBox.inputTimers := [] |})
    by (intros t value K; destruct t; discriminate).
  split; [exact H|].
  destruct (debounce_commits_the_last_value _ [str "h"; str "he"] (str "hey") 0%nat H)
    as (K1 & K2 & K3 & _).
  split; [exact K1|]. split; [exact K2|]. split; [exact K3|]. reflexivity.
Defined.

(** X23 at a concrete input: the default bounds and a draw whose
    exact product with 801 lies just below 72, while the double nearest to
    it is 72. *)
Lemma randomDelay_within_bounds_witness :
  unitDouble (404817944033303 # 4503599627370496) /\
  Mock.randomDelay 200 1000 (404817944033303 # 4503599627370496) = 272 /\
  200 <= Mock.randomDelay 200 1000 (404817944033303 # 4503599627370496) <= 1000.
Proof.
  assert (U : unitDouble (404817944033303 # 4503599627370496))
    by (split; discriminate).
  split; [exact U|]. split; [vm_compute; reflexivity|].
  apply (randomDelay_within_bounds 200 1000 (404817944033303 # 4503599627370496));
    [vm_compute; discriminate | lia | vm_compute; discriminate | reflexivity | exact U].
Defined.

(** X20 at a concrete input: the mock is closed after its
    constructor's timer has connected it. *)
Lemma mock_close_is_followed_by_reconnect_witness :
  let w := Mock.run MockSamples.half MockSamples.client [Mock.Fire 0 0] in
  let w1 := Mock.close MockSamples.half MockSamples.client 10 w in
  let w2 := Mock.fire MockSamples.half MockSamples.client 1 20 w1 in
  let w3 := Mock.fire MockSamples.half MockSamples.client 2 30 w2 in
  Mock.reconnectAttempts w < 5 /\
  Mock.isConnected w = true /\
  Mock.isConnected w1 = false /\
  Mock.delivered w1 = Mock.delivered w /\
  Mock.isConnected w3 = true /\
  Mock.reconnectAttempts w3 = 0.
Proof.
  cbv zeta.
  assert (H : Mock.reconnectAttempts
                (Mock.run MockSamples.half MockSamples.client [Mock.Fire 0 0]) < 5)
    by reflexivity.
  split; [exact H|]. split; [reflexivity|].
  destruct (mock_close_is_followed_by_reconnect MockSamples.half MockSamples.client
              [Mock.Fire 0 0] 10 20 30 H) as (K1 & K2 & _ & K4 & K5 & _).
  split; [exact K1|]. split; [exact K2|]. split; [exact K4 | exact K5].
Defined.

(** X21 at a concrete input: a request sent to the mock that has one
    listener. *)
Lemma mock_send_echoes_the_request_witness :
  let w := MockSamples.listening in
  let data := json_text "{'q':'hi'}" in
  let parsedData := JObject [(str "q", JString (str "hi"))] in
  let w2 := Mock.fire MockSamples.half MockSamples.client
              (List.length (Mock.timers w)) 50 (Mock.send data w) in
  JSON_parse data = Ok parsedData /\
  Mock.isConnected w = true /\
  Mock.below (MockSamples.half (Mock.draws w)) (5 # 100) = false /\
  Mock.messageListeners w = [(str "message-1", 7%nat)] /\
  Mock.responseListeners w = [] /\
  Mock.delivered w2 =
    Mock.delivered w ++
    [Mock.ToListener 7
       (JObject [(str "type", JString (str "response"));
                 (str "originalRequest", parsedData);
                 (str "timestamp", JString (Mock.iso 50));
                 (str "mockTimestamp", JString (Mock.iso 50));
                 (str "from", JString (str "mock-server"))])].
Proof.
  cbv zeta.
  assert (H1 : JSON_parse (json_text "{'q':'hi'}") =
               Ok (JObject [(str "q", JString (str "hi"))])) by (vm_compute; reflexivity).
  assert (H2 : Mock.isConnected MockSamples.listening = true) by reflexivity.
  assert (H3 : Mock.below (MockSamples.half (Mock.draws MockSamples.listening)) (5 # 100)
               = false) by reflexivity.
  split; [exact H1|]. split; [exact H2|]. split; [exact H3|].
  split; [reflexivity|]. split; [reflexivity|].
  destruct (mock_send_echoes_the_request MockSamples.half MockSamples.client
              MockSamples.listening (json_text "{'q':'hi'}") _ 50 H1 H2 H3) as (_ & K).
  exact K.
Defined.

(** X25 at a concrete input: two rounds with the default
    properties. *)
Lemma legacy_connection_never_lasts_witness :
  let w := Legacy.run P0 encURI acceptAll LegacySamples.plainText
             (Legacy.mount P0 encURI acceptAll (str "g0") 0) (Legacy.rounds 2 0) in
  let w1 := Legacy.step P0 encURI acceptAll LegacySamples.plainText w
              (Legacy.SocketOpen 2) in
  let w2 := Legacy.step P0 encURI acceptAll LegacySamples.plainText w1
              (Legacy.SocketClose 2) in
  connectUrl P0 encURI = Ok (websocketUrl P0) /\
  acceptAll (websocketUrl P0) = true /\
  Legacy.awaiting 2 w /\
  Legacy.undone 2 w1 /\
  Legacy.awaiting 3 w2 /\
  notices w2 = notices w ++ [ConnectedToServer; Disconnected].
Proof.
  cbv zeta. split; [reflexivity|]. split; [reflexivity|].
  exact (legacy_connection_never_lasts P0 encURI acceptAll LegacySamples.plainText
           (websocketUrl P0) eq_refl eq_refl 2 (str "g0") 0).
Defined.

(** X26 at a concrete input: the first socket reports an error;
    then a submission and a late open event change nothing. *)
Lemma legacy_failed_connection_waits_for_the_user_witness :
  let e := Legacy.SocketError 0 in
  let es := [Legacy.UserInput (str "hi"); Legacy.UserSend (str "u1") 5;
             Legacy.SocketOpen 0] in
  let w := Legacy.run P0 encURI acceptAll LegacySamples.plainText
             (Legacy.mount P0 encURI acceptAll (str "g0") 0)
             (Legacy.rounds 0 0 ++ [e]) in
  let w' := Legacy.run P0 encURI acceptAll LegacySamples.plainText w es in
  connectUrl P0 encURI = Ok (websocketUrl P0) /\
  acceptAll (websocketUrl P0) = true /\
  (e = Legacy.SocketError 0 \/ e = Legacy.SocketClose 0) /\
  forallb (fun e => negb (Legacy.isReconnect e)) es = true /\
  Legacy.idle 0 w /\
  Legacy.idle 0 w' /\
  sockets w' = sockets w /\
  Legacy.awaiting 1
    (Legacy.step P0 encURI acceptAll LegacySamples.plainText w' Legacy.UserReconnect).
Proof.
  cbv zeta.
  assert (H1 : Legacy.SocketError 0 = Legacy.SocketError 0 \/
               Legacy.SocketError 0 = Legacy.SocketClose 0) by (left; reflexivity).
  assert (H2 : forallb (fun e => negb (Legacy.isReconnect e))
                 [Legacy.UserInput (str "hi"); Legacy.UserSend (str "u1") 5;
                  Legacy.SocketOpen 0] = true) by reflexivity.
  split; [reflexivity|]. split; [reflexivity|]. split; [exact H1|]. split; [exact H2|].
  exact (legacy_failed_connection_waits_for_the_user P0 encURI acceptAll
           LegacySamples.plainText (websocketUrl P0) eq_refl eq_refl 0 (str "g0") 0
           (Legacy.SocketError 0) _ H1 H2).
Defined.

(** X27 at concrete inputs: a frame with a text content, and a
    frame whose content is an object that the sanitizer refuses, arrive on
    the first socket, which has opened and is closing. *)
Lemma legacy_frame_is_shown_or_ignored_witness :
  let w := Legacy.run P0 encURI acceptAll LegacySamples.plainText
             (Legacy.mount P0 encURI acceptAll (str "g0") 0) [Legacy.SocketOpen 0] in
  let s := {| url := websocketUrl P0; readyState := CLOSING;
              handlers := snapshot (initialState (str "g0") 0); sentFrames := [] |} in
  let data := json_text "{'content':'hello'}" in
  let w' := Legacy.step P0 encURI acceptAll LegacySamples.plainText w
              (Legacy.SocketMessage 0 data (str "a1") 7) in
  let data2 := json_text "{'content':{'toString':1}}" in
  let w2 := Legacy.step P0 encURI acceptAll LegacySamples.plainText w
              (Legacy.SocketMessage 0 data2 (str "a2") 8) in
  nth_error (sockets w) 0 = Some s /\
  (readyState s = OPEN \/ readyState s = CLOSING) /\
  crashed w = false /\
  decode P0 data = Ok (JObject [(str "content", JString (str "hello"))]) /\
  w' = with_st (with_messages (fun prev => prev ++
         [{| id := str "a1"; content := Some (JString (str "hello"));
             role := ai; timestamp := 7; status := sent;
             retryCount := None |}])) w /\
  decode P0 data2 =
    Ok (JObject [(str "content", JObject [(str "toString", JNumber (str "1"))])]) /\
  w2 = exec Legacy.unmount (with_crashed true w) /\
  crashed w2 = true /\ messages (st w2) = messages (st w).
Proof.
  cbv zeta.
  set (s := {| url := websocketUrl P0; readyState := CLOSING;
               handlers := snapshot (initialState (str "g0") 0); sentFrames := [] |}).
  assert (H1 : nth_error (sockets (Legacy.run P0 encURI acceptAll LegacySamples.plainText
                 (Legacy.mount P0 encURI acceptAll (str "g0") 0) [Legacy.SocketOpen 0])) 0
               = Some s) by reflexivity.
  assert (H2 : readyState s = OPEN \/ readyState s = CLOSING) by (right; reflexivity).
  assert (H3 : decode P0 (json_text "{'content':'hello'}") =
               Ok (JObject [(str "content", JString (str "hello"))]))
    by (vm_compute; reflexivity).
  assert (H4 : decode P0 (json_text "{'content':{'toString':1}}") =
               Ok (JObject [(str "content",
                             JObject [(str "toString", JNumber (str "1"))])]))
    by (vm_compute; reflexivity).
  split; [exact H1|]. split; [exact H2|]. split; [reflexivity|]. split; [exact H3|].
  pose proof (legacy_frame_is_shown_or_ignored P0 encURI acceptAll
                LegacySamples.plainText (str "g0") 0 [Legacy.SocketOpen 0] 0 s
                (json_text "{'content':'hello'}") (str "a1") 7 H1 H2) as K.
  cbv zeta in K. rewrite H3 in K.
  split; [exact K|]. split; [exact H4|].
  pose proof (legacy_frame_is_shown_or_ignored P0 encURI acceptAll
                LegacySamples.plainText (str "g0") 0 [Legacy.SocketOpen 0] 0 s
                (json_text "{'content':{'toString':1}}") (str "a2") 8 H1 H2) as K2.
  cbv zeta in K2. rewrite H4 in K2.
  split; [exact K2|]. split; [vm_compute; reflexivity | vm_compute; reflexivity].
Defined.

(** X17 at a concrete input: the message [hi] is sent over the
    first connection and answered. *)
Lemma sent_mark_means_answered_witness :
  let es := [SocketOpen 0; UserInput (str "hi"); UserSend (str "u1") 5;
             SocketMessage 0 answer] in
  let w := run P0 rnd0 encURI acceptAll (mount P0 encURI acceptAll (str "g0") 0) es in
  let m := {| id := str "u1"; content := Some (JString (str "bye")); role := user;
              timestamp := 5; status := sent; retryCount := None |} in
  nth_error (messages (st w)) 1 = Some m /\
  status m = sent /\
  exists e, In e es /\ names P0 e (id m).
Proof.
  cbv zeta.
  assert (H1 : nth_error (messages (st (run P0 rnd0 encURI acceptAll
                 (mount P0 encURI acceptAll (str "g0") 0)
                 [SocketOpen 0; UserInput (str "hi"); UserSend (str "u1") 5;
                  SocketMessage 0 answer]))) 1 =
               Some {| id := str "u1"; content := Some (JString (str "bye"));
                       role := user; timestamp := 5; status := sent;
                       retryCount := None |}) by (vm_compute; reflexivity).
  split; [exact H1|]. split; [reflexivity|].
  exact (sent_mark_means_answered P0 rnd0 encURI acceptAll (str "g0") 0 _ 0 _ H1 eq_refl).
Defined.
